(** * ai.browser render engine: compositing back end

    A shallow embedding of the compositing pipeline of the render engine
    (Layer / LayerTreeCalculator, PaintRecord / PaintRecordGenerator,
    TilingManager, Rasterizer, GPUSimulator, Compositor) together with the
    properties its specification states about it.

    Conventions of the embedding.
    - Geometry, z-indices and sizes are JavaScript numbers that hold
      integers; they are modelled by [Z].  The arithmetic of the code is that
      of binary64, which agrees with [Z] as long as the integers stay within
      [2 ^ 53] in magnitude; properties that rest on sums and differences of
      edges are stated for such values.  Opacities are fractional and are
      modelled by [JS.number] (a rational, NaN or an infinity); [parseInt]
      and [parseFloat] round what they read to binary64.
    - A canvas context is the log of the calls it receives, which are taken
      to return normally; [Canvas.reaches] tells which points a [fillRect]
      or [clearRect] of the log reaches.
    - An [async] function runs up to its first [await]; what it leaves to
      later turns of the event loop is kept as a list of jobs.
    - Strings are sequences of code units below 256 ([string]).
    - JavaScript objects that are mutated while shared (paint records, their
      bounds objects, tiles, draw quads) live in explicit stores indexed by
      locations; a location plays the role of the object reference.
    - [throw] is modelled by an explicit exceptional outcome. *)

From Stdlib Require Import ZArith QArith Strings.String Strings.Ascii List Lia Bool.
From stdpp Require Import gmap strings list pretty.

Set Warnings "-register-all".

Close Scope Q_scope.
Open Scope string_scope.
Open Scope list_scope.
Open Scope Z_scope.

(** ** JavaScript values used by the engine *)

Module JS.

(** A JavaScript number as far as opacities need it. *)
Inductive number :=
| NaN
| Fin (q : Q)
| Inf (negative : bool).

(** ToBoolean on numbers: [0] and [NaN] are falsy. *)
Definition truthy (n : number) : bool :=
  match n with
  | NaN => false
  | Fin q => negb (Qeq_bool q 0)
  | Inf _ => true
  end.

(** [a || b] where [a] may be [undefined]. *)
Definition or_number (a : option number) (b : number) : number :=
  match a with
  | Some n => if truthy n then n else b
  | None => b
  end.

Definition or_Z (a : option Z) (b : Z) : Z :=
  match a with
  | Some n => if n =? 0 then b else n
  | None => b
  end.

(** ToBoolean on an optional string: [undefined] and [""] are falsy. *)
Definition truthy_str (s : option string) : bool :=
  match s with
  | Some s => negb (String.eqb s "")
  | None => false
  end.

Definition or_string (a : option string) (b : string) : string :=
  if truthy_str a then default b a else b.

(** [a === b] for an optional string against a literal. *)
Definition is_str (a : option string) (b : string) : bool :=
  match a with
  | Some s => String.eqb s b
  | None => false
  end.

(** [n < m], [n > m], [n <= m] with a number on the left and a rational
    literal on the right; every comparison with NaN is false. *)
Definition lt_q (n : number) (m : Q) : bool :=
  match n with
  | NaN => false
  | Fin q => Qle_bool q m && negb (Qeq_bool q m)
  | Inf neg => neg
  end.

Definition gt_q (n : number) (m : Q) : bool :=
  match n with
  | NaN => false
  | Fin q => Qle_bool m q && negb (Qeq_bool q m)
  | Inf neg => negb neg
  end.

Definition le_q (n : number) (m : Q) : bool :=
  match n with
  | NaN => false
  | Fin q => Qle_bool q m
  | Inf neg => neg
  end.

(** [n === 1.0] *)
Definition is_one (n : number) : bool :=
  match n with
  | Fin q => Qeq_bool q 1
  | _ => false
  end.

(** *** Characters *)

Definition code (c : ascii) : Z := Z.of_N (N_of_ascii c).

(** White space and line terminators among the code units below 256
    (the set that [trim], [parseInt], [parseFloat] and the regular
    expression class [\s] share). *)
Definition is_ws (c : ascii) : bool :=
  let n := code c in ((9 <=? n) && (n <=? 13)) || (n =? 32) || (n =? 160).

Definition is_digit (c : ascii) : bool :=
  let n := code c in (48 <=? n) && (n <=? 57).

Definition digit_val (c : ascii) : Z := code c - 48.

Definition hex_val (c : ascii) : option Z :=
  let n := code c in
  if (48 <=? n) && (n <=? 57) then Some (n - 48)
  else if (97 <=? n) && (n <=? 102) then Some (n - 87)
  else if (65 <=? n) && (n <=? 70) then Some (n - 55)
  else None.

Definition lower (c : ascii) : ascii :=
  let n := code c in
  if (65 <=? n) && (n <=? 90) then ascii_of_N (Z.to_N (n + 32)) else c.

(** *** Strings *)

Definition chars (s : string) : list ascii := list_ascii_of_string s.

Definition toLowerCase (s : string) : string :=
  string_of_list_ascii (map lower (chars s)).

Fixpoint drop_ws (l : list ascii) : list ascii :=
  match l with
  | c :: l' => if is_ws c then drop_ws l' else l
  | [] => []
  end.

(** [s.trim()] is truthy, i.e. [s] has a character that is not white
    space. *)
Definition trim_truthy (s : string) : bool :=
  existsb (fun c => negb (is_ws c)) (chars s).

Fixpoint starts_with (p l : list ascii) : bool :=
  match p, l with
  | [], _ => true
  | a :: p', b :: l' => Ascii.eqb a b && starts_with p' l'
  | _ :: _, [] => false
  end.

Fixpoint includes_chars (p l : list ascii) : bool :=
  starts_with p l ||
  match l with
  | [] => false
  | _ :: l' => includes_chars p l'
  end.

(** [s.includes(p)] *)
Definition includes (s p : string) : bool := includes_chars (chars p) (chars s).

(** The longest prefix of characters satisfying [f], and the rest. *)
Fixpoint span (f : ascii -> bool) (l : list ascii) : list ascii * list ascii :=
  match l with
  | c :: l' =>
      if f c then let '(a, b) := span f l' in (c :: a, b) else ([], l)
  | [] => ([], [])
  end.

Definition decimal_value (ds : list ascii) : Z :=
  fold_left (fun acc c => acc * 10 + digit_val c) ds 0.

Definition strip_sign (l : list ascii) : bool * list ascii :=
  match l with
  | "-"%char :: l' => (true, l')
  | "+"%char :: l' => (false, l')
  | _ => (false, l)
  end.

Definition apply_sign (neg : bool) (z : Z) : Z := if neg then - z else z.

Fixpoint hex_prefix_value (l : list ascii) (acc : option Z) : option Z :=
  match l with
  | c :: l' =>
      match hex_val c with
      | Some v => hex_prefix_value l' (Some (default 0 acc * 16 + v))
      | None => acc
      end
  | [] => acc
  end.

(** *** Rounding to binary64

    A Number is a binary64 value: a literal is read exactly and then
    rounded to the nearest value with 53 significant bits, ties to the even
    one. *)

(** [num / den] rounded to the nearest integer, ties to even, for
    [0 <= num] and [0 < den]. *)
Definition round_half_even (num den : Z) : Z :=
  let q := num / den in
  let r := num mod den in
  if (den <? 2 * r) || ((2 * r =? den) && Z.odd q) then q + 1 else q.

(** The integer [n] as a Number.  Up to [2 ^ 53] in magnitude every
    integer is a Number; above, the last [e] bits are rounded away.  (From
    [2 ^ 1024] on the Number is an infinity, which [Z] does not hold.) *)
Definition round_int (n : Z) : Z :=
  let a := Z.abs n in
  let e := Z.log2 a - 52 in
  if e <=? 0 then n
  else Z.sgn n * (round_half_even a (2 ^ e) * 2 ^ e).

(** The rational [q] as a Number: the exponent [e] is the one that
    leaves 53 significant bits, and not less than that of the subnormal
    numbers; the result is an infinity from [2 ^ 1024] on. *)
Definition binary64 (q : Q) : number :=
  let n := Qnum q in
  let d := Z.pos (Qden q) in
  if n =? 0 then Fin 0
  else
    let a := Z.abs n in
    let e0 := Z.log2 a - Z.log2 d - 52 in
    let below :=
      if 0 <=? e0 then a <? 2 ^ 52 * (d * 2 ^ e0)
      else a * 2 ^ (- e0) <? 2 ^ 52 * d in
    let e := Z.max (if below then e0 - 1 else e0) (-1074) in
    let m :=
      if 0 <=? e then round_half_even a (d * 2 ^ e)
      else round_half_even (a * 2 ^ (- e)) d in
    if 0 <=? e then
      if 2 ^ 1024 <=? m * 2 ^ e then Inf (n <? 0)
      else Fin (inject_Z (Z.sgn n * (m * 2 ^ e)))
    else Fin (Qred (Qmake (Z.sgn n * m) (Z.to_pos (2 ^ (- e))))).

(** [parseInt(s)] without a radix argument; [None] is NaN. *)
Definition parseInt_chars (l : list ascii) : option Z :=
  let '(neg, l1) := strip_sign (drop_ws l) in
  match l1 with
  | "0"%char :: x :: l2 =>
      if Ascii.eqb x "x" || Ascii.eqb x "X"
      then (fun v => apply_sign neg (round_int v)) <$> hex_prefix_value l2 None
      else let '(ds, _) := span is_digit l1 in
           Some (apply_sign neg (round_int (decimal_value ds)))
  | _ =>
      let '(ds, _) := span is_digit l1 in
      match ds with
      | [] => None
      | _ => Some (apply_sign neg (round_int (decimal_value ds)))
      end
  end.

(** [parseInt(v)] for a style value [v] that may be [undefined]
    (ToString gives ["undefined"], which has no digits). *)
Definition parseInt (v : option string) : option Z :=
  match v with
  | Some s => parseInt_chars (chars s)
  | None => None
  end.

(** The exponent part [e[+-]digits] when it is complete, else nothing. *)
Definition exponent_part (l : list ascii) : Z :=
  match l with
  | e :: l1 =>
      if Ascii.eqb e "e" || Ascii.eqb e "E" then
        let '(neg, l2) := strip_sign l1 in
        let '(ds, _) := span is_digit l2 in
        match ds with
        | [] => 0
        | _ => apply_sign neg (decimal_value ds)
        end
      else 0
  | [] => 0
  end.

Definition scale10 (m e : Z) : Q :=
  if 0 <=? e then inject_Z (m * 10 ^ e)
  else Qred (Qmake m (Z.to_pos (10 ^ (- e)))).

(** [parseFloat(s)]: the longest prefix that is a decimal literal, read
    exactly and rounded to binary64. *)
Definition parseFloat_chars (l : list ascii) : number :=
  let '(neg, l1) := strip_sign (drop_ws l) in
  if starts_with (chars "Infinity") l1 then Inf neg
  else
    let '(d1, l2) := span is_digit l1 in
    let '(d2, l3) :=
      match l2 with
      | "."%char :: l2' => let '(d, r) := span is_digit l2' in (d, r)
      | _ => ([], l2)
      end in
    match d1, d2 with
    | [], [] => NaN
    | _, _ =>
        let m := apply_sign neg (decimal_value (d1 ++ d2)) in
        let e :=
          match l2, d1, d2 with
          | "."%char :: _, _, _ => exponent_part l3
          | _, _, _ => exponent_part l2
          end in
        binary64 (scale10 m (e - Z.of_nat (length d2)))
    end.

Definition parseFloat (v : option string) : number :=
  match v with
  | Some s => parseFloat_chars (chars s)
  | None => NaN
  end.

End JS.

(** ** Rectangles *)

Module Rect.
Record t := mk { x : Z; y : Z; width : Z; height : Z }.
End Rect.

Example parseFloat_half : JS.parseFloat (Some "0.5") = JS.Fin (1 # 2).
Proof. reflexivity. Qed.

Example parseFloat_zero : JS.parseFloat (Some "0") = JS.Fin 0.
Proof. reflexivity. Qed.

Example parseFloat_exp : JS.parseFloat (Some " -12.5e1px") = JS.Fin (-125 # 1).
Proof. reflexivity. Qed.

Example parseFloat_nan : JS.parseFloat (Some "auto") = JS.NaN.
Proof. reflexivity. Qed.

Example parseInt_px : JS.parseInt (Some "12px") = Some 12.
Proof. reflexivity. Qed.

Example parseInt_hex : JS.parseInt (Some "-0x1f") = Some (-31).
Proof. reflexivity. Qed.

Example parseInt_auto : JS.parseInt (Some "auto") = None.
Proof. reflexivity. Qed.

(** Literals that are not binary64 values are rounded. *)
Example parseFloat_tenth :
  JS.parseFloat (Some "0.1") = JS.Fin (3602879701896397 # 36028797018963968).
Proof. vm_compute. reflexivity. Qed.

Example parseFloat_seventeen_nines : JS.parseFloat (Some "0.99999999999999999") = JS.Fin 1.
Proof. vm_compute. reflexivity. Qed.

Example parseFloat_overflow : JS.parseFloat (Some "-1.7976931348623159e308") = JS.Inf true.
Proof. vm_compute. reflexivity. Qed.

Example parseFloat_underflow : JS.parseFloat (Some "2e-324") = JS.Fin 0.
Proof. vm_compute. reflexivity. Qed.

Example parseInt_above_2_53 : JS.parseInt (Some "9007199254740993") = Some 9007199254740992.
Proof. vm_compute. reflexivity. Qed.

Example parseInt_tie_to_even : JS.parseInt (Some "9007199254740995") = Some 9007199254740996.
Proof. vm_compute. reflexivity. Qed.

(** ** Exceptions *)

Inductive exn :=
| TypeError (message : string)
| RangeError (message : string)
| Error (message : string).

Definition exn_message (e : exn) : string :=
  match e with
  | TypeError m | RangeError m | Error m => m
  end.

Inductive Result (A : Type) :=
| Ok (a : A)
| Throw (e : exn).
Arguments Ok {A} a.
Arguments Throw {A} e.

(** Object references. *)
Abbreviation loc := nat (only parsing).

(** ** The layout tree handed over by the layout stage *)

Module Layout.

Record BoxEdges := { top : Z; right : Z; bottom : Z; left : Z }.

Record BoxModel := { border : BoxEdges; padding : BoxEdges; margin : BoxEdges }.

Record Element := {
  nodeType : Z;
  tagName : option string;
  data : option string
}.

(** A layout node.  [style] is the computed style map (an absent style
    object reads like the empty one, [node.style || {}]); [children] may
    hold [null] entries. *)
Inductive Node := mkNode {
  style : gmap string string;
  layout : Rect.t;
  boxModel : option BoxModel;
  element : option Element;
  children : list (option Node)
}.

(** The layout tree object; its [root] may be [null]. *)
Record Tree := { root : option Node }.

End Layout.

(** ** Layer.js: Layer and LayerTree *)

Module Layer.

Record Matrix := { ma : Z; mb : Z; mc : Z; md : Z; me : Z; mf : Z }.

Definition identity : Matrix := {| ma := 1; mb := 0; mc := 0; md := 1; me := 0; mf := 0 |}.

(** The [options] object of the constructor; [None] is an absent
    property. *)
Record Options := {
  o_id : option string;
  o_zIndex : option Z;
  o_opacity : option JS.number;
  o_compositingMode : option string;
  o_transform : option Matrix;
  o_bounds : option Rect.t;
  o_clipRect : option Rect.t;
  o_masksToBounds : option bool;
  o_isFixed : option bool;
  o_isScrollContainer : option bool;
  o_isComposited : option bool
}.

Definition no_options : Options :=
  {| o_id := None; o_zIndex := None; o_opacity := None; o_compositingMode := None;
     o_transform := None; o_bounds := None; o_clipRect := None;
     o_masksToBounds := None; o_isFixed := None; o_isScrollContainer := None;
     o_isComposited := None |}.

(** A layer with the subtree it owns.  The parent back-reference is the
    position in the tree.  [layoutNode], [compositingReason],
    [absoluteBounds] and [isVisibleInViewport] are the properties that the
    calculator and the compositor attach later. *)
Inductive t := mk {
  id : string;
  zIndex : Z;
  opacity : JS.number;
  compositingMode : string;
  transform : Matrix;
  bounds : Rect.t;
  clipRect : option Rect.t;
  masksToBounds : bool;
  paintRecords : list loc;
  needsRepaint : bool;
  dirtyRegion : option Rect.t;
  isFixed : bool;
  isScrollContainer : bool;
  isComposited : bool;
  backingStore : option loc;
  lastPaintTime : Z;
  layoutNode : option Layout.Node;
  compositingReason : option string;
  absoluteBounds : option Rect.t;
  isVisibleInViewport : option bool;
  children : list t
}.

(** [new Layer(options)]; [generated] is what [generateId()] returns
    when it is called. *)
Definition new (generated : string) (o : Options) : t :=
  {| id := JS.or_string (o_id o) generated;
     zIndex := JS.or_Z (o_zIndex o) 0;
     opacity := JS.or_number (o_opacity o) (JS.Fin 1);
     compositingMode := JS.or_string (o_compositingMode o) "normal";
     transform := default identity (o_transform o);
     bounds := default (Rect.mk 0 0 0 0) (o_bounds o);
     clipRect := o_clipRect o;
     masksToBounds := default false (o_masksToBounds o);
     paintRecords := [];
     needsRepaint := true;
     dirtyRegion := None;
     isFixed := default false (o_isFixed o);
     isScrollContainer := default false (o_isScrollContainer o);
     isComposited := default true (o_isComposited o);
     backingStore := None;
     lastPaintTime := 0;
     layoutNode := None;
     compositingReason := None;
     absoluteBounds := None;
     isVisibleInViewport := None;
     children := [] |}.

Definition set_children (l : t) (cs : list t) : t :=
  mk (id l) (zIndex l) (opacity l) (compositingMode l) (transform l) (bounds l)
     (clipRect l) (masksToBounds l) (paintRecords l) (needsRepaint l)
     (dirtyRegion l) (isFixed l) (isScrollContainer l) (isComposited l)
     (backingStore l) (lastPaintTime l) (layoutNode l) (compositingReason l)
     (absoluteBounds l) (isVisibleInViewport l) cs.

Definition set_bounds (l : t) (b : Rect.t) : t :=
  mk (id l) (zIndex l) (opacity l) (compositingMode l) (transform l) b
     (clipRect l) (masksToBounds l) (paintRecords l) (needsRepaint l)
     (dirtyRegion l) (isFixed l) (isScrollContainer l) (isComposited l)
     (backingStore l) (lastPaintTime l) (layoutNode l) (compositingReason l)
     (absoluteBounds l) (isVisibleInViewport l) (children l).

Definition set_clip (l : t) (c : option Rect.t) (masks scroll : bool) : t :=
  mk (id l) (zIndex l) (opacity l) (compositingMode l) (transform l) (bounds l)
     c masks (paintRecords l) (needsRepaint l)
     (dirtyRegion l) (isFixed l) scroll (isComposited l)
     (backingStore l) (lastPaintTime l) (layoutNode l) (compositingReason l)
     (absoluteBounds l) (isVisibleInViewport l) (children l).

Definition set_layoutNode (l : t) (n : option Layout.Node) : t :=
  mk (id l) (zIndex l) (opacity l) (compositingMode l) (transform l) (bounds l)
     (clipRect l) (masksToBounds l) (paintRecords l) (needsRepaint l)
     (dirtyRegion l) (isFixed l) (isScrollContainer l) (isComposited l)
     (backingStore l) (lastPaintTime l) n (compositingReason l)
     (absoluteBounds l) (isVisibleInViewport l) (children l).

Definition set_compositingReason (l : t) (r : option string) : t :=
  mk (id l) (zIndex l) (opacity l) (compositingMode l) (transform l) (bounds l)
     (clipRect l) (masksToBounds l) (paintRecords l) (needsRepaint l)
     (dirtyRegion l) (isFixed l) (isScrollContainer l) (isComposited l)
     (backingStore l) (lastPaintTime l) (layoutNode l) r
     (absoluteBounds l) (isVisibleInViewport l) (children l).

(** [markDirty(dirtyRegion)] on a layer seen on its own: the
    propagation to the parent happens only for a non-null region. *)
Definition markDirty (l : t) (region : option Rect.t) : t :=
  mk (id l) (zIndex l) (opacity l) (compositingMode l) (transform l) (bounds l)
     (clipRect l) (masksToBounds l) (paintRecords l) true
     region (isFixed l) (isScrollContainer l) (isComposited l)
     (backingStore l) (lastPaintTime l) (layoutNode l) (compositingReason l)
     (absoluteBounds l) (isVisibleInViewport l) (children l).

(** [setTransform(transform)] *)
Definition setTransform (l : t) (m : Matrix) : t :=
  markDirty
    (mk (id l) (zIndex l) (opacity l) (compositingMode l) m (bounds l)
        (clipRect l) (masksToBounds l) (paintRecords l) (needsRepaint l)
        (dirtyRegion l) (isFixed l) (isScrollContainer l) (isComposited l)
        (backingStore l) (lastPaintTime l) (layoutNode l) (compositingReason l)
        (absoluteBounds l) (isVisibleInViewport l) (children l))
    None.

(** [children.sort((a, b) => a.zIndex - b.zIndex)]: Array.prototype.sort
    is stable, so the result is the stable sort by [zIndex]. *)
Fixpoint insert_by_zIndex (c : t) (cs : list t) : list t :=
  match cs with
  | [] => [c]
  | d :: cs' => if zIndex c <? zIndex d then c :: cs else d :: insert_by_zIndex c cs'
  end.

Definition sort_by_zIndex (cs : list t) : list t :=
  fold_left (fun acc c => insert_by_zIndex c acc) cs [].

(** [addChild(child)] for a child that has no parent yet. *)
Definition addChild (l child : t) : t :=
  set_children l (sort_by_zIndex (children l ++ [child])).

(** [clearPaintRecords()] *)
Definition clearPaintRecords (l : t) : t :=
  markDirty
    (mk (id l) (zIndex l) (opacity l) (compositingMode l) (transform l) (bounds l)
        (clipRect l) (masksToBounds l) [] (needsRepaint l)
        (dirtyRegion l) (isFixed l) (isScrollContainer l) (isComposited l)
        (backingStore l) (lastPaintTime l) (layoutNode l) (compositingReason l)
        (absoluteBounds l) (isVisibleInViewport l) (children l))
    None.

(** [dispose()]: the layer drops its records, its backing store and its
    children (which are disposed in turn). *)
Definition dispose (l : t) : t :=
  let l1 := clearPaintRecords l in
  mk (id l1) (zIndex l1) (opacity l1) (compositingMode l1) (transform l1) (bounds l1)
     (clipRect l1) (masksToBounds l1) (paintRecords l1) (needsRepaint l1)
     (dirtyRegion l1) (isFixed l1) (isScrollContainer l1) (isComposited l1)
     None (lastPaintTime l1) (layoutNode l1) (compositingReason l1)
     (absoluteBounds l1) (isVisibleInViewport l1) [].

(** [getAbsoluteBounds()]; [ancestors] is the chain of parents of the
    layer, from its parent up to the root. *)
Fixpoint getAbsoluteBounds (ancestors : list t) (l : t) : Rect.t :=
  match ancestors with
  | [] => bounds l
  | parent :: ancestors' =>
      let parentBounds := getAbsoluteBounds ancestors' parent in
      let m := transform l in
      let b := bounds l in
      Rect.mk
        (Rect.x b * ma m + Rect.y b * mc m + me m + Rect.x parentBounds)
        (Rect.x b * mb m + Rect.y b * md m + mf m + Rect.y parentBounds)
        (Rect.width b) (Rect.height b)
  end.

End Layer.

Module LayerTree.

(** [allLayers] is kept as the list of registered ids in insertion
    order; the layer objects themselves are the ones in the tree. *)
Record t := mk {
  root : Layer.t;
  allLayers : list string;
  nextLayerId : Z
}.

(** [new LayerTree()] *)
Definition new : t :=
  let r := Layer.new "" (Layer.Build_Options (Some "root") (Some 0) None None None None
                           None None None None None) in
  {| root := r; allLayers := [Layer.id r]; nextLayerId := 1 |}.

Definition register (ids : list string) (i : string) : list string :=
  if bool_decide (i ∈ ids) then ids else ids ++ [i].

(** [createLayer(options)]: [new Layer({ id: options.id || `layer_${n}`,
    ...options })]. *)
Definition createLayer (generated : string) (o : Layer.Options) (tr : t) : Layer.t * t :=
  let fresh := negb (JS.truthy_str (Layer.o_id o)) in
  let next := if fresh then nextLayerId tr + 1 else nextLayerId tr in
  let o' :=
    match Layer.o_id o with
    | Some _ => o
    | None =>
        Layer.Build_Options (Some ("layer_" +:+ pretty (nextLayerId tr)))
          (Layer.o_zIndex o) (Layer.o_opacity o) (Layer.o_compositingMode o)
          (Layer.o_transform o) (Layer.o_bounds o) (Layer.o_clipRect o)
          (Layer.o_masksToBounds o) (Layer.o_isFixed o)
          (Layer.o_isScrollContainer o) (Layer.o_isComposited o)
    end in
  let layer := Layer.new generated o' in
  (layer, {| root := root tr; allLayers := register (allLayers tr) (Layer.id layer);
             nextLayerId := next |}).

End LayerTree.

(** ** LayerTreeCalculator.js *)

Module LayerTreeCalculator.

Record Stats := {
  totalNodes : Z;
  layersCreated : Z;
  compositingReasons : gmap string Z;
  totalCompositingReasons : Z;
  calculationTime : Z
}.

(** The calculator object together with the layer tree under
    construction ([allLayers] and [nextLayerId] are the mutable part of
    the tree that [createLayer] touches). *)
Record t := mk {
  enableCompositingOptimization : bool;
  maxLayerCount : Z;
  stats : Stats;
  ids : list string;
  nextLayerId : Z
}.

Definition with_stats (c : t) (s : Stats) : t :=
  mk (enableCompositingOptimization c) (maxLayerCount c) s (ids c) (nextLayerId c).

(** [resetStats()] *)
Definition resetStats (c : t) : t :=
  with_stats c {| totalNodes := 0; layersCreated := 0; compositingReasons := ∅;
                  totalCompositingReasons := 0; calculationTime := 0 |}.

(** [recordCompositingReason(reason)] *)
Definition recordCompositingReason (reason : string) (c : t) : t :=
  let s := stats c in
  with_stats c
    {| totalNodes := totalNodes s;
       layersCreated := layersCreated s;
       compositingReasons :=
         <[reason := default 0 (compositingReasons s !! reason) + 1]> (compositingReasons s);
       totalCompositingReasons := totalCompositingReasons s + 1;
       calculationTime := calculationTime s |}.

Definition hasPositioning (style : gmap string string) : bool :=
  JS.is_str (style !! "position") "absolute" ||
  JS.is_str (style !! "position") "relative" ||
  JS.is_str (style !! "position") "fixed" ||
  JS.is_str (style !! "position") "sticky".

Definition hasPositiveZIndex (style : gmap string string) : bool :=
  match JS.parseInt (style !! "z-index") with
  | Some z => 0 <? z
  | None => false
  end.

Definition hasComplexBoxShadow (style : gmap string string) : bool :=
  match style !! "box-shadow" with
  | Some s =>
      if String.eqb s "" || String.eqb s "none" then false
      else JS.includes s "px 0px" || JS.includes s ","
  | None => false
  end.

Definition isCompositingElement (node : Layout.Node) : bool :=
  match Layout.element node with
  | Some el =>
      match Layout.tagName el with
      | Some tag =>
          if String.eqb tag "" then false
          else
            let tagName := JS.toLowerCase tag in
            String.eqb tagName "video" || String.eqb tagName "canvas" ||
            String.eqb tagName "iframe" || String.eqb tagName "embed" ||
            String.eqb tagName "object"
      | None => false
      end
  | None => false
  end.

Definition hasActiveAnimation (style : gmap string string) : bool :=
  JS.truthy_str (style !! "animation") && negb (JS.is_str (style !! "animation") "none").

(** [v && v !== 'none'] *)
Definition set_and_not_none (v : option string) : bool :=
  JS.truthy_str v && negb (JS.is_str v "none").

(** The compositing triggers of [shouldCreateNewLayer], in source order,
    as the reason each one reports. *)
Definition compositing_reason (node : Layout.Node) : option string :=
  let style := Layout.style node in
  if set_and_not_none (style !! "transform") then Some "transform"
  else if match style !! "opacity" with
          | Some o => JS.lt_q (JS.parseFloat (Some o)) 1
          | None => false
          end then Some "opacity"
  else if JS.is_str (style !! "position") "fixed" then Some "fixed-position"
  else if hasPositioning style && hasPositiveZIndex style then Some "z-index"
  else if match style !! "will-change" with
          | Some w =>
              negb (String.eqb w "") &&
              (JS.includes w "transform" || JS.includes w "opacity" ||
               JS.includes w "scroll-position")
          | None => false
          end then Some "will-change"
  else if set_and_not_none (style !! "filter") then Some "filter"
  else if set_and_not_none (style !! "backdrop-filter") then Some "backdrop-filter"
  else if JS.truthy_str (style !! "mix-blend-mode") &&
          negb (JS.is_str (style !! "mix-blend-mode") "normal") then Some "mix-blend-mode"
  else if JS.is_str (style !! "isolation") "isolate" then Some "isolation"
  else if set_and_not_none (style !! "clip-path") then Some "clip-path"
  else if set_and_not_none (style !! "mask") then Some "mask"
  else if hasComplexBoxShadow style then Some "box-shadow"
  else if JS.is_str (style !! "overflow") "scroll" ||
          JS.is_str (style !! "overflow") "auto" then Some "scroll-container"
  else if JS.truthy_str (style !! "-webkit-box-reflect") then Some "reflection"
  else if isCompositingElement node then Some "compositing-element"
  else if hasActiveAnimation style then Some "animation"
  else None.

(** [shouldCreateNewLayer(node)]: the reason, recorded in the
    statistics when there is one. *)
Definition shouldCreateNewLayer (node : Layout.Node) (c : t) : option string * t :=
  match compositing_reason node with
  | Some r => (Some r, recordCompositingReason r c)
  | None => (None, c)
  end.

(** [parseTransform(transform)] *)
Definition parseTransform (transform : string) : Layer.Matrix := Layer.identity.

(** [createLayerForNode(node, parentLayer, layerTree, reason)] up to the
    point where the layer is handed to [parentLayer.addChild]; the
    attachment is done by [calculateForNode] below.  [generated] is the
    value of [Layer.generateId()] should the constructor need it. *)
Definition createLayerForNode (generated : string) (node : Layout.Node)
    (reason : string) (c : t) : Layer.t * t :=
  let style := Layout.style node in
  let layout := Layout.layout node in
  let o :=
    Layer.Build_Options None
      (Some (JS.or_Z (JS.parseInt (style !! "z-index")) 0))
      (Some (JS.or_number (Some (JS.parseFloat (style !! "opacity"))) (JS.Fin 1)))
      None None (Some layout) None None
      (Some (JS.is_str (style !! "position") "fixed"))
      None (Some true) in
  let '(layer, tr) :=
    LayerTree.createLayer generated o
      (LayerTree.mk (Layer.new "" Layer.no_options) (ids c) (nextLayerId c)) in
  let layer1 :=
    match style !! "transform" with
    | Some tf =>
        if set_and_not_none (Some tf) then Layer.setTransform layer (parseTransform tf)
        else layer
    | None => layer
    end in
  let layer2 :=
    if JS.is_str (style !! "overflow") "hidden" || JS.is_str (style !! "overflow") "scroll" ||
       JS.is_str (style !! "overflow") "auto"
    then Layer.set_clip layer1
           (Some (Rect.mk 0 0 (Rect.width layout) (Rect.height layout))) true
           (JS.is_str (style !! "overflow") "scroll" || JS.is_str (style !! "overflow") "auto")
    else layer1 in
  let layer3 := Layer.set_layoutNode layer2 (Some node) in
  let s := stats c in
  (layer3,
   mk (enableCompositingOptimization c) (maxLayerCount c)
      {| totalNodes := totalNodes s;
         layersCreated := layersCreated s + 1;
         compositingReasons := compositingReasons s;
         totalCompositingReasons := totalCompositingReasons s;
         calculationTime := calculationTime s |}
      (LayerTree.allLayers tr) (LayerTree.nextLayerId tr)).

Definition count_node (c : t) : t :=
  let s := stats c in
  with_stats c
    {| totalNodes := totalNodes s + 1;
       layersCreated := layersCreated s;
       compositingReasons := compositingReasons s;
       totalCompositingReasons := totalCompositingReasons s;
       calculationTime := calculationTime s |}.

(** [calculateForNode(node, parentLayer, layerTree)], returning the
    parent layer as the call leaves it.  The source attaches a new layer
    to its parent before it descends into the node's children and then
    fills the attached layer in place; here the layer is filled first and
    attached afterwards, which gives the same tree because the position
    among the siblings depends on [zIndex] alone. *)
Fixpoint calculateForNode (generated : string) (node : Layout.Node)
    (parentLayer : Layer.t) (c : t) {struct node} : Layer.t * t :=
  let c1 := count_node c in
  let '(compositingReason, c2) := shouldCreateNewLayer node c1 in
  let descend :=
    fix descend (cs : list (option Layout.Node)) (target : Layer.t) (c : t)
        {struct cs} : Layer.t * t :=
      match cs with
      | [] => (target, c)
      | None :: cs' => descend cs' target c
      | Some child :: cs' =>
          let '(target', c') := calculateForNode generated child target c in
          descend cs' target' c'
      end in
  match compositingReason with
  | Some reason =>
      let '(layer, c3) := createLayerForNode generated node reason c2 in
      let '(layer', c4) := descend (Layout.children node) layer c3 in
      (Layer.addChild parentLayer layer', c4)
  | None => descend (Layout.children node) parentLayer c2
  end.

Definition is_identity (m : Layer.Matrix) : bool :=
  (Layer.ma m =? 1) && (Layer.mb m =? 0) && (Layer.mc m =? 0) &&
  (Layer.md m =? 1) && (Layer.me m =? 0) && (Layer.mf m =? 0).

Definition show_reason (r : option string) : string := default "undefined" r.

(** [mergeLayers(parent, child)]: the parent takes over the child's
    bounds and layout node and adopts the grandchildren; [child.dispose()]
    then disposes the child's former children, which are the adopted
    layers. *)
Definition mergeLayers (parent child : Layer.t) : Layer.t :=
  let p1 := Layer.set_bounds parent (Layer.bounds child) in
  let p2 := Layer.set_layoutNode p1 (Layer.layoutNode child) in
  let p3 := Layer.set_compositingReason p2
              (Some (show_reason (Layer.compositingReason parent) +:+ ", " +:+
                     show_reason (Layer.compositingReason child))) in
  Layer.set_children p3 (map Layer.dispose (Layer.children child)).

(** The layers that [removeUnnecessaryLayers] merges with their only
    child. *)
Definition mergeable (layer : Layer.t) : option Layer.t :=
  match Layer.children layer with
  | [child] =>
      if JS.is_one (Layer.opacity layer) && is_identity (Layer.transform layer) &&
         negb (bool_decide (is_Some (Layer.clipRect child))) &&
         negb (bool_decide (is_Some (Layer.clipRect layer)))
      then Some child else None
  | _ => None
  end.

(** [removeUnnecessaryLayers]: the traversal of the subtree of one
    layer.  After a merge the layer's children are disposed layers without
    children, on which the callback does nothing. *)
Fixpoint removeUnnecessaryLayers (layer : Layer.t) : Layer.t :=
  match mergeable layer with
  | Some child => mergeLayers layer child
  | None => Layer.set_children layer (map removeUnnecessaryLayers (Layer.children layer))
  end.

(** [mergeCompatibleLayers] is empty in the source. *)
Definition mergeCompatibleLayers (layer : Layer.t) : Layer.t := layer.

(** [reorderLayers]: every layer's children sorted by [zIndex]. *)
Fixpoint reorderLayers (layer : Layer.t) : Layer.t :=
  Layer.set_children layer
    (Layer.sort_by_zIndex (map reorderLayers (Layer.children layer))).

(** [optimizeLayerTree(layerTree)] *)
Definition optimizeLayerTree (root : Layer.t) : Layer.t :=
  reorderLayers (mergeCompatibleLayers (removeUnnecessaryLayers root)).

(** [calculate(layoutTree, options)].  [layoutTree] is [None] for
    [null]; [now0] and [now1] are the two readings of
    [performance.now()]. *)
Definition calculate (generated : string) (now0 now1 : Z)
    (layoutTree : option Layout.Tree) (c : t) : Result (LayerTree.t * t) :=
  let c0 := resetStats c in
  let layerTree := LayerTree.new in
  let c1 := mk (enableCompositingOptimization c0) (maxLayerCount c0) (stats c0)
               (LayerTree.allLayers layerTree) (LayerTree.nextLayerId layerTree) in
  match layoutTree with
  | None => Throw (TypeError "Cannot read properties of null (reading 'root')")
  | Some tree =>
      let rootLayer :=
        match Layout.root tree with
        | Some r => Layer.set_bounds (LayerTree.root layerTree) (Layout.layout r)
        | None => LayerTree.root layerTree
        end in
      let '(rootLayer1, c2) :=
        match Layout.root tree with
        | Some r => calculateForNode generated r rootLayer c1
        | None => (rootLayer, c1)
        end in
      let rootLayer2 :=
        if enableCompositingOptimization c2 then optimizeLayerTree rootLayer1
        else rootLayer1 in
      let s := stats c2 in
      let c3 :=
        with_stats c2
          {| totalNodes := totalNodes s;
             layersCreated := layersCreated s;
             compositingReasons := compositingReasons s;
             totalCompositingReasons := totalCompositingReasons s;
             calculationTime := now1 - now0 |} in
      Ok (LayerTree.mk rootLayer2 (ids c3) (nextLayerId c3), c3)
  end.

(** [new LayerTreeCalculator(options)] with the default options. *)
Definition default_calculator : t :=
  resetStats (mk true 1000 (Build_Stats 0 0 ∅ 0 0) [] 1).

End LayerTreeCalculator.

(** ** The 2D drawing surface

    The canvas context is external to the engine; it is modelled by the
    sequence of calls and property writes it receives, oldest first. *)

Module Canvas.

Inductive Op :=
| save
| restore
| beginPath
| closePath
| rect (x y w h : Z)
| clip
| clearRect (x y w h : Z)
| mulGlobalAlpha (o : JS.number)
| setTransform (m : Layer.Matrix)
| transform (m : Layer.Matrix)
| translate (x y : Z)
| setFillStyle (s : string)
| setStrokeStyle (s : option string)
| setLineWidth (w : Z)
| fillRect (x y w h : Z)
| strokeRect (x y w h : Z)
| setFont (s : string)
| setTextAlign (s : string)
| setTextBaseline (s : string)
| fillText (text : string) (x y : Z) (maxWidth : option Z)
| drawImage (image : loc) (args : list Z)
| moveTo (x y : Z)
| lineTo (x y : Z)
| arc (x y radius startAngle endAngle : Z)
| quadraticCurveTo (cpx cpy x y : Z)
| bezierCurveTo (cp1x cp1y cp2x cp2y x y : Z)
| fill
| stroke
| setShadowColor (s : string)
| setShadowBlur (b : Z)
| setShadowOffsetX (o : Z)
| setShadowOffsetY (o : Z)
| setGlobalCompositeOperation (s : string)
| setImageSmoothingEnabled (b : bool)
| setImageSmoothingQuality (s : string).

Definition t := list Op.

(** *** What the surface shows *)

(** The state of a 2D context that decides which points [fillRect] and
    [clearRect] reach: the current transform and the clipping region.  The
    region is the intersection of the paths that [clip] was called with; a
    path is kept as the rectangles that [rect] put on it, each with the
    transform then in force. *)
Record Graphics := mkGraphics {
  ctm : Layer.Matrix;
  clips : list (list (Layer.Matrix * Rect.t))
}.

(** The context with its stack of saved states and its current path;
    the path is [None] once it has segments other than rectangles. *)
Record Pen := mkPen {
  current : Graphics;
  saved : list Graphics;
  path : option (list (Layer.Matrix * Rect.t))
}.

Definition fresh_pen : Pen := mkPen (mkGraphics Layer.identity []) [] (Some []).

(** The product [m * n] of two transforms: [n] is applied first. *)
Definition multiply (m n : Layer.Matrix) : Layer.Matrix :=
  {| Layer.ma := Layer.ma m * Layer.ma n + Layer.mc m * Layer.mb n;
     Layer.mb := Layer.mb m * Layer.ma n + Layer.md m * Layer.mb n;
     Layer.mc := Layer.ma m * Layer.mc n + Layer.mc m * Layer.md n;
     Layer.md := Layer.mb m * Layer.mc n + Layer.md m * Layer.md n;
     Layer.me := Layer.ma m * Layer.me n + Layer.mc m * Layer.mf n + Layer.me m;
     Layer.mf := Layer.mb m * Layer.me n + Layer.md m * Layer.mf n + Layer.mf m |}.

Definition with_ctm (m : Layer.Matrix) (pen : Pen) : Pen :=
  mkPen (mkGraphics m (clips (current pen))) (saved pen) (path pen).

(** The effect of one call on the state; [None] when [clip] is called
    with a path that is not made of rectangles. *)
Definition step (pen : Pen) (op : Op) : option Pen :=
  match op with
  | save => Some (mkPen (current pen) (current pen :: saved pen) (path pen))
  | restore =>
      match saved pen with
      | [] => Some pen
      | g :: rest => Some (mkPen g rest (path pen))
      end
  | beginPath => Some (mkPen (current pen) (saved pen) (Some []))
  | rect x y w h =>
      Some (mkPen (current pen) (saved pen)
              ((fun shapes => shapes ++ [(ctm (current pen), Rect.mk x y w h)]) <$> path pen))
  | moveTo _ _ | lineTo _ _ | arc _ _ _ _ _
  | quadraticCurveTo _ _ _ _ | bezierCurveTo _ _ _ _ _ _ =>
      Some (mkPen (current pen) (saved pen) None)
  | clip =>
      (fun shapes =>
         mkPen (mkGraphics (ctm (current pen)) (shapes :: clips (current pen)))
           (saved pen) (path pen)) <$> path pen
  | setTransform m => Some (with_ctm m pen)
  | transform m => Some (with_ctm (multiply (ctm (current pen)) m) pen)
  | translate x y =>
      Some (with_ctm (multiply (ctm (current pen))
                        {| Layer.ma := 1; Layer.mb := 0; Layer.mc := 0; Layer.md := 1;
                           Layer.me := x; Layer.mf := y |}) pen)
  | _ => Some pen
  end.

Fixpoint pen_after (pen : Pen) (ops : t) : option Pen :=
  match ops with
  | [] => Some pen
  | op :: ops' => step pen op ≫= fun pen' => pen_after pen' ops'
  end.

Definition between (a b : Z) (v : Q) : bool :=
  Qle_bool (inject_Z (Z.min a b)) v && Qle_bool v (inject_Z (Z.max a b)).

(** The point [(px, py)] of the canvas lies in the image of the
    rectangle under the transform.  A rectangle without area and a
    transform that cannot be inverted reach nothing. *)
Definition covers (m : Layer.Matrix) (r : Rect.t) (p : Z * Z) : bool :=
  let det := Layer.ma m * Layer.md m - Layer.mb m * Layer.mc m in
  let dx := p.1 - Layer.me m in
  let dy := p.2 - Layer.mf m in
  negb (det =? 0) && negb (Rect.width r =? 0) && negb (Rect.height r =? 0) &&
  between (Rect.x r) (Rect.x r + Rect.width r)
    (inject_Z (Layer.md m * dx - Layer.mc m * dy) / inject_Z det)%Q &&
  between (Rect.y r) (Rect.y r + Rect.height r)
    (inject_Z (Layer.ma m * dy - Layer.mb m * dx) / inject_Z det)%Q.

(** The point is reached by [fillRect] or [clearRect] of the rectangle
    in the state of the pen. *)
Definition reaches (pen : Pen) (r : Rect.t) (p : Z * Z) : bool :=
  covers (ctm (current pen)) r p &&
  forallb (existsb (fun shape : Layer.Matrix * Rect.t => covers shape.1 shape.2 p))
    (clips (current pen)).

(** Whether the point, after the calls, lies in a rectangle that
    [fillRect] has reached and no [clearRect] has reached since. *)
Fixpoint filled (p : Z * Z) (pen : Pen) (ink : bool) (ops : t) : option bool :=
  match ops with
  | [] => Some ink
  | op :: ops' =>
      step pen op ≫= fun pen' =>
      filled p pen'
        match op with
        | fillRect x y w h => ink || reaches pen (Rect.mk x y w h) p
        | clearRect x y w h => ink && negb (reaches pen (Rect.mk x y w h) p)
        | _ => ink
        end ops'
  end.

End Canvas.

(** ** PaintRecord.js *)

Module Paint.

Inductive PathCommand :=
| moveTo (x y : Z)
| lineTo (x y : Z)
| arc (x y radius startAngle endAngle : Z)
| quadraticCurveTo (cpx cpy x y : Z)
| bezierCurveTo (cp1x cp1y cp2x cp2y x y : Z)
| closePath
| unknown (type : string).

(** The class of a record with the fields the class adds. *)
Inductive Kind :=
| Base
| RectK (fillStyle : string) (strokeStyle : option string) (lineWidth : Z)
    (filled stroked : bool)
| TextK (text font fillStyle : string) (maxWidth : option Z)
    (textAlign textBaseline : string)
| ImageK (image : option loc) (sourceRect : option Rect.t)
| PathK (path : list PathCommand) (fillStyle : option string) (strokeStyle : string)
    (lineWidth : Z) (filled stroked : bool)
| ShadowK (shadowColor : string) (shadowBlur shadowOffsetX shadowOffsetY : Z)
    (targetRecord : option loc).

(** A paint record object.  [bounds] refers to a bounds object, which
    records may share. *)
Record t := mk {
  type : string;
  layerId : option string;
  zIndex : Z;
  bounds : loc;
  opacity : JS.number;
  visible : bool;
  clipRect : option Rect.t;
  transform : option Layer.Matrix;
  timestamp : Z;
  kind : Kind
}.

Definition set_bounds (r : t) (b : loc) : t :=
  mk (type r) (layerId r) (zIndex r) b (opacity r) (visible r) (clipRect r)
     (transform r) (timestamp r) (kind r).

Definition set_layerId (r : t) (i : option string) : t :=
  mk (type r) i (zIndex r) (bounds r) (opacity r) (visible r) (clipRect r)
     (transform r) (timestamp r) (kind r).

(** The objects of the heap that painting touches. *)
Record Store := mkStore {
  records : gmap loc t;
  rects : gmap loc Rect.t
}.

Definition empty_store : Store := mkStore ∅ ∅.

(** An object literal [{ x, y, width, height }]. *)
Definition alloc_rect (b : Rect.t) (st : Store) : loc * Store :=
  let l := fresh (dom (rects st)) in
  (l, mkStore (records st) (<[l := b]> (rects st))).

Definition alloc_record (r : t) (st : Store) : loc * Store :=
  let l := fresh (dom (records st)) in
  (l, mkStore (<[l := r]> (records st)) (rects st)).

(** The [params] that every constructor hands to [PaintRecord]. *)
Record Params := {
  p_layerId : option string;
  p_zIndex : option Z;
  p_bounds : option loc;
  p_opacity : option JS.number;
  p_visible : option bool;
  p_clipRect : option Rect.t;
  p_transform : option Layer.Matrix
}.

Definition params (layerId : option string) (bounds : option loc) : Params :=
  {| p_layerId := layerId; p_zIndex := None; p_bounds := bounds; p_opacity := None;
     p_visible := None; p_clipRect := None; p_transform := None |}.

(** [new PaintRecord(type, params)] followed by the fields of the
    subclass. *)
Definition construct (now : Z) (type : string) (p : Params) (k : Kind)
    (st : Store) : loc * Store :=
  let '(b, st1) :=
    match p_bounds p with
    | Some b => (b, st)
    | None => alloc_rect (Rect.mk 0 0 0 0) st
    end in
  alloc_record
    {| type := type;
       layerId := if JS.truthy_str (p_layerId p) then p_layerId p else None;
       zIndex := JS.or_Z (p_zIndex p) 0;
       bounds := b;
       opacity := JS.or_number (p_opacity p) (JS.Fin 1);
       visible := default true (p_visible p);
       clipRect := p_clipRect p;
       transform := p_transform p;
       timestamp := now;
       kind := k |} st1.

(** [new RectPaintRecord(params)] *)
Definition RectPaintRecord (now : Z) (p : Params) (fillStyle strokeStyle : option string)
    (lineWidth : option Z) (filled stroked : option bool) : Store -> loc * Store :=
  construct now "rect" p
    (RectK (JS.or_string fillStyle "#000000")
           (if JS.truthy_str strokeStyle then strokeStyle else None)
           (JS.or_Z lineWidth 1)
           (default true filled)
           (bool_decide (stroked = Some true))).

(** [new TextPaintRecord(params)] *)
Definition TextPaintRecord (now : Z) (p : Params) (text font fillStyle : option string)
    (maxWidth : option Z) (textAlign textBaseline : option string) : Store -> loc * Store :=
  construct now "text" p
    (TextK (JS.or_string text "") (JS.or_string font "16px serif")
           (JS.or_string fillStyle "#000000")
           (match maxWidth with Some 0 => None | m => m end)
           (JS.or_string textAlign "left") (JS.or_string textBaseline "top")).

(** [new ImagePaintRecord(params)] *)
Definition ImagePaintRecord (now : Z) (p : Params) (image : option loc)
    (sourceRect : option Rect.t) : Store -> loc * Store :=
  construct now "image" p (ImageK image sourceRect).

(** [new PathPaintRecord(params)] *)
Definition PathPaintRecord (now : Z) (p : Params) (path : option (list PathCommand))
    (fillStyle strokeStyle : option string) (lineWidth : option Z)
    (filled stroked : option bool) : Store -> loc * Store :=
  construct now "path" p
    (PathK (default [] path)
           (if JS.truthy_str fillStyle then fillStyle else None)
           (JS.or_string strokeStyle "#000000")
           (JS.or_Z lineWidth 1)
           (bool_decide (filled = Some true))
           (default true stroked)).

(** [new ShadowPaintRecord(params)]; a [None] number is [undefined] or
    NaN. *)
Definition ShadowPaintRecord (now : Z) (p : Params) (shadowColor : option string)
    (shadowBlur shadowOffsetX shadowOffsetY : option Z) (targetRecord : option loc)
    : Store -> loc * Store :=
  construct now "shadow" p
    (ShadowK (JS.or_string shadowColor "rgba(0, 0, 0, 0.5)")
             (JS.or_Z shadowBlur 10) (JS.or_Z shadowOffsetX 0) (JS.or_Z shadowOffsetY 0)
             targetRecord).

(** *** Execution on a drawing surface *)

Definition emit (ops : list Canvas.Op) (ctx : Canvas.t) : Canvas.t := ctx ++ ops.

Definition path_op (c : PathCommand) : list Canvas.Op :=
  match c with
  | moveTo x y => [Canvas.moveTo x y]
  | lineTo x y => [Canvas.lineTo x y]
  | arc x y r s e => [Canvas.arc x y r s e]
  | quadraticCurveTo cx cy x y => [Canvas.quadraticCurveTo cx cy x y]
  | bezierCurveTo a b c d x y => [Canvas.bezierCurveTo a b c d x y]
  | closePath => [Canvas.closePath]
  | unknown _ => []
  end.

Definition undefined_bounds : exn :=
  TypeError "Cannot read properties of undefined (reading 'x')".

(** [record.execute(context)].  [depth] is the call-stack depth that is
    left: a shadow record executes its target, and a chain of targets that
    does not end exhausts the stack, which JavaScript reports by throwing
    a RangeError. *)
Fixpoint execute (depth : nat) (st : Store) (r : loc) (ctx : Canvas.t)
    : Canvas.t * option exn :=
  match depth with
  | O => (ctx, Some (RangeError "Maximum call stack size exceeded"))
  | S depth' =>
      match records st !! r with
      | None => (ctx, Some (TypeError "record.execute is not a function"))
      | Some rec =>
          if negb (visible rec) || JS.le_q (opacity rec) 0 then (ctx, None)
          else
            let ctx1 := emit [Canvas.save] ctx in
            let ctx2 :=
              match clipRect rec with
              | Some c =>
                  emit [Canvas.beginPath;
                        Canvas.rect (Rect.x c) (Rect.y c) (Rect.width c) (Rect.height c);
                        Canvas.clip] ctx1
              | None => ctx1
              end in
            let ctx3 := emit [Canvas.mulGlobalAlpha (opacity rec)] ctx2 in
            let ctx4 :=
              match transform rec with
              | Some m => emit [Canvas.setTransform m] ctx3
              | None => ctx3
              end in
            (* executePaintOperation *)
            let '(ctx5, e) :=
              match kind rec with
              | Base =>
                  (ctx4, Some (Error "executePaintOperation must be implemented by subclass"))
              | RectK fillStyle strokeStyle lineWidth filled stroked =>
                  match rects st !! bounds rec with
                  | None => (ctx4, Some undefined_bounds)
                  | Some b =>
                      let c1 :=
                        if filled
                        then emit [Canvas.setFillStyle fillStyle;
                                   Canvas.fillRect (Rect.x b) (Rect.y b)
                                     (Rect.width b) (Rect.height b)] ctx4
                        else ctx4 in
                      let c2 :=
                        if stroked
                        then emit [Canvas.setStrokeStyle strokeStyle;
                                   Canvas.setLineWidth lineWidth;
                                   Canvas.strokeRect (Rect.x b) (Rect.y b)
                                     (Rect.width b) (Rect.height b)] c1
                        else c1 in
                      (c2, None)
                  end
              | TextK text font fillStyle maxWidth textAlign textBaseline =>
                  let c1 := emit [Canvas.setFont font; Canvas.setFillStyle fillStyle;
                                  Canvas.setTextAlign textAlign;
                                  Canvas.setTextBaseline textBaseline] ctx4 in
                  match rects st !! bounds rec with
                  | None => (c1, Some undefined_bounds)
                  | Some b =>
                      (emit [Canvas.fillText text (Rect.x b) (Rect.y b) maxWidth] c1, None)
                  end
              | ImageK image sourceRect =>
                  match image with
                  | None => (ctx4, None)
                  | Some img =>
                      match rects st !! bounds rec with
                      | None => (ctx4, Some undefined_bounds)
                      | Some b =>
                          match sourceRect with
                          | Some s =>
                              (emit [Canvas.drawImage img
                                       [Rect.x s; Rect.y s; Rect.width s; Rect.height s;
                                        Rect.x b; Rect.y b; Rect.width b; Rect.height b]]
                                 ctx4, None)
                          | None =>
                              (emit [Canvas.drawImage img
                                       [Rect.x b; Rect.y b; Rect.width b; Rect.height b]]
                                 ctx4, None)
                          end
                      end
                  end
              | PathK path fillStyle strokeStyle lineWidth filled stroked =>
                  match path with
                  | [] => (ctx4, None)
                  | _ =>
                      let c1 := emit (Canvas.beginPath :: concat (map path_op path)) ctx4 in
                      let c2 :=
                        match fillStyle with
                        | Some f =>
                            if filled then emit [Canvas.setFillStyle f; Canvas.fill] c1
                            else c1
                        | None => c1
                        end in
                      let c3 :=
                        if stroked
                        then emit [Canvas.setStrokeStyle (Some strokeStyle);
                                   Canvas.setLineWidth lineWidth; Canvas.stroke] c2
                        else c2 in
                      (c3, None)
                  end
              | ShadowK shadowColor shadowBlur shadowOffsetX shadowOffsetY targetRecord =>
                  match targetRecord with
                  | None => (ctx4, None)
                  | Some target =>
                      execute depth' st target
                        (emit [Canvas.setShadowColor shadowColor;
                               Canvas.setShadowBlur shadowBlur;
                               Canvas.setShadowOffsetX shadowOffsetX;
                               Canvas.setShadowOffsetY shadowOffsetY] ctx4)
                  end
              end in
            (* finally *)
            (emit [Canvas.restore] ctx5, e)
      end
  end.

(** [layer.addPaintRecords(records)] of Layer.js: every record is
    stamped with the id of the layer and appended, and the layer is marked
    dirty. *)
Definition addPaintRecords (layer : Layer.t) (rs : list loc) (st : Store)
    : Layer.t * Store :=
  let st' :=
    fold_left
      (fun s r => mkStore (alter (fun rec => set_layerId rec (Some (Layer.id layer))) r
                                 (records s)) (rects s))
      rs st in
  let l := layer in
  (Layer.markDirty
     (Layer.mk (Layer.id l) (Layer.zIndex l) (Layer.opacity l) (Layer.compositingMode l)
        (Layer.transform l) (Layer.bounds l) (Layer.clipRect l) (Layer.masksToBounds l)
        (Layer.paintRecords l ++ rs) (Layer.needsRepaint l) (Layer.dirtyRegion l)
        (Layer.isFixed l) (Layer.isScrollContainer l) (Layer.isComposited l)
        (Layer.backingStore l) (Layer.lastPaintTime l) (Layer.layoutNode l)
        (Layer.compositingReason l) (Layer.absoluteBounds l)
        (Layer.isVisibleInViewport l) (Layer.children l))
     None,
   st').

End Paint.

(** ** PaintContext.js: PaintContext *)

Module PaintContext.

(** The fields of the paint context that the dirty-region methods read
    and write. *)
Record t := mk {
  viewport : Rect.t;
  dirtyRegions : list Rect.t
}.

(** [addDirtyRegion(x, y, width, height)] *)
Definition addDirtyRegion (x y width height : Z) (p : t) : t :=
  mk (viewport p) (dirtyRegions p ++ [Rect.mk x y width height]).

(** [clearDirtyRegions()] *)
Definition clearDirtyRegions (p : t) : t := mk (viewport p) [].

(** [rectanglesOverlap(rect1, rect2)] *)
Definition rectanglesOverlap (rect1 rect2 : Rect.t) : bool :=
  negb ((Rect.x rect1 + Rect.width rect1 <? Rect.x rect2) ||
        (Rect.x rect2 + Rect.width rect2 <? Rect.x rect1) ||
        (Rect.y rect1 + Rect.height rect1 <? Rect.y rect2) ||
        (Rect.y rect2 + Rect.height rect2 <? Rect.y rect1)).

(** [mergeRectangles(rect1, rect2)]; the sums and differences are those
    of the code for integer edges within [2 ^ 52]. *)
Definition mergeRectangles (rect1 rect2 : Rect.t) : Rect.t :=
  let x := Z.min (Rect.x rect1) (Rect.x rect2) in
  let y := Z.min (Rect.y rect1) (Rect.y rect2) in
  let width :=
    Z.max (Rect.x rect1 + Rect.width rect1) (Rect.x rect2 + Rect.width rect2) - x in
  let height :=
    Z.max (Rect.y rect1 + Rect.height rect1) (Rect.y rect2 + Rect.height rect2) - y in
  Rect.mk x y width height.

(** The inner loop of [getMergedDirtyRegions] for [merged[i]] against
    the entries after it: an entry that overlaps [merged[i]] as it stands is
    merged into it and spliced out, the others stay. *)
Fixpoint absorb (current : Rect.t) (rest : list Rect.t) : Rect.t * list Rect.t :=
  match rest with
  | [] => (current, [])
  | r :: rest' =>
      if rectanglesOverlap current r then absorb (mergeRectangles current r) rest'
      else let '(c, kept) := absorb current rest' in (c, r :: kept)
  end.

(** The outer loop from index [i] on; [fuel] bounds the number of
    turns. *)
Fixpoint merge_from (fuel : nat) (regions : list Rect.t) : list Rect.t :=
  match fuel, regions with
  | S fuel', r :: rest =>
      let '(c, rest') := absorb r rest in c :: merge_from fuel' rest'
  | _, _ => regions
  end.

(** [getMergedDirtyRegions()].  Every turn of the outer loop passes one
    entry, so the number of entries bounds the number of turns. *)
Definition getMergedDirtyRegions (p : t) : list Rect.t :=
  match dirtyRegions p with
  | [] => []
  | _ => merge_from (length (dirtyRegions p)) (dirtyRegions p)
  end.

(** [isInViewport(area)] *)
Definition isInViewport (p : t) (area : Rect.t) : bool :=
  negb ((Rect.x (viewport p) + Rect.width (viewport p) <? Rect.x area) ||
        (Rect.y (viewport p) + Rect.height (viewport p) <? Rect.y area) ||
        (Rect.x area + Rect.width area <? Rect.x (viewport p)) ||
        (Rect.y area + Rect.height area <? Rect.y (viewport p))).

(** [shouldPaint(x, y, width, height)] *)
Definition shouldPaint (x y width height : Z) (p : t) : bool :=
  let area := Rect.mk x y width height in
  if negb (isInViewport p area) then false
  else
    match dirtyRegions p with
    | [] => true
    | _ => existsb (fun dirty => rectanglesOverlap area dirty) (dirtyRegions p)
    end.

End PaintContext.

(** ** PaintRecordGenerator.js *)

Module PaintRecordGenerator.

Record Stats := {
  totalLayers : Z;
  generatedRecords : Z;
  optimizedRecords : Z;
  culledRecords : Z;
  generationTime : Z
}.

Record t := mk {
  enableOptimizations : bool;
  mergeSimilarRecords : bool;
  cullInvisibleRecords : bool;
  stats : Stats
}.

Definition with_stats (g : t) (s : Stats) : t :=
  mk (enableOptimizations g) (mergeSimilarRecords g) (cullInvisibleRecords g) s.

(** [isNodeVisible(node)] *)
Definition isNodeVisible (node : Layout.Node) : bool :=
  let layout := Layout.layout node in
  let style := Layout.style node in
  if (Rect.width layout <=? 0) || (Rect.height layout <=? 0) then false
  else if JS.is_str (style !! "display") "none" ||
          JS.is_str (style !! "visibility") "hidden" ||
          JS.is_str (style !! "opacity") "0" then false
  else true.

(** [createBackgroundRecord(node, layer)] *)
Definition createBackgroundRecord (now : Z) (node : Layout.Node) (layer : Layer.t)
    (st : Paint.Store) : option loc * Paint.Store :=
  let style := Layout.style node in
  let layout := Layout.layout node in
  let backgroundColor := style !! "background-color" in
  if negb (JS.truthy_str backgroundColor) || JS.is_str backgroundColor "transparent" ||
     JS.is_str backgroundColor "none"
  then (None, st)
  else
    let '(b, st1) :=
      Paint.alloc_rect (Rect.mk 0 0 (Rect.width layout) (Rect.height layout)) st in
    let '(r, st2) :=
      Paint.RectPaintRecord now (Paint.params (Some (Layer.id layer)) (Some b))
        backgroundColor None None None None st1 in
    (Some r, st2).

(** [createBorderRecord(node, layer)] *)
Definition createBorderRecord (now : Z) (node : Layout.Node) (layer : Layer.t)
    (st : Paint.Store) : option loc * Paint.Store :=
  let style := Layout.style node in
  let layout := Layout.layout node in
  match Layout.boxModel node with
  | None => (None, st)
  | Some boxModel =>
      if JS.is_str (style !! "border") "none" || JS.is_str (style !! "border") "0"
      then (None, st)
      else
        let borderColor := JS.or_string (style !! "border-color") "#000000" in
        let borderWidth := Layout.border boxModel in
        if 0 <? Layout.top borderWidth then
          let path :=
            [Paint.moveTo 0 0;
             Paint.lineTo (Rect.width layout) 0;
             Paint.lineTo (Rect.width layout) (Rect.height layout);
             Paint.lineTo 0 (Rect.height layout);
             Paint.closePath] in
          let '(b, st1) :=
            Paint.alloc_rect (Rect.mk 0 0 (Rect.width layout) (Rect.height layout)) st in
          let '(r, st2) :=
            Paint.PathPaintRecord now (Paint.params (Some (Layer.id layer)) (Some b))
              (Some path) None (Some borderColor) (Some (Layout.top borderWidth))
              (Some false) (Some true) st1 in
          (Some r, st2)
        else (None, st)
  end.

(** [createTextRecord(node, text, layer)] *)
Definition createTextRecord (now : Z) (node : Layout.Node) (text : string)
    (layer : Layer.t) (st : Paint.Store) : option loc * Paint.Store :=
  let style := Layout.style node in
  let layout := Layout.layout node in
  if negb (JS.trim_truthy text) then (None, st)
  else
    let '(b, st1) :=
      Paint.alloc_rect (Rect.mk 0 0 (Rect.width layout) (Rect.height layout)) st in
    let font :=
      JS.or_string (style !! "font-weight") "normal" +:+ " " +:+
      JS.or_string (style !! "font-style") "normal" +:+ " " +:+
      JS.or_string (style !! "font-size") "16px" +:+ " " +:+
      JS.or_string (style !! "font-family") "serif" in
    let '(r, st2) :=
      Paint.TextPaintRecord now (Paint.params (Some (Layer.id layer)) (Some b))
        (Some text) (Some font) (Some (JS.or_string (style !! "color") "#000000")) None
        (Some (JS.or_string (style !! "text-align") "left")) (Some "top") st1 in
    (Some r, st2).

(** [createContentRecords(node, layer)] *)
Definition createContentRecords (now : Z) (node : Layout.Node) (layer : Layer.t)
    (st : Paint.Store) : list loc * Paint.Store :=
  match Layout.element node with
  | Some el =>
      if Layout.nodeType el =? 3 then
        let text := JS.or_string (Layout.data el) "" in
        if JS.trim_truthy text then
          let '(textRecord, st1) := createTextRecord now node text layer st in
          (option_list textRecord, st1)
        else ([], st)
      else ([], st)
  | None => ([], st)
  end.

(** The object [parseShadow] returns; a [None] number is NaN. *)
Record ShadowParams := {
  shadowColor : string;
  shadowOffsetX : option Z;
  shadowOffsetY : option Z;
  shadowBlur : option Z
}.

Definition not_close_paren (c : ascii) : bool := negb (Ascii.eqb c ")").

(** [\s+(\d+)px] at the head of [l]: the digits and the rest. *)
Definition match_length (l : list ascii) : option (list ascii * list ascii) :=
  let '(ws, l1) := JS.span JS.is_ws l in
  let '(ds, l2) := JS.span JS.is_digit l1 in
  match ws, ds, l2 with
  | _ :: _, _ :: _, "p"%char :: "x"%char :: l3 => Some (ds, l3)
  | _, _, _ => None
  end.

(** A match of [rgba?\([^)]+\)\s+(\d+)px\s+(\d+)px\s+(\d+)px] at the head
    of [l]: the three captured groups.  Every quantifier of the expression
    is followed by a character outside the class it repeats, so the greedy
    match is the only one. *)
Definition match_here (l : list ascii) : option (list ascii * list ascii * list ascii) :=
  match l with
  | "r"%char :: "g"%char :: "b"%char :: l1 =>
      let l2 := match l1 with "a"%char :: l' => l' | _ => l1 end in
      match l2 with
      | "("%char :: l3 =>
          let '(inside, l4) := JS.span not_close_paren l3 in
          match inside, l4 with
          | _ :: _, ")"%char :: l5 =>
              '(g1, l6) ← match_length l5;
              '(g2, l7) ← match_length l6;
              '(g3, _) ← match_length l7;
              Some (g1, g2, g3)
          | _, _ => None
          end
      | _ => None
      end
  | _ => None
  end.

(** [shadow.match(...)]: the leftmost match. *)
Fixpoint shadow_match (l : list ascii) : option (list ascii * list ascii * list ascii) :=
  match match_here l with
  | Some m => Some m
  | None =>
      match l with
      | _ :: l' => shadow_match l'
      | [] => None
      end
  end.

(** [parseShadow(shadow)].  The expression has three groups, so
    [match[1]] is the first length and [match[4]] is [undefined]. *)
Definition parseShadow (shadow : string) : ShadowParams :=
  match shadow_match (JS.chars shadow) with
  | Some (g1, g2, g3) =>
      {| shadowColor := string_of_list_ascii g1;
         shadowOffsetX := JS.parseInt_chars g2;
         shadowOffsetY := JS.parseInt_chars g3;
         shadowBlur := JS.parseInt None |}
  | None =>
      {| shadowColor := "rgba(0, 0, 0, 0.5)";
         shadowOffsetX := Some 2;
         shadowOffsetY := Some 2;
         shadowBlur := Some 4 |}
  end.

(** [style['box-shadow'] || style['text-shadow']] *)
Definition shadow_style (style : gmap string string) : option string :=
  if JS.truthy_str (style !! "box-shadow") then style !! "box-shadow"
  else style !! "text-shadow".

(** The node has a shadow property that is present and not ["none"]. *)
Definition has_shadow (node : Layout.Node) : bool :=
  let s := shadow_style (Layout.style node) in
  JS.truthy_str s && negb (JS.is_str s "none").

(** [createShadowRecord(node, layer, contentRecords)] *)
Definition createShadowRecord (now : Z) (node : Layout.Node) (layer : Layer.t)
    (contentRecords : list loc) (st : Paint.Store) : option loc * Paint.Store :=
  let shadowColor := shadow_style (Layout.style node) in
  if negb (JS.truthy_str shadowColor) || JS.is_str shadowColor "none" then (None, st)
  else
    match contentRecords with
    | first :: _ =>
        let shadowParams := parseShadow (default "" shadowColor) in
        let '(r, st1) :=
          Paint.ShadowPaintRecord now
            (Paint.params (Some (Layer.id layer))
               (Paint.bounds <$> Paint.records st !! first))
            (Some (PaintRecordGenerator.shadowColor shadowParams))
            (PaintRecordGenerator.shadowBlur shadowParams)
            (PaintRecordGenerator.shadowOffsetX shadowParams)
            (PaintRecordGenerator.shadowOffsetY shadowParams)
            (Some first) st in
        (Some r, st1)
    | [] => (None, st)
    end.

(** The records that [createPaintRecordsForNode] emits before it looks
    at the shadow: background, border, content, in this order. *)
Definition emitRecords (now : Z) (node : Layout.Node) (layer : Layer.t)
    (st : Paint.Store) : (option loc * option loc * list loc) * Paint.Store :=
  let '(backgroundRecord, st1) := createBackgroundRecord now node layer st in
  let '(borderRecord, st2) := createBorderRecord now node layer st1 in
  let '(contentRecords, st3) := createContentRecords now node layer st2 in
  ((backgroundRecord, borderRecord, contentRecords), st3).

(** [createPaintRecordsForNode(node, layer)] *)
Definition createPaintRecordsForNode (now : Z) (node : Layout.Node) (layer : Layer.t)
    (g : t) (st : Paint.Store) : list loc * t * Paint.Store :=
  let '((backgroundRecord, borderRecord, contentRecords), st3) :=
    emitRecords now node layer st in
  let records :=
    option_list backgroundRecord ++ option_list borderRecord ++ contentRecords in
  let '(shadowRecord, st4) := createShadowRecord now node layer records st3 in
  match shadowRecord with
  | Some s => ([s], g, st4)
  | None =>
      let s := stats g in
      (records,
       with_stats g
         {| totalLayers := totalLayers s;
            generatedRecords := generatedRecords s + Z.of_nat (length records);
            optimizedRecords := optimizedRecords s;
            culledRecords := culledRecords s;
            generationTime := generationTime s |},
       st4)
  end.

(** [new PaintRecordGenerator()] *)
Definition default_generator : t := mk true true true (Build_Stats 0 0 0 0 0).

(** *** Merging the records of a layer *)

(** [mergeBounds(bounds1, bounds2)]; the sums and differences are those
    of the code for integer edges within [2 ^ 52]. *)
Definition mergeBounds (bounds1 bounds2 : Rect.t) : Rect.t :=
  let x := Z.min (Rect.x bounds1) (Rect.x bounds2) in
  let y := Z.min (Rect.y bounds1) (Rect.y bounds2) in
  let width :=
    Z.max (Rect.x bounds1 + Rect.width bounds1) (Rect.x bounds2 + Rect.width bounds2) - x in
  let height :=
    Z.max (Rect.y bounds1 + Rect.height bounds1) (Rect.y bounds2 + Rect.height bounds2) - y in
  Rect.mk x y width height.

(** [record.filled] and [record.stroked]; a class without the property
    gives [undefined], which is falsy. *)
Definition filled (k : Paint.Kind) : bool :=
  match k with
  | Paint.RectK _ _ _ f _ => f
  | Paint.PathK _ _ _ _ f _ => f
  | _ => false
  end.

Definition stroked (k : Paint.Kind) : bool :=
  match k with
  | Paint.RectK _ _ _ _ s => s
  | Paint.PathK _ _ _ _ _ s => s
  | _ => false
  end.

(** [record.fillStyle]: [None] is [undefined], [Some None] is [null]. *)
Definition fillStyle (k : Paint.Kind) : option (option string) :=
  match k with
  | Paint.RectK f _ _ _ _ => Some (Some f)
  | Paint.TextK _ _ f _ _ _ => Some (Some f)
  | Paint.PathK _ f _ _ _ _ => Some f
  | _ => None
  end.

(** [record.type === 'rect' && record.filled && !record.stroked] *)
Definition mergeable (rec : Paint.t) : bool :=
  String.eqb (Paint.type rec) "rect" && filled (Paint.kind rec) &&
  negb (stroked (Paint.kind rec)).

(** [record.bounds = bounds] for the record at [r]. *)
Definition assign_bounds (r : loc) (b : loc) (st : Paint.Store) : Paint.Store :=
  Paint.mkStore (alter (fun rec => Paint.set_bounds rec b) r (Paint.records st))
                (Paint.rects st).

(** The loop of [mergeSimilarRecordsInLayer] over the records [rs] that
    are left, and the [push] that follows it; the third component is the
    exception that ended the loop, if any. *)
Fixpoint merge_records (rs : list loc) (mergedRecords : list loc)
    (currentRectRecord : option loc) (st : Paint.Store)
    : list loc * Paint.Store * option exn :=
  match rs with
  | [] => (mergedRecords ++ option_list currentRectRecord, st, None)
  | record :: rs' =>
      match Paint.records st !! record with
      | None =>
          (mergedRecords, st,
           Some (TypeError "Cannot read properties of undefined (reading 'type')"))
      | Some rec =>
          if mergeable rec then
            match currentRectRecord with
            | None => merge_records rs' mergedRecords (Some record) st
            | Some current =>
                match Paint.records st !! current with
                | None =>
                    (mergedRecords, st,
                     Some (TypeError
                             "Cannot read properties of undefined (reading 'fillStyle')"))
                | Some cur =>
                    if bool_decide (fillStyle (Paint.kind cur) = fillStyle (Paint.kind rec))
                    then
                      match Paint.rects st !! Paint.bounds cur,
                            Paint.rects st !! Paint.bounds rec with
                      | Some bounds1, Some bounds2 =>
                          let '(mergedBounds, st1) :=
                            Paint.alloc_rect (mergeBounds bounds1 bounds2) st in
                          merge_records rs' mergedRecords (Some current)
                            (assign_bounds current mergedBounds st1)
                      | _, _ => (mergedRecords, st, Some Paint.undefined_bounds)
                      end
                    else merge_records rs' (mergedRecords ++ [current]) (Some record) st
                end
            end
          else
            merge_records rs'
              (mergedRecords ++ option_list currentRectRecord ++ [record]) None st
      end
  end.

(** [mergeSimilarRecordsInLayer(layer)] *)
Definition mergeSimilarRecordsInLayer (layer : Layer.t) (g : t) (st : Paint.Store)
    : Layer.t * t * Paint.Store * option exn :=
  let '(mergedRecords, st', e) := merge_records (Layer.paintRecords layer) [] None st in
  match e with
  | Some ex => (layer, g, st', Some ex)
  | None =>
      let originalCount := Z.of_nat (length (Layer.paintRecords layer)) in
      let l := layer in
      let s := stats g in
      (Layer.mk (Layer.id l) (Layer.zIndex l) (Layer.opacity l) (Layer.compositingMode l)
         (Layer.transform l) (Layer.bounds l) (Layer.clipRect l) (Layer.masksToBounds l)
         mergedRecords (Layer.needsRepaint l) (Layer.dirtyRegion l)
         (Layer.isFixed l) (Layer.isScrollContainer l) (Layer.isComposited l)
         (Layer.backingStore l) (Layer.lastPaintTime l) (Layer.layoutNode l)
         (Layer.compositingReason l) (Layer.absoluteBounds l)
         (Layer.isVisibleInViewport l) (Layer.children l),
       with_stats g
         {| totalLayers := totalLayers s;
            generatedRecords := generatedRecords s;
            optimizedRecords :=
              optimizedRecords s + (originalCount - Z.of_nat (length mergedRecords));
            culledRecords := culledRecords s;
            generationTime := generationTime s |},
       st', None)
  end.

(** *** The pass over a layer tree *)

(** [resetStats()] *)
Definition resetStats (g : t) : t := with_stats g (Build_Stats 0 0 0 0 0).

(** [layer.paintRecords = records] *)
Definition set_paintRecords (l : Layer.t) (records : list loc) : Layer.t :=
  Layer.mk (Layer.id l) (Layer.zIndex l) (Layer.opacity l) (Layer.compositingMode l)
    (Layer.transform l) (Layer.bounds l) (Layer.clipRect l) (Layer.masksToBounds l)
    records (Layer.needsRepaint l) (Layer.dirtyRegion l)
    (Layer.isFixed l) (Layer.isScrollContainer l) (Layer.isComposited l)
    (Layer.backingStore l) (Layer.lastPaintTime l) (Layer.layoutNode l)
    (Layer.compositingReason l) (Layer.absoluteBounds l)
    (Layer.isVisibleInViewport l) (Layer.children l).

(** [paintRecords.filter(record => record.visible && record.opacity > 0)];
    the second component is the exception that ended the call, if any. *)
Fixpoint cull_filter (st : Paint.Store) (rs : list loc) : list loc * option exn :=
  match rs with
  | [] => ([], None)
  | r :: rs' =>
      match Paint.records st !! r with
      | None =>
          ([], Some (TypeError "Cannot read properties of undefined (reading 'visible')"))
      | Some rec =>
          let '(kept, e) := cull_filter st rs' in
          match e with
          | Some ex => ([], Some ex)
          | None =>
              (if Paint.visible rec && JS.gt_q (Paint.opacity rec) 0%Q
               then r :: kept else kept, None)
          end
      end
  end.

(** [cullInvisibleRecordsInLayer(layer)] *)
Definition cullInvisibleRecordsInLayer (layer : Layer.t) (g : t) (st : Paint.Store)
    : Layer.t * t * option exn :=
  let originalCount := Z.of_nat (length (Layer.paintRecords layer)) in
  let '(kept, e) := cull_filter st (Layer.paintRecords layer) in
  match e with
  | Some ex => (layer, g, Some ex)
  | None =>
      let s := stats g in
      (set_paintRecords layer kept,
       with_stats g
         {| totalLayers := totalLayers s;
            generatedRecords := generatedRecords s;
            optimizedRecords := optimizedRecords s;
            culledRecords := culledRecords s + (originalCount - Z.of_nat (length kept));
            generationTime := generationTime s |},
       None)
  end.

(** The callback of [optimizePaintRecords] on one layer. *)
Definition optimize_layer (layer : Layer.t) (g : t) (st : Paint.Store)
    : Layer.t * t * Paint.Store * option exn :=
  let '(l1, g1, e1) :=
    if cullInvisibleRecords g then cullInvisibleRecordsInLayer layer g st
    else (layer, g, None) in
  match e1 with
  | Some ex => (l1, g1, st, Some ex)
  | None =>
      if mergeSimilarRecords g1 then mergeSimilarRecordsInLayer l1 g1 st
      else (l1, g1, st, None)
  end.

(** [optimizePaintRecords(layerTree)]: the traversal from one layer
    down. *)
Fixpoint optimizePaintRecords (layer : Layer.t) (g : t) (st : Paint.Store)
    {struct layer} : Layer.t * t * Paint.Store * option exn :=
  let '(l1, g1, st1, e) := optimize_layer layer g st in
  match e with
  | Some ex => (l1, g1, st1, Some ex)
  | None =>
      let children :=
        fix children (cs : list Layer.t) (g : t) (st : Paint.Store) {struct cs}
            : list Layer.t * t * Paint.Store * option exn :=
          match cs with
          | [] => ([], g, st, None)
          | c :: cs' =>
              let '(c', g', st', e') := optimizePaintRecords c g st in
              match e' with
              | Some ex => (c' :: cs', g', st', Some ex)
              | None =>
                  let '(cs'', g'', st'', e'') := children cs' g' st' in
                  (c' :: cs'', g'', st'', e'')
              end
          end in
      let '(cs, g2, st2, e2) := children (Layer.children layer) g1 st1 in
      (Layer.set_children l1 cs, g2, st2, e2)
  end.

(** What [generateForLayer] does at one layer, before it goes on to the
    children. *)
Definition generate_here (now : Z) (layer : Layer.t) (g : t) (st : Paint.Store)
    : Layer.t * t * Paint.Store :=
  let s := stats g in
  let g1 :=
    with_stats g
      {| totalLayers := totalLayers s + 1;
         generatedRecords := generatedRecords s;
         optimizedRecords := optimizedRecords s;
         culledRecords := culledRecords s;
         generationTime := generationTime s |} in
  match Layer.layoutNode layer with
  | Some node =>
      if isNodeVisible node then
        let '(records, g2, st1) := createPaintRecordsForNode now node layer g1 st in
        let '(l1, st2) := Paint.addPaintRecords layer records st1 in
        (l1, g2, st2)
      else
        let s1 := stats g1 in
        (layer,
         with_stats g1
           {| totalLayers := totalLayers s1;
              generatedRecords := generatedRecords s1;
              optimizedRecords := optimizedRecords s1;
              culledRecords := culledRecords s1 + 1;
              generationTime := generationTime s1 |},
         st)
  | None => (layer, g1, st)
  end.

(** [generateForLayer(layer)]; [now] is the reading of the clock that
    the new records take as their timestamp. *)
Fixpoint generateForLayer (now : Z) (layer : Layer.t) (g : t) (st : Paint.Store)
    {struct layer} : Layer.t * t * Paint.Store :=
  let '(l1, g1, st1) := generate_here now layer g st in
  let children :=
    fix children (cs : list Layer.t) (g : t) (st : Paint.Store) {struct cs}
        : list Layer.t * t * Paint.Store :=
      match cs with
      | [] => ([], g, st)
      | c :: cs' =>
          let '(c', g', st') := generateForLayer now c g st in
          let '(cs'', g'', st'') := children cs' g' st' in
          (c' :: cs'', g'', st'')
      end in
  let '(cs, g2, st2) := children (Layer.children layer) g1 st1 in
  (Layer.set_children l1 cs, g2, st2).

(** [generate(layerTree, options)] without the debug option; [None] is
    [null], and [now0], [now1] are the readings of the clock at the start
    and at the end. *)
Definition generate (now0 now1 now : Z) (layerTree : option LayerTree.t)
    (g : t) (st : Paint.Store) : option LayerTree.t * t * Paint.Store * option exn :=
  let g0 := resetStats g in
  match layerTree with
  | None => (None, g0, st, None)
  | Some tree =>
      let '(root1, g1, st1) := generateForLayer now (LayerTree.root tree) g0 st in
      let '(root2, g2, st2, e) :=
        if enableOptimizations g1 then optimizePaintRecords root1 g1 st1
        else (root1, g1, st1, None) in
      let tree' := LayerTree.mk root2 (LayerTree.allLayers tree) (LayerTree.nextLayerId tree) in
      match e with
      | Some ex => (Some tree', g2, st2, Some ex)
      | None =>
          let s := stats g2 in
          (Some tree',
           with_stats g2
             {| totalLayers := totalLayers s;
                generatedRecords := generatedRecords s;
                optimizedRecords := optimizedRecords s;
                culledRecords := culledRecords s;
                generationTime := now1 - now0 |},
           st2, None)
      end
  end.

End PaintRecordGenerator.

(** ** TilingManager.js: Tile *)

Module Tile.

(** The canvas of a raster buffer: the element, named by the buffer that
    owns it, and its size. *)
Record RasterCanvas := { element : loc; canvas_width : Z; canvas_height : Z }.

(** [priority] is [0] at construction and [1000 - distance] after
    [calculatePriority]; the distance between the two centres is kept
    exactly as [q = (2 * distance)^2], so that [priority = 1000 - √q / 2]. *)
Inductive Priority :=
| initial
| fromDistance (q : Z).

Record t := mk {
  x : Z;
  y : Z;
  width : Z;
  height : Z;
  layer : Layer.t;
  tileX : Z;
  tileY : Z;
  rasterizedContent : option RasterCanvas;
  needsRasterization : bool;
  lastRasterizedTime : Z;
  priority : Priority;
  isVisible : bool;
  isDirty : bool;
  accessCount : Z;
  lastAccessTime : Z
}.

(** [new Tile(x, y, width, height, layer, tileX, tileY)] *)
Definition new (x y width height : Z) (layer : Layer.t) (tileX tileY : Z) : t :=
  {| x := x; y := y; width := width; height := height; layer := layer;
     tileX := tileX; tileY := tileY;
     rasterizedContent := None; needsRasterization := true; lastRasterizedTime := 0;
     priority := initial; isVisible := true; isDirty := true;
     accessCount := 0; lastAccessTime := 0 |}.

(** [markDirty()] *)
Definition markDirty (t0 : t) : t :=
  mk (x t0) (y t0) (width t0) (height t0) (layer t0) (tileX t0) (tileY t0)
     (rasterizedContent t0) true (lastRasterizedTime t0) (priority t0)
     (isVisible t0) true (accessCount t0) (lastAccessTime t0).

(** [markClean()] *)
Definition markClean (now : Z) (t0 : t) : t :=
  mk (x t0) (y t0) (width t0) (height t0) (layer t0) (tileX t0) (tileY t0)
     (rasterizedContent t0) false now (priority t0)
     (isVisible t0) false (accessCount t0) (lastAccessTime t0).

(** [intersectsRect(rect)] *)
Definition intersectsRect (t0 : t) (rect : Rect.t) : bool :=
  negb ((Rect.x rect + Rect.width rect <? x t0) ||
        (x t0 + width t0 <? Rect.x rect) ||
        (Rect.y rect + Rect.height rect <? y t0) ||
        (y t0 + height t0 <? Rect.y rect)).

(** [getRelativeBounds()] *)
Definition getRelativeBounds (t0 : t) : Rect.t :=
  Rect.mk (x t0 - Rect.x (Layer.bounds (layer t0)))
          (y t0 - Rect.y (Layer.bounds (layer t0)))
          (width t0) (height t0).

(** [calculatePriority(viewport)] *)
Definition calculatePriority (viewport : Rect.t) (t0 : t) : t :=
  let dx := (2 * x t0 + width t0) - (2 * Rect.x viewport + Rect.width viewport) in
  let dy := (2 * y t0 + height t0) - (2 * Rect.y viewport + Rect.height viewport) in
  mk (x t0) (y t0) (width t0) (height t0) (layer t0) (tileX t0) (tileY t0)
     (rasterizedContent t0) (needsRasterization t0) (lastRasterizedTime t0)
     (fromDistance (dx * dx + dy * dy))
     (isVisible t0) (isDirty t0) (accessCount t0) (lastAccessTime t0).

(** [access()] *)
Definition access (now : Z) (t0 : t) : t :=
  mk (x t0) (y t0) (width t0) (height t0) (layer t0) (tileX t0) (tileY t0)
     (rasterizedContent t0) (needsRasterization t0) (lastRasterizedTime t0)
     (priority t0) (isVisible t0) (isDirty t0) (accessCount t0 + 1) now.

(** [dispose()]: the canvas, if there is one, is cleared and the
    reference to it dropped. *)
Definition dispose (t0 : t) : t :=
  mk (x t0) (y t0) (width t0) (height t0) (layer t0) (tileX t0) (tileY t0)
     None (needsRasterization t0) (lastRasterizedTime t0)
     (priority t0) (isVisible t0) (isDirty t0) (accessCount t0) (lastAccessTime t0).

(** The rasterizer's [tile.rasterizedContent = canvas]. *)
Definition set_rasterizedContent (c : option RasterCanvas) (t0 : t) : t :=
  mk (x t0) (y t0) (width t0) (height t0) (layer t0) (tileX t0) (tileY t0)
     c (needsRasterization t0) (lastRasterizedTime t0)
     (priority t0) (isVisible t0) (isDirty t0) (accessCount t0) (lastAccessTime t0).

End Tile.

(** ** TilingManager.js: TilingManager *)

Module TilingManager.

Record Stats := {
  totalTilesCreated : Z;
  totalTilesDestroyed : Z;
  tilesEvicted : Z;
  memoryUsage : Z;
  cacheHits : Z;
  cacheMisses : Z
}.

(** The manager object and the tile objects it has created ([heap]).
    [tiles] maps a key to the tile object, [layerTiles] maps a layer id to
    its keys in insertion order, [tileAccessOrder] is the array of tile
    objects with the oldest at the head. *)
Record t := mk {
  tileSize : Z;
  maxTiles : Z;
  tiles : gmap string loc;
  layerTiles : gmap string (list string);
  tileAccessOrder : list loc;
  maxMemoryUsage : Z;
  currentMemoryUsage : Z;
  stats : Stats;
  heap : gmap loc Tile.t
}.

(** [new TilingManager(options)] *)
Definition new (tileSize maxTiles maxMemoryUsage : option Z) : t :=
  {| tileSize := JS.or_Z tileSize 256;
     maxTiles := JS.or_Z maxTiles 1000;
     tiles := ∅;
     layerTiles := ∅;
     tileAccessOrder := [];
     maxMemoryUsage := JS.or_Z maxMemoryUsage (100 * 1024 * 1024);
     currentMemoryUsage := 0;
     stats := Build_Stats 0 0 0 0 0 0;
     heap := ∅ |}.

(** [`${layer.id}_${tileX}_${tileY}`] *)
Definition tile_key (layerId : string) (tileX tileY : Z) : string :=
  layerId +:+ "_" +:+ pretty tileX +:+ "_" +:+ pretty tileY.

Definition key_of (tile : Tile.t) : string :=
  tile_key (Layer.id (Tile.layer tile)) (Tile.tileX tile) (Tile.tileY tile).

(** [estimateTileMemoryUsage(tile)] *)
Definition estimateTileMemoryUsage (tile : Tile.t) : Z :=
  Tile.width tile * Tile.height tile * 4.

(** [array.indexOf(tile)] followed by [splice(index, 1)] when the tile
    is found. *)
Fixpoint remove_first (l : loc) (order : list loc) : list loc :=
  match order with
  | [] => []
  | l' :: order' => if bool_decide (l' = l) then order' else l' :: remove_first l order'
  end.

(** [updateTileAccessOrder(tile)] *)
Definition updateTileAccessOrder (l : loc) (m : t) : t :=
  mk (tileSize m) (maxTiles m) (tiles m) (layerTiles m)
     (remove_first l (tileAccessOrder m) ++ [l])
     (maxMemoryUsage m) (currentMemoryUsage m) (stats m) (heap m).

Definition update_tile (l : loc) (f : Tile.t -> Tile.t) (m : t) : t :=
  mk (tileSize m) (maxTiles m) (tiles m) (layerTiles m) (tileAccessOrder m)
     (maxMemoryUsage m) (currentMemoryUsage m) (stats m) (alter f l (heap m)).

(** [layerTiles.get(id).delete(key)], dropping the entry of the layer
    when its set becomes empty. *)
Definition layerTiles_delete (layerId key : string)
    (lt : gmap string (list string)) : gmap string (list string) :=
  match lt !! layerId with
  | Some keys =>
      let keys' := filter (fun k => k ≠ key) keys in
      match keys' with
      | [] => delete layerId lt
      | _ => <[layerId := keys']> lt
      end
  | None => lt
  end.

(** [layerTiles.get(id).add(key)], creating the set when needed. *)
Definition layerTiles_add (layerId key : string)
    (lt : gmap string (list string)) : gmap string (list string) :=
  let keys := default [] (lt !! layerId) in
  <[layerId := if bool_decide (key ∈ keys) then keys else keys ++ [key]]> lt.

(** [removeTile(key)] *)
Definition removeTile (key : string) (m : t) : t :=
  match tiles m !! key with
  | Some l =>
      match heap m !! l with
      | Some tile =>
          let s := stats m in
          mk (tileSize m) (maxTiles m)
             (delete key (tiles m))
             (layerTiles_delete (Layer.id (Tile.layer tile)) key (layerTiles m))
             (remove_first l (tileAccessOrder m))
             (maxMemoryUsage m)
             (currentMemoryUsage m - estimateTileMemoryUsage tile)
             {| totalTilesCreated := totalTilesCreated s;
                totalTilesDestroyed := totalTilesDestroyed s + 1;
                tilesEvicted := tilesEvicted s;
                memoryUsage := memoryUsage s;
                cacheHits := cacheHits s;
                cacheMisses := cacheMisses s |}
             (<[l := Tile.dispose tile]> (heap m))
      | None => m
      end
  | None => m
  end.

Definition count_eviction (m : t) : t :=
  let s := stats m in
  mk (tileSize m) (maxTiles m) (tiles m) (layerTiles m) (tileAccessOrder m)
     (maxMemoryUsage m) (currentMemoryUsage m)
     {| totalTilesCreated := totalTilesCreated s;
        totalTilesDestroyed := totalTilesDestroyed s;
        tilesEvicted := tilesEvicted s + 1;
        memoryUsage := memoryUsage s;
        cacheHits := cacheHits s;
        cacheMisses := cacheMisses s |}
     (heap m).

Definition shift (m : t) : t :=
  mk (tileSize m) (maxTiles m) (tiles m) (layerTiles m) (tl (tileAccessOrder m))
     (maxMemoryUsage m) (currentMemoryUsage m) (stats m) (heap m).

(** One turn of the loop of [enforceMemoryLimit], entered with
    [oldestTile] at the head of the access order. *)
Definition evict_oldest (oldestTile : loc) (m : t) : t :=
  let m1 := shift m in
  match heap m1 !! oldestTile with
  | Some tile =>
      let key := key_of tile in
      if bool_decide (is_Some (tiles m1 !! key))
      then count_eviction (removeTile key m1)
      else m1
  | None => m1
  end.

(** The [while] loop of [enforceMemoryLimit]; [fuel] bounds the number
    of turns. *)
Fixpoint enforce_loop (fuel : nat) (m : t) : t :=
  match fuel with
  | O => m
  | S fuel' =>
      if maxMemoryUsage m <? currentMemoryUsage m then
        match tileAccessOrder m with
        | oldestTile :: _ => enforce_loop fuel' (evict_oldest oldestTile m)
        | [] => m
        end
      else m
  end.

(** [enforceMemoryLimit()].  Every turn takes a tile off the access
    order, so its length bounds the number of turns. *)
Definition enforceMemoryLimit (m : t) : t :=
  enforce_loop (length (tileAccessOrder m)) m.

(** [getOrCreateTile(x, y, layer)]; [now] is the reading of
    [performance.now()] that [tile.access()] takes. *)
Definition getOrCreateTile (now : Z) (x y : Z) (layer : Layer.t) (m : t) : loc * t :=
  let tileX := x `div` tileSize m in
  let tileY := y `div` tileSize m in
  let key := tile_key (Layer.id layer) tileX tileY in
  match tiles m !! key with
  | Some l =>
      let m1 := update_tile l (Tile.access now) m in
      let s := stats m1 in
      (l,
       mk (tileSize m1) (maxTiles m1) (tiles m1) (layerTiles m1) (tileAccessOrder m1)
          (maxMemoryUsage m1) (currentMemoryUsage m1)
          {| totalTilesCreated := totalTilesCreated s;
             totalTilesDestroyed := totalTilesDestroyed s;
             tilesEvicted := tilesEvicted s;
             memoryUsage := memoryUsage s;
             cacheHits := cacheHits s + 1;
             cacheMisses := cacheMisses s |}
          (heap m1))
  | None =>
      let tileWidth :=
        Z.min (tileSize m)
          (Rect.x (Layer.bounds layer) + Rect.width (Layer.bounds layer) - x) in
      let tileHeight :=
        Z.min (tileSize m)
          (Rect.y (Layer.bounds layer) + Rect.height (Layer.bounds layer) - y) in
      let tile := Tile.new x y tileWidth tileHeight layer tileX tileY in
      let l := fresh (dom (heap m)) in
      let s := stats m in
      let m1 :=
        mk (tileSize m) (maxTiles m)
           (<[key := l]> (tiles m))
           (layerTiles_add (Layer.id layer) key (layerTiles m))
           (tileAccessOrder m)
           (maxMemoryUsage m) (currentMemoryUsage m) s
           (<[l := tile]> (heap m)) in
      let m2 := updateTileAccessOrder l m1 in
      let m3 :=
        mk (tileSize m2) (maxTiles m2) (tiles m2) (layerTiles m2) (tileAccessOrder m2)
           (maxMemoryUsage m2)
           (currentMemoryUsage m2 + estimateTileMemoryUsage tile)
           {| totalTilesCreated := totalTilesCreated s + 1;
              totalTilesDestroyed := totalTilesDestroyed s;
              tilesEvicted := tilesEvicted s;
              memoryUsage := memoryUsage s;
              cacheHits := cacheHits s;
              cacheMisses := cacheMisses s + 1 |}
           (heap m2) in
      (l, enforceMemoryLimit m3)
  end.

(** [shouldUpdateTile(tile, layer)] *)
Definition shouldUpdateTile (tile : Tile.t) (layer : Layer.t) : bool :=
  if Tile.isDirty tile then true
  else
    match Layer.dirtyRegion layer with
    | Some region => Tile.intersectsRect tile region
    | None => false
    end.

(** [Math.ceil(a / b)] on integers. *)
Definition ceil_div (a b : Z) : Z := - ((- a) `div` b).

(** The values a [for (v = start; v < stop; v += step)] loop takes. *)
Fixpoint steps (fuel : nat) (v stop step : Z) : list Z :=
  match fuel with
  | O => []
  | S fuel' => if v <? stop then v :: steps fuel' (v + step) stop step else []
  end.

(** With a positive step the loop makes at most [stop - start] turns. *)
Definition for_range (start stop step : Z) : list Z :=
  steps (Z.to_nat (stop - start)) start stop step.

Definition effective_bounds (layer : Layer.t) : Rect.t :=
  default (Layer.bounds layer) (Layer.absoluteBounds layer).

(** [cleanupUnusedTiles(layer)] *)
Definition cleanupUnusedTiles (layer : Layer.t) (m : t) : t :=
  match layerTiles m !! Layer.id layer with
  | None => m
  | Some layerTileKeys =>
      let bounds := effective_bounds layer in
      let startX := (Rect.x bounds `div` tileSize m) * tileSize m in
      let startY := (Rect.y bounds `div` tileSize m) * tileSize m in
      let endX := ceil_div (Rect.x bounds + Rect.width bounds) (tileSize m) * tileSize m in
      let endY := ceil_div (Rect.y bounds + Rect.height bounds) (tileSize m) * tileSize m in
      let outside (key : string) : bool :=
        match tiles m !! key with
        | Some l =>
            match heap m !! l with
            | Some tile =>
                (Tile.x tile <? startX) || (endX <=? Tile.x tile) ||
                (Tile.y tile <? startY) || (endY <=? Tile.y tile)
            | None => false
            end
        | None => false
        end in
      let tilesToRemove := List.filter outside layerTileKeys in
      fold_left (fun m' key => removeTile key m') tilesToRemove m
  end.

(** The body of the two nested loops of [generateTilesForLayer] for the
    grid cell at [(x, y)]. *)
Definition generate_cell (now : Z) (layer : Layer.t) (viewport : Rect.t)
    (x y : Z) (m : t) : loc * t :=
  let '(l, m1) := getOrCreateTile now x y layer m in
  let m2 := update_tile l (Tile.calculatePriority viewport) m1 in
  let dirty :=
    Layer.needsRepaint layer ||
    match heap m2 !! l with
    | Some tile => shouldUpdateTile tile layer
    | None => false
    end in
  (l, if dirty then update_tile l Tile.markDirty m2 else m2).

Fixpoint generate_cells (now : Z) (layer : Layer.t) (viewport : Rect.t)
    (cells : list (Z * Z)) (m : t) : list loc * t :=
  match cells with
  | [] => ([], m)
  | (x, y) :: cells' =>
      let '(l, m1) := generate_cell now layer viewport x y m in
      let '(ls, m2) := generate_cells now layer viewport cells' m1 in
      (l :: ls, m2)
  end.

(** The grid cells in the order the loops visit them: rows of [y], and
    within a row the columns of [x]. *)
Definition grid (layer : Layer.t) (size : Z) : list (Z * Z) :=
  let bounds := effective_bounds layer in
  let startX := (Rect.x bounds `div` size) * size in
  let startY := (Rect.y bounds `div` size) * size in
  let endX := ceil_div (Rect.x bounds + Rect.width bounds) size * size in
  let endY := ceil_div (Rect.y bounds + Rect.height bounds) size * size in
  concat (map (fun y => map (fun x => (x, y)) (for_range startX endX size))
              (for_range startY endY size)).

(** [generateTilesForLayer(layer, viewport)], for a positive tile
    size. *)
Definition generateTilesForLayer (now : Z) (layer : Layer.t) (viewport : Rect.t)
    (m : t) : list loc * t :=
  let '(tiles, m1) := generate_cells now layer viewport (grid layer (tileSize m)) m in
  (tiles, cleanupUnusedTiles layer m1).

(** [markLayerTilesDirty(layerId)] *)
Definition markLayerTilesDirty (layerId : string) (m : t) : t :=
  match layerTiles m !! layerId with
  | Some layerTileKeys =>
      fold_left
        (fun m' key =>
           match tiles m' !! key with
           | Some l => update_tile l Tile.markDirty m'
           | None => m'
           end)
        layerTileKeys m
  | None => m
  end.


End TilingManager.

(** ** Rasterizer.js *)

Module Rasterizer.

(** [record.type] read through the reference. *)
Definition type_of (st : Paint.Store) (r : loc) : string :=
  match Paint.records st !! r with
  | Some rec => Paint.type rec
  | None => "undefined"
  end.

(** [calculateLayerContentHash(layer)] *)
Definition calculateLayerContentHash (st : Paint.Store) (layer : Layer.t) : string :=
  fold_left (fun hash r => hash +:+ "_" +:+ type_of st r)
    (Layer.paintRecords layer)
    (pretty (Z.of_nat (length (Layer.paintRecords layer)))).

(** [generateTileSignature(tile)] *)
Definition generateTileSignature (st : Paint.Store) (tile : Tile.t) : string :=
  let contentHash := calculateLayerContentHash st (Tile.layer tile) in
  Layer.id (Tile.layer tile) +:+ "_" +:+ pretty (Tile.tileX tile) +:+ "_" +:+
  pretty (Tile.tileY tile) +:+ "_" +:+ contentHash.

(** [isRecordInViewport(record, viewport)] on the bounds of the
    record. *)
Definition isRecordInViewport (b viewport : Rect.t) : bool :=
  negb ((Rect.x viewport + Rect.width viewport <? Rect.x b) ||
        (Rect.x b + Rect.width b <? Rect.x viewport) ||
        (Rect.y viewport + Rect.height viewport <? Rect.y b) ||
        (Rect.y b + Rect.height b <? Rect.y viewport)).

Definition assign_bounds (r : loc) (b : loc) (st : Paint.Store) : Paint.Store :=
  Paint.mkStore (alter (fun rec => Paint.set_bounds rec b) r (Paint.records st))
                (Paint.rects st).

(** The body of the loop of [rasterizePaintRecords] for one record. *)
Definition rasterize_record (depth : nat) (viewport : Rect.t) (r : loc)
    (st : Paint.Store) (ctx : Canvas.t) : Paint.Store * Canvas.t * option exn :=
  match Paint.records st !! r with
  | None => (st, ctx, Some (TypeError "Cannot read properties of undefined (reading 'visible')"))
  | Some record =>
      if negb (Paint.visible record) then (st, ctx, None)
      else
        match Paint.rects st !! Paint.bounds record with
        | None => (st, ctx, Some Paint.undefined_bounds)
        | Some b =>
            if isRecordInViewport b viewport then
              let originalBounds := Paint.bounds record in
              let '(translated, st1) :=
                Paint.alloc_rect
                  (Rect.mk (Rect.x b - Rect.x viewport) (Rect.y b - Rect.y viewport)
                           (Rect.width b) (Rect.height b)) st in
              let st2 := assign_bounds r translated st1 in
              let '(ctx1, e) := Paint.execute depth st2 r ctx in
              match e with
              | Some ex => (st2, ctx1, Some ex)
              | None => (assign_bounds r originalBounds st2, ctx1, None)
              end
            else (st, ctx, None)
        end
  end.

(** [rasterizePaintRecords(context, layer, viewport)] over the records
    of the layer; the third component is the exception that ended the call,
    if any. *)
Fixpoint rasterize_records (depth : nat) (viewport : Rect.t) (rs : list loc)
    (st : Paint.Store) (ctx : Canvas.t) : Paint.Store * Canvas.t * option exn :=
  match rs with
  | [] => (st, ctx, None)
  | r :: rs' =>
      let '(st1, ctx1, e) := rasterize_record depth viewport r st ctx in
      match e with
      | Some ex => (st1, ctx1, Some ex)
      | None => rasterize_records depth viewport rs' st1 ctx1
      end
  end.

Definition rasterizePaintRecords (depth : nat) (ctx : Canvas.t) (layer : Layer.t)
    (viewport : Rect.t) (st : Paint.Store) : Paint.Store * Canvas.t * option exn :=
  rasterize_records depth viewport (Layer.paintRecords layer) st ctx.

(** *** The raster cache *)

(** A raster buffer: the object and the size of its canvas. *)
Record RasterBuffer := mkBuffer {
  buffer : loc;
  width : Z;
  height : Z
}.

Record Stats := mkStats {
  totalRasterizations : Z;
  cacheHits : Z;
  cacheMisses : Z;
  cacheEvictions : Z;
  totalRasterTime : Z;
  averageRasterTime : Q;
  pixelsRasterized : Z
}.

(** The fields of the rasterizer that caching reads and writes.
    [rasterCache] is the [Map] from signatures to buffers with its entries
    in insertion order. *)
Record t := mk {
  enableCaching : bool;
  maxCacheSize : Z;
  rasterCache : list (string * RasterBuffer);
  currentCacheSize : Z;
  stats : Stats
}.

(** [new Rasterizer(options)] *)
Definition new (enableCaching : option bool) (maxCacheSize : option Z) : t :=
  {| enableCaching := default true enableCaching;
     maxCacheSize := JS.or_Z maxCacheSize (100 * 1024 * 1024);
     rasterCache := [];
     currentCacheSize := 0;
     stats := mkStats 0 0 0 0 0 0%Q 0 |}.

(** [map.get(key)] *)
Fixpoint map_get (key : string) (entries : list (string * RasterBuffer))
    : option RasterBuffer :=
  match entries with
  | [] => None
  | (k, v) :: entries' => if String.eqb k key then Some v else map_get key entries'
  end.

(** [map.set(key, value)]: the value of an existing key is replaced
    where the key stands, a new key goes to the end. *)
Fixpoint map_set (key : string) (value : RasterBuffer)
    (entries : list (string * RasterBuffer)) : list (string * RasterBuffer) :=
  match entries with
  | [] => [(key, value)]
  | (k, v) :: entries' =>
      if String.eqb k key then (k, value) :: entries'
      else (k, v) :: map_set key value entries'
  end.

(** [map.delete(key)] *)
Definition map_delete (key : string) (entries : list (string * RasterBuffer))
    : list (string * RasterBuffer) :=
  List.filter (fun e => negb (String.eqb e.1 key)) entries.

Definition bufferSize (b : RasterBuffer) : Z := width b * height b * 4.

(** [getCachedRasterBuffer(tile)] *)
Definition getCachedRasterBuffer (st : Paint.Store) (tile : Tile.t) (r : t)
    : option RasterBuffer :=
  map_get (generateTileSignature st tile) (rasterCache r).

(** The loop of [evictLeastRecentlyUsed] over the entries that the
    cache held when the call began. *)
Fixpoint evict_entries (entries : list (string * RasterBuffer))
    (requiredSize freedSpace : Z) (r : t) : t :=
  match entries with
  | [] => r
  | (signature, b) :: entries' =>
      if requiredSize <=? freedSpace then r
      else
        let s := stats r in
        evict_entries entries' requiredSize (freedSpace + bufferSize b)
          (mk (enableCaching r) (maxCacheSize r)
              (map_delete signature (rasterCache r))
              (currentCacheSize r - bufferSize b)
              (mkStats (totalRasterizations s) (cacheHits s) (cacheMisses s)
                       (cacheEvictions s + 1) (totalRasterTime s) (averageRasterTime s)
                       (pixelsRasterized s)))
  end.

(** [evictLeastRecentlyUsed(requiredSize)] *)
Definition evictLeastRecentlyUsed (requiredSize : Z) (r : t) : t :=
  evict_entries (rasterCache r) requiredSize 0 r.

(** [cacheRasterBuffer(tile, buffer)] *)
Definition cacheRasterBuffer (st : Paint.Store) (tile : Tile.t) (b : RasterBuffer)
    (r : t) : t :=
  let signature := generateTileSignature st tile in
  let r1 :=
    if maxCacheSize r <? currentCacheSize r + bufferSize b
    then evictLeastRecentlyUsed (bufferSize b) r
    else r in
  mk (enableCaching r1) (maxCacheSize r1)
     (map_set signature b (rasterCache r1))
     (currentCacheSize r1 + bufferSize b)
     (stats r1).

(** [clearCache()] *)
Definition clearCache (r : t) : t :=
  mk (enableCaching r) (maxCacheSize r) [] 0 (stats r).

(** *** Rasterizing a tile *)

(** [rasterizeTile] is an [async] function.  A call runs up to its
    [await] and returns a promise; an exception raised on the way rejects
    that promise and is never thrown to the caller.  What the call leaves
    to later turns of the event loop is a job: the timer that
    [worker.rasterize] sets, or the rest of [rasterizeTile] behind the
    [await], with the promise of [rasterizeAsync] fulfilled by a buffer or
    rejected with an exception. *)
Inductive Job :=
| timer (worker : nat) (tile : loc) (startTime : Z)
| resumption (tile : loc) (startTime : Z) (settled : RasterBuffer + exn).

(** The rasterizer object: the fields of caching, [enableAntiAliasing],
    the [busy] flags of the worker pool, the drawing surfaces of the raster
    buffers created so far, and the jobs not yet run. *)
Record Engine := mkEngine {
  caching : t;
  enableAntiAliasing : bool;
  workerPool : list bool;
  surfaces : gmap loc Canvas.t;
  jobs : list Job
}.

(** [new Rasterizer(options)] with the worker pool;
    [hardwareConcurrency] is [navigator.hardwareConcurrency]. *)
Definition new_engine (enableCaching : option bool) (maxCacheSize : option Z)
    (enableAntiAliasing : option bool) (maxWorkers hardwareConcurrency : option Z)
    : Engine :=
  {| caching := new enableCaching maxCacheSize;
     enableAntiAliasing := default true enableAntiAliasing;
     workerPool :=
       replicate
         (Z.to_nat (JS.or_Z maxWorkers (Z.min 4 (JS.or_Z hardwareConcurrency 2))))
         false;
     surfaces := ∅;
     jobs := [] |}.

Definition with_caching (r : t) (e : Engine) : Engine :=
  mkEngine r (enableAntiAliasing e) (workerPool e) (surfaces e) (jobs e).

Definition with_surface (b : loc) (ctx : Canvas.t) (e : Engine) : Engine :=
  mkEngine (caching e) (enableAntiAliasing e) (workerPool e)
    (<[b := ctx]> (surfaces e)) (jobs e).

Definition with_busy (worker : nat) (busy : bool) (e : Engine) : Engine :=
  mkEngine (caching e) (enableAntiAliasing e) (<[worker := busy]> (workerPool e))
    (surfaces e) (jobs e).

Definition schedule (job : Job) (e : Engine) : Engine :=
  mkEngine (caching e) (enableAntiAliasing e) (workerPool e) (surfaces e)
    (jobs e ++ [job]).

Definition with_stats (s : Stats) (r : t) : t :=
  mk (enableCaching r) (maxCacheSize r) (rasterCache r) (currentCacheSize r) s.

(** [buffer.getCanvas()] *)
Definition getCanvas (b : RasterBuffer) : Tile.RasterCanvas :=
  {| Tile.element := buffer b; Tile.canvas_width := width b;
     Tile.canvas_height := height b |}.

(** [new RasterBuffer(width, height)] in a browser: a canvas element
    with its context, and the pixel array, whose constructor refuses a
    negative length. *)
Definition new_RasterBuffer (width height : Z) (e : Engine)
    : (RasterBuffer + exn) * Engine :=
  if width * height * 4 <? 0
  then (inr (RangeError ("Invalid typed array length: " +:+ pretty (width * height * 4))), e)
  else
    let b := fresh (dom (surfaces e)) in
    (inl (mkBuffer b width height), with_surface b [] e).

(** [rasterizeSync(tile)] *)
Definition rasterizeSync (depth : nat) (tile : Tile.t) (st : Paint.Store) (e : Engine)
    : (RasterBuffer + exn) * Paint.Store * Engine :=
  match new_RasterBuffer (Tile.width tile) (Tile.height tile) e with
  | (inr ex, e1) => (inr ex, st, e1)
  | (inl rasterBuffer, e1) =>
      let layer := Tile.layer tile in
      let relativeBounds := Tile.getRelativeBounds tile in
      let before :=
        [Canvas.clearRect 0 0 (Tile.width tile) (Tile.height tile);
         Canvas.setImageSmoothingEnabled (enableAntiAliasing e);
         Canvas.setImageSmoothingQuality "high";
         Canvas.save;
         Canvas.translate (- Rect.x relativeBounds) (- Rect.y relativeBounds);
         Canvas.setTransform (Layer.transform layer);
         Canvas.mulGlobalAlpha (Layer.opacity layer)] ++
        match Layer.clipRect layer with
        | Some c =>
            [Canvas.beginPath;
             Canvas.rect (Rect.x c - Rect.x relativeBounds)
                         (Rect.y c - Rect.y relativeBounds)
                         (Rect.width c) (Rect.height c);
             Canvas.clip]
        | None => []
        end in
      let '(st1, ctx1, thrown) :=
        rasterizePaintRecords depth before layer relativeBounds st in
      match thrown with
      | Some ex => (inr ex, st1, with_surface (buffer rasterBuffer) ctx1 e1)
      | None =>
          (inl rasterBuffer, st1,
           with_surface (buffer rasterBuffer) (ctx1 ++ [Canvas.restore]) e1)
      end
  end.

(** [workerPool.find(worker => !worker.busy)], by index. *)
Fixpoint find_free (pool : list bool) : option nat :=
  match pool with
  | [] => None
  | busy :: pool' => if busy then S <$> find_free pool' else Some 0%nat
  end.

(** [rasterizeAsync(tile)] as far as the call itself runs: the executor
    of the promise. *)
Definition rasterizeAsync (depth : nat) (l : loc) (tile : Tile.t) (startTime : Z)
    (st : Paint.Store) (e : Engine) : Paint.Store * Engine :=
  match find_free (workerPool e) with
  | Some availableWorker =>
      (st, schedule (timer availableWorker l startTime) (with_busy availableWorker true e))
  | None =>
      let '(result, st1, e1) := rasterizeSync depth tile st e in
      (st1, schedule (resumption l startTime result) e1)
  end.

(** [rasterizeTile(tile)] as far as the call itself runs; [l] is the
    tile object in the heap of the tiling manager [m] and [tile] its
    fields.  [now] is the reading of the clock. *)
Definition rasterizeTile (depth : nat) (now : Z) (l : loc) (tile : Tile.t)
    (st : Paint.Store) (m : TilingManager.t) (e : Engine)
    : Paint.Store * TilingManager.t * Engine :=
  let r := caching e in
  let s := stats r in
  match (if enableCaching r then getCachedRasterBuffer st tile r else None) with
  | Some cachedBuffer =>
      (st,
       TilingManager.update_tile l
         (fun t0 => Tile.markClean now
                      (Tile.set_rasterizedContent (Some (getCanvas cachedBuffer)) t0)) m,
       with_caching
         (with_stats (mkStats (totalRasterizations s) (cacheHits s + 1) (cacheMisses s)
                        (cacheEvictions s) (totalRasterTime s) (averageRasterTime s)
                        (pixelsRasterized s)) r) e)
  | None =>
      let e1 :=
        with_caching
          (with_stats (mkStats (totalRasterizations s) (cacheHits s) (cacheMisses s + 1)
                         (cacheEvictions s) (totalRasterTime s) (averageRasterTime s)
                         (pixelsRasterized s)) r) e in
      let '(st1, e2) := rasterizeAsync depth l tile now st e1 in
      (st1, m, e2)
  end.

(** [updateRasterStats(startTime, tile)] *)
Definition updateRasterStats (now startTime : Z) (tile : Tile.t) (r : t) : t :=
  let s := stats r in
  let rasterTime := now - startTime in
  with_stats
    (mkStats (totalRasterizations s + 1) (cacheHits s) (cacheMisses s)
       (cacheEvictions s) (totalRasterTime s + rasterTime)
       (inject_Z (totalRasterTime s + rasterTime) / inject_Z (totalRasterizations s + 1))%Q
       (pixelsRasterized s + Tile.width tile * Tile.height tile)) r.

(** A later turn of the event loop runs the first job; the last
    component is what the turn writes to the console.  An exception of
    [rasterizeSync] in the timer is thrown out of the callback: the worker
    stays busy and the promise is never settled.  Behind the [await] a
    rejection is caught by [rasterizeTile] itself. *)
Definition run_job (depth : nat) (now : Z) (job : Job)
    (st : Paint.Store) (m : TilingManager.t) (e : Engine)
    : Paint.Store * TilingManager.t * Engine * list string :=
  match job with
  | timer worker l startTime =>
      match TilingManager.heap m !! l with
      | None => (st, m, e, [])
      | Some tile =>
          match rasterizeSync depth tile st e with
          | (inr _, st1, e1) => (st1, m, e1, [])
          | (inl result, st1, e1) =>
              (st1, m,
               schedule (resumption l startTime (inl result)) (with_busy worker false e1),
               [])
          end
      end
  | resumption l startTime (inl rasterBuffer) =>
      match TilingManager.heap m !! l with
      | None => (st, m, e, [])
      | Some tile =>
          let r1 :=
            if enableCaching (caching e)
            then cacheRasterBuffer st tile rasterBuffer (caching e)
            else caching e in
          (st,
           TilingManager.update_tile l
             (fun t0 => Tile.markClean now
                          (Tile.set_rasterizedContent (Some (getCanvas rasterBuffer)) t0)) m,
           with_caching (updateRasterStats now startTime tile r1) e,
           [])
      end
  | resumption l startTime (inr error) =>
      (st, m, e, ["Rasterizer: 光栅化失败 " +:+ exn_message error])
  end.

End Rasterizer.

(** ** GPUSimulator.js *)

Module GPU.

Record Position := { px : Z; py : Z; pz : Z }.
Record Size := { w : Z; h : Z }.

Record DrawQuad := mkQuad {
  position : Position;
  size : Size;
  transform : Layer.Matrix;
  texture : option loc;
  color : string;
  opacity : JS.number;
  blendMode : string;
  shader : string;
  clipRect : option Rect.t;
  visible : bool;
  needsUpdate : bool;
  gpuHandle : option loc;
  drawCallCount : Z;
  lastDrawTime : Z
}.

(** [getBounds()]: the bounding box of the four transformed corners. *)
Definition getBounds (q : DrawQuad) : Rect.t :=
  let m := transform q in
  let x := px (position q) in
  let y := py (position q) in
  let w := w (size q) in
  let h := h (size q) in
  let cx (x y : Z) := x * Layer.ma m + y * Layer.mc m + Layer.me m in
  let cy (x y : Z) := x * Layer.mb m + y * Layer.md m + Layer.mf m in
  let xs := [cx x y; cx (x + w) y; cx (x + w) (y + h); cx x (y + h)] in
  let ys := [cy x y; cy (x + w) y; cy (x + w) (y + h); cy x (y + h)] in
  let minX := fold_right Z.min (cx x y) xs in
  let maxX := fold_right Z.max (cx x y) xs in
  let minY := fold_right Z.min (cy x y) ys in
  let maxY := fold_right Z.max (cy x y) ys in
  Rect.mk minX minY (maxX - minX) (maxY - minY).

(** [intersectsViewport(viewport)] *)
Definition intersectsViewport (q : DrawQuad) (viewport : Rect.t) : bool :=
  let bounds := getBounds q in
  negb ((Rect.x viewport + Rect.width viewport <? Rect.x bounds) ||
        (Rect.x bounds + Rect.width bounds <? Rect.x viewport) ||
        (Rect.y viewport + Rect.height viewport <? Rect.y bounds) ||
        (Rect.y bounds + Rect.height bounds <? Rect.y viewport)).

(** [currentBatch] *)
Record Batch := mkBatch {
  quads : list loc;
  batch_shader : string;
  batch_texture : option loc;
  batch_blendMode : string
}.

(** A draw command of the command buffer. *)
Record Command := mkCommand {
  command_type : string;
  command_quads : list loc;
  command_shader : string;
  command_texture : option loc;
  command_blendMode : string
}.

Record Stats := mkStats {
  totalDrawCalls : Z;
  totalQuads : Z;
  totalTriangles : Z;
  totalPixels : Z;
  frameTime : Z;
  gpuTime : Q;
  memoryUsage : Z;
  textureSwaps : Z;
  shaderSwitches : Z;
  batchCount : Z
}.

(** The simulator object, the quad objects ([heap]) and the drawing
    surface it renders to. *)
Record t := mk {
  enableBatching : bool;
  drawQuads : list loc;
  usedVRAM : Z;
  commandBuffer : list Command;
  isProcessing : bool;
  stats : Stats;
  currentBatch : Batch;
  currentShader : option string;
  currentTexture : option loc;
  heap : gmap loc DrawQuad;
  context : Canvas.t
}.

(** [new GPUSimulator(options)] *)
Definition new (enableBatching : option bool) : t :=
  {| enableBatching := default true enableBatching;
     drawQuads := [];
     usedVRAM := 0;
     commandBuffer := [];
     isProcessing := false;
     stats := mkStats 0 0 0 0 0 0 0 0 0 0;
     currentBatch := mkBatch [] "default" None "source-over";
     currentShader := None;
     currentTexture := None;
     heap := ∅;
     context := [] |}.

Definition with_batch (g : t) (b : Batch) : t :=
  mk (enableBatching g) (drawQuads g) (usedVRAM g) (commandBuffer g) (isProcessing g)
     (stats g) b (currentShader g) (currentTexture g) (heap g) (context g).

Definition with_stats (g : t) (s : Stats) : t :=
  mk (enableBatching g) (drawQuads g) (usedVRAM g) (commandBuffer g) (isProcessing g)
     s (currentBatch g) (currentShader g) (currentTexture g) (heap g) (context g).

Definition with_context (g : t) (c : Canvas.t) : t :=
  mk (enableBatching g) (drawQuads g) (usedVRAM g) (commandBuffer g) (isProcessing g)
     (stats g) (currentBatch g) (currentShader g) (currentTexture g) (heap g) c.

(** [canBatchWithCurrent(quad)] *)
Definition canBatchWithCurrent (g : t) (quad : DrawQuad) : bool :=
  match quads (currentBatch g) with
  | [] => false
  | _ =>
      String.eqb (batch_shader (currentBatch g)) (shader quad) &&
      bool_decide (batch_texture (currentBatch g) = texture quad) &&
      String.eqb (batch_blendMode (currentBatch g)) (blendMode quad)
  end.

(** [flushCurrentBatch()] *)
Definition flushCurrentBatch (g : t) : t :=
  match quads (currentBatch g) with
  | [] => g
  | _ =>
      let b := currentBatch g in
      let drawCommand :=
        mkCommand "batch" (quads b) (batch_shader b) (batch_texture b) (batch_blendMode b) in
      let s := stats g in
      mk (enableBatching g) (drawQuads g) (usedVRAM g)
         (commandBuffer g ++ [drawCommand]) (isProcessing g)
         (mkStats (totalDrawCalls s) (totalQuads s) (totalTriangles s) (totalPixels s)
                  (frameTime s) (gpuTime s) (memoryUsage s) (textureSwaps s)
                  (shaderSwitches s) (batchCount s + 1))
         (mkBatch [] (batch_shader b) (batch_texture b) (batch_blendMode b))
         (currentShader g) (currentTexture g) (heap g) (context g)
  end.

(** [submitDrawQuad(quad)] for the quad object at [l]. *)
Definition submitDrawQuad (l : loc) (g : t) : t :=
  match heap g !! l with
  | None => g
  | Some quad =>
      if negb (visible quad) then g
      else if enableBatching g && canBatchWithCurrent g quad then
        let b := currentBatch g in
        with_batch g (mkBatch (quads b ++ [l]) (batch_shader b) (batch_texture b)
                              (batch_blendMode b))
      else
        with_batch (flushCurrentBatch g)
          (mkBatch [l] (shader quad) (texture quad) (blendMode quad))
  end.

(** [bindShader(shaderName)] *)
Definition bindShader (shaderName : string) (g : t) : t :=
  if bool_decide (currentShader g = Some shaderName) then g
  else
    let s := stats g in
    mk (enableBatching g) (drawQuads g) (usedVRAM g) (commandBuffer g) (isProcessing g)
       (mkStats (totalDrawCalls s) (totalQuads s) (totalTriangles s) (totalPixels s)
                (frameTime s) (gpuTime s) (memoryUsage s) (textureSwaps s)
                (shaderSwitches s + 1) (batchCount s))
       (currentBatch g) (Some shaderName) (currentTexture g) (heap g) (context g).

(** [bindTexture(texture)] *)
Definition bindTexture (texture : loc) (g : t) : t :=
  if bool_decide (currentTexture g = Some texture) then g
  else
    let s := stats g in
    mk (enableBatching g) (drawQuads g) (usedVRAM g) (commandBuffer g) (isProcessing g)
       (mkStats (totalDrawCalls s) (totalQuads s) (totalTriangles s) (totalPixels s)
                (frameTime s) (gpuTime s) (memoryUsage s) (textureSwaps s + 1)
                (shaderSwitches s) (batchCount s))
       (currentBatch g) (currentShader g) (Some texture) (heap g) (context g).

(** [drawSingleQuad(context, quad, viewport)] *)
Definition drawSingleQuad (now : Z) (l : loc) (g : t) : t :=
  match heap g !! l with
  | None => g
  | Some quad =>
      let ops :=
        [Canvas.save; Canvas.transform (transform quad);
         Canvas.mulGlobalAlpha (opacity quad)] ++
        match clipRect quad with
        | Some c =>
            [Canvas.beginPath;
             Canvas.rect (Rect.x c) (Rect.y c) (Rect.width c) (Rect.height c);
             Canvas.clip]
        | None => []
        end ++
        match texture quad with
        | Some tx => [Canvas.drawImage tx [0; 0; w (size quad); h (size quad)]]
        | None => [Canvas.setFillStyle (color quad);
                   Canvas.fillRect 0 0 (w (size quad)) (h (size quad))]
        end ++
        [Canvas.restore] in
      let quad' :=
        mkQuad (position quad) (size quad) (transform quad) (texture quad) (color quad)
               (opacity quad) (blendMode quad) (shader quad) (clipRect quad)
               (visible quad) false (gpuHandle quad) (drawCallCount quad + 1) now in
      mk (enableBatching g) (drawQuads g) (usedVRAM g) (commandBuffer g) (isProcessing g)
         (stats g) (currentBatch g) (currentShader g) (currentTexture g)
         (<[l := quad']> (heap g)) (context g ++ ops)
  end.

(** The pixels of one quad that fall into the viewport. *)
Definition visible_pixels (viewport : Rect.t) (quad : DrawQuad) : Z :=
  let bounds := getBounds quad in
  let visibleWidth :=
    Z.max 0 (Z.min (Rect.x bounds + Rect.width bounds) (Rect.x viewport + Rect.width viewport)
             - Z.max (Rect.x bounds) (Rect.x viewport)) in
  let visibleHeight :=
    Z.max 0 (Z.min (Rect.y bounds + Rect.height bounds) (Rect.y viewport + Rect.height viewport)
             - Z.max (Rect.y bounds) (Rect.y viewport)) in
  visibleWidth * visibleHeight.

(** [executeBatchDraw(context, command, viewport)] *)
Definition executeBatchDraw (now : Z) (command : Command) (viewport : Rect.t) (g : t) : t :=
  match command_quads command with
  | [] => g
  | _ =>
      let g1 := with_context g
                  (context g ++ [Canvas.setGlobalCompositeOperation (command_blendMode command)]) in
      let g2 := bindShader (command_shader command) g1 in
      let g3 :=
        match command_texture command with
        | Some tx => bindTexture tx g2
        | None => g2
        end in
      let g4 := fold_left (fun g' l => drawSingleQuad now l g') (command_quads command) g3 in
      let n := Z.of_nat (length (command_quads command)) in
      let pixels :=
        fold_left
          (fun sum l =>
             match heap g4 !! l with
             | Some quad => sum + visible_pixels viewport quad
             | None => sum
             end)
          (command_quads command) 0 in
      let s := stats g4 in
      with_stats g4
        (mkStats (totalDrawCalls s + 1) (totalQuads s + n) (totalTriangles s + n * 2)
                 (totalPixels s + pixels) (frameTime s) (gpuTime s) (memoryUsage s)
                 (textureSwaps s) (shaderSwitches s) (batchCount s))
  end.

(** [executeDrawCommand(context, command, viewport)] *)
Definition executeDrawCommand (now : Z) (command : Command) (viewport : Rect.t) (g : t) : t :=
  if String.eqb (command_type command) "batch" then executeBatchDraw now command viewport g
  else g.

(** [processCommandBuffer(context, viewport)] *)
Definition processCommandBuffer (now : Z) (viewport : Rect.t) (g : t) : t :=
  let g1 := fold_left (fun g' c => executeDrawCommand now c viewport g') (commandBuffer g) g in
  mk (enableBatching g1) (drawQuads g1) (usedVRAM g1) [] false
     (stats g1) (currentBatch g1) (currentShader g1) (currentTexture g1) (heap g1)
     (context g1).

(** [resetFrameStats()] *)
Definition resetFrameStats (g : t) : t :=
  with_stats g (mkStats 0 0 0 0 0 0 (usedVRAM g) 0 0 0).

(** The submissions of [renderFrame]: every quad that needs an update
    and meets the viewport, in the order of [drawQuads]. *)
Definition submit_all (viewport : Rect.t) (g : t) : t :=
  fold_left
    (fun g' l =>
       match heap g' !! l with
       | Some quad =>
           if needsUpdate quad && intersectsViewport quad viewport
           then submitDrawQuad l g' else g'
       | None => g'
       end)
    (drawQuads g) g.

(** [renderFrame(context, viewport)]; [now0], [now1] and [now] are the
    readings of the clock at the start, at the end and while drawing. *)
Definition renderFrame (now0 now1 now : Z) (viewport : Rect.t) (g : t) : Stats * t :=
  let g1 := resetFrameStats g in
  let g2 := submit_all viewport g1 in
  let g3 := flushCurrentBatch g2 in
  let g4 := processCommandBuffer now viewport g3 in
  let s := stats g4 in
  let s' :=
    mkStats (totalDrawCalls s) (totalQuads s) (totalTriangles s) (totalPixels s)
            (now1 - now0) (inject_Z (now1 - now0) * (7 # 10))%Q (usedVRAM g4)
            (textureSwaps s) (shaderSwitches s) (batchCount s) in
  (s', with_stats g4 s').

(** The [options] of [new DrawQuad(options)]; [None] is an absent
    property. *)
Record QuadOptions := {
  o_position : option Position;
  o_size : option Size;
  o_transform : option Layer.Matrix;
  o_texture : option loc;
  o_color : option string;
  o_opacity : option JS.number;
  o_blendMode : option string;
  o_shader : option string;
  o_clipRect : option Rect.t;
  o_visible : option bool
}.

(** [new DrawQuad(options)] *)
Definition new_DrawQuad (o : QuadOptions) : DrawQuad :=
  mkQuad (default (Build_Position 0 0 0) (o_position o))
         (default (Build_Size 100 100) (o_size o))
         (default Layer.identity (o_transform o))
         (o_texture o)
         (JS.or_string (o_color o) "rgba(255, 255, 255, 1)")
         (JS.or_number (o_opacity o) (JS.Fin 1))
         (JS.or_string (o_blendMode o) "source-over")
         (JS.or_string (o_shader o) "default")
         (o_clipRect o)
         (default true (o_visible o))
         true None 0 0.

(** [createDrawQuad(options)] *)
Definition createDrawQuad (o : QuadOptions) (g : t) : loc * t :=
  let l := fresh (dom (heap g)) in
  (l,
   mk (enableBatching g) (drawQuads g ++ [l]) (usedVRAM g) (commandBuffer g)
      (isProcessing g) (stats g) (currentBatch g) (currentShader g) (currentTexture g)
      (<[l := new_DrawQuad o]> (heap g)) (context g)).

(** [cleanup()]: the quads, the command buffer and the current batch
    are emptied and the memory counter is reset. *)
Definition cleanup (g : t) : t :=
  let b := currentBatch g in
  mk (enableBatching g) [] 0 [] (isProcessing g) (stats g)
     (mkBatch [] (batch_shader b) (batch_texture b) (batch_blendMode b))
     (currentShader g) (currentTexture g) (heap g) (context g).

End GPU.

(** ** Compositor.js *)

Module Compositor.

Record Stats := mkStats {
  layersComposited : Z;
  tilesCreated : Z;
  tilesRasterized : Z;
  compositorTime : Z;
  drawCalls : Z;
  memoryUsage : Z
}.

(** The [options] of [composite]. *)
Record Options := {
  o_viewport : option Rect.t;
  o_incremental : bool;
  o_dirtyRegions : list Rect.t
}.

Section Compositor.

(** Everything else the stages of a frame read and write: the tiling
    manager, the rasterizer with its cache, the layer and record
    objects. *)
Context {World : Type}.

(** The compositor object with its canvas; [context] is the drawing
    surface of the canvas and [console] the lines written to the
    console. *)
Record t := mk {
  canvas_width : Z;
  canvas_height : Z;
  context : Canvas.t;
  console : list string;
  enableTiling : bool;
  enableRasterization : bool;
  currentLayerTree : option LayerTree.t;
  viewport : Rect.t;
  debugMode : bool;
  stats : Stats;
  world : World
}.

(** A method of the compositor: it ends by returning or by throwing,
    and leaves a state behind in both cases. *)
Definition M (A : Type) : Type := t -> (A + exn) * t.

Definition ret {A} (a : A) : M A := fun c => (inl a, c).

Definition bind {A B} (m : M A) (k : A -> M B) : M B :=
  fun c =>
    match m c with
    | (inl a, c') => k a c'
    | (inr e, c') => (inr e, c')
    end.

(** [try { body } catch (error) { handler(error) }] *)
Definition try_catch {A} (body : M A) (handler : exn -> M A) : M A :=
  fun c =>
    match body c with
    | (inl a, c') => (inl a, c')
    | (inr e, c') => handler e c'
    end.

Definition modify (f : t -> t) : M unit := fun c => (inl tt, f c).

Definition get {A} (f : t -> A) : M A := fun c => (inl (f c), c).

Local Notation "'let!' x := m 'in' k" := (bind m (fun x => k))
  (at level 10, x name, m at level 100, k at level 200).
Local Notation "m >>> k" := (bind m (fun _ => k))
  (at level 100, k at level 200, right associativity).

Definition throw {A} (e : exn) : M A := fun c => (inr e, c).

(** [calculateAbsoluteBounds(layer)]; [parent] is [layer.parent], which
    the traversal has visited before. *)
Definition calculateAbsoluteBounds (parent : option Layer.t) (layer : Layer.t) : Rect.t :=
  match parent with
  | None => Layer.bounds layer
  | Some p =>
      let pb := default (Layer.bounds p) (Layer.absoluteBounds p) in
      let m := Layer.transform layer in
      let b := Layer.bounds layer in
      Rect.mk
        (Rect.x b * Layer.ma m + Rect.y b * Layer.mc m + Layer.me m + Rect.x pb)
        (Rect.x b * Layer.mb m + Rect.y b * Layer.md m + Layer.mf m + Rect.y pb)
        (Rect.width b) (Rect.height b)
  end.

(** [isLayerVisibleInViewport(layer)] *)
Definition isLayerVisibleInViewport (vp : Rect.t) (layer : Layer.t) : bool :=
  let b := default (Layer.bounds layer) (Layer.absoluteBounds layer) in
  negb ((Rect.x vp + Rect.width vp <? Rect.x b)
        || (Rect.x b + Rect.width b <? Rect.x vp)
        || (Rect.y vp + Rect.height vp <? Rect.y b)
        || (Rect.y b + Rect.height b <? Rect.y vp))
  && JS.gt_q (Layer.opacity layer) 0%Q.

(** [sortLayerChildren(layer)]: the comparator orders by [zIndex] and
    breaks ties by the position in [children], which is the stable sort
    by [zIndex]; then the same below every child. *)
Fixpoint sortLayerChildren (layer : Layer.t) : Layer.t :=
  Layer.set_children layer
    (Layer.sort_by_zIndex (map sortLayerChildren (Layer.children layer))).

(** The callback of [preprocessLayers] carried by [traverseLayers] from
    [layer] down: the layer as the traversal leaves it, and the number of
    layers found visible.  A child reads of its parent only the absolute
    bounds, so the children are visited here as they stand and sorted
    afterwards; the source sorts first, and sorts the whole subtree again
    at every visit, which changes nothing once it is sorted. *)
Fixpoint visit (vp : Rect.t) (parent : option Layer.t) (layer : Layer.t) : Layer.t * Z :=
  let absolute := calculateAbsoluteBounds parent layer in
  let placed :=
    Layer.mk (Layer.id layer) (Layer.zIndex layer) (Layer.opacity layer)
      (Layer.compositingMode layer) (Layer.transform layer) (Layer.bounds layer)
      (Layer.clipRect layer) (Layer.masksToBounds layer) (Layer.paintRecords layer)
      (Layer.needsRepaint layer) (Layer.dirtyRegion layer) (Layer.isFixed layer)
      (Layer.isScrollContainer layer) (Layer.isComposited layer)
      (Layer.backingStore layer) (Layer.lastPaintTime layer) (Layer.layoutNode layer)
      (Layer.compositingReason layer) (Some absolute) (Layer.isVisibleInViewport layer)
      (Layer.children layer) in
  let visible := isLayerVisibleInViewport vp placed in
  let below := map (visit vp (Some placed)) (Layer.children layer) in
  (Layer.mk (Layer.id layer) (Layer.zIndex layer) (Layer.opacity layer)
     (Layer.compositingMode layer) (Layer.transform layer) (Layer.bounds layer)
     (Layer.clipRect layer) (Layer.masksToBounds layer) (Layer.paintRecords layer)
     (Layer.needsRepaint layer) (Layer.dirtyRegion layer) (Layer.isFixed layer)
     (Layer.isScrollContainer layer) (Layer.isComposited layer)
     (Layer.backingStore layer) (Layer.lastPaintTime layer) (Layer.layoutNode layer)
     (Layer.compositingReason layer) (Some absolute) (Some visible)
     (Layer.sort_by_zIndex (map (fun r => sortLayerChildren r.1) below)),
   fold_left Z.add (map snd below) (if visible then 1 else 0)).

(** [preprocessLayers(layerTree)]; [layerTree] is [None] for [null].  The
    tree object is the one the compositor holds as [currentLayerTree]. *)
Definition preprocessLayers (layerTree : option LayerTree.t) : M unit :=
  match layerTree with
  | None => throw (TypeError "Cannot read properties of null (reading 'traverseLayers')")
  | Some tree =>
      modify (fun c =>
        let visited := visit (viewport c) None (LayerTree.root tree) in
        let s := stats c in
        mk (canvas_width c) (canvas_height c) (context c) (console c)
           (enableTiling c) (enableRasterization c)
           (Some (LayerTree.mk visited.1 (LayerTree.allLayers tree)
                    (LayerTree.nextLayerId tree)))
           (viewport c) (debugMode c)
           (mkStats (layersComposited s + visited.2) (tilesCreated s)
                    (tilesRasterized s) (compositorTime s) (drawCalls s)
                    (memoryUsage s))
           (world c))
  end.

(** A call on the drawing surface. *)
Definition draw (ops : list Canvas.Op) : M unit :=
  modify (fun c =>
    mk (canvas_width c) (canvas_height c) (context c ++ ops) (console c)
       (enableTiling c) (enableRasterization c) (currentLayerTree c) (viewport c)
       (debugMode c) (stats c) (world c)).

Definition log (line : string) : M unit :=
  modify (fun c =>
    mk (canvas_width c) (canvas_height c) (context c) (console c ++ [line])
       (enableTiling c) (enableRasterization c) (currentLayerTree c) (viewport c)
       (debugMode c) (stats c) (world c)).

(** [resetStats()] *)
Definition resetStats : M unit :=
  modify (fun c =>
    mk (canvas_width c) (canvas_height c) (context c) (console c)
       (enableTiling c) (enableRasterization c) (currentLayerTree c) (viewport c)
       (debugMode c) (mkStats 0 0 0 0 0 0) (world c)).

(** The operations that [handleCompositorError(error)] performs on the
    surface. *)
Definition diagnostic (c : t) (error : exn) : list Canvas.Op :=
  [Canvas.clearRect 0 0 (canvas_width c) (canvas_height c);
   Canvas.setFillStyle "#ff0000";
   Canvas.setFont "16px monospace";
   Canvas.fillText ("合成器错误: " +:+ exn_message error) 10 30 None].

(** [handleCompositorError(error)] *)
Definition handleCompositorError (error : exn) : M unit :=
  let! w := get canvas_width in
  let! h := get canvas_height in
  draw [Canvas.clearRect 0 0 w h] >>>
  draw [Canvas.setFillStyle "#ff0000"] >>>
  draw [Canvas.setFont "16px monospace"] >>>
  draw [Canvas.fillText ("合成器错误: " +:+ exn_message error) 10 30 None].

(** The statements of [composite] before the [try]. *)
Definition prologue (layerTree : option LayerTree.t) (options : Options) : M unit :=
  resetStats >>>
  modify (fun c =>
    mk (canvas_width c) (canvas_height c) (context c) (console c)
       (enableTiling c) (enableRasterization c) layerTree
       (default (viewport c) (o_viewport options))
       (debugMode c) (stats c) (world c)).

(** The statements of [composite] after the [try]. *)
Definition epilogue (now0 now1 : Z) : M Stats :=
  modify (fun c =>
    let s := stats c in
    mk (canvas_width c) (canvas_height c) (context c) (console c)
       (enableTiling c) (enableRasterization c) (currentLayerTree c) (viewport c)
       (debugMode c)
       (mkStats (layersComposited s) (tilesCreated s) (tilesRasterized s)
                (now1 - now0) (drawCalls s) (memoryUsage s))
       (world c)) >>>
  let! debug := get debugMode in
  (if debug then log "合成完成:" else ret tt) >>>
  get stats.

End Compositor.

(** *** Drawing the layers directly (tiling switched off) *)

(** [record.bounds.x += dx; record.bounds.y += dy] on the bounds object
    [b]. *)
Definition move_bounds (b : loc) (dx dy : Z) (st : Paint.Store) : Paint.Store :=
  Paint.mkStore (Paint.records st)
    (alter (fun rect => Rect.mk (Rect.x rect + dx) (Rect.y rect + dy)
                                (Rect.width rect) (Rect.height rect))
       b (Paint.rects st)).

(** The body of the loop of [renderPaintRecords(layer)] for one record.
    [originalBounds] is the bounds object itself, so the assignment
    [record.bounds = originalBounds] after [execute] changes nothing. *)
Definition render_record (depth : nat) (layer : Layer.t) (r : loc)
    (st : Paint.Store) (ctx : Canvas.t) : Paint.Store * Canvas.t * option exn :=
  match Paint.records st !! r with
  | None => (st, ctx, Some (TypeError "Cannot read properties of undefined (reading 'visible')"))
  | Some record =>
      if negb (Paint.visible record) then (st, ctx, None)
      else
        match Paint.rects st !! Paint.bounds record with
        | None => (st, ctx, Some Paint.undefined_bounds)
        | Some _ =>
            let st1 :=
              move_bounds (Paint.bounds record)
                (Rect.x (Layer.bounds layer)) (Rect.y (Layer.bounds layer)) st in
            let '(ctx1, e) := Paint.execute depth st1 r ctx in
            (st1, ctx1, e)
        end
  end.

Fixpoint render_records (depth : nat) (layer : Layer.t) (rs : list loc)
    (st : Paint.Store) (ctx : Canvas.t) : Paint.Store * Canvas.t * option exn :=
  match rs with
  | [] => (st, ctx, None)
  | r :: rs' =>
      let '(st1, ctx1, e) := render_record depth layer r st ctx in
      match e with
      | Some ex => (st1, ctx1, Some ex)
      | None => render_records depth layer rs' st1 ctx1
      end
  end.

(** [renderPaintRecords(layer)]; the third component is the exception
    that ended the call, if any. *)
Definition renderPaintRecords (depth : nat) (layer : Layer.t)
    (st : Paint.Store) (ctx : Canvas.t) : Paint.Store * Canvas.t * option exn :=
  render_records depth layer (Layer.paintRecords layer) st ctx.

(** What [renderLayers] works on: the objects of the heap, the surface
    and [stats.drawCalls]. *)
Record Direct := mkDirect {
  store : Paint.Store;
  surface : Canvas.t;
  direct_drawCalls : Z
}.

(** [renderLayers(layer, options)]; the second component is the
    exception that ended the call, if any.  Nothing catches it on the way
    up, so the [restore] of the layers around the failing record is not
    reached. *)
Fixpoint renderLayers (depth : nat) (layer : Layer.t) (d : Direct)
    {struct layer} : Direct * option exn :=
  if negb (default false (Layer.isVisibleInViewport layer)) then (d, None)
  else
    let before :=
      [Canvas.save; Canvas.setTransform (Layer.transform layer)] ++
      match Layer.clipRect layer with
      | Some c =>
          [Canvas.beginPath;
           Canvas.rect (Rect.x c) (Rect.y c) (Rect.width c) (Rect.height c);
           Canvas.clip]
      | None => []
      end ++
      [Canvas.mulGlobalAlpha (Layer.opacity layer)] in
    let '(st1, ctx1, e) :=
      renderPaintRecords depth layer (store d) (surface d ++ before) in
    match e with
    | Some ex => (mkDirect st1 ctx1 (direct_drawCalls d), Some ex)
    | None =>
        let children :=
          fix children (cs : list Layer.t) (d : Direct) {struct cs} : Direct * option exn :=
            match cs with
            | [] => (d, None)
            | child :: cs' =>
                let '(d1, e1) := renderLayers depth child d in
                match e1 with
                | Some ex => (d1, Some ex)
                | None => children cs' d1
                end
            end in
        let '(d2, e2) := children (Layer.children layer) (mkDirect st1 ctx1 (direct_drawCalls d)) in
        match e2 with
        | Some ex => (d2, Some ex)
        | None =>
            (mkDirect (store d2) (surface d2 ++ [Canvas.restore])
               (direct_drawCalls d2 + Z.of_nat (length (Layer.paintRecords layer))),
             None)
        end
    end.

(** *** The stages of a frame *)

(** What the compositor owns besides its canvas: the paint records of
    the layers, the tiling manager and the rasterizer. *)
Record World := mkWorld {
  paint : Paint.Store;
  tilingManager : TilingManager.t;
  rasterizer : Rasterizer.Engine
}.

(** The [options] of the constructor. *)
Record Settings := {
  s_enableTiling : option bool;
  s_enableRasterization : option bool;
  s_tileSize : option Z;
  s_maxTiles : option Z;
  s_enableCaching : option bool;
  s_maxCacheSize : option Z
}.

(** [new Compositor(canvas, options)] for a canvas of the given size;
    [hardwareConcurrency] is [navigator.hardwareConcurrency], which the
    rasterizer reads, and [st] holds the paint records that exist. *)
Definition new (width height : Z) (o : Settings) (hardwareConcurrency : option Z)
    (st : Paint.Store) : t (World := World) :=
  {| canvas_width := width;
     canvas_height := height;
     context := [];
     console := [];
     enableTiling := default true (s_enableTiling o);
     enableRasterization := default true (s_enableRasterization o);
     currentLayerTree := None;
     viewport := Rect.mk 0 0 width height;
     debugMode := false;
     stats := mkStats 0 0 0 0 0 0;
     world :=
       mkWorld st
         (TilingManager.new (Some (JS.or_Z (s_tileSize o) 256))
            (Some (JS.or_Z (s_maxTiles o) 1000)) None)
         (Rasterizer.new_engine (Some (default true (s_enableCaching o)))
            (Some (JS.or_Z (s_maxCacheSize o) (100 * 1024 * 1024)))
            None None hardwareConcurrency) |}.

Local Notation "'let!' x := m 'in' k" := (bind m (fun x => k))
  (at level 10, x name, m at level 100, k at level 200).
Local Notation "m >>> k" := (bind m (fun _ => k))
  (at level 100, k at level 200, right associativity).

Definition with_world (w : World) : M (World := World) unit :=
  modify (fun c =>
    mk (canvas_width c) (canvas_height c) (context c) (console c)
       (enableTiling c) (enableRasterization c) (currentLayerTree c) (viewport c)
       (debugMode c) (stats c) w).

Definition with_stats (s : Stats) : M (World := World) unit :=
  modify (fun c =>
    mk (canvas_width c) (canvas_height c) (context c) (console c)
       (enableTiling c) (enableRasterization c) (currentLayerTree c) (viewport c)
       (debugMode c) s (world c)).

(** The layers in the order in which [traverseLayers] calls its
    callback. *)
Fixpoint traversal (layer : Layer.t) : list Layer.t :=
  layer :: concat (map traversal (Layer.children layer)).

(** The callback of [generateTiles] on one layer; [tiles] is the array
    being filled. *)
Definition generate_for (now : Z) (viewport : Rect.t)
    (acc : list loc * TilingManager.t) (layer : Layer.t) : list loc * TilingManager.t :=
  if negb (default false (Layer.isVisibleInViewport layer)) || negb (Layer.needsRepaint layer)
  then acc
  else
    let '(layerTiles, m) := TilingManager.generateTilesForLayer now layer viewport acc.2 in
    (acc.1 ++ layerTiles, m).

(** [generateTiles(layerTree)]; the tiles are objects of the heap of the
    tiling manager. *)
Definition generateTiles (now : Z) (layerTree : option LayerTree.t)
    : M (World := World) (list loc) :=
  match layerTree with
  | None => throw (TypeError "Cannot read properties of null (reading 'traverseLayers')")
  | Some tree =>
      let! vp := get viewport in
      let! w := get world in
      let generated :=
        fold_left (generate_for now vp) (traversal (LayerTree.root tree))
          ([], tilingManager w) in
      with_world (mkWorld (paint w) generated.2 (rasterizer w)) >>>
      let! s := get stats in
      with_stats (mkStats (layersComposited s) (Z.of_nat (length generated.1))
                    (tilesRasterized s) (compositorTime s) (drawCalls s)
                    (memoryUsage s)) >>>
      let! debug := get debugMode in
      (if debug
       then log ("生成了 " +:+ pretty (Z.of_nat (length generated.1)) +:+ " 个分块")
       else ret tt) >>>
      ret generated.1
  end.

(** The body of the loop of [rasterizeTiles] for one tile.  The call of
    [rasterizeTile] returns a promise, which is dropped. *)
Definition rasterize_one (depth : nat) (now : Z) (l : loc) : M (World := World) unit :=
  let! w := get world in
  match TilingManager.heap (tilingManager w) !! l with
  | None => throw (TypeError "Cannot read properties of undefined (reading 'needsRasterization')")
  | Some tile =>
      if Tile.needsRasterization tile then
        let '(st, m, e) :=
          Rasterizer.rasterizeTile depth now l tile (paint w) (tilingManager w)
            (rasterizer w) in
        with_world (mkWorld st m e) >>>
        let! s := get stats in
        with_stats (mkStats (layersComposited s) (tilesCreated s)
                      (tilesRasterized s + 1) (compositorTime s) (drawCalls s)
                      (memoryUsage s))
      else ret tt
  end.

Fixpoint rasterize_each (depth : nat) (now : Z) (tiles : list loc)
    : M (World := World) unit :=
  match tiles with
  | [] => ret tt
  | l :: tiles' => rasterize_one depth now l >>> rasterize_each depth now tiles'
  end.

(** [rasterizeTiles(tiles)] *)
Definition rasterizeTiles (depth : nat) (now : Z) (tiles : list loc)
    : M (World := World) unit :=
  rasterize_each depth now tiles >>>
  let! debug := get debugMode in
  let! s := get stats in
  if debug
  then log ("光栅化了 " +:+ pretty (tilesRasterized s) +:+ " 个分块")
  else ret tt.

(** [isTileVisible(tile)] *)
Definition isTileVisible (vp : Rect.t) (tile : Tile.t) : bool :=
  negb ((Rect.x vp + Rect.width vp <? Tile.x tile)
        || (Tile.x tile + Tile.width tile <? Rect.x vp)
        || (Rect.y vp + Rect.height vp <? Tile.y tile)
        || (Tile.y tile + Tile.height tile <? Rect.y vp)).

(** [drawTile(tile)] *)
Definition drawTile (tile : Tile.t) : M (World := World) unit :=
  match Tile.rasterizedContent tile with
  | None => ret tt
  | Some canvas =>
      draw [Canvas.save;
            Canvas.setTransform (Layer.transform (Tile.layer tile));
            Canvas.mulGlobalAlpha (Layer.opacity (Tile.layer tile));
            Canvas.drawImage (Tile.element canvas)
              [Tile.x tile; Tile.y tile; Tile.width tile; Tile.height tile];
            Canvas.restore]
  end.

Section Collation.

(** [a.localeCompare(b)], which the environment provides. *)
Variable localeCompare : string -> string -> Z.

(** The comparator of [renderTiles]. *)
Definition compare_tiles (a b : Tile.t) : Z :=
  if negb (Layer.zIndex (Tile.layer a) =? Layer.zIndex (Tile.layer b))
  then Layer.zIndex (Tile.layer a) - Layer.zIndex (Tile.layer b)
  else localeCompare (Layer.id (Tile.layer a)) (Layer.id (Tile.layer b)).

(** [tiles.sort(comparator)]: the sort of an array is stable. *)
Fixpoint insert_tile (a : loc * Tile.t) (sorted : list (loc * Tile.t))
    : list (loc * Tile.t) :=
  match sorted with
  | [] => [a]
  | b :: sorted' =>
      if compare_tiles a.2 b.2 <? 0 then a :: b :: sorted'
      else b :: insert_tile a sorted'
  end.

Definition sort_tiles (tiles : list (loc * Tile.t)) : list (loc * Tile.t) :=
  fold_left (fun sorted a => insert_tile a sorted) tiles [].

(** The tile objects behind the references of an array. *)
Definition resolve (m : TilingManager.t) (tiles : list loc) : option (list (loc * Tile.t)) :=
  mapM (fun l => (fun tile => (l, tile)) <$> TilingManager.heap m !! l) tiles.

Definition draw_tiles_step (tile : Tile.t) : M (World := World) unit :=
  let! vp := get viewport in
  if bool_decide (Tile.rasterizedContent tile <> None) && isTileVisible vp tile then
    drawTile tile >>>
    let! s := get stats in
    with_stats (mkStats (layersComposited s) (tilesCreated s) (tilesRasterized s)
                  (compositorTime s) (drawCalls s + 1) (memoryUsage s))
  else ret tt.

Fixpoint draw_tiles (tiles : list Tile.t) : M (World := World) unit :=
  match tiles with
  | [] => ret tt
  | tile :: tiles' => draw_tiles_step tile >>> draw_tiles tiles'
  end.

(** [renderTiles(tiles, options)]; the array is sorted in place, and the
    result is the array as the caller finds it afterwards. *)
Definition renderTiles (tiles : list loc) : M (World := World) (list loc) :=
  let! w := get world in
  match resolve (tilingManager w) tiles with
  | None => throw (TypeError "Cannot read properties of undefined (reading 'layer')")
  | Some objects =>
      let sorted := sort_tiles objects in
      draw_tiles (map snd sorted) >>>
      ret (map fst sorted)
  end.

(** [renderStats()]; [compositorTime] is an integer, which [toFixed(2)]
    prints with two zero decimals. *)
Definition renderStats : M (World := World) unit :=
  let! s := get stats in
  let lines :=
    ["层: " +:+ pretty (layersComposited s);
     "分块: " +:+ pretty (tilesCreated s);
     "光栅化: " +:+ pretty (tilesRasterized s);
     "绘制调用: " +:+ pretty (drawCalls s);
     "时间: " +:+ pretty (compositorTime s) +:+ ".00ms"] in
  draw [Canvas.setFillStyle "rgba(0, 0, 0, 0.8)";
        Canvas.fillRect 10 10 200 (Z.of_nat (length lines) * 15 + 10);
        Canvas.setFillStyle "#ffffff"] >>>
  draw (imap (fun index stat =>
                Canvas.fillText stat 15 (25 + Z.of_nat index * 15) None) lines).

(** [renderDebugInfo(layerTree, tiles)] *)
Definition renderDebugInfo (layerTree : option LayerTree.t) (tiles : option (list loc))
    : M (World := World) unit :=
  draw [Canvas.save;
        Canvas.setStrokeStyle (Some "rgba(255, 0, 0, 0.5)");
        Canvas.setLineWidth 1;
        Canvas.setFont "12px monospace"] >>>
  let! w := get world in
  match tiles with
  | None => ret tt
  | Some ts =>
      match resolve (tilingManager w) ts with
      | None => throw (TypeError "Cannot read properties of undefined (reading 'x')")
      | Some objects =>
          draw (concat (map (fun tile : loc * Tile.t =>
                  [Canvas.strokeRect (Tile.x tile.2) (Tile.y tile.2)
                     (Tile.width tile.2) (Tile.height tile.2);
                   Canvas.setFillStyle "rgba(255, 0, 0, 0.8)";
                   Canvas.fillText
                     ("Tile(" +:+ pretty (Tile.tileX tile.2) +:+ "," +:+
                      pretty (Tile.tileY tile.2) +:+ ")")
                     (Tile.x tile.2 + 2) (Tile.y tile.2 + 12) None]) objects))
      end
  end >>>
  match layerTree with
  | None => throw (TypeError "Cannot read properties of null (reading 'traverseLayers')")
  | Some tree =>
      draw (concat (map (fun layer =>
              if default false (Layer.isVisibleInViewport layer) then
                let bounds := default (Layer.bounds layer) (Layer.absoluteBounds layer) in
                [Canvas.setStrokeStyle (Some "rgba(0, 255, 0, 0.3)");
                 Canvas.strokeRect (Rect.x bounds) (Rect.y bounds)
                   (Rect.width bounds) (Rect.height bounds);
                 Canvas.setFillStyle "rgba(0, 255, 0, 0.8)";
                 Canvas.fillText
                   ("Layer(" +:+ Layer.id layer +:+ ") z:" +:+ pretty (Layer.zIndex layer))
                   (Rect.x bounds + 2) (Rect.y bounds + 12) None]
              else []) (traversal (LayerTree.root tree))))
  end >>>
  renderStats >>>
  draw [Canvas.restore].

(** [renderLayers(layerTree.root, options)] on the surface and the
    records of the compositor. *)
Definition renderLayers_root (depth : nat) (layerTree : option LayerTree.t)
    : M (World := World) unit :=
  match layerTree with
  | None => throw (TypeError "Cannot read properties of null (reading 'root')")
  | Some tree =>
      fun c =>
        let w := world c in
        let s := stats c in
        let '(d, thrown) :=
          renderLayers depth (LayerTree.root tree)
            (mkDirect (paint w) (context c) (drawCalls s)) in
        let c' :=
          mk (canvas_width c) (canvas_height c) (surface d) (console c)
             (enableTiling c) (enableRasterization c) (currentLayerTree c) (viewport c)
             (debugMode c)
             (mkStats (layersComposited s) (tilesCreated s) (tilesRasterized s)
                      (compositorTime s) (direct_drawCalls d) (memoryUsage s))
             (mkWorld (store d) (tilingManager w) (rasterizer w)) in
        match thrown with
        | Some ex => (inr ex, c')
        | None => (inl tt, c')
        end
  end.

(** [renderFinalComposition(layerTree, tiles, options)]; [tiles] is
    [None] for [null]. *)
Definition renderFinalComposition (depth : nat) (layerTree : option LayerTree.t)
    (tiles : option (list loc)) (options : Options) : M (World := World) unit :=
  let! width := get canvas_width in
  let! height := get canvas_height in
  draw [Canvas.clearRect 0 0 width height] >>>
  let! tiling := get enableTiling in
  let! tiles' :=
    match tiles with
    | Some ts =>
        if tiling then (let! sorted := renderTiles ts in ret (Some sorted))
        else renderLayers_root depth layerTree >>> ret tiles
    | None => renderLayers_root depth layerTree >>> ret tiles
    end in
  let! debug := get debugMode in
  if debug then renderDebugInfo layerTree tiles' else ret tt.

(** The block guarded by [try] in [composite].  The later stages get the
    tree object as the first stage has left it.  [now] is the reading of
    the clock during the stages. *)
Definition stages (depth : nat) (now : Z) (layerTree : option LayerTree.t)
    (options : Options) : M (World := World) unit :=
  preprocessLayers layerTree >>>
  let! tree := get currentLayerTree in
  let! tiling := get enableTiling in
  let! tiles := (if tiling
                 then (let! ts := generateTiles now tree in ret (Some ts))
                 else ret None) in
  let! rasterization := get enableRasterization in
  match tiles with
  | Some ts => if rasterization then rasterizeTiles depth now ts else ret tt
  | None => ret tt
  end >>>
  renderFinalComposition depth tree tiles options.

(** [composite(layerTree, options)]; [now0] and [now1] are the first and
    the last reading of [performance.now()]. *)
Definition composite (depth : nat) (now0 now now1 : Z) (layerTree : option LayerTree.t)
    (options : Options) : M (World := World) Stats :=
  prologue layerTree options >>>
  try_catch (stages depth now layerTree options)
    (fun error =>
       log ("Compositor: 合成失败 " +:+ exn_message error) >>>
       handleCompositorError error) >>>
  epilogue now0 now1.

End Collation.

End Compositor.

(** ** RenderEngine.js: the GPU stage *)

Module RenderEngine.

(** The layers in the order in which [traverseLayers] calls its
    callback: a layer, then the subtrees of its children. *)
Fixpoint traversal (layer : Layer.t) : list Layer.t :=
  layer :: concat (map traversal (Layer.children layer)).

(** [convertPaintRecordToDrawQuad(paintRecord, layer)].  No class of
    paint record has a property [x], [y], [width], [height], [color],
    [blendMode], [shader] or [texture], so these reads give [undefined] and
    the defaults apply. *)
Definition convertPaintRecordToDrawQuad (paintRecord : Paint.t) (layer : Layer.t)
    : GPU.QuadOptions :=
  {| GPU.o_position :=
       Some (GPU.Build_Position 0 0 (JS.or_Z (Some (Layer.zIndex layer)) 0));
     GPU.o_size := Some (GPU.Build_Size 100 100);
     GPU.o_transform := Some (default Layer.identity (Paint.transform paintRecord));
     GPU.o_texture := None;
     GPU.o_color := Some "rgba(0, 0, 0, 1)";
     GPU.o_opacity := Some (JS.or_number (Some (Layer.opacity layer)) (JS.Fin 1));
     GPU.o_blendMode := Some "source-over";
     GPU.o_shader := Some "default";
     GPU.o_clipRect := Paint.clipRect paintRecord;
     GPU.o_visible := Some true |}.

(** The loop over the records of one layer; the third component is the
    exception that ended it, if any. *)
Fixpoint convert_records (st : Paint.Store) (layer : Layer.t) (rs : list loc)
    (g : GPU.t) (drawQuadsCreated : Z) : GPU.t * Z * option exn :=
  match rs with
  | [] => (g, drawQuadsCreated, None)
  | r :: rs' =>
      match Paint.records st !! r with
      | None =>
          (g, drawQuadsCreated,
           Some (TypeError "Cannot read properties of undefined (reading 'x')"))
      | Some paintRecord =>
          convert_records st layer rs'
            (GPU.createDrawQuad (convertPaintRecordToDrawQuad paintRecord layer) g).2
            (drawQuadsCreated + 1)
      end
  end.

Fixpoint convert_layers (st : Paint.Store) (layers : list Layer.t)
    (g : GPU.t) (drawQuadsCreated : Z) : GPU.t * Z * option exn :=
  match layers with
  | [] => (g, drawQuadsCreated, None)
  | layer :: layers' =>
      let '(g1, n1, e) :=
        convert_records st layer (Layer.paintRecords layer) g drawQuadsCreated in
      match e with
      | Some ex => (g1, n1, Some ex)
      | None => convert_layers st layers' g1 n1
      end
  end.

(** [gpuStats] *)
Record GpuStats := {
  drawQuadsCreated : Z;
  gpuRasterTime : Z;
  totalLayers : Z
}.

(** [rasterizeLayerTree(layerTree, options)] with the debug mode off:
    the simulator as the call leaves it and what the call returns, or the
    exception that ended it.  [now0] and [now1] are the two readings of the
    clock. *)
Definition rasterizeLayerTree (now0 now1 : Z) (layerTree : LayerTree.t)
    (st : Paint.Store) (g : GPU.t) : GPU.t * (GpuStats + exn) :=
  let '(g1, created, e) :=
    convert_layers st (traversal (LayerTree.root layerTree)) (GPU.cleanup g) 0 in
  match e with
  | Some ex => (g1, inr ex)
  | None =>
      (g1,
       inl {| drawQuadsCreated := created;
              gpuRasterTime := now1 - now0;
              totalLayers := Z.of_nat (length (LayerTree.allLayers layerTree)) |})
  end.

End RenderEngine.

(** * Properties *)

(** ** Layers: opacity at construction *)

Lemma truthy_or_number (a : option JS.number) :
  JS.truthy (JS.or_number a (JS.Fin 1)) = true.
Proof.
  destruct a as [n|]; simpl; [|reflexivity].
  destruct (JS.truthy n) eqn:E; [exact E | reflexivity].
Qed.

Lemma or_number_falsy (n : JS.number) (b : JS.number) :
  JS.truthy n = false -> JS.or_number (Some n) b = b.
Proof. intros H. unfold JS.or_number. now rewrite H. Qed.

Lemma truthy_zero (q : Q) : (q == 0)%Q -> JS.truthy (JS.Fin q) = false.
Proof.
  intros H. simpl. apply negb_false_iff. now apply Qeq_bool_iff.
Qed.

Lemma opacity_setTransform l m : Layer.opacity (Layer.setTransform l m) = Layer.opacity l.
Proof. reflexivity. Qed.

Lemma opacity_set_clip l c a b : Layer.opacity (Layer.set_clip l c a b) = Layer.opacity l.
Proof. reflexivity. Qed.

(** The opacity of the layer that [createLayerForNode] builds, in terms
    of the style of the node. *)
Lemma createLayerForNode_opacity generated node reason c :
  Layer.opacity (LayerTreeCalculator.createLayerForNode generated node reason c).1 =
  JS.or_number
    (Some (JS.or_number (Some (JS.parseFloat (Layout.style node !! "opacity"))) (JS.Fin 1)))
    (JS.Fin 1).
Proof.
  unfold LayerTreeCalculator.createLayerForNode, LayerTree.createLayer.
  cbn -[JS.parseFloat JS.parseInt JS.or_number JS.is_str LayerTreeCalculator.set_and_not_none].
  destruct (Layout.style node !! "transform") as [tf|];
    [destruct (LayerTreeCalculator.set_and_not_none (Some tf))|];
    destruct (JS.is_str (Layout.style node !! "overflow") "hidden" || _ || _);
    reflexivity.
Qed.

Definition fully_transparent_options : Layer.Options :=
  Layer.Build_Options (Some "l") None (Some (JS.Fin 0)) None None None None None None None None.

Definition fully_transparent_node : Layout.Node :=
  Layout.mkNode {[ "opacity" := "0" ]} (Rect.mk 0 0 10 10) None None [].

(** C9.  An [options] object whose opacity is exactly 0 gives a layer of
    opacity 1.0, and so does a node whose style opacity is "0" through
    [createLayerForNode]; no layer built through either entry point has a
    falsy (zero or NaN) opacity. *)
Theorem zero_opacity_is_replaced_by_default
    (generated : string) (o : Layer.Options) (q : Q)
    (node : Layout.Node) (reason : string) (c : LayerTreeCalculator.t) :
  Layer.o_opacity o = Some (JS.Fin q) ->
  (q == 0)%Q ->
  Layout.style node !! "opacity" = Some "0" ->
  Layer.opacity (Layer.new generated o) = JS.Fin 1 /\
  Layer.opacity (LayerTreeCalculator.createLayerForNode generated node reason c).1 = JS.Fin 1 /\
  (forall o', JS.truthy (Layer.opacity (Layer.new generated o')) = true) /\
  (forall node',
     JS.truthy
       (Layer.opacity (LayerTreeCalculator.createLayerForNode generated node' reason c).1)
     = true).
Proof.
  intros Ho Hq Hstyle. repeat split.
  - unfold Layer.new; simpl. rewrite Ho. apply or_number_falsy. now apply truthy_zero.
  - rewrite createLayerForNode_opacity, Hstyle. reflexivity.
  - intros o'. apply truthy_or_number.
  - intros node'. rewrite createLayerForNode_opacity. apply truthy_or_number.
Qed.

Lemma zero_opacity_is_replaced_by_default_witness :
  Layer.opacity (Layer.new "g" fully_transparent_options) = JS.Fin 1 /\
  Layer.opacity
    (LayerTreeCalculator.createLayerForNode "g" fully_transparent_node "opacity"
       LayerTreeCalculator.default_calculator).1 = JS.Fin 1.
Proof.
  pose proof (zero_opacity_is_replaced_by_default "g" fully_transparent_options 0
                fully_transparent_node "opacity" LayerTreeCalculator.default_calculator
                eq_refl (Qeq_refl 0) eq_refl) as H.
  split; [exact (proj1 H) | exact (proj1 (proj2 H))].
Defined.

(** ** Layers: the order of the children *)

Section Layer_order.

(** The children are in non-decreasing [zIndex] order. *)
Fixpoint ordered (cs : list Layer.t) : Prop :=
  match cs with
  | [] => True
  | c :: cs' => Forall (fun d => Layer.zIndex c <= Layer.zIndex d) cs' /\ ordered cs'
  end.

(** The layers of [cs] at the level [z], in their order in [cs]. *)
Definition at_level (z : Z) (cs : list Layer.t) : list Layer.t :=
  List.filter (fun c => Layer.zIndex c =? z) cs.

Lemma insert_by_zIndex_perm c cs : Layer.insert_by_zIndex c cs ≡ₚ c :: cs.
Proof.
  induction cs as [|d cs IH]; cbn [Layer.insert_by_zIndex]; [reflexivity|].
  destruct (Layer.zIndex c <? Layer.zIndex d); [reflexivity|].
  rewrite IH. apply Permutation_swap.
Qed.

Lemma insert_by_zIndex_ordered c cs :
  ordered cs -> ordered (Layer.insert_by_zIndex c cs).
Proof.
  induction cs as [|d cs IH]; cbn [Layer.insert_by_zIndex ordered].
  - intros _. split; [constructor | exact I].
  - intros [Hd Hcs]. destruct (Layer.zIndex c <? Layer.zIndex d) eqn:Hlt.
    + apply Z.ltb_lt in Hlt. cbn [ordered]. split_and!; [|exact Hd | exact Hcs].
      constructor; [lia|]. eapply Forall_impl; [exact Hd|]. cbn. intros; lia.
    + apply Z.ltb_ge in Hlt. cbn [ordered]. split; [|now apply IH].
      rewrite insert_by_zIndex_perm. now constructor.
Qed.

Lemma insert_by_zIndex_level z c cs :
  ordered cs ->
  at_level z (Layer.insert_by_zIndex c cs) = at_level z cs ++ at_level z [c].
Proof.
  induction cs as [|d cs IH]; cbn [Layer.insert_by_zIndex ordered]; [reflexivity|].
  intros [Hd Hcs]. destruct (Layer.zIndex c <? Layer.zIndex d) eqn:Hlt.
  - apply Z.ltb_lt in Hlt. unfold at_level. cbn [List.filter].
    destruct (Layer.zIndex c =? z) eqn:Hc.
    + apply Z.eqb_eq in Hc.
      assert ((Layer.zIndex d =? z) = false) as -> by (apply Z.eqb_neq; lia).
      assert (List.filter (fun c0 => Layer.zIndex c0 =? z) cs = []) as ->.
      { clear IH Hcs. induction cs as [|a cs IHcs]; [reflexivity|].
        apply Forall_cons in Hd as [Ha Hd]. cbn [List.filter].
        assert ((Layer.zIndex a =? z) = false) as -> by (apply Z.eqb_neq; lia).
        now apply IHcs. }
      reflexivity.
    + now rewrite app_nil_r.
  - unfold at_level in *. cbn [List.filter].
    destruct (Layer.zIndex d =? z); cbn [app]; now rewrite IH.
Qed.

Lemma sort_from_perm cs :
  forall acc, fold_left (fun acc c => Layer.insert_by_zIndex c acc) cs acc ≡ₚ acc ++ cs.
Proof.
  induction cs as [|c cs IH]; intros acc; cbn [fold_left].
  - now rewrite app_nil_r.
  - rewrite IH, insert_by_zIndex_perm. cbn [app]. apply Permutation_middle.
Qed.

Lemma sort_from_ordered cs :
  forall acc, ordered acc ->
    ordered (fold_left (fun acc c => Layer.insert_by_zIndex c acc) cs acc).
Proof.
  induction cs as [|c cs IH]; intros acc Hacc; cbn [fold_left]; [exact Hacc|].
  now apply IH, insert_by_zIndex_ordered.
Qed.

Lemma sort_from_level z cs :
  forall acc, ordered acc ->
    at_level z (fold_left (fun acc c => Layer.insert_by_zIndex c acc) cs acc) =
    at_level z acc ++ at_level z cs.
Proof.
  induction cs as [|c cs IH]; intros acc Hacc; cbn [fold_left].
  - unfold at_level. cbn. now rewrite app_nil_r.
  - rewrite IH by now apply insert_by_zIndex_ordered.
    rewrite insert_by_zIndex_level by exact Hacc.
    rewrite <- app_assoc. f_equal.
    unfold at_level. cbn [List.filter]. now destruct (Layer.zIndex c =? z).
Qed.

Lemma sort_by_zIndex_perm cs : Layer.sort_by_zIndex cs ≡ₚ cs.
Proof. unfold Layer.sort_by_zIndex. now rewrite sort_from_perm. Qed.

Lemma sort_by_zIndex_ordered cs : ordered (Layer.sort_by_zIndex cs).
Proof. apply sort_from_ordered. exact I. Qed.

Lemma sort_by_zIndex_level z cs : at_level z (Layer.sort_by_zIndex cs) = at_level z cs.
Proof. unfold Layer.sort_by_zIndex. rewrite sort_from_level; [reflexivity | exact I]. Qed.

(** Induction on a layer with its subtree. *)
Lemma layer_ind (P : Layer.t -> Prop) :
  (forall layer, Forall P (Layer.children layer) -> P layer) -> forall layer, P layer.
Proof.
  intros H. fix IH 1.
  intros [i z o cm tr b cl mb pr nr dr f sc ic bs lp ln cr ab iv cs].
  apply H. cbn [Layer.children].
  induction cs as [|c cs IHcs]; constructor; [apply IH | exact IHcs].
Qed.

(** X11.  After [addChild(child)], for a child that had no parent, the
    children of the layer are the former children and the new child, in
    non-decreasing [zIndex] order, and the children of equal [zIndex] stand
    in the order in which they stood before, the new child last among its
    equals. *)
Theorem addChild_keeps_children_ordered (layer child : Layer.t) :
  let children := Layer.children (Layer.addChild layer child) in
  ordered children /\
  children ≡ₚ Layer.children layer ++ [child] /\
  forall z, at_level z children = at_level z (Layer.children layer) ++ at_level z [child].
Proof.
  cbn zeta. unfold Layer.addChild. cbn [Layer.children Layer.set_children].
  split_and!.
  - apply sort_by_zIndex_ordered.
  - apply sort_by_zIndex_perm.
  - intros z. rewrite sort_by_zIndex_level. unfold at_level. apply List.filter_app.
Qed.

End Layer_order.

(** ** LayerTreeCalculator: what a calculation counts *)

Section Layer_trees.
Import LayerTreeCalculator.

(** Induction on a layout node with its subtree. *)
Lemma node_ind (P : Layout.Node -> Prop) :
  (forall node,
     Forall (fun child => match child with Some c => P c | None => True end)
            (Layout.children node) ->
     P node) ->
  forall node, P node.
Proof.
  intros H. fix IH 1. intros [st ly bm el cs]. apply H. cbn [Layout.children].
  induction cs as [|[c|] cs IHcs]; constructor; [apply IH | exact IHcs | exact I | exact IHcs].
Qed.

(** The sum of [f] over the children that are not [null]. *)
Definition sum_over (f : Layout.Node -> Z) (cs : list (option Layout.Node)) : Z :=
  fold_right (fun child acc => match child with Some c => f c + acc | None => acc end) 0 cs.

(** The nodes of a subtree. *)
Fixpoint nodes (node : Layout.Node) : Z :=
  1 + sum_over nodes (Layout.children node).

(** The nodes of a subtree that [shouldCreateNewLayer] gives the reason
    [reason]. *)
Fixpoint with_reason (reason : string) (node : Layout.Node) : Z :=
  (if bool_decide (compositing_reason node = Some reason) then 1 else 0) +
  sum_over (with_reason reason) (Layout.children node).

(** The nodes of a subtree that get a layer of their own. *)
Fixpoint composited (node : Layout.Node) : Z :=
  match compositing_reason node with Some _ => 1 | None => 0 end + sum_over composited (Layout.children node).

Lemma nodes_eq node : nodes node = 1 + sum_over nodes (Layout.children node).
Proof. now destruct node. Qed.

Lemma with_reason_eq reason node :
  with_reason reason node =
  (if bool_decide (compositing_reason node = Some reason) then 1 else 0) +
  sum_over (with_reason reason) (Layout.children node).
Proof. now destruct node. Qed.

Lemma composited_eq node :
  composited node =
  match compositing_reason node with Some _ => 1 | None => 0 end + sum_over composited (Layout.children node).
Proof. now destruct node. Qed.

(** The loop of [calculateForNode] over the children of a node. *)
Definition descend (generated : string) :
    list (option Layout.Node) -> Layer.t -> t -> Layer.t * t :=
  fix descend (cs : list (option Layout.Node)) (target : Layer.t) (c : t)
      {struct cs} : Layer.t * t :=
    match cs with
    | [] => (target, c)
    | None :: cs' => descend cs' target c
    | Some child :: cs' =>
        let '(target', c') := calculateForNode generated child target c in
        descend cs' target' c'
    end.

Lemma calculateForNode_eq generated node parentLayer c :
  calculateForNode generated node parentLayer c =
  let c1 := count_node c in
  let '(compositingReason, c2) := shouldCreateNewLayer node c1 in
  match compositingReason with
  | Some reason =>
      let '(layer, c3) := createLayerForNode generated node reason c2 in
      let '(layer', c4) := descend generated (Layout.children node) layer c3 in
      (Layer.addChild parentLayer layer', c4)
  | None => descend generated (Layout.children node) parentLayer c2
  end.
Proof. destruct node; reflexivity. Qed.

(** From [c] to [c'] the calculator has counted [n] nodes, created [k]
    layers, recorded [j] reasons, [per reason] of them for each reason, and
    handed out [i] layer ids. *)
Record counts (c c' : t) (n k j i : Z) (per : string -> Z) : Prop := {
  counts_nodes : totalNodes (stats c') = totalNodes (stats c) + n;
  counts_layers : layersCreated (stats c') = layersCreated (stats c) + k;
  counts_reasons :
    totalCompositingReasons (stats c') = totalCompositingReasons (stats c) + j;
  counts_per :
    forall reason,
      default 0 (compositingReasons (stats c') !! reason) =
      default 0 (compositingReasons (stats c) !! reason) + per reason;
  counts_ids : nextLayerId c' = nextLayerId c + i;
  counts_optimization : enableCompositingOptimization c' = enableCompositingOptimization c
}.

Lemma counts_refl c : counts c c 0 0 0 0 (fun _ => 0).
Proof. split; intros; lia || reflexivity. Qed.

Lemma counts_trans c1 c2 c3 n k j i per n' k' j' i' per' :
  counts c1 c2 n k j i per -> counts c2 c3 n' k' j' i' per' ->
  counts c1 c3 (n + n') (k + k') (j + j') (i + i') (fun reason => per reason + per' reason).
Proof.
  intros [A1 A2 A3 A4 A5 A6] [B1 B2 B3 B4 B5 B6].
  split; intros; rewrite ?B1, ?B2, ?B3, ?B4, ?B5, ?B6, ?A1, ?A2, ?A3, ?A4, ?A5, ?A6;
    lia || reflexivity.
Qed.

Lemma counts_ext c c' n k j i per n' k' j' i' per' :
  counts c c' n k j i per ->
  n = n' -> k = k' -> j = j' -> i = i' -> (forall reason, per reason = per' reason) ->
  counts c c' n' k' j' i' per'.
Proof.
  intros [A1 A2 A3 A4 A5 A6] <- <- <- <- Hper.
  split; try assumption. intros reason. now rewrite <- Hper.
Qed.

Lemma counts_count_node c : counts c (count_node c) 1 0 0 0 (fun _ => 0).
Proof. split; intros; cbn; lia || reflexivity. Qed.

Lemma counts_shouldCreateNewLayer node c :
  counts c (shouldCreateNewLayer node c).2 0 0
    match compositing_reason node with Some _ => 1 | None => 0 end 0
    (fun reason => if bool_decide (compositing_reason node = Some reason) then 1 else 0) /\
  (shouldCreateNewLayer node c).1 = compositing_reason node.
Proof.
  unfold shouldCreateNewLayer.
  destruct (compositing_reason node) as [r|]; cbn [fst snd]; (split; [|reflexivity]).
  - split; cbn; try lia; try reflexivity.
    intros reason. destruct (decide (r = reason)) as [->|Hne].
    + rewrite lookup_insert_eq, bool_decide_eq_true_2 by reflexivity. cbn. lia.
    + rewrite lookup_insert_ne by exact Hne.
      rewrite bool_decide_eq_false_2 by congruence. lia.
  - eapply counts_ext; [apply counts_refl | reflexivity..|].
    intros reason. now rewrite bool_decide_eq_false_2.
Qed.

Lemma createLayerForNode_facts generated node reason c :
  counts c (createLayerForNode generated node reason c).2 0 1 0 1 (fun _ => 0) /\
  Layer.children (createLayerForNode generated node reason c).1 = [].
Proof.
  unfold createLayerForNode, LayerTree.createLayer.
  cbn -[JS.parseFloat JS.parseInt JS.or_number JS.or_Z JS.is_str set_and_not_none].
  split.
  - split; cbn; intros; lia || reflexivity.
  - destruct (Layout.style node !! "transform") as [tf|];
      [destruct (set_and_not_none (Some tf))|];
      destruct (JS.is_str (Layout.style node !! "overflow") "hidden" || _ || _);
      reflexivity.
Qed.

(** What a call of [calculateForNode] counts. *)
Definition counted (generated : string) (node : Layout.Node) : Prop :=
  forall parentLayer c,
    counts c (calculateForNode generated node parentLayer c).2
      (nodes node) (composited node) (composited node) (composited node)
      (fun reason => with_reason reason node).

Lemma descend_counts generated cs :
  Forall (fun child => match child with Some c => counted generated c | None => True end) cs ->
  forall target c,
    counts c (descend generated cs target c).2
      (sum_over nodes cs) (sum_over composited cs) (sum_over composited cs)
      (sum_over composited cs) (fun reason => sum_over (with_reason reason) cs).
Proof.
  induction 1 as [|[child|] cs Hchild _ IH]; intros target c; cbn [descend].
  - apply counts_refl.
  - specialize (Hchild target c).
    destruct (calculateForNode generated child target c) as [target' c'].
    cbn [snd] in Hchild. exact (counts_trans _ _ _ _ _ _ _ _ _ _ _ _ _ Hchild (IH target' c')).
  - apply IH.
Qed.

Lemma calculateForNode_counted generated node : counted generated node.
Proof.
  induction node as [node IH] using node_ind. intros parentLayer c.
  rewrite calculateForNode_eq, nodes_eq, composited_eq. cbv zeta.
  destruct (counts_shouldCreateNewLayer node (count_node c)) as [Hshould Hreason].
  destruct (shouldCreateNewLayer node (count_node c)) as [compositingReason c2].
  cbn [fst snd] in Hshould, Hreason. subst compositingReason.
  pose proof (counts_trans _ _ _ _ _ _ _ _ _ _ _ _ _ (counts_count_node c) Hshould) as H2.
  destruct (compositing_reason node) as [reason|] eqn:Hr.
  - destruct (createLayerForNode_facts generated node reason c2) as [Hcreate _].
    destruct (createLayerForNode generated node reason c2) as [layer c3].
    cbn [snd] in Hcreate.
    pose proof (descend_counts generated (Layout.children node) IH layer c3) as Hdesc.
    destruct (descend generated (Layout.children node) layer c3) as [layer' c4].
    cbn [snd] in *.
    eapply counts_ext;
      [exact (counts_trans _ _ _ _ _ _ _ _ _ _ _ _ _
                (counts_trans _ _ _ _ _ _ _ _ _ _ _ _ _ H2 Hcreate) Hdesc) | try lia..|].
    intros r. cbn beta. rewrite (with_reason_eq r node), Hr. lia.
  - pose proof (descend_counts generated (Layout.children node) IH parentLayer c2) as Hdesc.
    eapply counts_ext; [exact (counts_trans _ _ _ _ _ _ _ _ _ _ _ _ _ H2 Hdesc) | try lia..|].
    intros r. cbn beta. rewrite (with_reason_eq r node), Hr. lia.
Qed.

(** The same counts for a tree; a [null] root counts nothing. *)
Definition of_root (f : Layout.Node -> Z) (tree : Layout.Tree) : Z :=
  match Layout.root tree with
  | Some r => f r
  | None => 0
  end.

(** X12.  [calculate] on a layout tree returns a layer tree, and its
    statistics count the layout tree: [totalNodes] is the number of nodes;
    [layersCreated] and [totalCompositingReasons] are the number of nodes
    for which [shouldCreateNewLayer] gives a reason; the entry of
    [compositingReasons] for each reason is the number of nodes with that
    reason; and one layer id was handed out per layer created.  The layers
    that the optimization merges away afterwards stay counted. *)
Theorem calculate_counts_the_layout_tree
    (generated : string) (now0 now1 : Z) (tree : Layout.Tree) (c : t) :
  exists layerTree c',
    calculate generated now0 now1 (Some tree) c = Ok (layerTree, c') /\
    totalNodes (stats c') = of_root nodes tree /\
    layersCreated (stats c') = of_root composited tree /\
    totalCompositingReasons (stats c') = of_root composited tree /\
    (forall reason,
       default 0 (compositingReasons (stats c') !! reason) =
       of_root (with_reason reason) tree) /\
    LayerTree.nextLayerId layerTree = 1 + of_root composited tree /\
    calculationTime (stats c') = now1 - now0.
Proof.
  unfold calculate, of_root.
  destruct (Layout.root tree) as [r|].
  - match goal with
    | |- context [calculateForNode generated r ?p ?c0] =>
        pose proof (calculateForNode_counted generated r p c0) as [H1 H2 H3 H4 H5 H6];
        destruct (calculateForNode generated r p c0) as [rootLayer1 c2]
    end.
    cbn [snd] in *. eexists. eexists. split; [reflexivity|].
    cbn in *. split_and!; try lia.
    intros reason. rewrite H4, lookup_empty. cbn. lia.
  - eexists. eexists. split; [reflexivity|]. cbn. split_and!; try reflexivity.
Qed.

(** Every layer of the tree has its children in non-decreasing [zIndex]
    order. *)
Fixpoint ordered_tree (layer : Layer.t) : Prop :=
  ordered (Layer.children layer) /\
  (fix all (cs : list Layer.t) : Prop :=
     match cs with
     | [] => True
     | c :: cs' => ordered_tree c /\ all cs'
     end) (Layer.children layer).

Lemma ordered_tree_eq layer :
  ordered_tree layer <->
  ordered (Layer.children layer) /\ Forall ordered_tree (Layer.children layer).
Proof.
  destruct layer as [i z o cm tr b cl mb pr nr dr f sc ic bs lp ln cr ab iv cs].
  cbn [ordered_tree Layer.children].
  assert ((fix all (cs : list Layer.t) : Prop :=
             match cs with
             | [] => True
             | c :: cs' => ordered_tree c /\ all cs'
             end) cs <-> Forall ordered_tree cs) as ->; [|reflexivity].
  induction cs as [|c cs IH]; [now split|].
  rewrite Forall_cons, <- IH. reflexivity.
Qed.

Lemma ordered_tree_addChild parent child :
  ordered_tree parent -> ordered_tree child -> ordered_tree (Layer.addChild parent child).
Proof.
  rewrite !(ordered_tree_eq parent), (ordered_tree_eq (Layer.addChild parent child)).
  intros [_ Hall] Hchild. unfold Layer.addChild. cbn [Layer.children Layer.set_children].
  split; [apply sort_by_zIndex_ordered|].
  rewrite sort_by_zIndex_perm. apply Forall_app. split; [exact Hall | now constructor].
Qed.

Lemma reorderLayers_ordered layer : ordered_tree (reorderLayers layer).
Proof.
  induction layer as [layer IH] using layer_ind.
  apply ordered_tree_eq.
  assert (Layer.children (reorderLayers layer) =
          Layer.sort_by_zIndex (map reorderLayers (Layer.children layer))) as ->
    by now destruct layer.
  split; [apply sort_by_zIndex_ordered|].
  rewrite sort_by_zIndex_perm. apply Forall_map. exact IH.
Qed.

Lemma descend_ordered generated cs :
  Forall (fun child =>
            match child with
            | Some c =>
                forall parentLayer s,
                  ordered_tree parentLayer ->
                  ordered_tree (calculateForNode generated c parentLayer s).1
            | None => True
            end) cs ->
  forall target s, ordered_tree target -> ordered_tree (descend generated cs target s).1.
Proof.
  induction 1 as [|[child|] cs Hchild _ IH]; intros target s Htarget; cbn [descend].
  - exact Htarget.
  - specialize (Hchild target s Htarget).
    destruct (calculateForNode generated child target s) as [target' s'].
    now apply IH.
  - now apply IH.
Qed.

Lemma calculateForNode_ordered generated node :
  forall parentLayer s,
    ordered_tree parentLayer ->
    ordered_tree (calculateForNode generated node parentLayer s).1.
Proof.
  induction node as [node IH] using node_ind. intros parentLayer s Hparent.
  rewrite calculateForNode_eq. cbv zeta.
  destruct (shouldCreateNewLayer node (count_node s)) as [[reason|] c2].
  - destruct (createLayerForNode_facts generated node reason c2) as [_ Hnone].
    destruct (createLayerForNode generated node reason c2) as [layer c3].
    cbn [fst] in Hnone.
    assert (ordered_tree layer) as Hlayer.
    { apply ordered_tree_eq. rewrite Hnone. split; [exact I | constructor]. }
    pose proof (descend_ordered generated (Layout.children node) IH layer c3 Hlayer) as Hd.
    destruct (descend generated (Layout.children node) layer c3) as [layer' c4].
    now apply ordered_tree_addChild.
  - now apply descend_ordered.
Qed.

(** X13.  In the layer tree that [calculate] returns, with the
    optimization of the tree switched on or off, the children of every
    layer are in non-decreasing [zIndex] order. *)
Theorem calculate_orders_the_children_of_every_layer
    (generated : string) (now0 now1 : Z) (tree : Layout.Tree) (c : t) :
  exists layerTree c',
    calculate generated now0 now1 (Some tree) c = Ok (layerTree, c') /\
    ordered_tree (LayerTree.root layerTree).
Proof.
  unfold calculate.
  match goal with
  | |- context [match Layout.root tree with
                | Some r => calculateForNode generated r ?p ?c0
                | None => _
                end] =>
      assert (ordered_tree
                (match Layout.root tree with
                 | Some r => calculateForNode generated r p c0
                 | None => (p, c0)
                 end).1) as Hbuilt;
      [|destruct (match Layout.root tree with
                  | Some r => calculateForNode generated r p c0
                  | None => (p, c0)
                  end) as [rootLayer1 c2]]
  end.
  { destruct (Layout.root tree) as [r|].
    - apply calculateForNode_ordered. apply ordered_tree_eq. split; [exact I | constructor].
    - apply ordered_tree_eq. split; [exact I | constructor]. }
  cbn [fst] in Hbuilt. eexists. eexists. split; [reflexivity|].
  cbn [LayerTree.root].
  destruct (enableCompositingOptimization c2); [apply reorderLayers_ordered | exact Hbuilt].
Qed.

End Layer_trees.

(** ** LayerTreeCalculator.calculate on missing input *)

(** C2 (the part the code breaks).  [calculate(null)] reads
    [layoutTree.root] of [null] and ends with a TypeError instead of
    returning a tree. *)
Theorem calculate_null_tree_throws
    (generated : string) (now0 now1 : Z) (c : LayerTreeCalculator.t) :
  LayerTreeCalculator.calculate generated now0 now1 None c =
  Throw (TypeError "Cannot read properties of null (reading 'root')").
Proof. reflexivity. Qed.

(** C2 (the part that holds).  A tree whose root is [null] gives the
    tree of [new LayerTree()]: the root layer only, without children. *)
Lemma calculate_null_root_empty
    (generated : string) (now0 now1 : Z) (c : LayerTreeCalculator.t) :
  exists tree c',
    LayerTreeCalculator.calculate generated now0 now1
      (Some {| Layout.root := None |}) c = Ok (tree, c') /\
    Layer.children (LayerTree.root tree) = [] /\
    Layer.id (LayerTree.root tree) = "root" /\
    LayerTree.allLayers tree = ["root"] /\
    LayerTreeCalculator.totalNodes (LayerTreeCalculator.stats c') = 0 /\
    LayerTreeCalculator.layersCreated (LayerTreeCalculator.stats c') = 0.
Proof.
  unfold LayerTreeCalculator.calculate. simpl.
  destruct (LayerTreeCalculator.enableCompositingOptimization c);
    eexists; eexists; (split; [reflexivity|]); repeat split.
Qed.

(** ** Rasterizer: the cache signature of a tile *)

Lemma content_hash_types (st : Paint.Store) (rs : list loc) (init : string) :
  fold_left (fun hash r => hash +:+ "_" +:+ Rasterizer.type_of st r) rs init =
  fold_left (fun hash ty => hash +:+ "_" +:+ ty) (map (Rasterizer.type_of st) rs) init.
Proof.
  revert init. induction rs as [|r rs IH]; intros init; simpl; [reflexivity|apply IH].
Qed.

(** The signature is a function of the layer id, the grid coordinates
    and the list of record types. *)
Definition signature_of (layerId : string) (tileX tileY : Z) (types : list string) : string :=
  layerId +:+ "_" +:+ pretty tileX +:+ "_" +:+ pretty tileY +:+ "_" +:+
  fold_left (fun hash ty => hash +:+ "_" +:+ ty) types (pretty (Z.of_nat (length types))).

Lemma generateTileSignature_factors (st : Paint.Store) (tile : Tile.t) :
  Rasterizer.generateTileSignature st tile =
  signature_of (Layer.id (Tile.layer tile)) (Tile.tileX tile) (Tile.tileY tile)
    (map (Rasterizer.type_of st) (Layer.paintRecords (Tile.layer tile))).
Proof.
  unfold Rasterizer.generateTileSignature, Rasterizer.calculateLayerContentHash, signature_of.
  rewrite content_hash_types, length_map. reflexivity.
Qed.

(** A layer "L" with one background rectangle, before and after its
    colour changes from red to blue. *)
Definition two_fills : (loc * loc) * Paint.Store :=
  let '(b1, st1) := Paint.alloc_rect (Rect.mk 0 0 256 256) Paint.empty_store in
  let '(red, st2) :=
    Paint.RectPaintRecord 0 (Paint.params (Some "L") (Some b1)) (Some "#ff0000")
      None None None None st1 in
  let '(b2, st3) := Paint.alloc_rect (Rect.mk 0 0 256 256) st2 in
  let '(blue, st4) :=
    Paint.RectPaintRecord 0 (Paint.params (Some "L") (Some b2)) (Some "#0000ff")
      None None None None st3 in
  ((red, blue), st4).

Definition layer_L : Layer.t :=
  Layer.new ""
    (Layer.Build_Options (Some "L") None None None None (Some (Rect.mk 0 0 256 256))
       None None None None None).

Definition red_tile : Tile.t :=
  Tile.new 0 0 256 256 (Paint.addPaintRecords layer_L [two_fills.1.1] two_fills.2).1 0 0.

Definition blue_tile : Tile.t :=
  Tile.new 0 0 256 256 (Paint.addPaintRecords layer_L [two_fills.1.2] two_fills.2).1 0 0.

(** The kind of a record read through its reference. *)
Definition kind_of (st : Paint.Store) (r : loc) : option Paint.Kind :=
  Paint.kind <$> Paint.records st !! r.

(** C1 fails on the code: the two tiles hold one rectangle each, the
    rectangles differ in [fillStyle] only, and the signatures are equal. *)
Lemma signature_ignores_fill_style :
  kind_of two_fills.2 two_fills.1.1 = Some (Paint.RectK "#ff0000" None 1 true false) /\
  kind_of two_fills.2 two_fills.1.2 = Some (Paint.RectK "#0000ff" None 1 true false) /\
  Layer.paintRecords (Tile.layer red_tile) = [two_fills.1.1] /\
  Layer.paintRecords (Tile.layer blue_tile) = [two_fills.1.2] /\
  ~ Rasterizer.generateTileSignature two_fills.2 red_tile <>
    Rasterizer.generateTileSignature two_fills.2 blue_tile.
Proof.
  repeat split; try (vm_compute; reflexivity).
  intros H. apply H. vm_compute. reflexivity.
Qed.

(** C1, amended.  Two tiles of layers with the same id, at the same grid
    coordinates, whose records have the same kinds in the same order, get
    the same signature, whatever else distinguishes the records. *)
Theorem signature_determined_by_record_kinds (st : Paint.Store) (tile1 tile2 : Tile.t) :
  Layer.id (Tile.layer tile1) = Layer.id (Tile.layer tile2) ->
  Tile.tileX tile1 = Tile.tileX tile2 ->
  Tile.tileY tile1 = Tile.tileY tile2 ->
  map (Rasterizer.type_of st) (Layer.paintRecords (Tile.layer tile1)) =
  map (Rasterizer.type_of st) (Layer.paintRecords (Tile.layer tile2)) ->
  Rasterizer.generateTileSignature st tile1 = Rasterizer.generateTileSignature st tile2.
Proof.
  intros Hid Hx Hy Hty. rewrite !generateTileSignature_factors.
  now rewrite Hid, Hx, Hy, Hty.
Qed.

Lemma signature_determined_by_record_kinds_witness :
  Rasterizer.generateTileSignature two_fills.2 red_tile =
  Rasterizer.generateTileSignature two_fills.2 blue_tile.
Proof.
  apply (signature_determined_by_record_kinds two_fills.2 red_tile blue_tile);
    vm_compute; reflexivity.
Defined.

Example signature_of_red_tile :
  Rasterizer.generateTileSignature two_fills.2 red_tile = "L_0_0_1_rect".
Proof. vm_compute. reflexivity. Qed.

(** ** Rasterizer: the bounds of the records around [rasterizePaintRecords] *)

Lemma set_bounds_restore (rec : Paint.t) (b : loc) :
  Paint.set_bounds (Paint.set_bounds rec b) (Paint.bounds rec) = rec.
Proof. destruct rec; reflexivity. Qed.

Lemma assign_bounds_restore (st : Paint.Store) (r b : loc) (rec : Paint.t) :
  Paint.records st !! r = Some rec ->
  Paint.records
    (Rasterizer.assign_bounds r (Paint.bounds rec) (Rasterizer.assign_bounds r b st)) =
  Paint.records st.
Proof.
  intros Hr. unfold Rasterizer.assign_bounds; simpl.
  apply map_eq; intros i.
  destruct (decide (r = i)) as [->|Hne].
  - rewrite !lookup_alter_eq, Hr. simpl. f_equal. now destruct rec.
  - now rewrite !lookup_alter_ne.
Qed.

Lemma alloc_rect_keeps (st : Paint.Store) (new : Rect.t) (b : loc) (rect : Rect.t) :
  Paint.rects st !! b = Some rect ->
  Paint.rects (Paint.alloc_rect new st).2 !! b = Some rect.
Proof.
  intros Hb. unfold Paint.alloc_rect; simpl.
  rewrite lookup_insert_ne; [exact Hb|].
  intros Heq. pose proof (is_fresh (dom (Paint.rects st))) as Hfresh.
  apply Hfresh. rewrite Heq. apply elem_of_dom. eauto.
Qed.

(** One record: when its turn of the loop completes, the records are the
    ones before the turn and no bounds object that existed has changed. *)
Lemma rasterize_record_frame depth viewport r st ctx st' ctx' :
  Rasterizer.rasterize_record depth viewport r st ctx = (st', ctx', None) ->
  Paint.records st' = Paint.records st /\
  (forall b rect, Paint.rects st !! b = Some rect -> Paint.rects st' !! b = Some rect).
Proof.
  unfold Rasterizer.rasterize_record.
  destruct (Paint.records st !! r) as [record|] eqn:Hr; [|discriminate].
  destruct (Paint.visible record); cbn [negb]; [|intros [= <- <-]; auto].
  destruct (Paint.rects st !! Paint.bounds record) as [b|] eqn:Hb; [|discriminate].
  destruct (Rasterizer.isRecordInViewport b viewport); [|intros [= <- <-]; auto].
  match goal with
  | |- context [Paint.alloc_rect ?new st] =>
      destruct (Paint.alloc_rect new st) as [translated st1] eqn:Halloc
  end.
  match goal with
  | |- context [Paint.execute depth ?s r ctx] =>
      destruct (Paint.execute depth s r ctx) as [ctx1 [ex|]]; [discriminate|]
  end.
  intros [= <- <-].
  assert (Hst1 : st1 = (Paint.alloc_rect
                          (Rect.mk (Rect.x b - Rect.x viewport) (Rect.y b - Rect.y viewport)
                                   (Rect.width b) (Rect.height b)) st).2)
    by (now rewrite Halloc).
  split.
  - rewrite (assign_bounds_restore st1 r translated record); now subst st1.
  - intros b' rect' Hb'. cbn [Rasterizer.assign_bounds Paint.rects].
    subst st1. now apply alloc_rect_keeps.
Qed.

Lemma rasterize_records_frame depth viewport rs :
  forall st ctx st' ctx',
    Rasterizer.rasterize_records depth viewport rs st ctx = (st', ctx', None) ->
    Paint.records st' = Paint.records st /\
    (forall b rect, Paint.rects st !! b = Some rect -> Paint.rects st' !! b = Some rect).
Proof.
  induction rs as [|r rs IH]; intros st ctx st' ctx'; simpl.
  - intros [= <- <-]. auto.
  - destruct (Rasterizer.rasterize_record depth viewport r st ctx) as [[st1 ctx1] e] eqn:Hone.
    destruct e as [ex|]; [discriminate|].
    intros Hrest. apply rasterize_record_frame in Hone as [Hrec Hrects].
    apply IH in Hrest as [Hrec' Hrects']. split.
    + congruence.
    + intros b rect Hb. apply Hrects', Hrects, Hb.
Qed.

(** C10.  When [rasterizePaintRecords] completes, every paint record is
    the object it was before the call, with its [bounds] field referring to
    the same bounds object, and every bounds object that existed before the
    call holds the same rectangle: the translated bounds were fresh objects
    put in place for the time of [execute] only. *)
Theorem rasterizePaintRecords_restores_bounds
    (depth : nat) (ctx : Canvas.t) (layer : Layer.t) (viewport : Rect.t)
    (st st' : Paint.Store) (ctx' : Canvas.t) :
  Rasterizer.rasterizePaintRecords depth ctx layer viewport st = (st', ctx', None) ->
  (forall r rec,
     r ∈ Layer.paintRecords layer ->
     Paint.records st !! r = Some rec ->
     Paint.rects st !! Paint.bounds rec <> None ->
     exists rec',
       Paint.records st' !! r = Some rec' /\
       Paint.bounds rec' = Paint.bounds rec /\
       Paint.rects st' !! Paint.bounds rec' = Paint.rects st !! Paint.bounds rec) /\
  Paint.records st' = Paint.records st /\
  (forall b rect, Paint.rects st !! b = Some rect -> Paint.rects st' !! b = Some rect).
Proof.
  intros Hrun. apply rasterize_records_frame in Hrun as [Hrec Hrects].
  split; [|split; assumption].
  intros r rec _ Hr Hb. exists rec. rewrite Hrec. repeat split; [assumption|].
  destruct (Paint.rects st !! Paint.bounds rec) as [rect|] eqn:E; [|contradiction].
  now apply Hrects.
Qed.

Definition red_layer : Layer.t := Tile.layer red_tile.

Lemma rasterizePaintRecords_restores_bounds_witness :
  exists st' ctx',
    Rasterizer.rasterizePaintRecords 8 [] red_layer (Rect.mk 0 0 256 256) two_fills.2 =
      (st', ctx', None) /\
    Paint.records st' = Paint.records two_fills.2.
Proof.
  eexists; eexists. split; [vm_compute; reflexivity|].
  eapply (rasterizePaintRecords_restores_bounds 8 [] red_layer (Rect.mk 0 0 256 256)).
  vm_compute. reflexivity.
Defined.

(** What the surface receives in the run above: the rectangle is drawn
    at its tile-local position between [save] and [restore]. *)
Example rasterize_red_layer_surface :
  (Rasterizer.rasterizePaintRecords 8 [] red_layer (Rect.mk 100 50 256 256) two_fills.2).1.2 =
  [Canvas.save; Canvas.mulGlobalAlpha (JS.Fin 1); Canvas.setFillStyle "#ff0000";
   Canvas.fillRect (-100) (-50) 256 256; Canvas.restore].
Proof. vm_compute. reflexivity. Qed.

(** A record of the base class throws from [executePaintOperation]; the
    call then ends before the assignment that restores the bounds, and the
    record keeps the translated bounds object. *)
Definition base_record_store : loc * Paint.Store :=
  let '(b, st1) := Paint.alloc_rect (Rect.mk 10 10 20 20) Paint.empty_store in
  Paint.construct 0 "custom" (Paint.params (Some "L") (Some b)) Paint.Base st1.

Example throwing_record_keeps_translated_bounds :
  let '(r, st) := base_record_store in
  let '(st', _, e) :=
    Rasterizer.rasterize_records 8 (Rect.mk 5 5 256 256) [r] st [] in
  e = Some (Error "executePaintOperation must be implemented by subclass") /\
  (Paint.bounds <$> Paint.records st !! r) ≫= (Paint.rects st !!.) = Some (Rect.mk 10 10 20 20) /\
  (Paint.bounds <$> Paint.records st' !! r) ≫= (Paint.rects st' !!.) = Some (Rect.mk 5 5 20 20).
Proof. vm_compute. repeat split. Qed.

(** ** Paint records on the drawing surface *)

Section Paint_surface.

(** The depth of the state stack of the surface after [ops], from depth
    [d]; [None] when a [restore] finds nothing to restore. *)
Fixpoint stack_after (d : nat) (ops : Canvas.t) : option nat :=
  match ops with
  | [] => Some d
  | Canvas.save :: ops' => stack_after (S d) ops'
  | Canvas.restore :: ops' =>
      match d with
      | O => None
      | S d' => stack_after d' ops'
      end
  | _ :: ops' => stack_after d ops'
  end.

(** Every [save] of [ops] is undone by a [restore] of [ops], and no
    [restore] reaches below the depth at which [ops] starts. *)
Definition balanced (ops : Canvas.t) : Prop := forall d, stack_after d ops = Some d.

Lemma stack_after_app d ops1 ops2 :
  stack_after d (ops1 ++ ops2) = stack_after d ops1 ≫= fun d' => stack_after d' ops2.
Proof.
  revert d. induction ops1 as [|op ops1 IH]; intros d; [reflexivity|].
  destruct op; cbn [app stack_after]; try apply IH.
  destruct d; [reflexivity | apply IH].
Qed.

Lemma balanced_app ops1 ops2 : balanced ops1 -> balanced ops2 -> balanced (ops1 ++ ops2).
Proof. intros H1 H2 d. rewrite stack_after_app, H1. apply H2. Qed.

Lemma balanced_path path : balanced (concat (map Paint.path_op path)).
Proof.
  induction path as [|c path IH]; intros d; [reflexivity|].
  cbn [map concat]. rewrite stack_after_app. destruct c; cbn; apply IH.
Qed.

Lemma balanced_bracket ops :
  balanced ops -> balanced (Canvas.save :: ops ++ [Canvas.restore]).
Proof. intros H d. cbn [stack_after]. now rewrite stack_after_app, H. Qed.

Lemma execute_emits depth :
  forall st r ctx,
    exists ops, (Paint.execute depth st r ctx).1 = ctx ++ ops /\ balanced ops.
Proof.
  induction depth as [|depth IH]; intros st r ctx.
  { exists []. split; [symmetry; apply app_nil_r | intros d; reflexivity]. }
  cbn [Paint.execute].
  destruct (Paint.records st !! r) as [rec|];
    [|exists []; split; [symmetry; apply app_nil_r | intros d; reflexivity]].
  destruct (negb (Paint.visible rec) || JS.le_q (Paint.opacity rec) 0);
    [exists []; split; [symmetry; apply app_nil_r | intros d; reflexivity]|].
  set (before :=
         match Paint.clipRect rec with
         | Some c =>
             [Canvas.beginPath;
              Canvas.rect (Rect.x c) (Rect.y c) (Rect.width c) (Rect.height c);
              Canvas.clip]
         | None => []
         end ++
         [Canvas.mulGlobalAlpha (Paint.opacity rec)] ++
         match Paint.transform rec with
         | Some m => [Canvas.setTransform m]
         | None => []
         end).
  assert (balanced before) as Hbefore.
  { subst before. destruct (Paint.clipRect rec), (Paint.transform rec); intros d; reflexivity. }
  match goal with
  | |- context [(?c4, Some (Error "executePaintOperation must be implemented by subclass"))] =>
      set (ctx4 := c4)
  end.
  assert (ctx4 = ctx ++ [Canvas.save] ++ before) as Hctx4.
  { subst ctx4 before. unfold Paint.emit.
    destruct (Paint.clipRect rec), (Paint.transform rec);
      rewrite <- ?app_assoc; reflexivity. }
  clearbody ctx4.
  match goal with
  | |- exists ops, (let '(c5, e) := ?body in _).1 = _ /\ _ =>
      assert (exists mid, body.1 = ctx4 ++ mid /\ balanced mid) as (mid & Hmid & Hbal)
  end.
  { clear Hctx4.
    destruct (Paint.kind rec) as
      [|fillStyle strokeStyle lineWidth filled stroked
       |text font fillStyle maxWidth textAlign textBaseline
       |image sourceRect
       |path fillStyle strokeStyle lineWidth filled stroked
       |shadowColor shadowBlur shadowOffsetX shadowOffsetY targetRecord].
    - exists []. split; [symmetry; apply app_nil_r | intros d; reflexivity].
    - destruct (Paint.rects st !! Paint.bounds rec) as [b|];
        [|exists []; split; [symmetry; apply app_nil_r | intros d; reflexivity]].
      exists ((if filled
               then [Canvas.setFillStyle fillStyle;
                     Canvas.fillRect (Rect.x b) (Rect.y b) (Rect.width b) (Rect.height b)]
               else []) ++
              (if stroked
               then [Canvas.setStrokeStyle strokeStyle; Canvas.setLineWidth lineWidth;
                     Canvas.strokeRect (Rect.x b) (Rect.y b) (Rect.width b) (Rect.height b)]
               else [])).
      destruct filled, stroked; unfold Paint.emit; cbn [fst];
        rewrite <- ?app_assoc, ?app_nil_r; (split; [reflexivity | intros d; reflexivity]).
    - destruct (Paint.rects st !! Paint.bounds rec) as [b|];
        unfold Paint.emit; cbn [fst]; rewrite <- ?app_assoc;
        eexists; (split; [reflexivity | intros d; reflexivity]).
    - destruct image as [img|];
        [|exists []; split; [symmetry; apply app_nil_r | intros d; reflexivity]].
      destruct (Paint.rects st !! Paint.bounds rec) as [b|];
        [|exists []; split; [symmetry; apply app_nil_r | intros d; reflexivity]].
      destruct sourceRect; unfold Paint.emit; cbn [fst];
        eexists; (split; [reflexivity | intros d; reflexivity]).
    - destruct path as [|c path];
        [exists []; split; [symmetry; apply app_nil_r | intros d; reflexivity]|].
      exists ((Canvas.beginPath :: concat (map Paint.path_op (c :: path))) ++
              match fillStyle with
              | Some f => if filled then [Canvas.setFillStyle f; Canvas.fill] else []
              | None => []
              end ++
              (if stroked
               then [Canvas.setStrokeStyle (Some strokeStyle);
                     Canvas.setLineWidth lineWidth; Canvas.stroke]
               else [])).
      split.
      + unfold Paint.emit. destruct fillStyle, filled, stroked; cbn [fst];
          rewrite <- ?app_assoc, ?app_nil_r; reflexivity.
      + apply balanced_app; [|apply balanced_app].
        * intros d. cbn [stack_after]. apply balanced_path.
        * destruct fillStyle, filled; intros d; reflexivity.
        * destruct stroked; intros d; reflexivity.
    - destruct targetRecord as [target|];
        [|exists []; split; [symmetry; apply app_nil_r | intros d; reflexivity]].
      destruct (IH st target
                  (Paint.emit
                     [Canvas.setShadowColor shadowColor; Canvas.setShadowBlur shadowBlur;
                      Canvas.setShadowOffsetX shadowOffsetX;
                      Canvas.setShadowOffsetY shadowOffsetY] ctx4))
        as (ops & Hops & Hbal).
      rewrite Hops. unfold Paint.emit. rewrite <- app_assoc.
      eexists. split; [reflexivity|].
      apply balanced_app; [intros d; reflexivity | exact Hbal]. }
  match goal with
  | |- exists ops, (let '(c5, e) := ?body in _).1 = _ /\ _ =>
      destruct body as [ctx5 e]
  end.
  cbn [fst] in *. subst ctx5 ctx4. unfold Paint.emit.
  exists (Canvas.save :: (before ++ mid) ++ [Canvas.restore]). split.
  - rewrite <- !app_assoc. reflexivity.
  - apply balanced_bracket, balanced_app; assumption.
Qed.

(** X6.  Whatever a record is and however its execution ends (normally,
    with the exception of the base class, on a missing bounds object or on
    a chain of shadow targets that exhausts the stack), [execute] only
    appends to what the surface has received, and what it appends keeps the
    state stack of the surface balanced: every [save] is matched by a later
    [restore] of the same call. *)
Theorem execute_keeps_the_state_stack_balanced
    (depth : nat) (st : Paint.Store) (r : loc) (ctx : Canvas.t) :
  exists ops,
    (Paint.execute depth st r ctx).1 = ctx ++ ops /\
    forall d, stack_after d ops = Some d.
Proof. apply execute_emits. Qed.

(** The record is a [PathPaintRecord]. *)
Definition is_path (rec : Paint.t) : bool :=
  match Paint.kind rec with
  | Paint.PathK _ _ _ _ _ _ => true
  | _ => false
  end.

(** [execute] on a path record never looks at the bounds of the
    record. *)
Lemma execute_path depth st st' r rec b b' ctx :
  Paint.records st !! r = Some (Paint.set_bounds rec b) ->
  Paint.records st' !! r = Some (Paint.set_bounds rec b') ->
  is_path rec = true ->
  Paint.execute depth st r ctx = Paint.execute depth st' r ctx.
Proof.
  intros Hr Hr' Hpath. destruct depth as [|depth]; [reflexivity|].
  cbn [Paint.execute]. rewrite Hr, Hr'. unfold is_path in Hpath.
  destruct rec as [ty lid z bd op vis clip tr ts k]; cbn in *.
  destruct k; try discriminate. reflexivity.
Qed.

Lemma set_bounds_same (rec : Paint.t) : Paint.set_bounds rec (Paint.bounds rec) = rec.
Proof. now destruct rec. Qed.

(** The rectangle that [rasterizePaintRecords] puts in place of the
    bounds [b] for the viewport (the tile) [viewport]. *)
Definition translated (b viewport : Rect.t) : Rect.t :=
  Rect.mk (Rect.x b - Rect.x viewport) (Rect.y b - Rect.y viewport)
          (Rect.width b) (Rect.height b).

(** One turn of the loop on a visible record that meets the viewport. *)
Lemma rasterize_record_drawn depth viewport r st ctx rec b :
  Paint.records st !! r = Some rec ->
  Paint.visible rec = true ->
  Paint.rects st !! Paint.bounds rec = Some b ->
  Rasterizer.isRecordInViewport b viewport = true ->
  let fresh_bounds := fresh (dom (Paint.rects st)) in
  let st2 :=
    Rasterizer.assign_bounds r fresh_bounds (Paint.alloc_rect (translated b viewport) st).2 in
  Paint.records st2 !! r = Some (Paint.set_bounds rec fresh_bounds) /\
  Paint.rects st2 !! fresh_bounds = Some (translated b viewport) /\
  fresh_bounds <> Paint.bounds rec /\
  Rasterizer.rasterize_record depth viewport r st ctx =
    match Paint.execute depth st2 r ctx with
    | (ctx1, Some ex) => (st2, ctx1, Some ex)
    | (ctx1, None) => (Rasterizer.assign_bounds r (Paint.bounds rec) st2, ctx1, None)
    end.
Proof.
  intros Hr Hvis Hb Hin fresh_bounds st2. split_and!.
  - subst st2. unfold Rasterizer.assign_bounds, Paint.alloc_rect; cbn.
    now rewrite lookup_alter_eq, Hr.
  - subst st2. unfold Rasterizer.assign_bounds, Paint.alloc_rect; cbn.
    apply lookup_insert_eq.
  - intros Heq. apply (is_fresh (dom (Paint.rects st))). fold fresh_bounds.
    rewrite Heq. apply elem_of_dom. eauto.
  - unfold Rasterizer.rasterize_record. rewrite Hr, Hvis, Hb, Hin. cbn [negb].
    subst st2 fresh_bounds. unfold Paint.alloc_rect. cbn [fst snd].
    fold (translated b viewport).
    match goal with
    | |- context [Paint.execute depth ?s r ctx] =>
        now destruct (Paint.execute depth s r ctx) as [ctx1 [ex|]]
    end.
Qed.

Lemma rasterize_record_path depth v1 v2 r stA stB ctx rec b :
  Paint.records stA !! r = Some rec ->
  Paint.records stB !! r = Some rec ->
  is_path rec = true ->
  Paint.rects stA !! Paint.bounds rec = Some b ->
  Paint.rects stB !! Paint.bounds rec = Some b ->
  Rasterizer.isRecordInViewport b v1 = Rasterizer.isRecordInViewport b v2 ->
  (Rasterizer.rasterize_record depth v1 r stA ctx).1.2 =
  (Rasterizer.rasterize_record depth v2 r stB ctx).1.2 /\
  (Rasterizer.rasterize_record depth v1 r stA ctx).2 =
  (Rasterizer.rasterize_record depth v2 r stB ctx).2.
Proof.
  intros HrA HrB Hpath HbA HbB Hview.
  destruct (Paint.visible rec) eqn:Hvis.
  - destruct (Rasterizer.isRecordInViewport b v2) eqn:Hin2.
    + destruct (rasterize_record_drawn depth v1 r stA ctx rec b HrA Hvis HbA Hview)
        as (HA & _ & _ & ->).
      destruct (rasterize_record_drawn depth v2 r stB ctx rec b HrB Hvis HbB Hin2)
        as (HB & _ & _ & ->).
      rewrite (execute_path depth _ _ r rec _ _ ctx HA HB Hpath).
      now destruct (Paint.execute depth _ r ctx) as [ctx1 [ex|]].
    + unfold Rasterizer.rasterize_record.
      rewrite HrA, HrB, Hvis, HbA, HbB, Hview, Hin2. now split.
  - unfold Rasterizer.rasterize_record. rewrite HrA, HrB, Hvis. now split.
Qed.

Lemma rasterize_records_paths depth v1 v2 rs :
  forall stA stB ctx,
    Paint.records stA = Paint.records stB ->
    (forall r, r ∈ rs ->
       exists rec b,
         Paint.records stA !! r = Some rec /\ is_path rec = true /\
         Paint.rects stA !! Paint.bounds rec = Some b /\
         Paint.rects stB !! Paint.bounds rec = Some b /\
         Rasterizer.isRecordInViewport b v1 = Rasterizer.isRecordInViewport b v2) ->
    (Rasterizer.rasterize_records depth v1 rs stA ctx).1.2 =
    (Rasterizer.rasterize_records depth v2 rs stB ctx).1.2 /\
    (Rasterizer.rasterize_records depth v1 rs stA ctx).2 =
    (Rasterizer.rasterize_records depth v2 rs stB ctx).2.
Proof.
  induction rs as [|r rs IH]; intros stA stB ctx Hrecs Hall; [now split|].
  cbn [Rasterizer.rasterize_records].
  destruct (Hall r) as (rec & b & HrA & Hpath & HbA & HbB & Hview);
    [apply elem_of_cons; now left|].
  assert (Paint.records stB !! r = Some rec) as HrB by now rewrite <- Hrecs.
  destruct (rasterize_record_path depth v1 v2 r stA stB ctx rec b HrA HrB Hpath HbA HbB Hview)
    as [Hctx Hout].
  destruct (Rasterizer.rasterize_record depth v1 r stA ctx) as [[stA' ctxA] eA] eqn:HA.
  destruct (Rasterizer.rasterize_record depth v2 r stB ctx) as [[stB' ctxB] eB] eqn:HB.
  cbn [fst snd] in Hctx, Hout. subst ctxB eB.
  destruct eA as [ex|]; [now split|].
  apply rasterize_record_frame in HA as [HrecA HrectsA].
  apply rasterize_record_frame in HB as [HrecB HrectsB].
  apply IH; [congruence|].
  intros r' Hin'. destruct (Hall r') as (rec' & b' & H1 & H2 & H3 & H4 & H5);
    [apply elem_of_cons; now right|].
  exists rec', b'. rewrite HrecA. split_and!; auto.
Qed.

(** X7.  A path record (such as the border that the generator emits)
    is drawn from the coordinates stored in its path commands, which
    [rasterizePaintRecords] does not translate: for a layer that holds only
    path records, the operations sent to the surface, and the way the call
    ends, are the same for any two tiles (viewports) that its records meet
    alike.  The same border is therefore drawn at the same surface
    coordinates in every tile. *)
Theorem path_records_ignore_the_tile_position
    (depth : nat) (ctx : Canvas.t) (layer : Layer.t) (v1 v2 : Rect.t) (st : Paint.Store) :
  (forall r, r ∈ Layer.paintRecords layer ->
     exists rec b,
       Paint.records st !! r = Some rec /\ is_path rec = true /\
       Paint.rects st !! Paint.bounds rec = Some b /\
       Rasterizer.isRecordInViewport b v1 = Rasterizer.isRecordInViewport b v2) ->
  (Rasterizer.rasterizePaintRecords depth ctx layer v1 st).1.2 =
  (Rasterizer.rasterizePaintRecords depth ctx layer v2 st).1.2 /\
  (Rasterizer.rasterizePaintRecords depth ctx layer v1 st).2 =
  (Rasterizer.rasterizePaintRecords depth ctx layer v2 st).2.
Proof.
  intros Hall. unfold Rasterizer.rasterizePaintRecords.
  apply rasterize_records_paths; [reflexivity|].
  intros r Hin. destruct (Hall r Hin) as (rec & b & H1 & H2 & H3 & H4).
  exists rec, b. now split_and!.
Qed.

(** A node 512 wide with a border, and the layer that holds its border
    path. *)
Definition bordered_node : Layout.Node :=
  Layout.mkNode ∅ (Rect.mk 0 0 512 256)
    (Some (Layout.Build_BoxModel (Layout.Build_BoxEdges 2 2 2 2)
             (Layout.Build_BoxEdges 0 0 0 0) (Layout.Build_BoxEdges 0 0 0 0)))
    None [].

Definition border_store : option loc * Paint.Store :=
  PaintRecordGenerator.createBorderRecord 0 bordered_node layer_L Paint.empty_store.

Definition border_layer : Layer.t :=
  (Paint.addPaintRecords layer_L (option_list border_store.1) border_store.2).1.

Lemma path_records_ignore_the_tile_position_witness :
  (Rasterizer.rasterizePaintRecords 8 [] border_layer (Rect.mk 0 0 256 256)
     border_store.2).1.2 =
  (Rasterizer.rasterizePaintRecords 8 [] border_layer (Rect.mk 256 0 256 256)
     border_store.2).1.2.
Proof.
  refine (proj1 (path_records_ignore_the_tile_position 8 [] border_layer
                   (Rect.mk 0 0 256 256) (Rect.mk 256 0 256 256) border_store.2 _)).
  intros r Hin. vm_compute in Hin. apply list_elem_of_singleton in Hin. subst r.
  eexists. eexists. split_and!; vm_compute; reflexivity.
Defined.

(** The border of the node above in the second tile: the same
    coordinates as in the first. *)
Example border_in_the_second_tile :
  (Rasterizer.rasterizePaintRecords 8 [] border_layer (Rect.mk 256 0 256 256)
     border_store.2).1.2 =
  [Canvas.save; Canvas.mulGlobalAlpha (JS.Fin 1); Canvas.beginPath;
   Canvas.moveTo 0 0; Canvas.lineTo 512 0; Canvas.lineTo 512 256; Canvas.lineTo 0 256;
   Canvas.closePath; Canvas.setStrokeStyle (Some "#000000"); Canvas.setLineWidth 2;
   Canvas.stroke; Canvas.restore].
Proof. vm_compute. reflexivity. Qed.

Lemma rasterize_records_exception depth viewport rs st0 :
  forall st ctx st' ctx' ex,
    Paint.records st = Paint.records st0 ->
    (forall b rect, Paint.rects st0 !! b = Some rect -> Paint.rects st !! b = Some rect) ->
    (forall r, r ∈ rs ->
       exists rec b, Paint.records st0 !! r = Some rec /\
                     Paint.rects st0 !! Paint.bounds rec = Some b) ->
    Rasterizer.rasterize_records depth viewport rs st ctx = (st', ctx', Some ex) ->
    exists r rec b rec',
      r ∈ rs /\
      Paint.records st0 !! r = Some rec /\
      Paint.rects st0 !! Paint.bounds rec = Some b /\
      Paint.records st' !! r = Some rec' /\
      Paint.bounds rec' <> Paint.bounds rec /\
      Paint.rects st' !! Paint.bounds rec' = Some (translated b viewport).
Proof.
  induction rs as [|r rs IH]; intros st ctx st' ctx' ex Hrecs Hrects Hall;
    cbn [Rasterizer.rasterize_records]; [discriminate|].
  destruct (Hall r) as (rec & b & Hr & Hb); [apply elem_of_cons; now left|].
  destruct (Rasterizer.rasterize_record depth viewport r st ctx) as [[st1 ctx1] e] eqn:Hone.
  destruct e as [ex1|].
  - intros [= <- <- <-]. exists r, rec, b.
    assert (Paint.records st !! r = Some rec) as Hr' by now rewrite Hrecs.
    pose proof (Hrects _ _ Hb) as Hb'.
    destruct (Paint.visible rec) eqn:Hvis;
      [|unfold Rasterizer.rasterize_record in Hone;
        rewrite Hr', Hvis in Hone; discriminate].
    destruct (Rasterizer.isRecordInViewport b viewport) eqn:Hin;
      [|unfold Rasterizer.rasterize_record in Hone;
        rewrite Hr', Hvis, Hb', Hin in Hone; discriminate].
    destruct (rasterize_record_drawn depth viewport r st ctx rec b Hr' Hvis Hb' Hin)
      as (H1 & H2 & H3 & Heq).
    rewrite Heq in Hone.
    destruct (Paint.execute depth _ r ctx) as [c [ex'|]]; [|discriminate].
    injection Hone as <- <- <-.
    exists (Paint.set_bounds rec (fresh (dom (Paint.rects st)))).
    split_and!; [apply elem_of_cons; now left | exact Hr | exact Hb | exact H1 | | ].
    + destruct rec; exact H3.
    + destruct rec; exact H2.
  - intros Hrest. apply rasterize_record_frame in Hone as [Hrec1 Hrects1].
    destruct (IH st1 ctx1 st' ctx' ex) as (r' & rec' & b' & rec'' & Hin' & Hfacts);
      [congruence | auto | | exact Hrest |].
    + intros r' Hin'. apply Hall, elem_of_cons. now right.
    + exists r', rec', b', rec''. split; [apply elem_of_cons; now right | exact Hfacts].
Qed.

(** X8.  The bounds are restored after [record.execute] returns, not
    when it throws: if [rasterizePaintRecords] ends with an exception on a
    layer whose records and bounds objects all exist, one record of the
    layer is left referring to a new bounds object that holds its bounds
    translated into the coordinates of the tile. *)
Theorem exception_leaves_translated_bounds
    (depth : nat) (ctx : Canvas.t) (layer : Layer.t) (viewport : Rect.t)
    (st st' : Paint.Store) (ctx' : Canvas.t) (ex : exn) :
  (forall r, r ∈ Layer.paintRecords layer ->
     exists rec b, Paint.records st !! r = Some rec /\
                   Paint.rects st !! Paint.bounds rec = Some b) ->
  Rasterizer.rasterizePaintRecords depth ctx layer viewport st = (st', ctx', Some ex) ->
  exists r rec b rec',
    r ∈ Layer.paintRecords layer /\
    Paint.records st !! r = Some rec /\
    Paint.rects st !! Paint.bounds rec = Some b /\
    Paint.records st' !! r = Some rec' /\
    Paint.bounds rec' <> Paint.bounds rec /\
    Paint.rects st' !! Paint.bounds rec' = Some (translated b viewport).
Proof.
  intros Hall Hrun. unfold Rasterizer.rasterizePaintRecords in Hrun.
  now apply (rasterize_records_exception depth viewport (Layer.paintRecords layer) st
               st ctx st' ctx' ex).
Qed.

Definition base_layer : Layer.t :=
  (Paint.addPaintRecords layer_L [base_record_store.1] base_record_store.2).1.

Lemma exception_leaves_translated_bounds_witness :
  exists r rec b rec',
    r ∈ Layer.paintRecords base_layer /\
    Paint.records base_record_store.2 !! r = Some rec /\
    Paint.rects base_record_store.2 !! Paint.bounds rec = Some b /\
    Paint.records
      (Rasterizer.rasterizePaintRecords 8 [] base_layer (Rect.mk 5 5 256 256)
         base_record_store.2).1.1 !! r = Some rec' /\
    Paint.bounds rec' <> Paint.bounds rec /\
    Paint.rects
      (Rasterizer.rasterizePaintRecords 8 [] base_layer (Rect.mk 5 5 256 256)
         base_record_store.2).1.1 !! Paint.bounds rec' =
      Some (translated b (Rect.mk 5 5 256 256)).
Proof.
  refine (exception_leaves_translated_bounds 8 [] base_layer (Rect.mk 5 5 256 256)
            base_record_store.2 _ _
            (Error "executePaintOperation must be implemented by subclass") _ _).
  - intros r Hin. vm_compute in Hin. apply list_elem_of_singleton in Hin. subst r.
    eexists. eexists. split; vm_compute; reflexivity.
  - vm_compute. reflexivity.
Defined.

End Paint_surface.

(** ** PaintRecordGenerator: the records of a node with a shadow *)

(** A block element with a background colour, a border, a text payload
    and a box shadow. *)
Definition shadowed_node : Layout.Node :=
  Layout.mkNode
    (<["background-color" := "#ff0000"]>
       (<["box-shadow" := "rgba(0, 0, 0, 0.5) 2px 3px 4px"]> ∅))
    (Rect.mk 10 10 200 100)
    (Some (Layout.Build_BoxModel (Layout.Build_BoxEdges 1 1 1 1)
             (Layout.Build_BoxEdges 5 5 5 5) (Layout.Build_BoxEdges 10 10 10 10)))
    (Some (Layout.Build_Element 3 None (Some "Hello")))
    [].

(** [s] is a shadow record whose target is [target]. *)
Definition shadow_wraps (st : Paint.Store) (s target : loc) : Prop :=
  exists rec color blur offsetX offsetY,
    Paint.records st !! s = Some rec /\
    Paint.kind rec = Paint.ShadowK color blur offsetX offsetY (Some target).

(** The result C5 describes: background and border kept, the first
    content record replaced by a shadow record that wraps it, the other
    content records kept. *)
Definition keeps_all_but_wrapped (st : Paint.Store)
    (backgroundRecord borderRecord : option loc) (contentRecords result : list loc) : Prop :=
  match contentRecords with
  | first :: others =>
      exists s,
        result = option_list backgroundRecord ++ option_list borderRecord ++ s :: others /\
        shadow_wraps st s first
  | [] => result = option_list backgroundRecord ++ option_list borderRecord
  end.

(** C5 on the code.  For the node above three records are emitted
    (background 0, border 1, text 2).  [createPaintRecordsForNode] hands all
    three to [createShadowRecord], whose parameter is documented as the
    content records and which wraps the first record it is given: the result
    is the single shadow record 3, which wraps the background record 0.  The
    background and the border are not kept as records of their own, and the
    record wrapped is not the content record.  Of the style value
    "rgba(0, 0, 0, 0.5) 2px 3px 4px" the shadow record carries the colour
    "2", the offsets 3 and 4 and the blur 10. *)
Lemma shadow_drops_background_and_border :
  let emitted := PaintRecordGenerator.emitRecords 0 shadowed_node layer_L Paint.empty_store in
  let run :=
    PaintRecordGenerator.createPaintRecordsForNode 0 shadowed_node layer_L
      PaintRecordGenerator.default_generator Paint.empty_store in
  PaintRecordGenerator.has_shadow shadowed_node = true /\
  emitted.1 = (Some 0%nat, Some 1%nat, [2%nat]) /\
  run.1.1 = [3%nat] /\
  shadow_wraps run.2 3%nat 0%nat /\
  Paint.kind <$> Paint.records run.2 !! 3%nat =
    Some (Paint.ShadowK "2" 10 3 4 (Some 0%nat)) /\
  ~ keeps_all_but_wrapped run.2 (Some 0%nat) (Some 1%nat) [2%nat] run.1.1.
Proof.
  cbv zeta. repeat split; try (vm_compute; reflexivity).
  - do 5 eexists. split; vm_compute; reflexivity.
  - intros [s [Hres _]]. vm_compute in Hres. discriminate.
Qed.

Lemma has_shadow_guard (node : Layout.Node) :
  PaintRecordGenerator.has_shadow node = true ->
  negb (JS.truthy_str (PaintRecordGenerator.shadow_style (Layout.style node))) ||
  JS.is_str (PaintRecordGenerator.shadow_style (Layout.style node)) "none" = false.
Proof.
  unfold PaintRecordGenerator.has_shadow.
  destruct (JS.truthy_str _), (JS.is_str _ "none"); simpl; congruence.
Qed.

(** The shadow record that [createShadowRecord] builds over a non-empty
    list of records. *)
Lemma createShadowRecord_wraps_first now node layer first others st :
  PaintRecordGenerator.has_shadow node = true ->
  let p := PaintRecordGenerator.parseShadow
             (default "" (PaintRecordGenerator.shadow_style (Layout.style node))) in
  exists s rec st',
    PaintRecordGenerator.createShadowRecord now node layer (first :: others) st =
      (Some s, st') /\
    Paint.records st !! s = None /\
    Paint.records st' !! s = Some rec /\
    (forall r, r <> s -> Paint.records st' !! r = Paint.records st !! r) /\
    Paint.type rec = "shadow" /\
    Paint.kind rec =
      Paint.ShadowK
        (JS.or_string (Some (PaintRecordGenerator.shadowColor p)) "rgba(0, 0, 0, 0.5)")
        (JS.or_Z (PaintRecordGenerator.shadowBlur p) 10)
        (JS.or_Z (PaintRecordGenerator.shadowOffsetX p) 0)
        (JS.or_Z (PaintRecordGenerator.shadowOffsetY p) 0)
        (Some first).
Proof.
  intros Hshadow p. unfold PaintRecordGenerator.createShadowRecord.
  rewrite (has_shadow_guard node Hshadow).
  unfold Paint.ShadowPaintRecord, Paint.construct.
  destruct (Paint.p_bounds _) as [b|]; cbn -[fresh JS.or_string JS.or_Z];
    (eexists; eexists; eexists; split; [reflexivity|]);
    cbn -[fresh JS.or_string JS.or_Z];
    (split; [apply not_elem_of_dom, is_fresh|]);
    (split; [apply lookup_insert_eq|]);
    (split; [intros r Hr; now apply lookup_insert_ne|]);
    split; reflexivity.
Qed.

(** The same for every node with a shadow property that is present and
    not "none": when at least one record is emitted (background, border,
    content, in this order), the records generated for the node are the
    single new shadow record, which carries the values [parseShadow] returns
    (with the constructor's defaults) and wraps the first emitted record;
    every other emitted record is dropped from the result.  When nothing is
    emitted the result is empty. *)
Theorem shadow_record_replaces_emitted_records
    (now : Z) (node : Layout.Node) (layer : Layer.t)
    (g : PaintRecordGenerator.t) (st : Paint.Store)
    (backgroundRecord borderRecord : option loc) (contentRecords : list loc)
    (st3 : Paint.Store) :
  PaintRecordGenerator.has_shadow node = true ->
  PaintRecordGenerator.emitRecords now node layer st =
    ((backgroundRecord, borderRecord, contentRecords), st3) ->
  let p := PaintRecordGenerator.parseShadow
             (default "" (PaintRecordGenerator.shadow_style (Layout.style node))) in
  match option_list backgroundRecord ++ option_list borderRecord ++ contentRecords with
  | [] =>
      PaintRecordGenerator.createPaintRecordsForNode now node layer g st = ([], g, st3)
  | first :: _ =>
      exists s rec st',
        PaintRecordGenerator.createPaintRecordsForNode now node layer g st = ([s], g, st') /\
        Paint.records st3 !! s = None /\
        Paint.records st' !! s = Some rec /\
        (forall r, r <> s -> Paint.records st' !! r = Paint.records st3 !! r) /\
        Paint.type rec = "shadow" /\
        Paint.kind rec =
          Paint.ShadowK
            (JS.or_string (Some (PaintRecordGenerator.shadowColor p)) "rgba(0, 0, 0, 0.5)")
            (JS.or_Z (PaintRecordGenerator.shadowBlur p) 10)
            (JS.or_Z (PaintRecordGenerator.shadowOffsetX p) 0)
            (JS.or_Z (PaintRecordGenerator.shadowOffsetY p) 0)
            (Some first)
  end.
Proof.
  intros Hshadow Hemit p.
  unfold PaintRecordGenerator.createPaintRecordsForNode. rewrite Hemit.
  destruct (option_list backgroundRecord ++ option_list borderRecord ++ contentRecords)
    as [|first others] eqn:Hemitted.
  - unfold PaintRecordGenerator.createShadowRecord.
    rewrite (has_shadow_guard node Hshadow). simpl.
    destruct g as [a b c [s1 s2 s3 s4 s5]]; simpl.
    now rewrite Z.add_0_r.
  - destruct (createShadowRecord_wraps_first now node layer first others st3 Hshadow)
      as (s & rec & st' & Hrun & Hfresh & Hrec & Hframe & Hty & Hkind).
    rewrite Hrun. exists s, rec, st'. repeat split; assumption.
Qed.

Lemma shadow_record_replaces_emitted_records_witness :
  exists s rec st',
    PaintRecordGenerator.createPaintRecordsForNode 0 shadowed_node layer_L
      PaintRecordGenerator.default_generator Paint.empty_store =
      ([s], PaintRecordGenerator.default_generator, st') /\
    Paint.records st' !! s = Some rec /\
    Paint.kind rec = Paint.ShadowK "2" 10 3 4 (Some 0%nat).
Proof.
  pose proof
    (shadow_record_replaces_emitted_records 0 shadowed_node layer_L
       PaintRecordGenerator.default_generator Paint.empty_store
       (Some 0%nat) (Some 1%nat) [2%nat]
       (PaintRecordGenerator.emitRecords 0 shadowed_node layer_L Paint.empty_store).2
       eq_refl eq_refl) as H.
  cbv zeta in H. cbn [option_list app] in H.
  destruct H as (s & rec & st' & Hrun & _ & Hrec & _ & _ & Hkind).
  exists s, rec, st'. repeat split; [exact Hrun | exact Hrec |].
  rewrite Hkind. vm_compute. reflexivity.
Defined.

(** ** TilingManager: tile objects and the heap *)

Section Tiling_heap.
Import TilingManager.

(** The fields of a tile that no method assigns after construction. *)
Definition same_geometry (a b : Tile.t) : Prop :=
  Tile.x a = Tile.x b /\ Tile.y a = Tile.y b /\
  Tile.width a = Tile.width b /\ Tile.height a = Tile.height b /\
  Tile.layer a = Tile.layer b /\
  Tile.tileX a = Tile.tileX b /\ Tile.tileY a = Tile.tileY b.

Definition keeps_geometry (f : Tile.t -> Tile.t) : Prop :=
  forall tile, same_geometry tile (f tile).

Lemma same_geometry_refl a : same_geometry a a.
Proof. repeat split. Qed.

Lemma same_geometry_trans a b c :
  same_geometry a b -> same_geometry b c -> same_geometry a c.
Proof. unfold same_geometry. intuition congruence. Qed.

Lemma same_geometry_key a b : same_geometry a b -> key_of a = key_of b.
Proof. unfold same_geometry, key_of. intuition congruence. Qed.

Lemma same_geometry_memory a b :
  same_geometry a b -> estimateTileMemoryUsage a = estimateTileMemoryUsage b.
Proof. unfold same_geometry, estimateTileMemoryUsage. intuition congruence. Qed.

Lemma keeps_geometry_access now : keeps_geometry (Tile.access now).
Proof. intros tile. repeat split. Qed.

Lemma keeps_geometry_calculatePriority viewport :
  keeps_geometry (Tile.calculatePriority viewport).
Proof. intros tile. repeat split. Qed.

Lemma keeps_geometry_markDirty : keeps_geometry Tile.markDirty.
Proof. intros tile. repeat split. Qed.

Lemma keeps_geometry_markClean now : keeps_geometry (Tile.markClean now).
Proof. intros tile. repeat split. Qed.

Lemma keeps_geometry_dispose : keeps_geometry Tile.dispose.
Proof. intros tile. repeat split. Qed.

Lemma keeps_geometry_set_rasterizedContent c :
  keeps_geometry (Tile.set_rasterizedContent c).
Proof. intros tile. repeat split. Qed.

Lemma keeps_geometry_compose f g :
  keeps_geometry f -> keeps_geometry g -> keeps_geometry (fun tile => g (f tile)).
Proof. intros Hf Hg tile. eapply same_geometry_trans; [apply Hf | apply Hg]. Qed.

(** Tile objects are never freed and keep their geometry: [h'] is a
    later state of the heap [h]. *)
Definition heap_later (h h' : gmap nat Tile.t) : Prop :=
  forall l tile, h !! l = Some tile ->
    exists tile', h' !! l = Some tile' /\ same_geometry tile tile'.

Lemma heap_later_refl h : heap_later h h.
Proof. intros l tile H. exists tile. split; [exact H | apply same_geometry_refl]. Qed.

Lemma heap_later_trans h1 h2 h3 :
  heap_later h1 h2 -> heap_later h2 h3 -> heap_later h1 h3.
Proof.
  intros H12 H23 l tile H.
  destruct (H12 l tile H) as (t2 & H2 & G12).
  destruct (H23 l t2 H2) as (t3 & H3 & G23).
  exists t3. split; [exact H3 | eapply same_geometry_trans; eassumption].
Qed.

Lemma heap_later_alter h l f : keeps_geometry f -> heap_later h (alter f l h).
Proof.
  intros Hf l' tile H. destruct (decide (l = l')) as [->|Hne].
  - exists (f tile). rewrite lookup_alter_eq, H. split; [reflexivity | apply Hf].
  - exists tile. rewrite lookup_alter_ne by done. split; [exact H | apply same_geometry_refl].
Qed.

Lemma heap_later_insert_new h l tile : h !! l = None -> heap_later h (<[l := tile]> h).
Proof.
  intros Hnone l' tile' H. exists tile'.
  rewrite lookup_insert_ne by congruence. split; [exact H | apply same_geometry_refl].
Qed.

Lemma heap_later_insert_same h l tile tile' :
  h !! l = Some tile -> same_geometry tile tile' -> heap_later h (<[l := tile']> h).
Proof.
  intros Hl G l' t H. destruct (decide (l = l')) as [->|Hne].
  - exists tile'. rewrite lookup_insert_eq. split; [reflexivity | congruence].
  - exists t. rewrite lookup_insert_ne by done. split; [exact H | apply same_geometry_refl].
Qed.

(** The memory the manager accounts for the tile object at [l]. *)
Definition memory_at (h : gmap nat Tile.t) (l : nat) : Z :=
  match h !! l with
  | Some tile => estimateTileMemoryUsage tile
  | None => 0
  end.

(** The memory of the tiles of a list: [width * height * 4] each. *)
Definition memory_of (h : gmap nat Tile.t) (ls : list nat) : Z :=
  fold_right (fun l acc => memory_at h l + acc) 0 ls.

Lemma memory_of_app h ls1 ls2 :
  memory_of h (ls1 ++ ls2) = memory_of h ls1 + memory_of h ls2.
Proof. induction ls1 as [|l ls1 IH]; simpl; [reflexivity | rewrite IH; lia]. Qed.

Lemma memory_at_later h h' l :
  heap_later h h' -> is_Some (h !! l) -> memory_at h' l = memory_at h l.
Proof.
  intros Hlater [tile Hl]. destruct (Hlater l tile Hl) as (tile' & Hl' & G).
  unfold memory_at. rewrite Hl, Hl'. symmetry. now apply same_geometry_memory.
Qed.

Lemma memory_of_later h h' ls :
  heap_later h h' -> (forall l, l ∈ ls -> is_Some (h !! l)) ->
  memory_of h' ls = memory_of h ls.
Proof.
  intros Hlater. induction ls as [|l ls IH]; intros Hin; simpl; [reflexivity|].
  rewrite IH by (intros l' Hl'; apply Hin; now right).
  rewrite (memory_at_later h h' l Hlater) by (apply Hin; now left). reflexivity.
Qed.

(** *** [indexOf] and [splice] on the access order *)

Lemma remove_first_absent l order : l ∉ order -> remove_first l order = order.
Proof.
  induction order as [|l' order IH]; intros Hnot; simpl; [reflexivity|].
  rewrite bool_decide_eq_false_2 by (intros ->; apply Hnot; now left).
  rewrite IH; [reflexivity|]. intros Hin. apply Hnot. now right.
Qed.

Lemma remove_first_head l order : remove_first l (l :: order) = order.
Proof. simpl. now rewrite bool_decide_eq_true_2. Qed.

Lemma elem_of_remove_first l l' order :
  l' ∈ remove_first l order -> l' ∈ order.
Proof.
  induction order as [|a order IH]; simpl; [easy|].
  destruct (bool_decide (a = l)); intros Hin.
  - now right.
  - apply elem_of_cons in Hin as [->|Hin]; [now left | right; auto].
Qed.

Lemma elem_of_remove_first_ne l l' order :
  l' ∈ order -> l' <> l -> l' ∈ remove_first l order.
Proof.
  induction order as [|a order IH]; simpl; [easy|].
  intros Hin Hne. destruct (bool_decide (a = l)) eqn:E.
  - apply bool_decide_eq_true_1 in E. subst a.
    apply elem_of_cons in Hin as [->|Hin]; [contradiction | exact Hin].
  - apply elem_of_cons in Hin as [->|Hin]; [now left | right; auto].
Qed.

Lemma NoDup_remove_first l order : NoDup order -> NoDup (remove_first l order).
Proof.
  induction order as [|a order IH]; simpl; intros Hnd; [exact Hnd|].
  apply NoDup_cons in Hnd as [Hnot Hnd].
  destruct (bool_decide (a = l)); [exact Hnd|].
  apply NoDup_cons. split; [|auto].
  intros Hin. apply Hnot. eapply elem_of_remove_first, Hin.
Qed.

Lemma not_elem_of_remove_first l order : NoDup order -> l ∉ remove_first l order.
Proof.
  induction order as [|a order IH]; simpl; intros Hnd; [apply not_elem_of_nil|].
  apply NoDup_cons in Hnd as [Hnot Hnd].
  destruct (bool_decide (a = l)) eqn:E.
  - apply bool_decide_eq_true_1 in E. now subst a.
  - apply bool_decide_eq_false_1 in E. intros Hin.
    apply elem_of_cons in Hin as [->|Hin]; [congruence | now apply IH in Hin].
Qed.

Lemma memory_of_remove_first h l order :
  l ∈ order ->
  memory_of h (remove_first l order) = memory_of h order - memory_at h l.
Proof.
  induction order as [|a order IH]; simpl; intros Hin; [now apply elem_of_nil in Hin|].
  destruct (bool_decide (a = l)) eqn:E.
  - apply bool_decide_eq_true_1 in E. subst a. lia.
  - apply bool_decide_eq_false_1 in E.
    apply elem_of_cons in Hin as [->|Hin]; [congruence|].
    simpl. rewrite IH by exact Hin. lia.
Qed.

End Tiling_heap.

(** ** TilingManager: the access order, the tile map and the tracked memory *)

Section Tiling_invariant.
Import TilingManager.

(** The manager's bookkeeping is consistent: the access order lists each
    resident tile object once, the tile map holds exactly these objects under
    their keys, and the tracked memory is the sum of [width * height * 4]
    over them. *)
Record consistent (m : t) : Prop := {
  order_nodup : NoDup (tileAccessOrder m);
  order_resident :
    forall l, l ∈ tileAccessOrder m ->
      exists tile, heap m !! l = Some tile /\ tiles m !! key_of tile = Some l;
  tiles_ordered :
    forall k l, tiles m !! k = Some l ->
      l ∈ tileAccessOrder m /\ exists tile, heap m !! l = Some tile /\ key_of tile = k;
  memory_tracked : currentMemoryUsage m = memory_of (heap m) (tileAccessOrder m)
}.

Lemma consistent_new tileSize maxTiles maxMemoryUsage :
  consistent (new tileSize maxTiles maxMemoryUsage).
Proof.
  split; simpl.
  - apply NoDup_nil_2.
  - intros l Hl. now apply elem_of_nil in Hl.
  - intros k l Hk. now rewrite lookup_empty in Hk.
  - reflexivity.
Qed.

(** Consistency looks at the tile map, the order, the memory counter and
    the heap only. *)
Lemma consistent_ext m m' :
  tiles m' = tiles m -> tileAccessOrder m' = tileAccessOrder m ->
  currentMemoryUsage m' = currentMemoryUsage m -> heap m' = heap m ->
  consistent m -> consistent m'.
Proof.
  intros Ht Ho Hm Hh [H1 H2 H3 H4].
  split; rewrite ?Ht, ?Ho, ?Hm, ?Hh; assumption.
Qed.

Lemma consistent_update_tile l f m :
  keeps_geometry f -> consistent m -> consistent (update_tile l f m).
Proof.
  intros Hf [H1 H2 H3 H4]. split; simpl.
  - exact H1.
  - intros l' Hl'. destruct (H2 l' Hl') as (tile & Hh & Hk).
    destruct (decide (l = l')) as [->|Hne].
    + exists (f tile). rewrite lookup_alter_eq, Hh. split; [reflexivity|].
      now rewrite <- (same_geometry_key tile (f tile) (Hf tile)).
    + exists tile. now rewrite lookup_alter_ne.
  - intros k l' Hk. destruct (H3 k l' Hk) as (Hin & tile & Hh & Hkey).
    split; [exact Hin|]. destruct (decide (l = l')) as [->|Hne].
    + exists (f tile). rewrite lookup_alter_eq, Hh. split; [reflexivity|].
      now rewrite <- (same_geometry_key tile (f tile) (Hf tile)).
    + exists tile. now rewrite lookup_alter_ne.
  - rewrite H4. symmetry. apply memory_of_later.
    + now apply heap_later_alter.
    + intros l' Hl'. destruct (H2 l' Hl') as (tile & Hh & _). eauto.
Qed.

(** [removeTile] on a key that is present. *)
Lemma removeTile_present key l tile m :
  tiles m !! key = Some l -> heap m !! l = Some tile ->
  tiles (removeTile key m) = delete key (tiles m) /\
  tileAccessOrder (removeTile key m) = remove_first l (tileAccessOrder m) /\
  currentMemoryUsage (removeTile key m) = currentMemoryUsage m - estimateTileMemoryUsage tile /\
  heap (removeTile key m) = <[l := Tile.dispose tile]> (heap m) /\
  maxMemoryUsage (removeTile key m) = maxMemoryUsage m /\
  tileSize (removeTile key m) = tileSize m.
Proof.
  intros Hk Hl. unfold removeTile. rewrite Hk, Hl. simpl. repeat split.
Qed.

Lemma removeTile_absent key m : tiles m !! key = None -> removeTile key m = m.
Proof. intros Hk. unfold removeTile. now rewrite Hk. Qed.

Lemma consistent_removeTile key m : consistent m -> consistent (removeTile key m).
Proof.
  intros Hm. destruct (tiles m !! key) as [l|] eqn:Hk;
    [|now rewrite removeTile_absent].
  destruct Hm as [H1 H2 H3 H4].
  destruct (H3 key l Hk) as (Hin & tile & Hl & Hkey).
  destruct (removeTile_present key l tile m Hk Hl) as (Et & Eo & Em & Eh & _ & _).
  split; rewrite ?Et, ?Eo, ?Em, ?Eh.
  - now apply NoDup_remove_first.
  - intros l' Hl'.
    assert (l' <> l) as Hne
      by (intros ->; now apply (not_elem_of_remove_first l (tileAccessOrder m))).
    apply elem_of_remove_first in Hl'.
    destruct (H2 l' Hl') as (tile' & Hh' & Hk').
    exists tile'. rewrite lookup_insert_ne by congruence. split; [exact Hh'|].
    rewrite lookup_delete_ne; [exact Hk'|]. intros Heq. rewrite <- Heq in Hk'. congruence.
  - intros k l' Hk'.
    destruct (decide (key = k)) as [->|Hkne]; [now rewrite lookup_delete_eq in Hk'|].
    rewrite lookup_delete_ne in Hk' by exact Hkne.
    destruct (H3 k l' Hk') as (Hin' & tile' & Hh' & Hkey').
    assert (l' <> l) as Hne by (intros ->; congruence).
    split; [now apply elem_of_remove_first_ne|].
    exists tile'. now rewrite lookup_insert_ne by congruence.
  - rewrite (memory_of_later (heap m)).
    + rewrite memory_of_remove_first by exact Hin. rewrite H4.
      unfold memory_at. now rewrite Hl.
    + eapply heap_later_insert_same; [exact Hl | apply keeps_geometry_dispose].
    + intros l' Hl'. apply elem_of_remove_first in Hl'.
      destruct (H2 l' Hl') as (tile' & Hh' & _). eauto.
Qed.

(** One eviction: the tile at the head of the access order leaves the
    order and the tile map, its storage is disposed and its memory is
    subtracted. *)
Lemma evict_oldest_head oldest rest m :
  consistent m -> tileAccessOrder m = oldest :: rest ->
  exists tile,
    heap m !! oldest = Some tile /\
    tileAccessOrder (evict_oldest oldest m) = rest /\
    tiles (evict_oldest oldest m) = delete (key_of tile) (tiles m) /\
    currentMemoryUsage (evict_oldest oldest m) =
      currentMemoryUsage m - estimateTileMemoryUsage tile /\
    heap (evict_oldest oldest m) = <[oldest := Tile.dispose tile]> (heap m) /\
    maxMemoryUsage (evict_oldest oldest m) = maxMemoryUsage m /\
    tileSize (evict_oldest oldest m) = tileSize m /\
    tilesEvicted (stats (evict_oldest oldest m)) = tilesEvicted (stats m) + 1 /\
    consistent (evict_oldest oldest m).
Proof.
  intros Hm Horder. pose proof Hm as [H1 H2 H3 H4].
  destruct (H2 oldest) as (tile & Hl & Hk); [rewrite Horder; now left|].
  exists tile. split; [exact Hl|].
  assert (oldest ∉ rest) as Hnot
    by (rewrite Horder in H1; now apply NoDup_cons in H1 as [? _]).
  unfold evict_oldest. cbn [heap shift tiles]. rewrite Hl, Hk.
  rewrite bool_decide_eq_true_2 by eauto.
  destruct (removeTile_present (key_of tile) oldest tile (shift m) Hk Hl)
    as (Et & Eo & Em & Eh & Emax & Esize).
  cbn [shift tileAccessOrder tiles heap currentMemoryUsage maxMemoryUsage tileSize] in *.
  rewrite Horder in Eo. cbn [tl] in Eo. rewrite remove_first_absent in Eo by exact Hnot.
  destruct (removeTile_present (key_of tile) oldest tile m Hk Hl)
    as (Et' & Eo' & Em' & Eh' & _ & _).
  rewrite Horder, remove_first_head in Eo'.
  unfold count_eviction.
  cbn [tileAccessOrder tiles currentMemoryUsage heap maxMemoryUsage tileSize stats
       tilesEvicted].
  split_and!; try assumption.
  - unfold removeTile. cbn [shift tiles heap]. rewrite Hk, Hl. reflexivity.
  - apply (consistent_ext (removeTile (key_of tile) m));
      cbn [tileAccessOrder tiles currentMemoryUsage heap];
      [congruence | congruence | congruence | congruence |].
    now apply consistent_removeTile.
Qed.

End Tiling_invariant.

(** ** TilingManager: eviction *)

Section Tiling_eviction.
Import TilingManager.

(** What a run of the eviction loop does to a consistent manager, in
    terms of the list [evicted] of the tiles it takes off the head of the
    access order. *)
Record evicts (m m' : t) (evicted : list nat) : Prop := {
  evicts_prefix : tileAccessOrder m = evicted ++ tileAccessOrder m';
  evicts_consistent : consistent m';
  evicts_memory :
    currentMemoryUsage m' = currentMemoryUsage m - memory_of (heap m) evicted;
  evicts_needed :
    forall pre e post, evicted = pre ++ e :: post ->
      maxMemoryUsage m < currentMemoryUsage m - memory_of (heap m) pre;
  evicts_until :
    currentMemoryUsage m' <= maxMemoryUsage m \/ tileAccessOrder m' = [];
  evicts_disposed :
    forall e, e ∈ evicted ->
      exists tile,
        heap m' !! e = Some tile /\ Tile.rasterizedContent tile = None /\
        forall k, tiles m' !! k <> Some e;
  evicts_heap_later : heap_later (heap m) (heap m');
  evicts_tiles : forall k l, tiles m' !! k = Some l -> tiles m !! k = Some l;
  evicts_kept : forall k l, tiles m !! k = Some l -> l ∉ evicted -> tiles m' !! k = Some l;
  evicts_budget : maxMemoryUsage m' = maxMemoryUsage m;
  evicts_size : tileSize m' = tileSize m;
  evicts_others : forall l, l ∉ evicted -> heap m' !! l = heap m !! l;
  evicts_count :
    tilesEvicted (stats m') = tilesEvicted (stats m) + Z.of_nat (length evicted)
}.

Lemma evicts_nothing m :
  consistent m ->
  currentMemoryUsage m <= maxMemoryUsage m \/ tileAccessOrder m = [] ->
  evicts m m [].
Proof.
  intros Hm Hstop. split; try done.
  - simpl. lia.
  - intros pre e post H. now destruct pre.
  - intros e He. now apply elem_of_nil in He.
  - apply heap_later_refl.
  - simpl. lia.
Qed.

Lemma enforce_loop_evicts fuel :
  forall m, consistent m -> (length (tileAccessOrder m) <= fuel)%nat ->
    exists evicted, evicts m (enforce_loop fuel m) evicted.
Proof.
  induction fuel as [|fuel IH]; intros m Hm Hfuel.
  - exists []. simpl. apply evicts_nothing; [exact Hm|]. right.
    destruct (tileAccessOrder m); [reflexivity | simpl in Hfuel; lia].
  - simpl. destruct (maxMemoryUsage m <? currentMemoryUsage m) eqn:Hover.
    2:{ exists []. apply evicts_nothing; [exact Hm|]. left. lia. }
    destruct (tileAccessOrder m) as [|oldest rest] eqn:Horder.
    { exists []. apply evicts_nothing; [exact Hm|]. now right. }
    destruct (evict_oldest_head oldest rest m Hm Horder)
      as (tile & Hl & Eo & Et & Em & Eh & Emax & Esize & Ecount & Hm1).
    set (m1 := evict_oldest oldest m) in *.
    destruct (IH m1 Hm1) as (evicted1 & [P1 P2 P3 P4 P5 P6 P7 P8 P8' P9 P10 P11 P12]).
    { rewrite Eo. simpl in Hfuel. lia. }
    set (m' := enforce_loop fuel m1) in *.
    rewrite Eo in P1.
    assert (NoDup (oldest :: rest)) as Hnd by (rewrite <- Horder; apply Hm).
    apply NoDup_cons in Hnd as [Hnot Hnd].
    assert (forall l, l ∈ rest -> is_Some (heap m !! l)) as Hres.
    { intros l Hin. destruct (order_resident m Hm l) as (t' & Ht' & _); [|eauto].
      rewrite Horder. now right. }
    assert (heap_later (heap m) (heap m1)) as Hlater1.
    { rewrite Eh. eapply heap_later_insert_same; [exact Hl | apply keeps_geometry_dispose]. }
    assert (forall ls, (forall l, l ∈ ls -> l ∈ rest) ->
                       memory_of (heap m1) ls = memory_of (heap m) ls) as Hmem.
    { intros ls Hls. apply memory_of_later; [exact Hlater1|]. intros l Hin. auto. }
    assert (forall l, l ∈ evicted1 -> l ∈ rest) as Hsub.
    { intros l Hin. rewrite P1. apply elem_of_app. now left. }
    assert (memory_at (heap m) oldest = estimateTileMemoryUsage tile) as Hat
      by (unfold memory_at; now rewrite Hl).
    exists (oldest :: evicted1). split.
    + rewrite Horder. simpl. f_equal. exact P1.
    + exact P2.
    + rewrite P3, Em, (Hmem evicted1 Hsub). simpl. rewrite Hat. lia.
    + intros pre e post Hsplit. destruct pre as [|p pre].
      * simpl. lia.
      * simpl in Hsplit. injection Hsplit as -> Hsplit.
        specialize (P4 pre e post Hsplit). rewrite Emax, Em in P4.
        rewrite Hmem in P4.
        -- simpl. rewrite Hat. lia.
        -- intros l Hin. apply Hsub. rewrite Hsplit. apply elem_of_app. now left.
    + rewrite <- Emax. exact P5.
    + intros e He. apply elem_of_cons in He as [->|He]; [|now apply P6].
      exists (Tile.dispose tile).
      assert (oldest ∉ evicted1) as Hnot1 by (intros Hin; apply Hnot; auto).
      rewrite (P11 oldest Hnot1), Eh, lookup_insert_eq.
      split; [reflexivity|]. split; [reflexivity|].
      intros k Hk. apply P8 in Hk.
      destruct (tiles_ordered m1 Hm1 k oldest Hk) as (Hin & _).
      rewrite Eo in Hin. contradiction.
    + eapply heap_later_trans; eassumption.
    + intros k l Hk. apply P8 in Hk. rewrite Et in Hk.
      destruct (decide (k = key_of tile)) as [->|Hne];
        [now rewrite lookup_delete_eq in Hk
        |now rewrite lookup_delete_ne in Hk by congruence].
    + intros k l Hk Hnotin. apply not_elem_of_cons in Hnotin as [Hne Hnotin].
      apply P8'; [|exact Hnotin]. rewrite Et.
      rewrite lookup_delete_ne; [exact Hk|].
      intros Heq. subst k. destruct (order_resident m Hm oldest) as (t' & Ht' & Hk').
      { rewrite Horder. now left. }
      congruence.
    + now rewrite P9.
    + now rewrite P10.
    + intros l Hnotin. apply not_elem_of_cons in Hnotin as [Hne Hnotin].
      rewrite (P11 l Hnotin), Eh. now rewrite lookup_insert_ne.
    + rewrite P12, Ecount. simpl length. lia.
Qed.

(** [enforceMemoryLimit] runs the loop to its end: the length of the
    access order is enough fuel. *)
Lemma enforceMemoryLimit_evicts m :
  consistent m -> exists evicted, evicts m (enforceMemoryLimit m) evicted.
Proof. intros Hm. now apply enforce_loop_evicts. Qed.

(** More fuel does not change the result. *)
Lemma enforce_loop_fuel fuel :
  forall m, consistent m -> (length (tileAccessOrder m) <= fuel)%nat ->
    enforce_loop (S fuel) m = enforce_loop fuel m.
Proof.
  induction fuel as [|fuel IH]; intros m Hm Hfuel.
  - destruct (tileAccessOrder m) eqn:Horder; [|simpl in Hfuel; lia].
    simpl. rewrite Horder. now destruct (_ <? _).
  - change (enforce_loop (S (S fuel)) m) with
      (if maxMemoryUsage m <? currentMemoryUsage m
       then match tileAccessOrder m with
            | oldestTile :: _ => enforce_loop (S fuel) (evict_oldest oldestTile m)
            | [] => m
            end
       else m).
    simpl. destruct (_ <? _); [|reflexivity].
    destruct (tileAccessOrder m) as [|oldest rest] eqn:Horder; [reflexivity|].
    destruct (evict_oldest_head oldest rest m Hm Horder)
      as (tile & _ & Eo & _ & _ & _ & _ & _ & _ & Hm1).
    apply IH; [exact Hm1|]. rewrite Eo. simpl in Hfuel. lia.
Qed.

End Tiling_eviction.

(** ** TilingManager: [getOrCreateTile] *)

Section Tiling_insertion.
Import TilingManager.

(** The key [getOrCreateTile(x, y, layer)] looks up. *)
Definition requested_key (x y : Z) (layer : Layer.t) (m : t) : string :=
  tile_key (Layer.id layer) (x `div` tileSize m) (y `div` tileSize m).

(** The tile object a cache miss creates. *)
Definition created_tile (x y : Z) (layer : Layer.t) (m : t) : Tile.t :=
  Tile.new x y
    (Z.min (tileSize m) (Rect.x (Layer.bounds layer) + Rect.width (Layer.bounds layer) - x))
    (Z.min (tileSize m) (Rect.y (Layer.bounds layer) + Rect.height (Layer.bounds layer) - y))
    layer (x `div` tileSize m) (y `div` tileSize m).

(** The manager on a cache miss once the new tile is registered and
    accounted for, at the point where [enforceMemoryLimit] is called. *)
Definition registered (x y : Z) (layer : Layer.t) (m : t) : t :=
  let l := fresh (dom (heap m)) in
  let s := stats m in
  mk (tileSize m) (maxTiles m)
     (<[requested_key x y layer m := l]> (tiles m))
     (layerTiles_add (Layer.id layer) (requested_key x y layer m) (layerTiles m))
     (remove_first l (tileAccessOrder m) ++ [l])
     (maxMemoryUsage m)
     (currentMemoryUsage m + estimateTileMemoryUsage (created_tile x y layer m))
     {| totalTilesCreated := totalTilesCreated s + 1;
        totalTilesDestroyed := totalTilesDestroyed s;
        tilesEvicted := tilesEvicted s;
        memoryUsage := memoryUsage s;
        cacheHits := cacheHits s;
        cacheMisses := cacheMisses s + 1 |}
     (<[l := created_tile x y layer m]> (heap m)).

Lemma getOrCreateTile_miss now x y layer m :
  tiles m !! requested_key x y layer m = None ->
  getOrCreateTile now x y layer m =
  (fresh (dom (heap m)), enforceMemoryLimit (registered x y layer m)).
Proof.
  intros Hmiss. unfold getOrCreateTile. fold (requested_key x y layer m).
  rewrite Hmiss. reflexivity.
Qed.

(** A cache hit: the tile is accessed and the hit counted; the tile map,
    the access order and the tracked memory stay as they are. *)
Lemma getOrCreateTile_hit now x y layer m l :
  tiles m !! requested_key x y layer m = Some l ->
  (getOrCreateTile now x y layer m).1 = l /\
  cacheHits (stats (getOrCreateTile now x y layer m).2) = cacheHits (stats m) + 1 /\
  tileAccessOrder (getOrCreateTile now x y layer m).2 = tileAccessOrder m /\
  tiles (getOrCreateTile now x y layer m).2 = tiles m /\
  currentMemoryUsage (getOrCreateTile now x y layer m).2 = currentMemoryUsage m /\
  maxMemoryUsage (getOrCreateTile now x y layer m).2 = maxMemoryUsage m /\
  tileSize (getOrCreateTile now x y layer m).2 = tileSize m /\
  heap (getOrCreateTile now x y layer m).2 = alter (Tile.access now) l (heap m).
Proof.
  intros Hhit. unfold getOrCreateTile. fold (requested_key x y layer m).
  rewrite Hhit. simpl. repeat split.
Qed.

Lemma fresh_not_in_order m :
  consistent m -> fresh (dom (heap m)) ∉ tileAccessOrder m.
Proof.
  intros Hm Hin. destruct (order_resident m Hm _ Hin) as (tile & Hl & _).
  apply (is_fresh (dom (heap m))). apply elem_of_dom. eauto.
Qed.

Lemma registered_order x y layer m :
  consistent m ->
  tileAccessOrder (registered x y layer m) = tileAccessOrder m ++ [fresh (dom (heap m))].
Proof.
  intros Hm. unfold registered; cbn [tileAccessOrder].
  now rewrite remove_first_absent by (now apply fresh_not_in_order).
Qed.

Lemma consistent_registered x y layer m :
  consistent m -> tiles m !! requested_key x y layer m = None ->
  consistent (registered x y layer m).
Proof.
  intros Hm Hmiss. pose proof (fresh_not_in_order m Hm) as Hfresh.
  pose proof (registered_order x y layer m Hm) as Horder.
  assert (heap m !! fresh (dom (heap m)) = None) as Hnone
    by (apply not_elem_of_dom, is_fresh).
  destruct Hm as [H1 H2 H3 H4].
  split; rewrite ?Horder; cbn [registered tiles heap currentMemoryUsage].
  - apply NoDup_app. split; [exact H1|]. split.
    + intros l Hl Hl'. apply list_elem_of_singleton in Hl'. now subst l.
    + apply NoDup_singleton.
  - intros l Hl. apply elem_of_app in Hl as [Hl|Hl].
    + destruct (H2 l Hl) as (tile & Hh & Hk). exists tile.
      rewrite lookup_insert_ne by (intros <-; contradiction).
      split; [exact Hh|].
      rewrite lookup_insert_ne; [exact Hk|]. intros Heq. congruence.
    + apply list_elem_of_singleton in Hl. subst l.
      exists (created_tile x y layer m). rewrite lookup_insert_eq.
      split; [reflexivity|].
      change (key_of (created_tile x y layer m)) with (requested_key x y layer m).
      apply lookup_insert_eq.
  - intros k l Hk. destruct (decide (requested_key x y layer m = k)) as [<-|Hne].
    + rewrite lookup_insert_eq in Hk. injection Hk as <-.
      split; [apply elem_of_app; right; now apply list_elem_of_singleton|].
      exists (created_tile x y layer m). now rewrite lookup_insert_eq.
    + rewrite lookup_insert_ne in Hk by exact Hne.
      destruct (H3 k l Hk) as (Hin & tile & Hh & Hkey).
      split; [apply elem_of_app; now left|].
      exists tile. rewrite lookup_insert_ne by (intros <-; contradiction). auto.
  - rewrite memory_of_app. simpl. unfold memory_at. rewrite lookup_insert_eq.
    rewrite (memory_of_later (heap m)).
    + rewrite H4. lia.
    + now apply heap_later_insert_new.
    + intros l Hl. destruct (H2 l Hl) as (tile & Hh & _). eauto.
Qed.

Lemma consistent_getOrCreateTile now x y layer m :
  consistent m -> consistent (getOrCreateTile now x y layer m).2.
Proof.
  intros Hm. destruct (tiles m !! requested_key x y layer m) as [l|] eqn:Hk.
  - destruct (getOrCreateTile_hit now x y layer m l Hk)
      as (_ & _ & Eo & Et & Em & _ & _ & Eh).
    apply (consistent_ext (update_tile l (Tile.access now) m));
      [exact Et | exact Eo | exact Em | exact Eh |].
    apply consistent_update_tile; [apply keeps_geometry_access | exact Hm].
  - rewrite (getOrCreateTile_miss now x y layer m Hk). cbn [snd].
    destruct (enforceMemoryLimit_evicts (registered x y layer m)) as (evicted & Hev).
    + now apply consistent_registered.
    + apply Hev.
Qed.

End Tiling_insertion.

(** ** TilingManager: sequences of insertions *)

Section Tiling_sequences.
Import TilingManager.

(** What happens to a manager between two insertions: a tile is
    requested ([getOrCreateTile]), or the rasterizer stores the canvas of a
    finished tile in the tile object and marks it clean. *)
Inductive Call :=
| insert (now x y : Z) (layer : Layer.t)
| rasterized (l : nat) (now : Z) (canvas : Tile.RasterCanvas).

Definition perform (c : Call) (m : t) : t :=
  match c with
  | insert now x y layer => (getOrCreateTile now x y layer m).2
  | rasterized l now canvas =>
      update_tile l
        (fun tile => Tile.markClean now (Tile.set_rasterizedContent (Some canvas) tile)) m
  end.

Definition run (calls : list Call) (m : t) : t :=
  fold_left (fun m c => perform c m) calls m.

(** The tracked memory is within the budget, or no tile is left. *)
Definition within_budget (m : t) : Prop :=
  currentMemoryUsage m <= maxMemoryUsage m \/ tiles m = ∅.

Lemma no_tiles_of_empty_order m :
  consistent m -> tileAccessOrder m = [] -> tiles m = ∅.
Proof.
  intros Hm Horder. apply map_empty. intros k.
  destruct (tiles m !! k) as [l|] eqn:Hk; [|reflexivity].
  destruct (tiles_ordered m Hm k l Hk) as (Hin & _).
  rewrite Horder in Hin. now apply elem_of_nil in Hin.
Qed.

Lemma within_budget_getOrCreateTile now x y layer m :
  consistent m -> within_budget m -> within_budget (getOrCreateTile now x y layer m).2.
Proof.
  intros Hm Hb. destruct (tiles m !! requested_key x y layer m) as [l|] eqn:Hk.
  - destruct (getOrCreateTile_hit now x y layer m l Hk)
      as (_ & _ & _ & Et & Em & Emax & _ & _).
    unfold within_budget. now rewrite Et, Em, Emax.
  - rewrite (getOrCreateTile_miss now x y layer m Hk). cbn [snd].
    destruct (enforceMemoryLimit_evicts (registered x y layer m)) as (evicted & Hev);
      [now apply consistent_registered|].
    destruct (evicts_until _ _ _ Hev) as [Hle|Hempty].
    + left. now rewrite (evicts_budget _ _ _ Hev).
    + right. apply no_tiles_of_empty_order; [apply Hev | exact Hempty].
Qed.

Lemma run_invariant calls :
  forall m, consistent m -> within_budget m ->
    consistent (run calls m) /\ within_budget (run calls m).
Proof.
  induction calls as [|c calls IH]; intros m Hm Hb; [now split|].
  simpl. apply IH; destruct c as [now x y layer|l now canvas]; simpl.
  - now apply consistent_getOrCreateTile.
  - apply consistent_update_tile; [|exact Hm].
    apply (keeps_geometry_compose (Tile.set_rasterizedContent (Some canvas))
             (Tile.markClean now));
      [apply keeps_geometry_set_rasterizedContent | apply keeps_geometry_markClean].
  - now apply within_budget_getOrCreateTile.
  - exact Hb.
Qed.

Lemma within_budget_new tileSize maxTiles maxMemoryUsage :
  within_budget (new tileSize maxTiles maxMemoryUsage).
Proof. now right. Qed.

(** What does hold of eviction.  After any sequence of insertions (with
    rasterizations in between), one more insertion leaves the tracked
    memory, which is the sum of [width * height * 4] over the resident tiles,
    within the budget unless no tile remains.  When the insertion creates a
    tile, the tiles that [enforceMemoryLimit] evicts are a prefix [evicted]
    of [tileAccessOrder], which lists the tiles in the order of their
    creation; each one is evicted while the tracked memory still exceeds the
    budget; each evicted tile object has its rasterized content dropped and
    is gone from the tile map. *)
Theorem insertion_evicts_from_the_oldest_end
    (tileSize maxTiles maxMemoryUsage : option Z) (calls : list Call)
    (now x y : Z) (layer : Layer.t) :
  let m := run calls (new tileSize maxTiles maxMemoryUsage) in
  let l := (getOrCreateTile now x y layer m).1 in
  let m' := (getOrCreateTile now x y layer m).2 in
  within_budget m' /\
  currentMemoryUsage m' = memory_of (heap m') (tileAccessOrder m') /\
  match tiles m !! requested_key x y layer m with
  | Some _ =>
      tileAccessOrder m' = tileAccessOrder m /\ tiles m' = tiles m /\
      currentMemoryUsage m' = currentMemoryUsage m
  | None =>
      exists evicted,
        tileAccessOrder m ++ [l] = evicted ++ tileAccessOrder m' /\
        (forall pre e post, evicted = pre ++ e :: post ->
           TilingManager.maxMemoryUsage m <
           currentMemoryUsage m + memory_at (heap m') l - memory_of (heap m') pre) /\
        currentMemoryUsage m' =
          currentMemoryUsage m + memory_at (heap m') l - memory_of (heap m') evicted /\
        (forall e, e ∈ evicted ->
           exists tile,
             heap m' !! e = Some tile /\ Tile.rasterizedContent tile = None /\
             forall k, tiles m' !! k <> Some e) /\
        tilesEvicted (stats m') = tilesEvicted (stats m) + Z.of_nat (length evicted)
  end.
Proof.
  intros m l m'.
  destruct (run_invariant calls (new tileSize maxTiles maxMemoryUsage)) as [Hm Hb];
    [apply consistent_new | apply within_budget_new|].
  fold m in Hm, Hb.
  split; [now apply within_budget_getOrCreateTile|].
  split; [apply memory_tracked; now apply consistent_getOrCreateTile|].
  destruct (tiles m !! requested_key x y layer m) as [l0|] eqn:Hk.
  - destruct (getOrCreateTile_hit now x y layer m l0 Hk)
      as (_ & _ & Eo & Et & Em & _ & _ & _).
    now split_and!.
  - subst l m'. rewrite (getOrCreateTile_miss now x y layer m Hk). cbn [fst snd].
    pose proof (consistent_registered x y layer m Hm Hk) as Hreg.
    destruct (enforceMemoryLimit_evicts (registered x y layer m) Hreg) as (evicted & Hev).
    set (m' := enforceMemoryLimit (registered x y layer m)) in *.
    pose proof (registered_order x y layer m Hm) as Horder.
    pose proof (evicts_heap_later _ _ _ Hev) as Hlater.
    assert (forall l, l ∈ tileAccessOrder (registered x y layer m) ->
                      is_Some (heap (registered x y layer m) !! l)) as Hres.
    { intros l Hl. destruct (order_resident _ Hreg l Hl) as (tile & Hh & _). eauto. }
    assert (memory_at (heap m') (fresh (dom (heap m))) =
            estimateTileMemoryUsage (created_tile x y layer m)) as Hat.
    { rewrite (memory_at_later (heap (registered x y layer m))); [|exact Hlater|].
      - unfold memory_at, registered; cbn [heap]. now rewrite lookup_insert_eq.
      - apply Hres. rewrite Horder. apply elem_of_app. right.
        now apply list_elem_of_singleton. }
    assert (forall ls, (forall l, l ∈ ls -> l ∈ evicted) ->
                       memory_of (heap m') ls = memory_of (heap (registered x y layer m)) ls)
      as Hmem.
    { intros ls Hls. apply memory_of_later; [exact Hlater|].
      intros l Hl. apply Hres. rewrite (evicts_prefix _ _ _ Hev).
      apply elem_of_app. left. auto. }
    exists evicted. split_and!.
    + rewrite <- Horder. apply Hev.
    + intros pre e post Hsplit.
      pose proof (evicts_needed _ _ _ Hev pre e post Hsplit) as Hneeded.
      rewrite Hat, Hmem.
      * exact Hneeded.
      * intros l Hl. rewrite Hsplit. apply elem_of_app. now left.
    + rewrite Hat, Hmem by auto. apply Hev.
    + apply Hev.
    + apply Hev.
Qed.

End Tiling_sequences.

(** ** TilingManager: keys *)

Section Tile_keys.
Import TilingManager.

(** A string without underscore. *)
Fixpoint plain (s : string) : Prop :=
  match s with
  | EmptyString => True
  | String c s' => c <> "_"%char /\ plain s'
  end.

Lemma plain_pretty_N_go (x : N) : forall s, plain s -> plain (pretty_N_go x s).
Proof.
  induction (N.lt_wf_0 x) as [x _ IH]; intros s Hs.
  destruct (decide (x = 0)%N) as [->|Hx]; [now rewrite pretty_N_go_0|].
  rewrite pretty_N_go_step by lia. apply IH.
  - apply N.div_lt; lia.
  - split; [|exact Hs]. unfold pretty_N_char. repeat case_match; discriminate.
Qed.

(** The decimal form of an integer has no underscore. *)
Lemma plain_pretty_Z (z : Z) : plain (pretty z).
Proof.
  assert (forall p : positive, plain (pretty p)) as Hpos.
  { intros p. unfold pretty, pretty_positive, pretty, pretty_N.
    destruct (decide (N.pos p = 0%N)); [discriminate|].
    now apply plain_pretty_N_go. }
  destruct z as [|p|p]; unfold pretty, pretty_Z.
  - simpl. now split.
  - apply Hpos.
  - simpl. split; [discriminate | apply Hpos].
Qed.

Lemma underscore_not_plain (a q : string) : ~ plain (a +:+ String "_" q).
Proof. induction a as [|c a IH]; simpl; intros [H1 H2]; [congruence | auto]. Qed.

(** A string is cut at its last underscore in one way only. *)
Lemma last_underscore (a b p q : string) :
  plain p -> plain q ->
  a +:+ String "_" p = b +:+ String "_" q -> a = b /\ p = q.
Proof.
  intros Hp Hq. revert b. induction a as [|c a IH]; intros [|d b]; simpl; intros H.
  - injection H as ->. now split.
  - injection H as _ H. subst p. now apply underscore_not_plain in Hp.
  - injection H as _ H. subst q. now apply underscore_not_plain in Hq.
  - injection H as -> H. destruct (IH b H) as [-> ->]. now split.
Qed.

Lemma tile_key_cut (layerId : string) (tileX tileY : Z) :
  tile_key layerId tileX tileY =
  (layerId +:+ String "_" (pretty tileX)) +:+ String "_" (pretty tileY).
Proof.
  unfold tile_key.
  induction layerId as [|c s IH]; [reflexivity | exact (f_equal (String c) IH)].
Qed.

(** Different cells, or different layers, never share a key. *)
Lemma tile_key_inj (layerId layerId' : string) (tileX tileY tileX' tileY' : Z) :
  tile_key layerId tileX tileY = tile_key layerId' tileX' tileY' ->
  layerId = layerId' /\ tileX = tileX' /\ tileY = tileY'.
Proof.
  rewrite !tile_key_cut. intros H.
  apply last_underscore in H as [H HY]; [|apply plain_pretty_Z..].
  apply last_underscore in H as [HL HX]; [|apply plain_pretty_Z..].
  split_and!; [exact HL | now apply (inj pretty) | now apply (inj pretty)].
Qed.

End Tile_keys.

(** ** TilingManager: the grid of a layer *)

Section Tiling_grid.
Import TilingManager.

(** Every tile of the map sits at the origin of the grid cell its key
    names. *)
Definition aligned (m : t) : Prop :=
  forall layerId tileX tileY l,
    tiles m !! tile_key layerId tileX tileY = Some l ->
    exists tile,
      heap m !! l = Some tile /\
      Tile.x tile = tileX * tileSize m /\ Tile.y tile = tileY * tileSize m.

(** A tile stored under the key of the cell at [(x, y)] has its origin
    there. *)
Definition cell_ok (layer : Layer.t) (m : t) (c : Z * Z) : Prop :=
  forall l, tiles m !! requested_key c.1 c.2 layer m = Some l ->
    exists tile, heap m !! l = Some tile /\ Tile.x tile = c.1 /\ Tile.y tile = c.2.

(** The pixel origin of the tile object at [l]. *)
Definition origin_of (m : t) (l : nat) : option (Z * Z) :=
  (fun tile => (Tile.x tile, Tile.y tile)) <$> heap m !! l.

Lemma origin_later m m' l c :
  heap_later (heap m) (heap m') -> origin_of m l = Some c -> origin_of m' l = Some c.
Proof.
  unfold origin_of. intros Hlater Ho.
  destruct (heap m !! l) as [tile|] eqn:Hl; [|discriminate].
  destruct (Hlater l tile Hl) as (tile' & Hl' & G). rewrite Hl'. simpl in *.
  destruct G as (Gx & Gy & _). congruence.
Qed.

Lemma update_tile_facts l f m :
  keeps_geometry f ->
  heap_later (heap m) (heap (update_tile l f m)) /\
  tileSize (update_tile l f m) = tileSize m /\
  tiles (update_tile l f m) = tiles m.
Proof. intros Hf. split_and!; try reflexivity. now apply heap_later_alter. Qed.

(** What [getOrCreateTile] returns for a cell and how it changes the
    manager. *)
Lemma getOrCreateTile_cell now layer m c :
  consistent m -> cell_ok layer m c ->
  let r := getOrCreateTile now c.1 c.2 layer m in
  origin_of r.2 r.1 = Some c /\
  heap_later (heap m) (heap r.2) /\
  tileSize r.2 = tileSize m /\
  consistent r.2 /\
  (forall k l, tiles r.2 !! k = Some l -> k <> requested_key c.1 c.2 layer m ->
               tiles m !! k = Some l).
Proof.
  intros Hm Hok r. destruct c as [x y]; cbn [fst snd] in *.
  assert (consistent r.2) as Hm' by now apply consistent_getOrCreateTile.
  destruct (tiles m !! requested_key x y layer m) as [l|] eqn:Hk.
  - destruct (getOrCreateTile_hit now x y layer m l Hk)
      as (El & _ & _ & Et & _ & _ & Es & Eh).
    fold r in El, Et, Es, Eh.
    destruct (Hok l Hk) as (tile & Hl & Hx & Hy).
    assert (heap_later (heap m) (heap r.2)) as Hlater
      by (rewrite Eh; apply heap_later_alter, keeps_geometry_access).
    split_and!; try assumption.
    + rewrite El. apply (origin_later m); [exact Hlater|].
      unfold origin_of. rewrite Hl. simpl in *. congruence.
    + intros k l' Hk' _. now rewrite Et in Hk'.
  - pose proof (getOrCreateTile_miss now x y layer m Hk) as Er. fold r in Er.
    pose proof (consistent_registered x y layer m Hm Hk) as Hreg.
    destruct (enforceMemoryLimit_evicts (registered x y layer m) Hreg) as (evicted & Hev).
    rewrite Er in *. cbn [fst snd] in *.
    assert (heap_later (heap m) (heap (registered x y layer m))) as Hlater0.
    { apply heap_later_insert_new, not_elem_of_dom, is_fresh. }
    split_and!; try assumption.
    + apply (origin_later (registered x y layer m)); [apply Hev|].
      unfold origin_of, registered; cbn [heap]. now rewrite lookup_insert_eq.
    + eapply heap_later_trans; [exact Hlater0 | apply Hev].
    + apply Hev.
    + intros k l Hk' Hne. apply (evicts_tiles _ _ _ Hev) in Hk'.
      unfold registered in Hk'; cbn [tiles] in Hk'.
      now rewrite lookup_insert_ne in Hk' by congruence.
Qed.

Lemma generate_cell_cell now layer viewport m c :
  consistent m -> cell_ok layer m c ->
  let r := generate_cell now layer viewport c.1 c.2 m in
  origin_of r.2 r.1 = Some c /\
  heap_later (heap m) (heap r.2) /\
  tileSize r.2 = tileSize m /\
  consistent r.2 /\
  (forall k l, tiles r.2 !! k = Some l -> k <> requested_key c.1 c.2 layer m ->
               tiles m !! k = Some l).
Proof.
  intros Hm Hok. unfold generate_cell.
  destruct (getOrCreateTile_cell now layer m c Hm Hok) as (Ho & Hlater & Hs & Hm1 & Ht).
  destruct (getOrCreateTile now c.1 c.2 layer m) as [l m1]; cbn [fst snd] in *.
  set (m2 := update_tile l (Tile.calculatePriority viewport) m1).
  destruct (update_tile_facts l (Tile.calculatePriority viewport) m1
              (keeps_geometry_calculatePriority viewport)) as (Hl2 & Hs2 & Ht2).
  fold m2 in Hl2, Hs2, Ht2.
  assert (consistent m2) as Hm2
    by (apply consistent_update_tile; [apply keeps_geometry_calculatePriority | exact Hm1]).
  destruct (Layer.needsRepaint layer || _); cbn [fst snd].
  - destruct (update_tile_facts l Tile.markDirty m2 keeps_geometry_markDirty)
      as (Hl3 & Hs3 & Ht3).
    split_and!.
    + eapply origin_later; [exact Hl3|]. eapply origin_later; [exact Hl2 | exact Ho].
    + eapply heap_later_trans; [exact Hlater|].
      eapply heap_later_trans; [exact Hl2 | exact Hl3].
    + congruence.
    + apply consistent_update_tile; [apply keeps_geometry_markDirty | exact Hm2].
    + intros k l' Hk Hne. rewrite Ht3, Ht2 in Hk. now apply Ht.
  - split_and!.
    + eapply origin_later; [exact Hl2 | exact Ho].
    + eapply heap_later_trans; [exact Hlater | exact Hl2].
    + congruence.
    + exact Hm2.
    + intros k l' Hk Hne. rewrite Ht2 in Hk. now apply Ht.
Qed.

(** The cells of a list have pairwise different keys. *)
Fixpoint distinct_keys (layer : Layer.t) (size : Z) (cells : list (Z * Z)) : Prop :=
  match cells with
  | [] => True
  | c :: cells' =>
      Forall (fun c' => tile_key (Layer.id layer) (c'.1 `div` size) (c'.2 `div` size) <>
                        tile_key (Layer.id layer) (c.1 `div` size) (c.2 `div` size)) cells' /\
      distinct_keys layer size cells'
  end.

Lemma generate_cells_origins now layer viewport cells :
  forall m,
    consistent m ->
    distinct_keys layer (tileSize m) cells ->
    Forall (cell_ok layer m) cells ->
    let r := generate_cells now layer viewport cells m in
    map (origin_of r.2) r.1 = map Some cells /\
    heap_later (heap m) (heap r.2) /\
    tileSize r.2 = tileSize m /\
    consistent r.2.
Proof.
  induction cells as [|c cells IH]; intros m Hm Hdist Hok; cbn [generate_cells].
  - split_and!; try done. apply heap_later_refl.
  - destruct Hdist as [Hne Hdist]. apply Forall_cons in Hok as [Hc Hok].
    destruct c as [x y].
    destruct (generate_cell_cell now layer viewport m (x, y) Hm Hc)
      as (Ho & Hlater & Hs & Hm1 & Ht).
    cbn [fst snd] in *.
    destruct (generate_cell now layer viewport x y m) as [l m1]; cbn [fst snd] in *.
    specialize (IH m1 Hm1).
    destruct IH as (Hos & Hlater' & Hs' & Hm').
    + now rewrite Hs.
    + rewrite Forall_forall in Hok, Hne. apply Forall_forall. intros c' Hin l' Hk'.
      unfold requested_key in Hk'. rewrite Hs in Hk'.
      apply Ht in Hk'; [|unfold requested_key; apply (Hne c' Hin)].
      destruct (Hok c' Hin l' Hk') as (tile & Hl & Hxy).
      destruct (Hlater l' tile Hl) as (tile' & Hl' & G).
      exists tile'. split; [exact Hl'|]. destruct G as (Gx & Gy & _). intuition congruence.
    + destruct (generate_cells now layer viewport cells m1) as [ls m']; cbn [fst snd] in *.
      split_and!.
      * cbn [map]. f_equal; [|exact Hos]. eapply origin_later; eassumption.
      * eapply heap_later_trans; eassumption.
      * congruence.
      * exact Hm'.
Qed.

Lemma heap_later_removeTile key m : heap_later (heap m) (heap (removeTile key m)).
Proof.
  unfold removeTile. destruct (tiles m !! key) as [l|]; [|apply heap_later_refl].
  destruct (heap m !! l) as [tile|] eqn:Hl; [|apply heap_later_refl].
  cbn [heap]. eapply heap_later_insert_same; [exact Hl | apply keeps_geometry_dispose].
Qed.

Lemma heap_later_removeTiles keys :
  forall m, heap_later (heap m) (heap (fold_left (fun m' key => removeTile key m') keys m)).
Proof.
  induction keys as [|key keys IH]; intros m; simpl; [apply heap_later_refl|].
  eapply heap_later_trans; [apply heap_later_removeTile | apply IH].
Qed.

Lemma heap_later_cleanupUnusedTiles layer m :
  heap_later (heap m) (heap (cleanupUnusedTiles layer m)).
Proof.
  unfold cleanupUnusedTiles.
  destruct (layerTiles m !! Layer.id layer) as [keys|]; [|apply heap_later_refl].
  apply heap_later_removeTiles.
Qed.

Lemma string_app_inv_head (s a b : string) : s +:+ a = s +:+ b -> a = b.
Proof. induction s as [|c s IH]; simpl; intros H; [exact H | injection H; auto]. Qed.

(** *** The alignment of the tile map is kept *)





Lemma divide_cell (size v : Z) : 0 < size -> (size | v) -> v = v `div` size * size.
Proof. intros Hpos [k ->]. rewrite Z.div_mul by lia. reflexivity. Qed.




Lemma steps_divide (step stop : Z) (fuel : nat) :
  forall v, (step | v) -> Forall (fun v' => (step | v')) (steps fuel v stop step).
Proof.
  induction fuel as [|fuel IH]; intros v Hv; cbn [steps]; [constructor|].
  destruct (v <? stop); constructor; [exact Hv|].
  apply IH. now apply Z.divide_add_r; [|apply Z.divide_refl].
Qed.

(** The cells of the grid are at multiples of the tile size. *)
Lemma grid_divide layer size :
  Forall (fun c => (size | c.1) /\ (size | c.2)) (grid layer size).
Proof.
  apply Forall_forall. intros [x y] Hin. apply list_elem_of_In in Hin.
  unfold grid in Hin. apply in_concat in Hin as (row & Hrow & Hin).
  apply in_map_iff in Hrow as (y' & <- & Hy').
  apply in_map_iff in Hin as (x' & [= <- <-] & Hx').
  cbn [fst snd]. unfold for_range in Hx', Hy'.
  apply list_elem_of_In in Hx', Hy'. split.
  - exact (proj1 (Forall_forall _ _)
             (steps_divide _ _ _ _ (Z.divide_factor_r _ _)) _ Hx').
  - exact (proj1 (Forall_forall _ _)
             (steps_divide _ _ _ _ (Z.divide_factor_r _ _)) _ Hy').
Qed.



(** C6.  With a tile edge of 256, a layer whose absolute bounds are
    (0, 0, 800, 600) gets exactly the 12 tiles of the 4 x 3 grid, row by row,
    with origins x in {0, 256, 512, 768} and y in {0, 256, 512}.  The
    manager is any consistent one with an aligned tile map: a new manager
    is, and [generateTilesForLayer] keeps it so
    ([generateTilesForLayer_invariant]). *)
Theorem generateTilesForLayer_800x600
    (now : Z) (layer : Layer.t) (viewport : Rect.t) (m : t) :
  tileSize m = 256 ->
  effective_bounds layer = Rect.mk 0 0 800 600 ->
  consistent m -> aligned m ->
  let r := generateTilesForLayer now layer viewport m in
  length r.1 = 12%nat /\
  map (origin_of r.2) r.1 =
  map Some [(0, 0); (256, 0); (512, 0); (768, 0);
            (0, 256); (256, 256); (512, 256); (768, 256);
            (0, 512); (256, 512); (512, 512); (768, 512)].
Proof.
  intros Hsize Hbounds Hm Haligned r.
  set (cells := [(0, 0); (256, 0); (512, 0); (768, 0);
                 (0, 256); (256, 256); (512, 256); (768, 256);
                 (0, 512); (256, 512); (512, 512); (768, 512)]).
  assert (grid layer (tileSize m) = cells) as Hgrid.
  { unfold grid. rewrite Hsize, Hbounds. vm_compute. reflexivity. }
  assert (distinct_keys layer (tileSize m) cells) as Hdist.
  { rewrite Hsize. unfold tile_key. cbn.
    repeat split; repeat constructor;
      intros H; apply string_app_inv_head in H; discriminate H. }
  assert (Forall (cell_ok layer m) cells) as Hok.
  { apply Forall_forall. intros [x y] Hin l Hk. unfold requested_key in Hk.
    destruct (Haligned _ _ _ _ Hk) as (tile & Hl & Hx & Hy).
    exists tile. split; [exact Hl|]. rewrite Hx, Hy, Hsize. cbn [fst snd].
    unfold cells in Hin.
    repeat (apply elem_of_cons in Hin as [[= -> ->]|Hin]; [split; reflexivity|]).
    now apply elem_of_nil in Hin. }
  destruct (generate_cells_origins now layer viewport cells m Hm Hdist Hok)
    as (Hos & Hlater & _ & _).
  subst r. unfold generateTilesForLayer. rewrite Hgrid.
  destruct (generate_cells now layer viewport cells m) as [ls m1]; cbn [fst snd] in *.
  assert (length ls = 12%nat) as Hlen.
  { apply (f_equal length) in Hos. now rewrite !length_map in Hos. }
  split; [exact Hlen|].
  pose proof (heap_later_cleanupUnusedTiles layer m1) as Hclean.
  clear - Hos Hclean. fold cells.
  revert Hos. generalize cells. induction ls as [|l ls IH]; intros cs Hos; [exact Hos|].
  destruct cs as [|c cs]; [discriminate|]. cbn [map] in *.
  injection Hos as Ho Hos. f_equal; [|now apply IH].
  eapply origin_later; eassumption.
Qed.

Definition layer_800x600 : Layer.t :=
  Layer.new ""
    (Layer.Build_Options (Some "page") None None None None (Some (Rect.mk 0 0 800 600))
       None None None None None).

Lemma generateTilesForLayer_800x600_witness :
  length (generateTilesForLayer 0 layer_800x600 (Rect.mk 0 0 800 600)
            (new None None None)).1 = 12%nat.
Proof.
  refine (proj1 (generateTilesForLayer_800x600 0 layer_800x600 (Rect.mk 0 0 800 600)
                   (new None None None) eq_refl eq_refl _ _)).
  - apply consistent_new.
  - intros layerId tileX tileY l Hk. cbn in Hk. now rewrite lookup_empty in Hk.
Defined.

End Tiling_grid.

(** ** TilingManager: concrete runs *)

Section Tiling_runs.
Import TilingManager.

(** A layer four tiles wide; each of its tiles takes 256 * 256 * 4 =
    262144 bytes. *)
Definition wide_layer : Layer.t :=
  Layer.new ""
    (Layer.Build_Options (Some "wide") None None None None (Some (Rect.mk 0 0 1024 256))
       None None None None None).

(** A budget that holds two tiles. *)
Definition two_tile_manager : t := new None None (Some 600000).

Definition some_canvas : Tile.RasterCanvas :=
  {| Tile.element := 0%nat; Tile.canvas_width := 256; Tile.canvas_height := 256 |}.

(** Tiles A (object 0) and B (object 1) are created and rasterized. *)
Definition after_A_and_B : t :=
  run [insert 0 0 0 wide_layer; rasterized 0 1 some_canvas;
       insert 2 256 0 wide_layer; rasterized 1 3 some_canvas] two_tile_manager.

(** A third tile exceeds the budget: the oldest tile A is evicted, its
    content dropped, and the tracked memory is back at two tiles. *)
Example third_tile_evicts_oldest :
  let r := getOrCreateTile 4 512 0 wide_layer after_A_and_B in
  tileAccessOrder after_A_and_B = [0; 1]%nat /\
  r.1 = 2%nat /\
  tileAccessOrder r.2 = [1; 2]%nat /\
  currentMemoryUsage r.2 = 524288 /\
  Tile.rasterizedContent <$> heap after_A_and_B !! 0%nat = Some (Some some_canvas) /\
  Tile.rasterizedContent <$> heap r.2 !! 0%nat = Some None /\
  tiles r.2 !! "wide_0_0" = None /\
  tilesEvicted (stats r.2) = 1.
Proof. vm_compute. repeat split. Qed.

Lemma insertion_evicts_from_the_oldest_end_witness :
  within_budget (getOrCreateTile 4 512 0 wide_layer after_A_and_B).2.
Proof.
  exact (proj1 (insertion_evicts_from_the_oldest_end None None (Some 600000)
                  [insert 0 0 0 wide_layer; rasterized 0 1 some_canvas;
                   insert 2 256 0 wide_layer; rasterized 1 3 some_canvas]
                  4 512 0 wide_layer)).
Defined.

(** C4 on the code.  Requesting tile A again is a cache hit: the hit is
    counted and the tile's own access data are updated, but the access order
    is not: A stays at the least-recently-used end, in front of B. *)
Theorem cache_hit_keeps_access_order :
  let r := getOrCreateTile 4 0 0 wide_layer after_A_and_B in
  tiles after_A_and_B !! requested_key 0 0 wide_layer after_A_and_B = Some 0%nat /\
  r.1 = 0%nat /\
  cacheHits (stats r.2) = cacheHits (stats after_A_and_B) + 1 /\
  Tile.lastAccessTime <$> heap r.2 !! 0%nat = Some 4 /\
  tileAccessOrder after_A_and_B = [0; 1]%nat /\
  tileAccessOrder r.2 = [0; 1]%nat /\
  last (tileAccessOrder r.2) <> Some r.1.
Proof. vm_compute. repeat split; discriminate. Qed.

(** The consequence: after the hit on A, a third tile evicts A, the tile
    accessed last, and keeps B. *)
Example eviction_after_hit_removes_the_tile_just_used :
  let hit := getOrCreateTile 4 0 0 wide_layer after_A_and_B in
  let r := getOrCreateTile 5 512 0 wide_layer hit.2 in
  tileAccessOrder r.2 = [1; 2]%nat /\
  tiles r.2 !! "wide_0_0" = None /\
  tiles r.2 !! "wide_1_0" = Some 1%nat.
Proof. vm_compute. repeat split. Qed.

(** C3 on the code.  Eviction does not start from the least recently
    accessed tile.  Under a budget of two tiles, A and B are resident; A is
    requested again at time 4, a hit that [access()] records on the tile
    ([accessCount] 1, [lastAccessTime] 4) while B has never been accessed
    since it was made.  A third tile then takes the tracked memory over the
    budget, and the one tile that [enforceMemoryLimit] evicts and disposes
    is A, the most recently accessed one; B, the least recently accessed
    one, stays.  The tracked memory is back within the budget. *)
Theorem eviction_takes_the_tile_accessed_last :
  let hit := getOrCreateTile 4 0 0 wide_layer after_A_and_B in
  let r := getOrCreateTile 5 512 0 wide_layer hit.2 in
  hit.1 = 0%nat /\
  tiles hit.2 !! "wide_0_0" = Some 0%nat /\
  tiles hit.2 !! "wide_1_0" = Some 1%nat /\
  (fun tile => (Tile.accessCount tile, Tile.lastAccessTime tile)) <$> heap hit.2 !! 0%nat =
    Some (1, 4) /\
  (fun tile => (Tile.accessCount tile, Tile.lastAccessTime tile)) <$> heap hit.2 !! 1%nat =
    Some (0, 0) /\
  TilingManager.maxMemoryUsage hit.2 <
    currentMemoryUsage hit.2 + estimateTileMemoryUsage (created_tile 512 0 wide_layer hit.2) /\
  r.1 = 2%nat /\
  tilesEvicted (stats r.2) = tilesEvicted (stats hit.2) + 1 /\
  tiles r.2 !! "wide_0_0" = None /\
  Tile.rasterizedContent <$> heap r.2 !! 0%nat = Some None /\
  tiles r.2 !! "wide_1_0" = Some 1%nat /\
  tileAccessOrder r.2 = [1; 2]%nat /\
  currentMemoryUsage r.2 <= TilingManager.maxMemoryUsage r.2.
Proof. vm_compute. repeat split; discriminate. Qed.

End Tiling_runs.

(** ** TilingManager: requests, removals and clean-up *)

Section Tiling_round_trips.
Import TilingManager.

(** X1.  The key under which a tile is stored determines its layer id
    and its grid cell: two keys are equal only when the layer ids and both
    grid coordinates are, whatever characters the layer id contains. *)
Theorem tile_keys_never_collide
    (layerId layerId' : string) (tileX tileY tileX' tileY' : Z) :
  tile_key layerId tileX tileY = tile_key layerId' tileX' tileY' <->
  layerId = layerId' /\ tileX = tileX' /\ tileY = tileY'.
Proof.
  split; [apply tile_key_inj | intros (-> & -> & ->); reflexivity].
Qed.

(** The calls of [generateTilesForLayer] made on a manager, with the clock
    reading, the layer and the viewport of each. *)
Definition generate_all (calls : list (Z * Layer.t * Rect.t)) (m : t) : t :=
  fold_left (fun m0 c => (generateTilesForLayer c.1.1 c.1.2 c.2 m0).2) calls m.















(** The layer "wide" shrunk to one tile. *)
Definition narrow_layer : Layer.t :=
  Layer.new ""
    (Layer.Build_Options (Some "wide") None None None None (Some (Rect.mk 0 0 256 256))
       None None None None None).


(** In the run above the tile of the second cell is removed and the
    tile of the first cell stays. *)
Example cleanup_after_shrinking :
  let m' := cleanupUnusedTiles narrow_layer after_A_and_B in
  tiles m' !! "wide_0_0" = Some 0%nat /\ tiles m' !! "wide_1_0" = None /\
  tileAccessOrder m' = [0%nat] /\ currentMemoryUsage m' = 262144.
Proof. vm_compute. repeat split. Qed.

End Tiling_round_trips.

(** ** GPUSimulator: batching *)

Section GPU_batching.
Import GPU.

(** The render state that decides whether two quads can share a batch. *)
Definition batch_state (b : Batch) : string * option nat * string :=
  (batch_shader b, batch_texture b, batch_blendMode b).

Definition quad_state (q : DrawQuad) : string * option nat * string :=
  (shader q, texture q, blendMode q).

Lemma canBatchWithCurrent_spec g quad :
  quads (currentBatch g) <> [] ->
  canBatchWithCurrent g quad = true <-> batch_state (currentBatch g) = quad_state quad.
Proof.
  intros Hopen. unfold canBatchWithCurrent, batch_state, quad_state.
  destruct (quads (currentBatch g)) as [|q qs]; [contradiction|].
  rewrite !andb_true_iff, !String.eqb_eq, bool_decide_eq_true.
  split; [intros [[-> ->] ->]; reflexivity | intros [= -> -> ->]; auto].
Qed.

Lemma stats_bindShader name g :
  totalDrawCalls (stats (bindShader name g)) = totalDrawCalls (stats g) /\
  totalTriangles (stats (bindShader name g)) = totalTriangles (stats g).
Proof. unfold bindShader. now destruct (bool_decide _). Qed.

Lemma stats_bindTexture tx g :
  totalDrawCalls (stats (bindTexture tx g)) = totalDrawCalls (stats g) /\
  totalTriangles (stats (bindTexture tx g)) = totalTriangles (stats g).
Proof. unfold bindTexture. now destruct (bool_decide _). Qed.

Lemma stats_drawSingleQuad now l g : stats (drawSingleQuad now l g) = stats g.
Proof. unfold drawSingleQuad. now destruct (heap g !! l). Qed.

Lemma stats_draw_all now ls :
  forall g, stats (fold_left (fun g' l => drawSingleQuad now l g') ls g) = stats g.
Proof.
  induction ls as [|l ls IH]; intros g; simpl; [reflexivity|].
  now rewrite IH, stats_drawSingleQuad.
Qed.

(** Executing a batch of [n >= 1] quads is one draw call of [2 n]
    triangles. *)
Lemma executeBatchDraw_counts now command viewport g :
  command_quads command <> [] ->
  totalDrawCalls (stats (executeBatchDraw now command viewport g)) =
    totalDrawCalls (stats g) + 1 /\
  totalTriangles (stats (executeBatchDraw now command viewport g)) =
    totalTriangles (stats g) + 2 * Z.of_nat (length (command_quads command)).
Proof.
  intros Hn. unfold executeBatchDraw.
  destruct (command_quads command) as [|q qs] eqn:Hq; [contradiction|].
  cbn [stats with_stats totalDrawCalls totalTriangles].
  rewrite stats_draw_all.
  destruct (command_texture command) as [tx|].
  - destruct (stats_bindTexture tx
                (bindShader (command_shader command)
                   (with_context g
                      (context g ++
                       [Canvas.setGlobalCompositeOperation (command_blendMode command)]))))
      as [-> ->].
    destruct (stats_bindShader (command_shader command)
                (with_context g
                   (context g ++
                    [Canvas.setGlobalCompositeOperation (command_blendMode command)])))
      as [-> ->].
    cbn [with_context stats]. lia.
  - destruct (stats_bindShader (command_shader command)
                (with_context g
                   (context g ++
                    [Canvas.setGlobalCompositeOperation (command_blendMode command)])))
      as [-> ->].
    cbn [with_context stats]. lia.
Qed.

(** C8.  With batching enabled, a visible quad submitted while a batch
    is open joins it when its (shader, texture, blendMode) is that of the
    batch; otherwise the open batch is flushed as one draw command and a new
    batch holding the quad is opened.  Executing a command of [n] quads adds
    1 to the draw calls and [2 n] to the triangles. *)
Theorem quads_batch_by_render_state
    (g : t) (l : nat) (quad : DrawQuad) (now : Z) (viewport : Rect.t) (command : Command) :
  enableBatching g = true ->
  heap g !! l = Some quad ->
  visible quad = true ->
  quads (currentBatch g) <> [] ->
  command_quads command <> [] ->
  let b := currentBatch g in
  (batch_state b = quad_state quad ->
   submitDrawQuad l g =
   with_batch g (mkBatch (quads b ++ [l]) (batch_shader b) (batch_texture b)
                         (batch_blendMode b))) /\
  (batch_state b <> quad_state quad ->
   commandBuffer (submitDrawQuad l g) =
     commandBuffer g ++
     [mkCommand "batch" (quads b) (batch_shader b) (batch_texture b) (batch_blendMode b)] /\
   batchCount (stats (submitDrawQuad l g)) = batchCount (stats g) + 1 /\
   currentBatch (submitDrawQuad l g) =
     mkBatch [l] (shader quad) (texture quad) (blendMode quad)) /\
  totalDrawCalls (stats (executeBatchDraw now command viewport g)) =
    totalDrawCalls (stats g) + 1 /\
  totalTriangles (stats (executeBatchDraw now command viewport g)) =
    totalTriangles (stats g) + 2 * Z.of_nat (length (command_quads command)).
Proof.
  intros Hbatching Hl Hvisible Hopen Hn b.
  split; [|split; [|now apply executeBatchDraw_counts]].
  - intros Hsame. unfold submitDrawQuad. rewrite Hl, Hvisible, Hbatching. cbn [negb andb].
    now rewrite (proj2 (canBatchWithCurrent_spec g quad Hopen) Hsame).
  - intros Hdiff. unfold submitDrawQuad. rewrite Hl, Hvisible, Hbatching. cbn [negb andb].
    destruct (canBatchWithCurrent g quad) eqn:Hcan.
    { apply (canBatchWithCurrent_spec g quad Hopen) in Hcan. contradiction. }
    unfold flushCurrentBatch. fold b.
    destruct (quads b) as [|q qs] eqn:Hq; [contradiction|].
    now split_and!.
Qed.

(** With no batch open (at the start, or right after a flush) a visible
    quad opens one, and nothing is added to the command buffer. *)
Lemma submitDrawQuad_opens_batch (g : t) (l : nat) (quad : DrawQuad) :
  heap g !! l = Some quad ->
  visible quad = true ->
  quads (currentBatch g) = [] ->
  submitDrawQuad l g =
  with_batch g (mkBatch [l] (shader quad) (texture quad) (blendMode quad)).
Proof.
  intros Hl Hvisible Hempty. unfold submitDrawQuad, canBatchWithCurrent, flushCurrentBatch.
  rewrite Hl, Hvisible, Hempty. cbn [negb]. now rewrite andb_false_r.
Qed.

(** Three quads: two textured alike and a third on another texture. *)
Definition a_quad (tx : option nat) : DrawQuad :=
  mkQuad (Build_Position 0 0 0) (Build_Size 100 100) Layer.identity tx
         "rgba(255, 255, 255, 1)" (JS.Fin 1) "source-over" "default" None true true None 0 0.

Definition three_quads : t :=
  mk true [0; 1; 2]%nat 0 [] false (mkStats 0 0 0 0 0 0 0 0 0 0)
     (mkBatch [] "default" None "source-over") None None
     (<[0%nat := a_quad (Some 7%nat)]>
        (<[1%nat := a_quad (Some 7%nat)]> (<[2%nat := a_quad (Some 8%nat)]> ∅)))
     [].

Lemma quads_batch_by_render_state_witness :
  submitDrawQuad 1 (submitDrawQuad 0 three_quads) =
  with_batch (submitDrawQuad 0 three_quads)
    (mkBatch [0; 1]%nat "default" (Some 7%nat) "source-over").
Proof.
  refine (proj1 (quads_batch_by_render_state (submitDrawQuad 0 three_quads) 1%nat
                   (a_quad (Some 7%nat)) 0 (Rect.mk 0 0 800 600)
                   (mkCommand "batch" [0%nat] "default" (Some 7%nat) "source-over")
                   eq_refl eq_refl eq_refl _ _) eq_refl); discriminate.
Defined.

(** The whole frame for the three quads: two draw calls, three quads,
    six triangles, two batches. *)
Example frame_of_three_quads :
  let s := (renderFrame 0 10 5 (Rect.mk 0 0 800 600) three_quads).1 in
  totalDrawCalls s = 2 /\ totalQuads s = 3 /\ totalTriangles s = 6 /\ batchCount s = 2.
Proof. vm_compute. repeat split. Qed.

End GPU_batching.

(** ** Compositor: exceptions during a frame *)

Section Compositor_errors.
Import Compositor.

(** [handleCompositorError] returns normally and appends the diagnostic
    to what the surface has received. *)
Lemma handleCompositorError_draws {World : Type} (error : exn) (c : t (World := World)) :
  exists c',
    handleCompositorError error c = (inl tt, c') /\
    context c' = context c ++ diagnostic c error /\
    stats c' = stats c /\ canvas_width c' = canvas_width c /\
    canvas_height c' = canvas_height c.
Proof.
  eexists. split; [reflexivity|]. cbn. rewrite <- !app_assoc. now split_and!.
Qed.

(** Whichever stage throws, [composite] returns the statistics object
    to its caller.  When a stage throws, the last calls the surface
    receives are those of [handleCompositorError], in whatever state the
    stage has left the surface. *)
Lemma composite_returns_the_statistics
    (localeCompare : string -> string -> Z) (depth : nat) (now0 now now1 : Z)
    (layerTree : option LayerTree.t) (options : Options) (c : t (World := World)) :
  let run := composite localeCompare depth now0 now now1 layerTree options c in
  let entry := (prologue layerTree options c).2 in
  let attempt := stages localeCompare depth now layerTree options entry in
  run.1 = inl (stats run.2) /\
  compositorTime (stats run.2) = now1 - now0 /\
  match attempt.1 with
  | inl _ => context run.2 = context attempt.2
  | inr error => context run.2 = context attempt.2 ++ diagnostic attempt.2 error
  end.
Proof.
  cbv zeta. unfold composite, bind, try_catch.
  cbn [prologue resetStats modify bind fst snd].
  match goal with
  | |- context [stages _ _ _ layerTree options ?e] =>
      destruct (stages localeCompare depth now layerTree options e) as [[u|error] c1]
  end.
  - unfold epilogue, bind, modify, get, log, ret. cbn.
    destruct (debugMode c1); cbn; now split_and!.
  - unfold handleCompositorError, epilogue, bind, modify, get, log, ret, draw, diagnostic.
    cbn. destruct (debugMode c1); cbn; rewrite <- ?app_assoc; now split_and!.
Qed.

(** A [null] layer tree: the first stage throws on reading
    [traverseLayers], none of the later stages runs, and the frame ends
    with fresh statistics and the diagnostic on the surface. *)
Example composite_null_layer_tree
    (localeCompare : string -> string -> Z) (depth : nat) (now0 now now1 : Z)
    (options : Options) (c : t (World := World)) :
  let run := composite localeCompare depth now0 now now1 None options c in
  run.1 = inl (mkStats 0 0 0 (now1 - now0) 0 0) /\
  context run.2 =
    context c ++
    [Canvas.clearRect 0 0 (canvas_width c) (canvas_height c);
     Canvas.setFillStyle "#ff0000";
     Canvas.setFont "16px monospace";
     Canvas.fillText
       "合成器错误: Cannot read properties of null (reading 'traverseLayers')"
       10 30 None].
Proof.
  cbv zeta. unfold composite, bind, try_catch, stages, bind.
  cbn [prologue resetStats modify bind fst snd preprocessLayers throw].
  unfold handleCompositorError, epilogue, bind, modify, get, log, ret, draw.
  cbn. destruct (debugMode c); cbn; rewrite <- ?app_assoc; now split.
Qed.

(** *** Rasterization never throws into the frame *)

Lemma rasterizeTile_keeps_tiles (depth : nat) (now : Z) (l : loc) (tile : Tile.t)
    (st : Paint.Store) (m : TilingManager.t) (e : Rasterizer.Engine) (l' : loc) :
  is_Some (TilingManager.heap m !! l') ->
  is_Some (TilingManager.heap (Rasterizer.rasterizeTile depth now l tile st m e).1.2 !! l').
Proof.
  intros Hl'. unfold Rasterizer.rasterizeTile.
  destruct (if Rasterizer.enableCaching (Rasterizer.caching e)
            then Rasterizer.getCachedRasterBuffer st tile (Rasterizer.caching e)
            else None) as [cached|].
  - cbn [fst snd TilingManager.update_tile TilingManager.heap].
    destruct (decide (l = l')) as [->|Hne].
    + rewrite lookup_alter_eq. destruct Hl' as [t0 ->]. now eexists.
    + now rewrite lookup_alter_ne.
  - destruct (Rasterizer.rasterizeAsync _ _ _ _ _ _) as [st1 e2]. exact Hl'.
Qed.

Lemma rasterize_one_returns (depth : nat) (now : Z) (l : loc) (c : t (World := World)) :
  is_Some (TilingManager.heap (tilingManager (world c)) !! l) ->
  exists c',
    rasterize_one depth now l c = (inl tt, c') /\
    context c' = context c /\ console c' = console c /\ debugMode c' = debugMode c /\
    forall l', is_Some (TilingManager.heap (tilingManager (world c)) !! l') ->
               is_Some (TilingManager.heap (tilingManager (world c')) !! l').
Proof.
  intros [tile Htile]. unfold rasterize_one, bind, get. rewrite Htile.
  destruct (Tile.needsRasterization tile).
  - pose proof (rasterizeTile_keeps_tiles depth now l tile (paint (world c))
                  (tilingManager (world c)) (rasterizer (world c))) as Hkeep.
    destruct (Rasterizer.rasterizeTile _ _ _ _ _ _ _) as [[st m] e].
    eexists. split; [reflexivity|]. cbn. now split_and!.
  - eexists. split; [reflexivity|]. now split_and!.
Qed.

Lemma rasterize_each_returns (depth : nat) (now : Z) (tiles : list loc) :
  forall c : t (World := World),
    (forall l, l ∈ tiles -> is_Some (TilingManager.heap (tilingManager (world c)) !! l)) ->
    exists c',
      rasterize_each depth now tiles c = (inl tt, c') /\
      context c' = context c /\ console c' = console c /\ debugMode c' = debugMode c.
Proof.
  induction tiles as [|l tiles IH]; intros c Hall.
  - eexists. split; [reflexivity|]. now split_and!.
  - destruct (rasterize_one_returns depth now l c) as (c1 & E1 & Hctx & Hcon & Hdbg & Hkeep).
    { apply Hall, list_elem_of_here. }
    destruct (IH c1) as (c2 & E2 & Hctx2 & Hcon2 & Hdbg2).
    { intros l' Hl'. apply Hkeep, Hall. now apply list_elem_of_further. }
    exists c2. cbn [rasterize_each]. unfold bind at 1. rewrite E1.
    split; [exact E2|]. split_and!; congruence.
Qed.

(** [rasterizeTiles] on tiles of the manager returns normally, whatever
    the records of the layers do when they are executed, and draws
    nothing: an exception raised while a tile is rasterized rejects a
    promise that nobody holds, and never reaches the [catch] of
    [composite]. *)
Lemma rasterizeTiles_returns (depth : nat) (now : Z) (tiles : list loc)
    (c : t (World := World)) :
  (forall l, l ∈ tiles -> is_Some (TilingManager.heap (tilingManager (world c)) !! l)) ->
  exists c', rasterizeTiles depth now tiles c = (inl tt, c') /\ context c' = context c.
Proof.
  intros Hall.
  destruct (rasterize_each_returns depth now tiles c Hall) as (c1 & E1 & Hctx & _ & _).
  unfold rasterizeTiles, bind at 1. rewrite E1.
  unfold bind, get, log, ret, modify. destruct (debugMode c1); eexists; split; try reflexivity;
    cbn; exact Hctx.
Qed.

(** A page with a red background, and on it an inset layer that clips to
    its box and holds one record of the base class, whose [execute]
    throws. *)
Definition page_records : (loc * loc) * Paint.Store :=
  let '(b1, st1) := Paint.alloc_rect (Rect.mk 0 0 800 600) Paint.empty_store in
  let '(background, st2) :=
    Paint.RectPaintRecord 0 (Paint.params None (Some b1)) (Some "#ff0000")
      None None None None st1 in
  let '(b2, st3) := Paint.alloc_rect (Rect.mk 0 0 50 50) st2 in
  let '(broken, st4) :=
    Paint.construct 0 "custom" (Paint.params None (Some b2)) Paint.Base st3 in
  ((background, broken), st4).

Definition page_with_inset : LayerTree.t * Paint.Store :=
  let page :=
    Layer.new ""
      (Layer.Build_Options (Some "page") None None None None (Some (Rect.mk 0 0 800 600))
         None None None None None) in
  let inset :=
    Layer.new ""
      (Layer.Build_Options (Some "inset") None None None None (Some (Rect.mk 100 100 50 50))
         (Some (Rect.mk 100 100 50 50)) None None None None) in
  let '(page1, st1) := Paint.addPaintRecords page [page_records.1.1] page_records.2 in
  let '(inset1, st2) := Paint.addPaintRecords inset [page_records.1.2] st1 in
  (LayerTree.mk (Layer.addChild page1 inset1) ["page"; "inset"] 1, st2).

Definition default_settings : Settings :=
  {| s_enableTiling := None; s_enableRasterization := None; s_tileSize := None;
     s_maxTiles := None; s_enableCaching := None; s_maxCacheSize := None |}.

Definition direct_settings : Settings :=
  {| s_enableTiling := Some false; s_enableRasterization := None; s_tileSize := None;
     s_maxTiles := None; s_enableCaching := None; s_maxCacheSize := None |}.

Definition no_options : Options :=
  {| o_viewport := None; o_incremental := false; o_dirtyRegions := [] |}.

(** C7 on the code.  [new Compositor(canvas, { enableTiling: false })]
    on a canvas of 800 by 600 composites the page with the inset: the
    record of the inset throws while the state saved for the inset, with
    the clip to its box, is still in force.  [composite] catches the
    exception and returns the statistics, and [handleCompositorError]
    issues its [clearRect] over the whole canvas and the diagnostic text;
    but they run under that clip.  The [clearRect] reaches the points of
    the box only: the point (10, 10), which the background of the page
    has filled, stays filled, and the diagnostic text at (10, 30) lies
    outside the clip as well.  The saved states stay on the stack of the
    surface for the frames that follow. *)
Theorem composite_clears_only_inside_the_clip_of_the_failing_layer
    (localeCompare : string -> string -> Z) :
  let c := new 800 600 direct_settings None page_with_inset.2 in
  let run := composite localeCompare 8 0 1 2 (Some page_with_inset.1) no_options c in
  let thrown := Error "executePaintOperation must be implemented by subclass" in
  let inset_clip := [(Layer.identity, Rect.mk 100 100 50 50)] in
  run.1 = inl (stats run.2) /\
  console run.2 = ["Compositor: 合成失败 " +:+ exn_message thrown] /\
  exists frame,
    context run.2 = frame ++ diagnostic c thrown /\
    diagnostic c thrown =
      [Canvas.clearRect 0 0 800 600; Canvas.setFillStyle "#ff0000";
       Canvas.setFont "16px monospace";
       Canvas.fillText ("合成器错误: " +:+ exn_message thrown) 10 30 None] /\
    In (Canvas.fillRect 0 0 800 600) frame /\
    Canvas.filled (10, 10) Canvas.fresh_pen false frame = Some true /\
    Canvas.pen_after Canvas.fresh_pen frame =
      Some (Canvas.mkPen (Canvas.mkGraphics Layer.identity [inset_clip])
              [Canvas.mkGraphics Layer.identity []; Canvas.mkGraphics Layer.identity []]
              (Some inset_clip)) /\
    (forall pen, Canvas.pen_after Canvas.fresh_pen frame = Some pen ->
       Canvas.reaches pen (Rect.mk 0 0 800 600) (125, 125) = true /\
       Canvas.reaches pen (Rect.mk 0 0 800 600) (10, 10) = false /\
       Canvas.reaches pen (Rect.mk 0 0 800 600) (10, 30) = false) /\
    Canvas.filled (10, 10) Canvas.fresh_pen false (context run.2) = Some true /\
    Canvas.pen_after Canvas.fresh_pen (context run.2) = Canvas.pen_after Canvas.fresh_pen frame.
Proof.
  intros c run thrown inset_clip.
  split; [vm_compute; reflexivity|]. split; [vm_compute; reflexivity|].
  exists (take 18 (context run.2)).
  split; [vm_compute; reflexivity|]. split; [vm_compute; reflexivity|].
  split; [vm_compute; tauto|]. split; [vm_compute; reflexivity|].
  split; [vm_compute; reflexivity|].
  split; [|split; vm_compute; reflexivity].
  intros pen. vm_compute. intros [= <-]. now split_and!.
Qed.

(** A collation for the runs below: the order of the code units. *)
Definition by_code_units (a b : string) : Z :=
  match String.compare a b with
  | Lt => -1
  | Eq => 0
  | Gt => 1
  end.

(** The same page with tiling switched on, on a machine with eight
    cores: the frame creates thirteen tiles and hands each to the
    rasterizer.  The tile of the inset is rasterized within the call, its
    record throws, and the exception ends as the rejection of a promise:
    the frame draws no diagnostic and logs nothing, and the later turn that
    finds the rejection writes the failure to the console. *)
Example rasterization_error_draws_no_diagnostic :
  let c := new 800 600 default_settings (Some 8) page_with_inset.2 in
  let run := composite by_code_units 8 0 1 2 (Some page_with_inset.1) no_options c in
  let thrown := Error "executePaintOperation must be implemented by subclass" in
  let w := world run.2 in
  run.1 = inl (mkStats 2 13 13 2 0 0) /\
  context run.2 = [Canvas.clearRect 0 0 800 600] /\
  console run.2 = [] /\
  last (Rasterizer.jobs (rasterizer w)) = Some (Rasterizer.resumption 12 1 (inr thrown)) /\
  (Rasterizer.run_job 8 3 (Rasterizer.resumption 12 1 (inr thrown))
     (paint w) (tilingManager w) (rasterizer w)).2 =
    ["Rasterizer: 光栅化失败 executePaintOperation must be implemented by subclass"].
Proof. cbv zeta. vm_compute. repeat split. Qed.

End Compositor_errors.

(** ** Compositor: drawing the layers directly *)

Section Compositor_direct.
Import Compositor.

(** The record at [r] is visible and refers to the bounds object [b]. *)
Definition draws_with (st : Paint.Store) (b : nat) (r : nat) : bool :=
  match Paint.records st !! r with
  | Some rec => Paint.visible rec && bool_decide (Paint.bounds rec = b)
  | None => false
  end.

(** The number of visible records of [rs] that refer to the bounds
    object [b]. *)
Definition drawn_through (st : Paint.Store) (rs : list nat) (b : nat) : Z :=
  Z.of_nat (length (List.filter (draws_with st b) rs)).

(** The rectangle [rect] after the origin of the layer has been added
    to it [n] times. *)
Definition moved (layer : Layer.t) (n : Z) (rect : Rect.t) : Rect.t :=
  Rect.mk (Rect.x rect + n * Rect.x (Layer.bounds layer))
          (Rect.y rect + n * Rect.y (Layer.bounds layer))
          (Rect.width rect) (Rect.height rect).

Lemma render_record_moves depth layer r st ctx st1 ctx1 :
  render_record depth layer r st ctx = (st1, ctx1, None) ->
  Paint.records st1 = Paint.records st /\
  forall b rect, Paint.rects st !! b = Some rect ->
    Paint.rects st1 !! b = Some (moved layer (if draws_with st b r then 1 else 0) rect).
Proof.
  unfold render_record, draws_with.
  destruct (Paint.records st !! r) as [record|]; [|discriminate].
  assert (forall rect, moved layer 0 rect = rect) as Hzero
    by (intros [x y w h]; unfold moved; cbn; f_equal; lia).
  destruct (Paint.visible record); cbn [negb andb].
  - destruct (Paint.rects st !! Paint.bounds record) as [own|] eqn:Hown; [|discriminate].
    destruct (Paint.execute depth _ r ctx) as [c [ex|]]; [discriminate|].
    intros [= <- <-]. split; [reflexivity|].
    intros b rect Hb. unfold move_bounds; cbn [Paint.rects].
    destruct (decide (Paint.bounds record = b)) as [->|Hne].
    + rewrite bool_decide_eq_true_2 by reflexivity.
      rewrite lookup_alter_eq, Hb. cbn. f_equal. unfold moved. f_equal; lia.
    + rewrite bool_decide_eq_false_2 by exact Hne.
      rewrite lookup_alter_ne by exact Hne. now rewrite Hzero.
  - intros [= <- <-]. split; [reflexivity|].
    intros b rect Hb. now rewrite Hzero.
Qed.

Lemma render_records_move depth layer rs :
  forall st ctx st' ctx',
    render_records depth layer rs st ctx = (st', ctx', None) ->
    Paint.records st' = Paint.records st /\
    forall b rect, Paint.rects st !! b = Some rect ->
      Paint.rects st' !! b = Some (moved layer (drawn_through st rs b) rect).
Proof.
  induction rs as [|r rs IH]; intros st ctx st' ctx'; cbn [render_records].
  - intros [= <- <-]. split; [reflexivity|].
    intros b [x y w h] Hb. rewrite Hb. unfold moved, drawn_through. cbn.
    do 2 f_equal; lia.
  - destruct (render_record depth layer r st ctx) as [[st1 ctx1] e] eqn:Hone.
    destruct e as [ex|]; [discriminate|]. intros Hrest.
    apply render_record_moves in Hone as [Hrec1 Hmove1].
    apply IH in Hrest as [Hrec' Hmove']. split; [congruence|].
    intros b rect Hb. rewrite (Hmove' b _ (Hmove1 b rect Hb)). f_equal.
    assert (drawn_through st1 rs b = drawn_through st rs b) as ->.
    { unfold drawn_through. do 2 f_equal.
      apply List.filter_ext. intros r'. unfold draws_with. now rewrite Hrec1. }
    unfold drawn_through. cbn [List.filter].
    destruct rect as [x y w h]. unfold moved. cbn [Rect.x Rect.y Rect.width Rect.height].
    destruct (draws_with st b r); cbn [length]; f_equal; lia.
Qed.

(** X9.  Drawing the records of a layer directly adds the origin of the
    layer to the bounds object of every visible record, in place, and does
    not take it off again: when [renderPaintRecords] completes, the record
    objects are unchanged and every bounds object has moved by the origin
    of the layer once for each visible record of the layer that refers to
    it.  (The rasterizer, in contrast, works on a temporary bounds
    object.) *)
Theorem renderPaintRecords_moves_the_bounds
    (depth : nat) (layer : Layer.t) (st st' : Paint.Store) (ctx ctx' : Canvas.t) :
  renderPaintRecords depth layer st ctx = (st', ctx', None) ->
  Paint.records st' = Paint.records st /\
  forall b rect, Paint.rects st !! b = Some rect ->
    Paint.rects st' !! b =
      Some (moved layer (drawn_through st (Layer.paintRecords layer) b) rect).
Proof. apply render_records_move. Qed.

(** The layer "L" with its red rectangle, placed at (10, 20). *)
Definition placed_layer : Layer.t := Layer.set_bounds red_layer (Rect.mk 10 20 256 256).

Lemma renderPaintRecords_moves_the_bounds_witness :
  Paint.records (renderPaintRecords 8 placed_layer two_fills.2 []).1.1 =
  Paint.records two_fills.2.
Proof.
  refine (proj1 (renderPaintRecords_moves_the_bounds 8 placed_layer two_fills.2
                   (renderPaintRecords 8 placed_layer two_fills.2 []).1.1 []
                   (renderPaintRecords 8 placed_layer two_fills.2 []).1.2 _)).
  vm_compute. reflexivity.
Defined.

(** Two frames in a row: the rectangle is drawn at (10, 20) and then at
    (20, 40), and its bounds stay there. *)
Example two_direct_frames :
  let first := renderPaintRecords 8 placed_layer two_fills.2 [] in
  let second := renderPaintRecords 8 placed_layer first.1.1 [] in
  first.1.2 =
    [Canvas.save; Canvas.mulGlobalAlpha (JS.Fin 1); Canvas.setFillStyle "#ff0000";
     Canvas.fillRect 10 20 256 256; Canvas.restore] /\
  second.1.2 =
    [Canvas.save; Canvas.mulGlobalAlpha (JS.Fin 1); Canvas.setFillStyle "#ff0000";
     Canvas.fillRect 20 40 256 256; Canvas.restore] /\
  Paint.rects second.1.1 !! 0%nat = Some (Rect.mk 20 40 256 256).
Proof. vm_compute. repeat split. Qed.

(** The loop of [renderLayers] over the children of a layer. *)
Definition render_children (depth : nat) : list Layer.t -> Direct -> Direct * option exn :=
  fix children (cs : list Layer.t) (d : Direct) {struct cs} : Direct * option exn :=
    match cs with
    | [] => (d, None)
    | child :: cs' =>
        let '(d1, e1) := renderLayers depth child d in
        match e1 with
        | Some ex => (d1, Some ex)
        | None => children cs' d1
        end
    end.

(** The operations of [renderLayers] before the records of the layer
    are drawn. *)
Definition layer_state (layer : Layer.t) : list Canvas.Op :=
  [Canvas.save; Canvas.setTransform (Layer.transform layer)] ++
  match Layer.clipRect layer with
  | Some c =>
      [Canvas.beginPath;
       Canvas.rect (Rect.x c) (Rect.y c) (Rect.width c) (Rect.height c);
       Canvas.clip]
  | None => []
  end ++
  [Canvas.mulGlobalAlpha (Layer.opacity layer)].

Lemma renderLayers_eq depth layer d :
  renderLayers depth layer d =
  if negb (default false (Layer.isVisibleInViewport layer)) then (d, None)
  else
    let '(st1, ctx1, e) :=
      renderPaintRecords depth layer (store d) (surface d ++ layer_state layer) in
    match e with
    | Some ex => (mkDirect st1 ctx1 (direct_drawCalls d), Some ex)
    | None =>
        let '(d2, e2) :=
          render_children depth (Layer.children layer)
            (mkDirect st1 ctx1 (direct_drawCalls d)) in
        match e2 with
        | Some ex => (d2, Some ex)
        | None =>
            (mkDirect (store d2) (surface d2 ++ [Canvas.restore])
               (direct_drawCalls d2 + Z.of_nat (length (Layer.paintRecords layer))),
             None)
        end
    end.
Proof. destruct layer; reflexivity. Qed.

(** [ops] leaves at least one saved state behind. *)
Definition leaves_open (ops : Canvas.t) : Prop :=
  forall d, exists d', stack_after d ops = Some d' /\ (d < d')%nat.

Lemma leaves_open_app_l ops1 ops2 :
  leaves_open ops1 -> balanced ops2 -> leaves_open (ops1 ++ ops2).
Proof.
  intros H1 H2 d. destruct (H1 d) as (d' & Hd' & Hlt).
  exists d'. rewrite stack_after_app, Hd'. split; [apply H2 | exact Hlt].
Qed.

Lemma leaves_open_app_r ops1 ops2 :
  leaves_open ops1 -> leaves_open ops2 -> leaves_open (ops1 ++ ops2).
Proof.
  intros H1 H2 d. destruct (H1 d) as (d1 & Hd1 & Hlt1).
  destruct (H2 d1) as (d2 & Hd2 & Hlt2).
  exists d2. rewrite stack_after_app, Hd1. split; [exact Hd2 | lia].
Qed.

Lemma leaves_open_layer_state layer : leaves_open (layer_state layer).
Proof.
  intros d. exists (S d). split; [|lia].
  unfold layer_state. now destruct (Layer.clipRect layer).
Qed.

Lemma render_records_emit depth layer rs :
  forall st ctx,
    exists ops, (render_records depth layer rs st ctx).1.2 = ctx ++ ops /\ balanced ops.
Proof.
  induction rs as [|r rs IH]; intros st ctx; cbn [render_records].
  - exists []. split; [symmetry; apply app_nil_r | intros d; reflexivity].
  - assert (exists ops, (render_record depth layer r st ctx).1.2 = ctx ++ ops /\ balanced ops)
      as (ops & Hops & Hbal).
    { unfold render_record.
      destruct (Paint.records st !! r) as [record|];
        [|exists []; split; [symmetry; apply app_nil_r | intros d; reflexivity]].
      destruct (Paint.visible record); cbn [negb];
        [|exists []; split; [symmetry; apply app_nil_r | intros d; reflexivity]].
      destruct (Paint.rects st !! Paint.bounds record);
        [|exists []; split; [symmetry; apply app_nil_r | intros d; reflexivity]].
      match goal with
      | |- context [Paint.execute depth ?s r ctx] =>
          destruct (execute_emits depth s r ctx) as (ops & Hops & Hbal);
          destruct (Paint.execute depth s r ctx) as [c e]
      end.
      exists ops. now split. }
    destruct (render_record depth layer r st ctx) as [[st1 ctx1] e].
    cbn [fst snd] in Hops. subst ctx1.
    destruct e as [ex|]; [exists ops; now split|].
    destruct (IH st1 (ctx ++ ops)) as (ops' & Hops' & Hbal').
    exists (ops ++ ops'). rewrite Hops', app_assoc. split; [reflexivity|].
    now apply balanced_app.
Qed.

(** The number that [renderLayers] adds to [stats.drawCalls]: the
    records of the layers it draws, which are the visible layers below
    visible layers. *)
Fixpoint records_drawn (layer : Layer.t) : Z :=
  if negb (default false (Layer.isVisibleInViewport layer)) then 0
  else Z.of_nat (length (Layer.paintRecords layer)) +
       fold_right Z.add 0 (map records_drawn (Layer.children layer)).

Lemma records_drawn_eq layer :
  records_drawn layer =
  if negb (default false (Layer.isVisibleInViewport layer)) then 0
  else Z.of_nat (length (Layer.paintRecords layer)) +
       fold_right Z.add 0 (map records_drawn (Layer.children layer)).
Proof. destruct layer; reflexivity. Qed.

(** What a call of [renderLayers] sends to the surface and adds to the
    draw calls, by the way it ends. *)
Definition rendered (depth : nat) (layer : Layer.t) : Prop :=
  forall d,
    exists ops,
      surface (renderLayers depth layer d).1 = surface d ++ ops /\
      match (renderLayers depth layer d).2 with
      | None =>
          balanced ops /\
          direct_drawCalls (renderLayers depth layer d).1 =
            direct_drawCalls d + records_drawn layer
      | Some _ => leaves_open ops
      end.

Lemma render_children_rendered depth cs :
  Forall (rendered depth) cs ->
  forall d,
    exists ops,
      surface (render_children depth cs d).1 = surface d ++ ops /\
      match (render_children depth cs d).2 with
      | None =>
          balanced ops /\
          direct_drawCalls (render_children depth cs d).1 =
            direct_drawCalls d + fold_right Z.add 0 (map records_drawn cs)
      | Some _ => leaves_open ops
      end.
Proof.
  induction 1 as [|child cs Hchild _ IH]; intros d; cbn [render_children].
  - exists []. rewrite app_nil_r. split; [reflexivity|].
    cbn. split; [intros k; reflexivity | lia].
  - destruct (Hchild d) as (ops & Hops & Hend).
    destruct (renderLayers depth child d) as [d1 [ex|]]; cbn [fst snd] in *.
    + exists ops. now split.
    + destruct Hend as [Hbal Hcalls].
      destruct (IH d1) as (ops' & Hops' & Hend').
      exists (ops ++ ops'). rewrite Hops', Hops, app_assoc. split; [reflexivity|].
      destruct (render_children depth cs d1) as [d2 [ex|]]; cbn [fst snd] in *.
      * intros k. destruct (Hend' k) as (k' & Hk' & Hlt). exists k'.
        rewrite stack_after_app, Hbal. now split.
      * destruct Hend' as [Hbal' Hcalls']. split; [now apply balanced_app|].
        cbn [map fold_right]. lia.
Qed.

Lemma renderLayers_rendered depth layer : rendered depth layer.
Proof.
  induction layer as [layer IH] using layer_ind. intros d.
  rewrite renderLayers_eq, records_drawn_eq.
  destruct (negb (default false (Layer.isVisibleInViewport layer))).
  { exists []. rewrite app_nil_r. split; [reflexivity|].
    cbn. split; [intros k; reflexivity | lia]. }
  unfold renderPaintRecords.
  destruct (render_records_emit depth layer (Layer.paintRecords layer) (store d)
              (surface d ++ layer_state layer)) as (ops & Hops & Hbal).
  destruct (render_records depth layer (Layer.paintRecords layer) (store d)
              (surface d ++ layer_state layer)) as [[st1 ctx1] e].
  cbn [fst snd] in Hops. subst ctx1.
  destruct e as [ex|]; cbn [fst snd surface].
  { exists (layer_state layer ++ ops). rewrite app_assoc. split; [reflexivity|].
    apply leaves_open_app_l; [apply leaves_open_layer_state | exact Hbal]. }
  destruct (render_children_rendered depth (Layer.children layer) IH
              (mkDirect st1 ((surface d ++ layer_state layer) ++ ops) (direct_drawCalls d)))
    as (ops' & Hops' & Hend).
  destruct (render_children depth (Layer.children layer) _) as [d2 [ex|]];
    cbn [fst snd surface direct_drawCalls] in *.
  - exists (layer_state layer ++ ops ++ ops'). rewrite Hops', <- !app_assoc.
    split; [reflexivity|].
    apply leaves_open_app_r; [apply leaves_open_layer_state|].
    intros k. destruct (Hend k) as (k' & Hk' & Hlt). exists k'.
    rewrite stack_after_app, Hbal. now split.
  - destruct Hend as [Hbal' Hcalls].
    exists (layer_state layer ++ ops ++ ops' ++ [Canvas.restore]).
    rewrite Hops', <- !app_assoc. split; [reflexivity|]. split; [|lia].
    intros k. rewrite stack_after_app.
    destruct (leaves_open_layer_state layer k) as (k' & Hk' & _).
    assert (stack_after k (layer_state layer) = Some (S k)) as ->
      by (unfold layer_state; now destruct (Layer.clipRect layer)).
    cbn [mbind option_bind]. rewrite stack_after_app, Hbal. cbn [mbind option_bind].
    rewrite stack_after_app, Hbal'. reflexivity.
Qed.

(** X10.  [renderLayers] only appends to what the surface has
    received.  When it completes, what it appended keeps the state stack of
    the surface balanced, and [stats.drawCalls] has grown by the number of
    paint records of the layers drawn (the layers visible in the viewport
    whose ancestors all are).  When a record throws, nothing on the way up
    restores the surface: at least one saved state, with the transform, clip
    and alpha of a layer, is left in place. *)
Theorem renderLayers_restores_unless_a_record_throws
    (depth : nat) (layer : Layer.t) (d : Direct) :
  exists ops,
    surface (renderLayers depth layer d).1 = surface d ++ ops /\
    match (renderLayers depth layer d).2 with
    | None =>
        (forall k, stack_after k ops = Some k) /\
        direct_drawCalls (renderLayers depth layer d).1 =
          direct_drawCalls d + records_drawn layer
    | Some _ => forall k, exists k', stack_after k ops = Some k' /\ (k < k')%nat
    end.
Proof. apply renderLayers_rendered. Qed.

(** A visible layer whose only record is of the base class: the frame
    ends with the exception and one saved state is left on the surface. *)
Example direct_frame_with_a_throwing_record :
  let layer := (visit (Rect.mk 0 0 800 600) None base_layer).1 in
  let r := renderLayers 8 layer (mkDirect base_record_store.2 [] 0) in
  r.2 = Some (Error "executePaintOperation must be implemented by subclass") /\
  surface r.1 =
    [Canvas.save; Canvas.setTransform Layer.identity; Canvas.mulGlobalAlpha (JS.Fin 1);
     Canvas.save; Canvas.mulGlobalAlpha (JS.Fin 1); Canvas.restore] /\
  stack_after 0 (surface r.1) = Some 1%nat.
Proof. vm_compute. repeat split. Qed.

End Compositor_direct.

(** ** Rasterizer: the raster cache *)

Section Raster_cache.
Import Rasterizer.

(** The bytes of the buffers that the cache holds. *)
Fixpoint cached_bytes (entries : list (string * RasterBuffer)) : Z :=
  match entries with
  | [] => 0
  | e :: entries' => bufferSize e.2 + cached_bytes entries'
  end.

Definition signatures (entries : list (string * RasterBuffer)) : list string :=
  map fst entries.



Lemma map_get_set (key : string) (value : RasterBuffer) entries :
  map_get key (map_set key value entries) = Some value.
Proof.
  induction entries as [|[k v] entries IH]; cbn.
  - now rewrite String.eqb_refl.
  - destruct (String.eqb k key) eqn:E; cbn; rewrite E; [reflexivity | exact IH].
Qed.

Lemma map_get_set_ne (key key' : string) (value : RasterBuffer) entries :
  key <> key' ->
  map_get key' (map_set key value entries) = map_get key' entries.
Proof.
  intros Hne. induction entries as [|[k v] entries IH]; cbn.
  - now rewrite (proj2 (String.eqb_neq key key') Hne).
  - destruct (String.eqb k key) eqn:E; cbn.
    + apply String.eqb_eq in E as ->.
      now rewrite (proj2 (String.eqb_neq key key') Hne).
    + now rewrite IH.
Qed.





Lemma map_delete_head (key : string) (value : RasterBuffer) entries :
  key ∉ signatures entries ->
  map_delete key ((key, value) :: entries) = entries.
Proof.
  intros Hnew. unfold map_delete. cbn. rewrite String.eqb_refl. cbn.
  induction entries as [|[k v] entries IH]; cbn; [reflexivity|].
  cbn in Hnew. rewrite not_elem_of_cons in Hnew. destruct Hnew as [Hne Hin].
  rewrite (proj2 (String.eqb_neq k key)) by congruence. cbn.
  f_equal. now apply IH.
Qed.

Lemma evict_entries_prefix entries :
  forall (requiredSize freedSpace : Z) (r : t),
  rasterCache r = entries ->
  NoDup (signatures entries) ->
  exists n : nat,
    rasterCache (evict_entries entries requiredSize freedSpace r) = drop n entries /\
    currentCacheSize (evict_entries entries requiredSize freedSpace r) =
      currentCacheSize r - cached_bytes (take n entries) /\
    cacheEvictions (stats (evict_entries entries requiredSize freedSpace r)) =
      cacheEvictions (stats r) + Z.of_nat n /\
    maxCacheSize (evict_entries entries requiredSize freedSpace r) = maxCacheSize r /\
    (forall k : nat, (k < n)%nat ->
       freedSpace + cached_bytes (take k entries) < requiredSize) /\
    (n = length entries \/
     requiredSize <= freedSpace + cached_bytes (take n entries)).
Proof.
  induction entries as [|[signature b] entries IH]; intros requiredSize freedSpace r Hr Hnd.
  - exists 0%nat. cbn. rewrite Hr. split_and!; try reflexivity; lia.
  - cbn [evict_entries]. destruct (requiredSize <=? freedSpace) eqn:E.
    + exists 0%nat. cbn. apply Z.leb_le in E.
      split_and!; first [assumption | reflexivity | lia].
    + cbn in Hnd. apply NoDup_cons in Hnd as [Hnew Hnd].
      match goal with
      | |- context [evict_entries entries requiredSize ?f ?r2] =>
          destruct (IH requiredSize f r2) as (n & H1 & H2 & H3 & H4 & H5 & H6)
      end.
      * cbn [rasterCache]. rewrite Hr. now apply map_delete_head.
      * exact Hnd.
      * exists (S n). cbn [drop take length rasterCache currentCacheSize stats
                           cacheEvictions maxCacheSize] in *.
        rewrite H1, H2, H3, H4. split_and!; try reflexivity.
        -- cbn. lia.
        -- lia.
        -- intros [|k] Hk; cbn.
           ++ lia.
           ++ specialize (H5 k ltac:(lia)). lia.
        -- destruct H6 as [->|H6]; [now left | right; cbn; lia].
Qed.

(** X14.  A lookup finds the buffer by the signature of the tile alone:
    after [cacheRasterBuffer(tile, buffer)], every tile with the signature
    of [tile] is given [buffer], whatever its paint records draw. *)
Theorem cached_buffer_is_found_by_signature
    (st st' : Paint.Store) (tile tile' : Tile.t) (b : RasterBuffer) (r : t) :
  generateTileSignature st' tile' = generateTileSignature st tile ->
  getCachedRasterBuffer st' tile' (cacheRasterBuffer st tile b r) = Some b.
Proof.
  intros E. unfold getCachedRasterBuffer, cacheRasterBuffer. cbn [rasterCache].
  rewrite E. apply map_get_set.
Qed.

Lemma cached_buffer_is_found_by_signature_witness :
  getCachedRasterBuffer two_fills.2 blue_tile
    (cacheRasterBuffer two_fills.2 red_tile (mkBuffer 0 256 256) (new None None)) =
  Some (mkBuffer 0 256 256).
Proof.
  apply cached_buffer_is_found_by_signature. vm_compute. reflexivity.
Defined.

(** X15.  [evictLeastRecentlyUsed(requiredSize)] removes the entries that
    were inserted first: the cache that remains is the old one without its
    first [n] entries, where [n] is the least number of entries whose
    buffers free [requiredSize] bytes, or all of them where the whole cache
    frees less.  The counter goes down by the bytes of the evicted
    buffers and [cacheEvictions] goes up by [n]. *)
Theorem evictLeastRecentlyUsed_drops_the_oldest_entries
    (requiredSize : Z) (r : t) :
  NoDup (signatures (rasterCache r)) ->
  exists n : nat,
    rasterCache (evictLeastRecentlyUsed requiredSize r) = drop n (rasterCache r) /\
    currentCacheSize (evictLeastRecentlyUsed requiredSize r) =
      currentCacheSize r - cached_bytes (take n (rasterCache r)) /\
    cacheEvictions (stats (evictLeastRecentlyUsed requiredSize r)) =
      cacheEvictions (stats r) + Z.of_nat n /\
    (forall k : nat, (k < n)%nat ->
       cached_bytes (take k (rasterCache r)) < requiredSize) /\
    (n = length (rasterCache r) \/
     requiredSize <= cached_bytes (take n (rasterCache r))).
Proof.
  intros Hnd. unfold evictLeastRecentlyUsed.
  destruct (evict_entries_prefix (rasterCache r) requiredSize 0 r eq_refl Hnd)
    as (n & H1 & H2 & H3 & _ & H5 & H6).
  exists n. split_and!; assumption.
Qed.

(** A cache of three buffers of 400 bytes each, in the order in which
    they were cached. *)
Definition three_buffers : t :=
  mk true 1200
     [("a", mkBuffer 1 10 10); ("b", mkBuffer 2 10 10); ("c", mkBuffer 3 10 10)]
     1200 (mkStats 3 0 3 0 0 0%Q 300).

Lemma evictLeastRecentlyUsed_drops_the_oldest_entries_witness :
  exists n : nat,
    rasterCache (evictLeastRecentlyUsed 500 three_buffers) =
      drop n (rasterCache three_buffers) /\
    currentCacheSize (evictLeastRecentlyUsed 500 three_buffers) =
      currentCacheSize three_buffers - cached_bytes (take n (rasterCache three_buffers)) /\
    cacheEvictions (stats (evictLeastRecentlyUsed 500 three_buffers)) =
      cacheEvictions (stats three_buffers) + Z.of_nat n /\
    (forall k : nat, (k < n)%nat ->
       cached_bytes (take k (rasterCache three_buffers)) < 500) /\
    (n = length (rasterCache three_buffers) \/
     500 <= cached_bytes (take n (rasterCache three_buffers))).
Proof.
  apply evictLeastRecentlyUsed_drops_the_oldest_entries.
  apply (bool_decide_unpack _). vm_compute. exact I.
Defined.

(** Freeing 500 bytes evicts "a" and "b" and keeps "c". *)
Example evicting_two_of_three :
  rasterCache (evictLeastRecentlyUsed 500 three_buffers) = [("c", mkBuffer 3 10 10)] /\
  currentCacheSize (evictLeastRecentlyUsed 500 three_buffers) = 400 /\
  cacheEvictions (stats (evictLeastRecentlyUsed 500 three_buffers)) = 2.
Proof. vm_compute. repeat split. Qed.




(** The full cache gives up its oldest buffer for the new one. *)
Example caching_into_a_full_cache :
  signatures
    (rasterCache (cacheRasterBuffer two_fills.2 red_tile (mkBuffer 4 10 10) three_buffers)) =
  ["b"; "c"; "L_0_0_1_rect"] /\
  currentCacheSize
    (cacheRasterBuffer two_fills.2 red_tile (mkBuffer 4 10 10) three_buffers) = 1200.
Proof. vm_compute. split; reflexivity. Qed.



End Raster_cache.

(** ** GPUSimulator: whole frames *)

Section GPU_frames.
Import GPU.

(** The quads that a frame draws: those that need an update, meet the
    viewport and are visible. *)
Definition wanted (viewport : Rect.t) (g : t) (l : loc) : bool :=
  match heap g !! l with
  | Some quad => needsUpdate quad && intersectsViewport quad viewport && visible quad
  | None => false
  end.

Definition submitted (viewport : Rect.t) (g : t) : list loc :=
  List.filter (wanted viewport g) (drawQuads g).

(** Between two frames the command buffer and the current batch are
    empty. *)
Definition idle (g : t) : Prop :=
  commandBuffer g = [] /\ quads (currentBatch g) = [].

(** The quads waiting in the command buffer and in the current batch, in
    the order in which they will be drawn. *)
Definition pending (g : t) : list loc :=
  concat (map command_quads (commandBuffer g)) ++ quads (currentBatch g).

Definition proper (c : Command) : Prop :=
  command_type c = "batch" /\ command_quads c <> [].

(** The counters that drawing advances. *)
Definition tally (s : Stats) : Z * Z * Z :=
  (totalDrawCalls s, totalQuads s, totalTriangles s).

Lemma tally_eq (s : Stats) (a b c : Z) :
  tally s = (a, b, c) <->
  totalDrawCalls s = a /\ totalQuads s = b /\ totalTriangles s = c.
Proof.
  unfold tally. split; [intros [= <- <- <-]; auto | intros (<- & <- & <-); reflexivity].
Qed.

(** From [g] to [g'] the quads [ls] were queued, and nothing was drawn. *)
Record queued (g g' : t) (ls : list loc) : Prop := {
  queued_heap : heap g' = heap g;
  queued_drawQuads : drawQuads g' = drawQuads g;
  queued_batching : enableBatching g' = enableBatching g;
  queued_context : context g' = context g;
  queued_pending : pending g' = pending g ++ ls;
  queued_commands : Forall proper (commandBuffer g) -> Forall proper (commandBuffer g');
  queued_batches :
    batchCount (stats g') - Z.of_nat (length (commandBuffer g')) =
    batchCount (stats g) - Z.of_nat (length (commandBuffer g));
  queued_tally : tally (stats g') = tally (stats g)
}.

Lemma queued_refl g : queued g g [].
Proof. split; try reflexivity; [now rewrite app_nil_r | auto]. Qed.

Lemma queued_trans g1 g2 g3 ls ls' :
  queued g1 g2 ls -> queued g2 g3 ls' -> queued g1 g3 (ls ++ ls').
Proof.
  intros [] []. split; try congruence; try lia; auto.
  rewrite app_assoc. congruence.
Qed.

Lemma flushCurrentBatch_queued g :
  queued g (flushCurrentBatch g) [] /\ quads (currentBatch (flushCurrentBatch g)) = [].
Proof.
  unfold flushCurrentBatch. destruct (quads (currentBatch g)) as [|q qs] eqn:E.
  - split; [apply queued_refl | exact E].
  - split; [|reflexivity]. split; cbn; try reflexivity.
    + unfold pending. cbn. rewrite map_app, concat_app, E. cbn.
      now rewrite !app_nil_r.
    + intros H. apply Forall_app. split; [exact H|].
      apply Forall_singleton. split; [reflexivity | cbn; rewrite ?E; discriminate].
    + rewrite length_app. cbn. lia.
Qed.

Lemma submitDrawQuad_queued g l quad :
  heap g !! l = Some quad -> visible quad = true ->
  queued g (submitDrawQuad l g) [l].
Proof.
  intros Hl Hv. unfold submitDrawQuad. rewrite Hl, Hv. cbn [negb].
  destruct (enableBatching g && canBatchWithCurrent g quad).
  - split; cbn; try reflexivity; [|auto].
    unfold pending. cbn. now rewrite app_assoc.
  - destruct (flushCurrentBatch_queued g) as [[] Hempty].
    split; cbn; try assumption.
    unfold pending in *. cbn. rewrite Hempty, !app_nil_r in queued_pending0.
    now rewrite queued_pending0.
Qed.

(** One turn of the loop of [renderFrame]. *)
Lemma submit_step_queued viewport l g :
  queued g
    match heap g !! l with
    | Some quad =>
        if needsUpdate quad && intersectsViewport quad viewport
        then submitDrawQuad l g else g
    | None => g
    end
    (if wanted viewport g l then [l] else []).
Proof.
  unfold wanted. destruct (heap g !! l) as [quad|] eqn:Hl; [|apply queued_refl].
  destruct (needsUpdate quad && intersectsViewport quad viewport); cbn [andb];
    [|apply queued_refl].
  destruct (visible quad) eqn:Hv; [now apply (submitDrawQuad_queued g l quad)|].
  unfold submitDrawQuad. rewrite Hl, Hv. apply queued_refl.
Qed.

Lemma wanted_heap viewport g g' l :
  heap g' = heap g -> wanted viewport g' l = wanted viewport g l.
Proof. unfold wanted. now intros ->. Qed.

Lemma submit_loop_queued viewport ls :
  forall g,
  queued g
    (fold_left
       (fun g' l =>
          match heap g' !! l with
          | Some quad =>
              if needsUpdate quad && intersectsViewport quad viewport
              then submitDrawQuad l g' else g'
          | None => g'
          end) ls g)
    (List.filter (wanted viewport g) ls).
Proof.
  induction ls as [|l ls IH]; intros g; [apply queued_refl|].
  cbn [fold_left List.filter].
  pose proof (submit_step_queued viewport l g) as Hstep.
  match type of Hstep with
  | queued _ ?g1 _ =>
      pose proof (queued_trans _ _ _ _ _ Hstep (IH g1)) as H;
      rewrite (filter_ext (wanted viewport g1) (wanted viewport g)) in H
        by (intros x; apply wanted_heap, (queued_heap _ _ _ Hstep))
  end.
  destruct (wanted viewport g l); exact H.
Qed.

(** What stays of a quad when it is drawn. *)
Definition shape (q : DrawQuad) : Position * Size * Layer.Matrix * bool :=
  (position q, size q, transform q, visible q).

(** From the heap [h] to [h'] the quads of [D] were drawn: they no
    longer need an update, and the others are as they were. *)
Definition after (D : list loc) (h h' : gmap loc DrawQuad) : Prop :=
  forall l,
    match h !! l with
    | None => h' !! l = None
    | Some q =>
        exists q', h' !! l = Some q' /\ shape q' = shape q /\
                   (l ∈ D -> needsUpdate q' = false) /\ (l ∉ D -> q' = q)
    end.

Lemma after_refl h : after [] h h.
Proof.
  intros l. destruct (h !! l) as [q|]; [|reflexivity].
  exists q. split_and!; try reflexivity. intros H. now apply elem_of_nil in H.
Qed.

Lemma after_trans D D' h1 h2 h3 :
  after D h1 h2 -> after D' h2 h3 -> after (D ++ D') h1 h3.
Proof.
  intros H12 H23 l. specialize (H12 l). specialize (H23 l).
  destruct (h1 !! l) as [q|]; [|now rewrite H12 in H23].
  destruct H12 as (q' & Hq' & Hs & Hin & Hout). rewrite Hq' in H23.
  destruct H23 as (q'' & Hq'' & Hs' & Hin' & Hout').
  exists q''. split_and!; [exact Hq'' | congruence | |].
  - rewrite elem_of_app. intros Hl.
    destruct (decide (l ∈ D')) as [HD'|HD']; [now apply Hin'|].
    rewrite (Hout' HD'). destruct Hl as [Hl|Hl]; [now apply Hin | contradiction].
  - rewrite elem_of_app. intros Hl.
    rewrite Hout' by tauto. apply Hout. tauto.
Qed.

(** Drawing moves the counters, the heap and the surface, and leaves
    the queue alone. *)
Record executed (g g' : t) (D : list loc) (n : Z) : Prop := {
  executed_tally :
    tally (stats g') =
    (totalDrawCalls (stats g) + n, totalQuads (stats g) + Z.of_nat (length D),
     totalTriangles (stats g) + 2 * Z.of_nat (length D));
  executed_batches : batchCount (stats g') = batchCount (stats g);
  executed_batch : currentBatch g' = currentBatch g;
  executed_drawQuads : drawQuads g' = drawQuads g;
  executed_batching : enableBatching g' = enableBatching g;
  executed_vram : usedVRAM g' = usedVRAM g;
  executed_heap : after D (heap g) (heap g')
}.

Lemma executed_refl g : executed g g [] 0.
Proof.
  split; try reflexivity; [|apply after_refl].
  apply tally_eq. cbn. lia.
Qed.

Lemma executed_trans g1 g2 g3 D D' n n' :
  executed g1 g2 D n -> executed g2 g3 D' n' -> executed g1 g3 (D ++ D') (n + n').
Proof.
  intros [] []. split; try congruence; [|now apply (after_trans D D' _ (heap g2))].
  apply tally_eq in executed_tally0, executed_tally1. apply tally_eq.
  rewrite length_app. lia.
Qed.

(** What binding a shader or a texture, or writing to the surface,
    leaves alone. *)
Record kept (g g' : t) : Prop := {
  kept_heap : heap g' = heap g;
  kept_tally : tally (stats g') = tally (stats g);
  kept_batches : batchCount (stats g') = batchCount (stats g);
  kept_batch : currentBatch g' = currentBatch g;
  kept_drawQuads : drawQuads g' = drawQuads g;
  kept_batching : enableBatching g' = enableBatching g;
  kept_vram : usedVRAM g' = usedVRAM g
}.

Lemma kept_refl g : kept g g.
Proof. now split. Qed.

Lemma kept_trans g1 g2 g3 : kept g1 g2 -> kept g2 g3 -> kept g1 g3.
Proof. intros [] []. split; congruence. Qed.

Lemma kept_bindShader name g : kept g (bindShader name g).
Proof. unfold bindShader. destruct (bool_decide _); now split. Qed.

Lemma kept_bindTexture tx g : kept g (bindTexture tx g).
Proof. unfold bindTexture. destruct (bool_decide _); now split. Qed.

Lemma kept_with_context g c : kept g (with_context g c).
Proof. now split. Qed.

Lemma drawSingleQuad_after now l g :
  after [l] (heap g) (heap (drawSingleQuad now l g)) /\
  stats (drawSingleQuad now l g) = stats g /\
  currentBatch (drawSingleQuad now l g) = currentBatch g /\
  drawQuads (drawSingleQuad now l g) = drawQuads g /\
  enableBatching (drawSingleQuad now l g) = enableBatching g /\
  usedVRAM (drawSingleQuad now l g) = usedVRAM g.
Proof.
  unfold drawSingleQuad. destruct (heap g !! l) as [quad|] eqn:Hl.
  - split; [|cbn; now split_and!]. cbn [heap]. intros l'.
    destruct (decide (l' = l)) as [->|Hne].
    + rewrite Hl, lookup_insert_eq. eexists. split_and!; try reflexivity.
      intros H. exfalso. apply H. now apply list_elem_of_singleton.
    + rewrite lookup_insert_ne by congruence.
      destruct (heap g !! l') as [q|]; [|reflexivity].
      exists q. split_and!; try reflexivity.
      intros H. apply list_elem_of_singleton in H. contradiction.
  - split; [|now split_and!]. intros l'.
    destruct (heap g !! l') as [q|] eqn:E; [|reflexivity].
    exists q. split_and!; try reflexivity.
    intros H. apply list_elem_of_singleton in H. subst. congruence.
Qed.

Lemma draw_all_after now ls :
  forall g,
  after ls (heap g) (heap (fold_left (fun g' l => drawSingleQuad now l g') ls g)) /\
  stats (fold_left (fun g' l => drawSingleQuad now l g') ls g) = stats g /\
  currentBatch (fold_left (fun g' l => drawSingleQuad now l g') ls g) = currentBatch g /\
  drawQuads (fold_left (fun g' l => drawSingleQuad now l g') ls g) = drawQuads g /\
  enableBatching (fold_left (fun g' l => drawSingleQuad now l g') ls g) = enableBatching g /\
  usedVRAM (fold_left (fun g' l => drawSingleQuad now l g') ls g) = usedVRAM g.
Proof.
  induction ls as [|l ls IH]; intros g; cbn [fold_left].
  - split_and!; try reflexivity. apply after_refl.
  - destruct (drawSingleQuad_after now l g) as (Ha & Hs & Hb & Hd & He & Hv).
    destruct (IH (drawSingleQuad now l g)) as (Ha' & Hs' & Hb' & Hd' & He' & Hv').
    split_and!; try congruence.
    exact (after_trans [l] ls _ _ _ Ha Ha').
Qed.

Lemma executeBatchDraw_executed now command viewport g :
  command_quads command <> [] ->
  executed g (executeBatchDraw now command viewport g) (command_quads command) 1.
Proof.
  intros Hn. unfold executeBatchDraw.
  destruct (command_quads command) as [|q qs] eqn:Hq; [contradiction|].
  match goal with
  | |- context [fold_left _ (q :: qs) ?g0] => set (g3 := g0)
  end.
  assert (kept g g3) as [].
  { subst g3. destruct (command_texture command) as [tx|].
    - eapply kept_trans; [|apply kept_bindTexture].
      eapply kept_trans; [apply kept_with_context | apply kept_bindShader].
    - eapply kept_trans; [apply kept_with_context | apply kept_bindShader]. }
  destruct (draw_all_after now (q :: qs) g3) as (Ha & Hs & Hb & Hd & He & Hv).
  split; cbn [stats with_stats currentBatch drawQuads enableBatching usedVRAM heap
              batchCount tally totalDrawCalls totalQuads totalTriangles].
  - rewrite Hs. symmetry in kept_tally0. apply tally_eq in kept_tally0.
    apply tally_eq. cbn [totalDrawCalls totalQuads totalTriangles length].
    cbn [length] in *. lia.
  - rewrite Hs. exact kept_batches0.
  - congruence.
  - congruence.
  - congruence.
  - congruence.
  - rewrite <- kept_heap0. exact Ha.
Qed.

Lemma process_executed now viewport cmds :
  forall g,
  Forall proper cmds ->
  executed g
    (fold_left (fun g' c => executeDrawCommand now c viewport g') cmds g)
    (concat (map command_quads cmds)) (Z.of_nat (length cmds)).
Proof.
  induction cmds as [|c cmds IH]; intros g Hp; [apply executed_refl|].
  apply Forall_cons in Hp as [[Htype Hquads] Hp].
  cbn [fold_left map concat].
  replace (Z.of_nat (length (c :: cmds))) with (1 + Z.of_nat (length cmds))
    by (cbn [length]; lia).
  eapply executed_trans; [|apply IH, Hp].
  unfold executeDrawCommand. rewrite Htype. cbn.
  now apply executeBatchDraw_executed.
Qed.

Lemma proper_length cmds :
  Forall proper cmds ->
  (length cmds <= length (concat (map command_quads cmds)))%nat.
Proof.
  induction 1 as [|c cmds [_ Hc] _ IH]; cbn; [lia|].
  rewrite length_app. destruct (command_quads c); [contradiction | cbn; lia].
Qed.

(** The draw commands of a frame. *)
Definition frame_commands (viewport : Rect.t) (g : t) : list Command :=
  commandBuffer (flushCurrentBatch (submit_all viewport (resetFrameStats g))).

(** One frame, from an idle simulator. *)
Lemma renderFrame_run now0 now1 now viewport g :
  idle g ->
  exists n : nat,
    n = length (frame_commands viewport g) /\
    (n <= length (submitted viewport g))%nat /\
    (submitted viewport g = [] -> context (renderFrame now0 now1 now viewport g).2 = context g) /\
    tally (stats (renderFrame now0 now1 now viewport g).2) =
      (Z.of_nat n, Z.of_nat (length (submitted viewport g)),
       2 * Z.of_nat (length (submitted viewport g))) /\
    batchCount (stats (renderFrame now0 now1 now viewport g).2) = Z.of_nat n /\
    after (submitted viewport g) (heap g) (heap (renderFrame now0 now1 now viewport g).2) /\
    drawQuads (renderFrame now0 now1 now viewport g).2 = drawQuads g /\
    idle (renderFrame now0 now1 now viewport g).2 /\
    (renderFrame now0 now1 now viewport g).1 = stats (renderFrame now0 now1 now viewport g).2.
Proof.
  intros [Hbuffer Hbatch]. unfold renderFrame, submit_all, processCommandBuffer.
  set (g1 := resetFrameStats g).
  pose proof (submit_loop_queued viewport (drawQuads g1) g1) as Hq.
  match type of Hq with queued _ ?g0 _ => set (g2 := g0) in * end.
  destruct (flushCurrentBatch_queued g2) as [Hflush Hempty].
  pose proof (queued_trans _ _ _ _ _ Hq Hflush) as [].
  set (g3 := flushCurrentBatch g2) in *.
  rewrite app_nil_r in queued_pending0.
  rewrite (filter_ext (wanted viewport g1) (wanted viewport g)) in queued_pending0
    by (intros x; now apply wanted_heap).
  change (List.filter (wanted viewport g) (drawQuads g1)) with (submitted viewport g)
    in queued_pending0.
  unfold pending in queued_pending0. cbn [g1 resetFrameStats with_stats commandBuffer
    currentBatch] in queued_pending0.
  rewrite Hbuffer, Hbatch, Hempty, app_nil_r in queued_pending0. cbn in queued_pending0.
  assert (Forall proper (commandBuffer g3)) as Hproper.
  { apply queued_commands0. cbn. rewrite Hbuffer. constructor. }
  cbn [g1 resetFrameStats with_stats commandBuffer stats batchCount] in queued_batches0.
  rewrite Hbuffer in queued_batches0. cbn in queued_batches0.
  pose proof (process_executed now viewport (commandBuffer g3) g3 Hproper) as [].
  rewrite queued_pending0 in *.
  exists (length (commandBuffer g3)).
  cbn [fst snd stats with_stats heap drawQuads context commandBuffer currentBatch
       tally totalDrawCalls totalQuads totalTriangles batchCount].
  split_and!.
  - reflexivity.
  - rewrite <- queued_pending0. now apply proper_length.
  - intros Hnone. rewrite Hnone in queued_pending0.
    destruct (commandBuffer g3) as [|c cs]; [cbn; exact queued_context0|].
    apply Forall_cons in Hproper as [[_ Hc] _]. cbn in queued_pending0.
    destruct (command_quads c); [contradiction | discriminate].
  - apply tally_eq in executed_tally0, queued_tally0. apply tally_eq.
    unfold g1, resetFrameStats in queued_tally0. cbn in queued_tally0.
    cbn [totalDrawCalls totalQuads totalTriangles]. lia.
  - rewrite executed_batches0. lia.
  - rewrite queued_heap0 in executed_heap0. exact executed_heap0.
  - rewrite executed_drawQuads0, queued_drawQuads0. reflexivity.
  - split; [reflexivity|]. cbn. rewrite executed_batch0. exact Hempty.
  - reflexivity.
Qed.

(** X18.  A frame of a simulator whose command buffer and current batch
    are empty (as they are before the first frame and after every frame)
    draws every quad that needs an update, meets the viewport and is
    visible exactly once: [totalQuads] is the number of these quads,
    [totalTriangles] is twice that, [totalDrawCalls] equals [batchCount] and
    is at most [totalQuads], and the simulator is left with an empty command
    buffer and an empty batch. *)
Theorem renderFrame_counts_the_quads_it_draws
    (now0 now1 now : Z) (viewport : Rect.t) (g : t) :
  idle g ->
  let s := (renderFrame now0 now1 now viewport g).1 in
  totalQuads s = Z.of_nat (length (submitted viewport g)) /\
  totalTriangles s = 2 * totalQuads s /\
  totalDrawCalls s = batchCount s /\
  0 <= totalDrawCalls s <= totalQuads s /\
  frameTime s = now1 - now0 /\
  idle (renderFrame now0 now1 now viewport g).2.
Proof.
  intros Hidle s.
  destruct (renderFrame_run now0 now1 now viewport g Hidle)
    as (n & _ & Hn & _ & Htally & Hbatches & _ & _ & Hidle' & Hs).
  subst s. rewrite Hs. apply tally_eq in Htally.
  split_and!; try lia; [|exact Hidle'].
  now rewrite <- Hs.
Qed.

Lemma renderFrame_counts_the_quads_it_draws_witness :
  let s := (renderFrame 0 10 5 (Rect.mk 0 0 800 600) three_quads).1 in
  totalQuads s = Z.of_nat (length (submitted (Rect.mk 0 0 800 600) three_quads)) /\
  totalTriangles s = 2 * totalQuads s /\
  totalDrawCalls s = batchCount s /\
  0 <= totalDrawCalls s <= totalQuads s /\
  frameTime s = 10 - 0 /\
  idle (renderFrame 0 10 5 (Rect.mk 0 0 800 600) three_quads).2.
Proof.
  apply (renderFrame_counts_the_quads_it_draws 0 10 5 (Rect.mk 0 0 800 600) three_quads).
  split; reflexivity.
Defined.

Lemma nothing_wanted viewport g :
  (forall l, l ∈ drawQuads g -> wanted viewport g l = false) ->
  submitted viewport g = [].
Proof.
  unfold submitted. induction (drawQuads g) as [|l ls IH]; intros H; [reflexivity|].
  cbn. rewrite (H l) by (apply elem_of_cons; now left).
  apply IH. intros l' Hl'. apply H, elem_of_cons. now right.
Qed.

(** X19.  Drawing a quad clears its [needsUpdate] flag, and a frame
    draws only quads whose flag is set: a frame that follows another for
    the same viewport, with no quad marked dirty in between, submits
    nothing, sends nothing to the drawing surface and reports no draw
    calls, quads or triangles. *)
Theorem second_frame_draws_nothing
    (now0 now1 now now0' now1' now' : Z) (viewport : Rect.t) (g : t) :
  idle g ->
  let g' := (renderFrame now0 now1 now viewport g).2 in
  let s := (renderFrame now0' now1' now' viewport g').1 in
  submitted viewport g' = [] /\
  context (renderFrame now0' now1' now' viewport g').2 = context g' /\
  totalDrawCalls s = 0 /\ totalQuads s = 0 /\ totalTriangles s = 0 /\ batchCount s = 0.
Proof.
  intros Hidle g' s.
  destruct (renderFrame_run now0 now1 now viewport g Hidle)
    as (n & _ & _ & _ & _ & _ & Hafter & Hquads & Hidle' & _).
  fold g' in Hafter, Hquads, Hidle'.
  assert (submitted viewport g' = []) as Hnone.
  { apply nothing_wanted. rewrite Hquads. intros l Hl.
    specialize (Hafter l). unfold wanted.
    destruct (heap g !! l) as [q|] eqn:Hq; [|now rewrite Hafter].
    destruct Hafter as (q' & -> & Hshape & Hin & Hout).
    destruct (decide (l ∈ submitted viewport g)) as [Hsub|Hsub].
    - now rewrite (Hin Hsub).
    - rewrite (Hout Hsub).
      destruct (needsUpdate q && intersectsViewport q viewport && visible q) eqn:E;
        [|reflexivity].
      exfalso. apply Hsub. unfold submitted.
      apply list_elem_of_In, filter_In. split; [now apply list_elem_of_In|].
      unfold wanted. now rewrite Hq. }
  destruct (renderFrame_run now0' now1' now' viewport g' Hidle')
    as (n' & _ & Hn' & Hcontext & Htally & Hbatches & _ & _ & _ & Hs).
  subst s. rewrite Hs. rewrite Hnone in Hn', Hcontext, Htally.
  apply tally_eq in Htally. cbn [length] in Hn', Htally.
  split_and!; try lia; [exact Hnone | now apply Hcontext].
Qed.

Lemma second_frame_draws_nothing_witness :
  let g' := (renderFrame 0 10 5 (Rect.mk 0 0 800 600) three_quads).2 in
  let s := (renderFrame 20 30 25 (Rect.mk 0 0 800 600) g').1 in
  submitted (Rect.mk 0 0 800 600) g' = [] /\
  context (renderFrame 20 30 25 (Rect.mk 0 0 800 600) g').2 = context g' /\
  totalDrawCalls s = 0 /\ totalQuads s = 0 /\ totalTriangles s = 0 /\ batchCount s = 0.
Proof.
  apply (second_frame_draws_nothing 0 10 5 20 30 25 (Rect.mk 0 0 800 600) three_quads).
  split; reflexivity.
Defined.

End GPU_frames.

(** ** PaintRecordGenerator: what a shadow record takes from the style *)

Section Shadow_parameters.
Import PaintRecordGenerator.

(** A non-empty string of decimal digits. *)
Definition digits (l : list ascii) : Prop :=
  l <> [] /\ forallb JS.is_digit l = true.

Lemma span_prefix (f : ascii -> bool) (l a b : list ascii) :
  JS.span f l = (a, b) -> forallb f a = true.
Proof.
  revert a b. induction l as [|c l IH]; intros a b; cbn.
  - now intros [= <- <-].
  - destruct (f c) eqn:Hc; [|now intros [= <- <-]].
    destruct (JS.span f l) as [a' b'] eqn:Hs. intros [= <- <-]. cbn.
    rewrite Hc. exact (IH a' b' eq_refl).
Qed.

Lemma span_all (f : ascii -> bool) (l : list ascii) :
  forallb f l = true -> JS.span f l = (l, []).
Proof.
  induction l as [|c l IH]; cbn; [reflexivity|].
  intros H. apply andb_true_iff in H as [-> H]. now rewrite (IH H).
Qed.

Lemma match_length_digits l ds rest :
  match_length l = Some (ds, rest) -> digits ds.
Proof.
  unfold match_length.
  destruct (JS.span JS.is_ws l) as [ws l1].
  destruct (JS.span JS.is_digit l1) as [ds' l2] eqn:Hds.
  apply span_prefix in Hds.
  destruct ws as [|w ws]; [discriminate|].
  destruct ds' as [|d ds']; [discriminate|].
  destruct l2 as [|p l2]; [discriminate|].
  destruct (Ascii.eqb_spec p "p"); [subst p | destruct p as [[] [] [] [] [] [] [] []]; try discriminate; congruence].
  destruct l2 as [|x l2]; [discriminate|].
  destruct (Ascii.eqb_spec x "x"); [subst x | destruct x as [[] [] [] [] [] [] [] []]; try discriminate; congruence].
  intros [= <- _]. split; [discriminate | exact Hds].
Qed.

Lemma match_here_digits l g1 g2 g3 :
  match_here l = Some (g1, g2, g3) -> digits g1 /\ digits g2 /\ digits g3.
Proof.
  unfold match_here, mbind, option_bind. intros H.
  repeat (match type of H with
          | context [match ?x with _ => _ end] => destruct x eqn:?
          end; try discriminate H).
  injection H as <- <- <-.
  repeat match goal with
         | E : match_length _ = Some _ |- _ => apply match_length_digits in E
         end.
  now split_and!.
Qed.

Lemma shadow_match_digits l g1 g2 g3 :
  shadow_match l = Some (g1, g2, g3) -> digits g1 /\ digits g2 /\ digits g3.
Proof.
  induction l as [|c l IH]; cbn [shadow_match].
  - destruct (match_here []) as [[[a b] d]|] eqn:E; [|discriminate].
    intros [= <- <- <-]. now apply (match_here_digits []).
  - destruct (match_here (c :: l)) as [[[a b] d]|] eqn:E; [|exact IH].
    intros [= <- <- <-]. now apply (match_here_digits (c :: l)).
Qed.

Lemma decimal_value_nonneg ds :
  forallb JS.is_digit ds = true -> 0 <= JS.decimal_value ds.
Proof.
  unfold JS.decimal_value. assert (0 <= 0) as H0 by lia. revert H0.
  generalize 0 at 2 4 as acc. induction ds as [|c ds IH]; intros acc Hacc; cbn; [easy|].
  intros H. apply andb_true_iff in H as [Hc H]. apply IH; [|exact H].
  unfold JS.is_digit, JS.digit_val in *. lia.
Qed.

(** Up to [2 ^ 53] an integer is a Number as it stands. *)
Lemma round_int_small (n : Z) : 0 <= n < 2 ^ 53 -> JS.round_int n = n.
Proof.
  intros [H0 H]. unfold JS.round_int.
  destruct (Z.log2 (Z.abs n) - 52 <=? 0) eqn:E; [reflexivity|].
  apply Z.leb_gt in E. rewrite Z.abs_eq in E by exact H0.
  destruct (Z.eq_dec n 0) as [->|Hn]; [discriminate E|].
  assert (Z.log2 n < 53) by (apply Z.log2_lt_pow2; lia). lia.
Qed.

Lemma decimal_value_bound ds :
  forallb JS.is_digit ds = true ->
  0 <= JS.decimal_value ds < 10 ^ Z.of_nat (length ds).
Proof.
  unfold JS.decimal_value.
  assert (forall acc, 0 <= acc ->
            forallb JS.is_digit ds = true ->
            0 <= fold_left (fun a c => a * 10 + JS.digit_val c) ds acc <
            (acc + 1) * 10 ^ Z.of_nat (length ds)) as H.
  { induction ds as [|c ds IH]; intros acc Hacc Hall; cbn [fold_left length].
    - cbn. lia.
    - cbn [forallb] in Hall. apply andb_true_iff in Hall as [Hc Hall].
      assert (0 <= JS.digit_val c <= 9) as Hd
        by (unfold JS.is_digit, JS.digit_val in *; lia).
      specialize (IH (acc * 10 + JS.digit_val c) ltac:(lia) Hall).
      rewrite Nat2Z.inj_succ, Z.pow_succ_r by lia.
      assert (0 < 10 ^ Z.of_nat (length ds)) by (apply Z.pow_pos_nonneg; lia).
      nia. }
  intros Hall. specialize (H 0 ltac:(lia) Hall). lia.
Qed.

Lemma parseInt_digits ds :
  digits ds -> JS.parseInt_chars ds = Some (JS.round_int (JS.decimal_value ds)).
Proof.
  intros [Hne Hall]. destruct ds as [|c ds]; [contradiction|].
  pose proof Hall as Hall'. cbn [forallb] in Hall'.
  apply andb_true_iff in Hall' as [Hc Hds].
  unfold JS.parseInt_chars.
  assert (JS.drop_ws (c :: ds) = c :: ds) as ->.
  { cbn. unfold JS.is_ws, JS.is_digit in *.
    destruct (_ || _) eqn:E; [lia | reflexivity]. }
  destruct c as [[] [] [] [] [] [] [] []]; try discriminate Hc;
    unfold JS.strip_sign; cbv beta iota;
    try (rewrite (span_all _ _ Hall); reflexivity).
  destruct ds as [|x ds]; [reflexivity|].
  pose proof Hds as Hx. cbn [forallb] in Hx. apply andb_true_iff in Hx as [Hx _].
  destruct x as [[] [] [] [] [] [] [] []]; try discriminate Hx;
    cbv beta iota; change (Ascii.eqb _ _ || Ascii.eqb _ _) with false; cbv beta iota;
    rewrite (span_all _ _ Hall); reflexivity.
Qed.

(** A length of at most 15 digits is read as the integer it writes. *)
Lemma parseInt_short ds :
  digits ds -> (length ds <= 15)%nat -> JS.parseInt_chars ds = Some (JS.decimal_value ds).
Proof.
  intros Hd Hlen. rewrite (parseInt_digits ds Hd). f_equal. apply round_int_small.
  destruct (decimal_value_bound ds (proj2 Hd)) as [H0 H]. split; [exact H0|].
  eapply Z.lt_le_trans; [exact H|].
  transitivity (10 ^ 15); [apply Z.pow_le_mono_r; lia | now vm_compute].
Qed.

Lemma or_Z_zero (v : Z) : JS.or_Z (Some v) 0 = v.
Proof. unfold JS.or_Z. destruct (v =? 0) eqn:E; [apply Z.eqb_eq in E; now subst | reflexivity]. Qed.

Lemma or_string_digits (g : list ascii) (d : string) :
  digits g -> JS.or_string (Some (string_of_list_ascii g)) d = string_of_list_ascii g.
Proof. intros [Hne _]. destruct g; [contradiction | reflexivity]. Qed.

(** A non-empty run of white space. *)
Definition blank (l : list ascii) : Prop :=
  l <> [] /\ forallb JS.is_ws l = true.

Lemma span_app (f : ascii -> bool) (a : list ascii) (c : ascii) (rest : list ascii) :
  forallb f a = true -> f c = false -> JS.span f (a ++ c :: rest) = (a, c :: rest).
Proof.
  intros Ha Hc. induction a as [|x a IH]; cbn.
  - now rewrite Hc.
  - cbn in Ha. apply andb_true_iff in Ha as [-> Ha]. now rewrite (IH Ha).
Qed.

Lemma digit_not_ws c : JS.is_digit c = true -> JS.is_ws c = false.
Proof. unfold JS.is_digit, JS.is_ws. intros H. destruct (_ || _) eqn:E; [lia | reflexivity]. Qed.

(** [\s+(\d+)px] on white space, digits and "px". *)
Lemma match_length_app (w ds rest : list ascii) :
  blank w -> digits ds ->
  match_length (w ++ ds ++ "p"%char :: "x"%char :: rest) = Some (ds, rest).
Proof.
  intros [Hw Hws] [Hd Hds]. unfold match_length.
  destruct ds as [|d ds]; [contradiction|].
  pose proof Hds as Hd1. cbn [forallb] in Hd1. apply andb_true_iff in Hd1 as [Hd1 _].
  change (w ++ (d :: ds) ++ "p"%char :: "x"%char :: rest)
    with (w ++ d :: (ds ++ "p"%char :: "x"%char :: rest)).
  rewrite (span_app JS.is_ws w d _ Hws (digit_not_ws d Hd1)).
  change (d :: ds ++ "p"%char :: "x"%char :: rest)
    with ((d :: ds) ++ "p"%char :: "x"%char :: rest).
  rewrite (span_app JS.is_digit (d :: ds) "p" _ Hds eq_refl).
  destruct w as [|x w]; [contradiction | reflexivity].
Qed.

(** A shadow value in the order of CSS: a colour [rgb(...)] or
    [rgba(...)], then the horizontal offset [l1], the vertical offset [l2]
    and the blur radius [l3], each a length in [px], then anything. *)
Definition shadow_value (alpha : bool) (inside w1 l1 w2 l2 w3 l3 rest : list ascii)
    : string :=
  string_of_list_ascii
    (JS.chars (if alpha then "rgba(" else "rgb(") ++ inside ++ ")"%char ::
     w1 ++ l1 ++ "p"%char :: "x"%char ::
     w2 ++ l2 ++ "p"%char :: "x"%char ::
     w3 ++ l3 ++ "p"%char :: "x"%char :: rest).

Lemma match_here_shadow_value alpha inside w1 l1 w2 l2 w3 l3 rest :
  inside <> [] -> forallb not_close_paren inside = true ->
  blank w1 -> blank w2 -> blank w3 -> digits l1 -> digits l2 -> digits l3 ->
  shadow_match (JS.chars (shadow_value alpha inside w1 l1 w2 l2 w3 l3 rest)) =
  Some (l1, l2, l3).
Proof.
  intros Hne Hin Hw1 Hw2 Hw3 Hl1 Hl2 Hl3.
  unfold shadow_value, JS.chars at 1. rewrite list_ascii_of_string_of_list_ascii.
  assert (match_here
            (JS.chars (if alpha then "rgba(" else "rgb(") ++ inside ++ ")"%char ::
             w1 ++ l1 ++ "p"%char :: "x"%char ::
             w2 ++ l2 ++ "p"%char :: "x"%char ::
             w3 ++ l3 ++ "p"%char :: "x"%char :: rest) = Some (l1, l2, l3)) as Hhere.
  { assert (forall tail,
              (let '(ins, l4) := JS.span not_close_paren (inside ++ ")"%char :: tail) in
               match ins, l4 with
               | _ :: _, ")"%char :: l5 =>
                   '(g1, l6) ← match_length l5;
                   '(g2, l7) ← match_length l6;
                   '(g3, _) ← match_length l7;
                   Some (g1, g2, g3)
               | _, _ => None
               end) =
              ('(g1, l6) ← match_length tail;
               '(g2, l7) ← match_length l6;
               '(g3, _) ← match_length l7;
               Some (g1, g2, g3))) as Hspan.
    { intros tail. rewrite (span_app not_close_paren inside ")" tail Hin eq_refl).
      destruct inside; [contradiction | reflexivity]. }
    destruct alpha; cbn [JS.chars list_ascii_of_string app match_here];
      rewrite Hspan;
      repeat (rewrite match_length_app by assumption; cbn [mbind option_bind]);
      reflexivity. }
  destruct alpha; cbn [JS.chars list_ascii_of_string app] in Hhere |- *;
    cbn [shadow_match]; now rewrite Hhere.
Qed.

(** X20.  A shadow value written in the order of CSS, the colour
    [rgb(...)] or [rgba(...)] followed by the horizontal offset, the
    vertical offset and the blur radius as lengths in [px] of at most 15
    digits, is read one place off.  The shadow record that
    [createShadowRecord] builds over a non-empty list of records wraps the
    first of them and has for its colour the digits of the horizontal
    offset, for its horizontal offset the vertical offset, for its vertical
    offset the blur radius, and for its blur the constructor's default 10:
    the expression of [parseShadow] has three groups, so that the colour is
    not captured and [match[4]] is [undefined]. *)
Theorem shadow_record_reads_the_lengths_one_place_off
    (now : Z) (node : Layout.Node) (layer : Layer.t) (first : loc) (others : list loc)
    (st : Paint.Store) (alpha : bool) (inside w1 l1 w2 l2 w3 l3 rest : list ascii) :
  shadow_style (Layout.style node) =
    Some (shadow_value alpha inside w1 l1 w2 l2 w3 l3 rest) ->
  inside <> [] -> forallb not_close_paren inside = true ->
  blank w1 -> blank w2 -> blank w3 ->
  digits l1 -> digits l2 -> digits l3 ->
  (length l2 <= 15)%nat -> (length l3 <= 15)%nat ->
  exists s rec st',
    createShadowRecord now node layer (first :: others) st = (Some s, st') /\
    Paint.records st' !! s = Some rec /\
    Paint.type rec = "shadow" /\
    Paint.kind rec =
      Paint.ShadowK (string_of_list_ascii l1) 10
        (JS.decimal_value l2) (JS.decimal_value l3) (Some first).
Proof.
  intros Hstyle Hne Hin Hw1 Hw2 Hw3 Hl1 Hl2 Hl3 Hlen2 Hlen3.
  assert (has_shadow node = true) as Hshadow.
  { unfold has_shadow. rewrite Hstyle. unfold shadow_value. now destruct alpha. }
  destruct (createShadowRecord_wraps_first now node layer first others st Hshadow)
    as (s & rec & st' & Hrun & _ & Hrec & _ & Hty & Hkind).
  exists s, rec, st'. split_and!; [exact Hrun | exact Hrec | exact Hty|].
  rewrite Hkind, Hstyle. cbn [default from_option id]. unfold parseShadow.
  rewrite (match_here_shadow_value alpha inside w1 l1 w2 l2 w3 l3 rest) by assumption.
  cbn [shadowColor shadowBlur shadowOffsetX shadowOffsetY].
  rewrite (parseInt_short l2 Hl2 Hlen2), (parseInt_short l3 Hl3 Hlen3).
  now rewrite (or_string_digits _ _ Hl1), !or_Z_zero.
Qed.

(** A block with a soft shadow. *)
Definition soft_shadow_node : Layout.Node :=
  Layout.mkNode
    (<["background-color" := "#ffffff"]>
       (<["box-shadow" := "rgba(0,0,0,0.3) 5px 6px 7px"]> ∅))
    (Rect.mk 0 0 200 100) None None [].

Definition soft_shadow_emitted : list loc * Paint.Store :=
  let '((backgroundRecord, borderRecord, contentRecords), st) :=
    emitRecords 0 soft_shadow_node layer_L Paint.empty_store in
  (option_list backgroundRecord ++ option_list borderRecord ++ contentRecords, st).

Definition soft_shadow : option loc * Paint.Store :=
  createShadowRecord 0 soft_shadow_node layer_L soft_shadow_emitted.1 soft_shadow_emitted.2.

Lemma shadow_record_reads_the_lengths_one_place_off_witness :
  exists s rec st',
    createShadowRecord 0 soft_shadow_node layer_L [0%nat] soft_shadow_emitted.2 =
      (Some s, st') /\
    Paint.records st' !! s = Some rec /\
    Paint.type rec = "shadow" /\
    Paint.kind rec = Paint.ShadowK "5" 10 6 7 (Some 0%nat).
Proof.
  apply (shadow_record_reads_the_lengths_one_place_off 0 soft_shadow_node layer_L
           0%nat [] soft_shadow_emitted.2 true
           (JS.chars "0,0,0,0.3") (JS.chars " ") (JS.chars "5")
           (JS.chars " ") (JS.chars "6") (JS.chars " ") (JS.chars "7") []);
    try (vm_compute; reflexivity);
    try (split; [discriminate | vm_compute; reflexivity]);
    try discriminate;
    vm_compute; lia.
Defined.

(** The shadow "rgba(0,0,0,0.3) 5px 6px 7px" becomes a record of colour
    "5", blur 10 and offsets 6 and 7 around the background record. *)
Example soft_shadow_record :
  soft_shadow.1 = Some 1%nat /\
  Paint.kind <$> Paint.records soft_shadow.2 !! 1%nat =
    Some (Paint.ShadowK "5" 10 6 7 (Some 0%nat)).
Proof. vm_compute. split; reflexivity. Qed.

End Shadow_parameters.

(** ** PaintRecordGenerator: merging the rectangles of a layer *)

Section Record_merging.
Import PaintRecordGenerator.

(** The rectangle [outer] contains the rectangle [inner]. *)
Definition covers (outer inner : Rect.t) : Prop :=
  Rect.x outer <= Rect.x inner /\
  Rect.y outer <= Rect.y inner /\
  Rect.x inner + Rect.width inner <= Rect.x outer + Rect.width outer /\
  Rect.y inner + Rect.height inner <= Rect.y outer + Rect.height outer.

(** A rectangle whose four edges are integers of magnitude at most
    [2 ^ 52].  Between such rectangles every sum and difference that merging
    and the overlap test compute is an integer of magnitude at most
    [2 ^ 53]: the arithmetic of the code, which is that of binary64, rounds
    nothing there and agrees with the arithmetic of [Z].  (On fractional
    edges it does round: [0.2 + (0.9 - 0.2)] is less than [0.9].) *)
Definition exact (b : Rect.t) : Prop :=
  - 2 ^ 52 <= Rect.x b <= 2 ^ 52 /\
  - 2 ^ 52 <= Rect.y b <= 2 ^ 52 /\
  - 2 ^ 52 <= Rect.x b + Rect.width b <= 2 ^ 52 /\
  - 2 ^ 52 <= Rect.y b + Rect.height b <= 2 ^ 52.

(** Every bounds object of the store is [exact]. *)
Definition all_exact (st : Paint.Store) : Prop :=
  forall l b, Paint.rects st !! l = Some b -> exact b.

(** The bounds of the record at [r]. *)
Definition rect_of (st : Paint.Store) (r : loc) : option Rect.t :=
  match Paint.records st !! r with
  | Some rec => Paint.rects st !! Paint.bounds rec
  | None => None
  end.

(** Two filled rectangles without a stroke that have the same fill
    style. *)
Definition alike (st : Paint.Store) (r k : loc) : Prop :=
  exists rec rec',
    Paint.records st !! r = Some rec /\ Paint.records st !! k = Some rec' /\
    mergeable rec = true /\ mergeable rec' = true /\
    fillStyle (Paint.kind rec) = fillStyle (Paint.kind rec').

(** The records [rs] and their bounds objects exist. *)
Definition present (st : Paint.Store) (rs : list loc) : Prop :=
  forall r, r ∈ rs ->
    exists rec b, Paint.records st !! r = Some rec /\
                  Paint.rects st !! Paint.bounds rec = Some b.

(** From [st] to [st'] records have changed at most the bounds object
    they refer to, the new bounds contain the old ones, and the bounds
    objects of [st] are as they were. *)
Definition grown (st st' : Paint.Store) : Prop :=
  (forall r,
     match Paint.records st !! r with
     | None => Paint.records st' !! r = None
     | Some rec =>
         exists b', Paint.records st' !! r = Some (Paint.set_bounds rec b') /\
           forall b, Paint.rects st !! Paint.bounds rec = Some b ->
             exists b2, Paint.rects st' !! b' = Some b2 /\ covers b2 b
     end) /\
  (forall l b, Paint.rects st !! l = Some b -> Paint.rects st' !! l = Some b).

(** The rectangle of [r] in [st] lies within the rectangle that a
    record of [out] has in [st']: [r] itself, or a rectangle like it. *)
Definition covered (st st' : Paint.Store) (out : list loc) (r : loc) : Prop :=
  forall b, rect_of st r = Some b ->
    exists k b', k ∈ out /\ rect_of st' k = Some b' /\ covers b' b /\
                 (k = r \/ alike st r k).

Lemma covers_refl b : covers b b.
Proof. unfold covers. lia. Qed.

Lemma covers_trans a b c : covers a b -> covers b c -> covers a c.
Proof. unfold covers. lia. Qed.

Lemma mergeBounds_covers b1 b2 :
  covers (mergeBounds b1 b2) b1 /\ covers (mergeBounds b1 b2) b2.
Proof. unfold covers, mergeBounds. cbn. lia. Qed.

Lemma mergeBounds_least b1 b2 b :
  covers b b1 -> covers b b2 -> covers b (mergeBounds b1 b2).
Proof. unfold covers, mergeBounds. cbn. lia. Qed.

Lemma mergeBounds_exact b1 b2 : exact b1 -> exact b2 -> exact (mergeBounds b1 b2).
Proof. unfold exact, mergeBounds. cbn. generalize (2 ^ 52). lia. Qed.

Lemma merge_records_exact rs :
  forall mergedRecords currentRectRecord st,
    all_exact st -> all_exact (merge_records rs mergedRecords currentRectRecord st).1.2.
Proof.
  induction rs as [|record rs IH]; intros mergedRecords currentRectRecord st Hst;
    cbn [merge_records]; [exact Hst|].
  destruct (Paint.records st !! record) as [rec|]; [|exact Hst].
  destruct (mergeable rec); [|now apply IH].
  destruct currentRectRecord as [current|]; [|now apply IH].
  destruct (Paint.records st !! current) as [cur|]; [|exact Hst].
  destruct (bool_decide _); [|now apply IH].
  destruct (Paint.rects st !! Paint.bounds cur) as [bounds1|] eqn:H1; [|exact Hst].
  destruct (Paint.rects st !! Paint.bounds rec) as [bounds2|] eqn:H2; [|exact Hst].
  unfold Paint.alloc_rect. apply IH.
  intros l b. unfold assign_bounds. cbn [Paint.rects].
  destruct (decide (l = fresh (dom (Paint.rects st)))) as [->|Hne].
  - rewrite lookup_insert_eq. intros [= <-].
    apply mergeBounds_exact; [exact (Hst _ _ H1) | exact (Hst _ _ H2)].
  - rewrite lookup_insert_ne by congruence. apply Hst.
Qed.

Lemma set_bounds_twice rec b b' :
  Paint.set_bounds (Paint.set_bounds rec b) b' = Paint.set_bounds rec b'.
Proof. reflexivity. Qed.

Lemma grown_refl st : grown st st.
Proof.
  split; [|auto]. intros r. destruct (Paint.records st !! r) as [rec|]; [|reflexivity].
  exists (Paint.bounds rec). rewrite set_bounds_same. split; [reflexivity|].
  intros b Hb. exists b. split; [exact Hb | apply covers_refl].
Qed.

Lemma grown_trans st1 st2 st3 : grown st1 st2 -> grown st2 st3 -> grown st1 st3.
Proof.
  intros [H12 R12] [H23 R23]. split; [|auto].
  intros r. specialize (H12 r). specialize (H23 r).
  destruct (Paint.records st1 !! r) as [rec|]; [|now rewrite H12 in H23].
  destruct H12 as (b' & Hrec & Hb'). rewrite Hrec in H23.
  destruct H23 as (b'' & Hrec' & Hb''). exists b''.
  rewrite set_bounds_twice in Hrec'. split; [exact Hrec'|].
  intros b Hb. destruct (Hb' b Hb) as (b2 & Hb2 & Hc).
  destruct (Hb'' b2 Hb2) as (b3 & Hb3 & Hc'). exists b3.
  split; [exact Hb3 | exact (covers_trans _ _ _ Hc' Hc)].
Qed.

Lemma rect_of_grown st st' r b :
  grown st st' -> rect_of st r = Some b ->
  exists b', rect_of st' r = Some b' /\ covers b' b.
Proof.
  intros [H _]. unfold rect_of. specialize (H r).
  destruct (Paint.records st !! r) as [rec|]; [|discriminate].
  destruct H as (l & -> & Hl). intros Hb. destruct (Hl b Hb) as (b2 & Hb2 & Hc).
  exists b2. now split.
Qed.

Lemma present_grown st st' rs : grown st st' -> present st rs -> present st' rs.
Proof.
  intros [H _] Hp r Hr. destruct (Hp r Hr) as (rec & b & Hrec & Hb).
  specialize (H r). rewrite Hrec in H. destruct H as (l & Hrec' & Hl).
  destruct (Hl b Hb) as (b2 & Hb2 & _). now exists (Paint.set_bounds rec l), b2.
Qed.

Lemma alike_grown st st' r k : grown st st' -> alike st' r k -> alike st r k.
Proof.
  intros [H _] (rec & rec' & Hr & Hk & Hm & Hm' & Hf).
  pose proof (H r) as Hr0. pose proof (H k) as Hk0.
  destruct (Paint.records st !! r) as [rec0|] eqn:Er; [|congruence].
  destruct (Paint.records st !! k) as [rec0'|] eqn:Ek; [|congruence].
  destruct Hr0 as (l & Hr0 & _). destruct Hk0 as (l' & Hk0 & _).
  rewrite Hr in Hr0. rewrite Hk in Hk0. injection Hr0 as ->. injection Hk0 as ->.
  exists rec0, rec0'. split_and!; [exact Er | exact Ek | exact Hm | exact Hm' | exact Hf].
Qed.

Lemma grown_merge st c cur b1 b2 :
  Paint.records st !! c = Some cur ->
  Paint.rects st !! Paint.bounds cur = Some b1 ->
  grown st
    (assign_bounds c (Paint.alloc_rect (mergeBounds b1 b2) st).1
       (Paint.alloc_rect (mergeBounds b1 b2) st).2) /\
  rect_of
    (assign_bounds c (Paint.alloc_rect (mergeBounds b1 b2) st).1
       (Paint.alloc_rect (mergeBounds b1 b2) st).2) c = Some (mergeBounds b1 b2).
Proof.
  intros Hc Hb1. unfold grown, Paint.alloc_rect, assign_bounds, rect_of.
  cbn [fst snd Paint.records Paint.rects].
  set (l := fresh (dom (Paint.rects st))).
  assert (Paint.rects st !! l = None) as Hl by (apply not_elem_of_dom, is_fresh).
  split; [split|].
  - intros r. destruct (decide (r = c)) as [->|Hne].
    + rewrite Hc, lookup_alter_eq, Hc. cbn [fmap option_fmap option_map].
      exists l. split; [reflexivity|].
      intros b Hb. rewrite lookup_insert_eq. exists (mergeBounds b1 b2).
      split; [reflexivity|]. assert (b = b1) as -> by congruence.
      apply mergeBounds_covers.
    + rewrite lookup_alter_ne by congruence.
      destruct (Paint.records st !! r) as [rec|]; [|reflexivity].
      exists (Paint.bounds rec). rewrite set_bounds_same. split; [reflexivity|].
      intros b Hb. exists b. split; [|apply covers_refl].
      rewrite lookup_insert_ne by congruence. exact Hb.
  - intros l' b Hb. rewrite lookup_insert_ne by congruence. exact Hb.
  - rewrite lookup_alter_eq, Hc. cbn [fmap option_fmap option_map Paint.bounds
      Paint.set_bounds]. apply lookup_insert_eq.
Qed.

Lemma alike_trans st r a k : alike st r a -> alike st a k -> alike st r k.
Proof.
  intros (rec & reca & Hr & Ha & Hm & Hma & Hf) (reca' & reck & Ha' & Hk & _ & Hmk & Hf').
  assert (reca' = reca) as -> by congruence.
  exists rec, reck. split_and!; try assumption. congruence.
Qed.

Lemma covered_weaken st st' out out' r :
  (forall k, k ∈ out -> k ∈ out') -> covered st st' out r -> covered st st' out' r.
Proof.
  intros Hsub Hc b Hb. destruct (Hc b Hb) as (k & b' & Hk & H).
  exists k, b'. split; [now apply Hsub | exact H].
Qed.

Lemma covered_self st st' out r :
  grown st st' -> r ∈ out -> covered st st' out r.
Proof.
  intros Hg Hr b Hb. destruct (rect_of_grown st st' r b Hg Hb) as (b' & Hb' & Hc).
  exists r, b'. split_and!; [exact Hr | exact Hb' | exact Hc | now left].
Qed.

(** The rectangle of [r] is covered through the record [a], whose
    rectangle in the intermediate store [st2] contains it. *)
Lemma covered_via st st2 st' out r a :
  grown st st2 ->
  (forall b, rect_of st r = Some b ->
     exists ba, rect_of st2 a = Some ba /\ covers ba b) ->
  a = r \/ alike st r a ->
  covered st2 st' out a ->
  covered st st' out r.
Proof.
  intros Hg Hrect Hra Hcov b Hb.
  destruct (Hrect b Hb) as (ba & Hba & Hc).
  destruct (Hcov ba Hba) as (k & b' & Hk & Hb' & Hc' & Hak).
  exists k, b'. split_and!; [exact Hk | exact Hb' | exact (covers_trans _ _ _ Hc' Hc) |].
  destruct Hak as [->|Hak].
  - destruct Hra as [->|Hra]; [now left | now right].
  - apply (alike_grown st st2) in Hak; [|exact Hg].
    destruct Hra as [->|Hra]; [now right | right; exact (alike_trans _ _ _ _ Hra Hak)].
Qed.

Lemma merge_records_cover rs :
  forall merged current st,
  present st (option_list current ++ rs) ->
  (forall c, current = Some c ->
     exists cur, Paint.records st !! c = Some cur /\ mergeable cur = true) ->
  exists out st',
    merge_records rs merged current st = (merged ++ out, st', None) /\
    sublist out (option_list current ++ rs) /\
    grown st st' /\
    forall r, r ∈ option_list current ++ rs -> covered st st' out r.
Proof.
  induction rs as [|record rs IH]; intros merged current st Hp Hcur.
  - exists (option_list current), st. cbn [merge_records]. rewrite app_nil_r.
    split_and!; [reflexivity | reflexivity | apply grown_refl |].
    intros r Hr. now apply covered_self; [apply grown_refl|].
  - cbn [merge_records].
    destruct (Hp record) as (rec & b2 & Hrec & Hb2); [set_solver|].
    rewrite Hrec. destruct (mergeable rec) eqn:Hm.
    + destruct current as [c|].
      * destruct (Hcur c eq_refl) as (cur & Hc & Hmc). rewrite Hc.
        destruct (Hp c) as (cur' & b1 & Hc' & Hb1); [set_solver|].
        assert (cur' = cur) as -> by congruence.
        destruct (bool_decide (fillStyle (Paint.kind cur) = fillStyle (Paint.kind rec)))
          eqn:Hsame.
        -- apply bool_decide_eq_true in Hsame. rewrite Hb1, Hb2.
           destruct (grown_merge st c cur b1 b2 Hc Hb1) as [Hg Hrect].
           destruct (Paint.alloc_rect (mergeBounds b1 b2) st) as [mergedBounds st1].
           cbn [fst snd] in Hg, Hrect.
           set (st2 := assign_bounds c mergedBounds st1) in *.
           destruct (IH merged (Some c) st2) as (out & st' & Hrun & Hsub & Hg' & Hcov).
           { apply (present_grown st); [exact Hg|]. intros r Hin. apply Hp.
             cbn in *. apply elem_of_cons in Hin as [->|Hin]; [now left|].
             now right; right. }
           { intros c0 [= <-]. destruct Hg as [Hg _]. specialize (Hg c).
             rewrite Hc in Hg. destruct Hg as (l & Hl & _).
             exists (Paint.set_bounds cur l). split; [exact Hl | exact Hmc]. }
           exists out, st'. split_and!.
           ++ exact Hrun.
           ++ etrans; [exact Hsub|]. cbn. apply sublist_skip, sublist_cons. reflexivity.
           ++ exact (grown_trans _ _ _ Hg Hg').
           ++ assert (covered st st' out c) as Hcc.
              { apply (covered_via st st2 st' out c c); [exact Hg | | now left |].
                - intros b Hb. exists (mergeBounds b1 b2). split; [exact Hrect|].
                  unfold rect_of in Hb. rewrite Hc, Hb1 in Hb. injection Hb as <-.
                  apply mergeBounds_covers.
                - apply Hcov. set_solver. }
              assert (covered st st' out record) as Hcr.
              { apply (covered_via st st2 st' out record c); [exact Hg | | |].
                - intros b Hb. exists (mergeBounds b1 b2). split; [exact Hrect|].
                  unfold rect_of in Hb. rewrite Hrec, Hb2 in Hb. injection Hb as <-.
                  apply mergeBounds_covers.
                - right. exists rec, cur. split_and!; try assumption. congruence.
                - apply Hcov. set_solver. }
              intros r Hr. cbn in Hr. apply elem_of_cons in Hr as [->|Hr]; [exact Hcc|].
              apply elem_of_cons in Hr as [->|Hr]; [exact Hcr|].
              apply (covered_via st st2 st' out r r); [exact Hg | | now left |].
              ** intros b Hb. exact (rect_of_grown st st2 r b Hg Hb).
              ** apply Hcov. set_solver.
        -- destruct (IH (merged ++ [c]) (Some record) st)
             as (out & st' & Hrun & Hsub & Hg & Hcov).
           { intros r Hin. apply Hp. cbn. now right. }
           { intros c0 [= <-]. now exists rec. }
           exists (c :: out), st'. split_and!.
           ++ rewrite Hrun. now rewrite <- app_assoc.
           ++ cbn. now apply sublist_skip.
           ++ exact Hg.
           ++ intros r Hr. cbn in Hr. apply elem_of_cons in Hr as [->|Hr].
              ** apply covered_self; [exact Hg | now left].
              ** apply (covered_weaken st st' out); [intros k Hk; now right|].
                 now apply Hcov.
      * destruct (IH merged (Some record) st) as (out & st' & Hrun & Hsub & Hg & Hcov).
        { exact Hp. }
        { intros c0 [= <-]. now exists rec. }
        exists out, st'. now split_and!.
    + destruct (IH (merged ++ option_list current ++ [record]) None st)
        as (out & st' & Hrun & Hsub & Hg & Hcov).
      { intros r Hr. apply Hp. set_solver. }
      { discriminate. }
      exists (option_list current ++ record :: out), st'. split_and!.
      * rewrite Hrun. now rewrite <- !app_assoc.
      * apply sublist_app; [reflexivity|]. now apply sublist_skip.
      * exact Hg.
      * intros r Hr. apply elem_of_app in Hr as [Hr|Hr].
        -- apply covered_self; [exact Hg | set_solver].
        -- apply elem_of_cons in Hr as [->|Hr].
           ++ apply covered_self; [exact Hg | set_solver].
           ++ apply (covered_weaken st st' out); [set_solver|]. now apply Hcov.
Qed.

(** X21.  Bounds with integer edges of magnitude at most [2 ^ 52], on
    which the arithmetic of the code rounds nothing.  On a layer whose
    records and bounds objects exist, in a store whose bounds objects are all
    of this kind, [mergeSimilarRecordsInLayer] completes and leaves a
    subsequence of the records of the layer, in their order;
    [stats.optimizedRecords] grows by the number of records dropped; no
    record object is changed except for the bounds object it refers to, and
    bounds only grow, to bounds of the same kind.  Every record of the layer
    is still painted over its whole rectangle: its rectangle lies within the
    rectangle of a record that is kept, which is the record itself or, for a
    filled rectangle without a stroke, such a rectangle with the same fill
    style.  (Records of any other kind are therefore all kept.) *)
Theorem mergeSimilarRecordsInLayer_covers_integer_bounds
    (layer : Layer.t) (g : t) (st : Paint.Store) :
  present st (Layer.paintRecords layer) ->
  all_exact st ->
  exists layer' g' st',
    mergeSimilarRecordsInLayer layer g st = (layer', g', st', None) /\
    sublist (Layer.paintRecords layer') (Layer.paintRecords layer) /\
    optimizedRecords (stats g') =
      optimizedRecords (stats g) +
      (Z.of_nat (length (Layer.paintRecords layer)) -
       Z.of_nat (length (Layer.paintRecords layer'))) /\
    grown st st' /\
    all_exact st' /\
    forall r, r ∈ Layer.paintRecords layer ->
      covered st st' (Layer.paintRecords layer') r.
Proof.
  intros Hp Hexact. unfold mergeSimilarRecordsInLayer.
  pose proof (merge_records_exact (Layer.paintRecords layer) [] None st Hexact) as Hexact'.
  destruct (merge_records_cover (Layer.paintRecords layer) [] None st Hp)
    as (out & st' & Hrun & Hsub & Hg & Hcov); [discriminate|].
  rewrite Hrun in Hexact' |- *. cbn [app fst snd] in Hexact' |- *.
  do 3 eexists. split; [reflexivity|].
  cbn [Layer.paintRecords stats with_stats optimizedRecords].
  now split_and!.
Qed.

(** Two red rectangles side by side with a gap between them, and a line
    of text below. *)
Definition red_pair : list loc * Paint.Store :=
  let '(b1, st1) := Paint.alloc_rect (Rect.mk 0 0 10 10) Paint.empty_store in
  let '(r1, st2) :=
    Paint.RectPaintRecord 0 (Paint.params (Some "L") (Some b1)) (Some "#ff0000")
      None None None None st1 in
  let '(b2, st3) := Paint.alloc_rect (Rect.mk 20 0 10 10) st2 in
  let '(r2, st4) :=
    Paint.RectPaintRecord 0 (Paint.params (Some "L") (Some b2)) (Some "#ff0000")
      None None None None st3 in
  let '(b3, st5) := Paint.alloc_rect (Rect.mk 0 20 30 10) st4 in
  let '(r3, st6) :=
    Paint.TextPaintRecord 0 (Paint.params (Some "L") (Some b3)) (Some "Hi")
      None None None None None st5 in
  ([r1; r2; r3], st6).

Definition red_pair_layer : Layer.t :=
  (Paint.addPaintRecords layer_L red_pair.1 red_pair.2).1.

Lemma red_pair_exact : all_exact red_pair.2.
Proof.
  assert (map_to_list (Paint.rects red_pair.2) =
          [(2%nat, Rect.mk 0 20 30 10); (1%nat, Rect.mk 20 0 10 10);
           (0%nat, Rect.mk 0 0 10 10)]) as Hlist
    by (vm_compute; reflexivity).
  intros l b Hb. apply elem_of_map_to_list in Hb. rewrite Hlist in Hb.
  repeat (apply elem_of_cons in Hb as [[= -> ->]|Hb]);
    [| | | now apply elem_of_nil in Hb];
    unfold exact; cbn; lia.
Qed.

Lemma mergeSimilarRecordsInLayer_covers_integer_bounds_witness :
  exists layer' g' st',
    mergeSimilarRecordsInLayer red_pair_layer default_generator red_pair.2 =
      (layer', g', st', None) /\
    sublist (Layer.paintRecords layer') (Layer.paintRecords red_pair_layer) /\
    optimizedRecords (stats g') =
      optimizedRecords (stats default_generator) +
      (Z.of_nat (length (Layer.paintRecords red_pair_layer)) -
       Z.of_nat (length (Layer.paintRecords layer'))) /\
    grown red_pair.2 st' /\
    all_exact st' /\
    forall r, r ∈ Layer.paintRecords red_pair_layer ->
      covered red_pair.2 st' (Layer.paintRecords layer') r.
Proof.
  apply mergeSimilarRecordsInLayer_covers_integer_bounds; [|exact red_pair_exact].
  intros r Hin. vm_compute in Hin.
  repeat (apply elem_of_cons in Hin as [->|Hin]);
    [| | | now apply elem_of_nil in Hin];
    (eexists; eexists; split; vm_compute; reflexivity).
Defined.

(** The two rectangles become one that spans both and the gap between
    them; the text is kept. *)
Example merging_the_red_pair :
  let run := mergeSimilarRecordsInLayer red_pair_layer default_generator red_pair.2 in
  Layer.paintRecords red_pair_layer = [0; 1; 2]%nat /\
  Layer.paintRecords run.1.1.1 = [0; 2]%nat /\
  optimizedRecords (stats run.1.1.2) = 1 /\
  rect_of run.1.2 0%nat = Some (Rect.mk 0 0 30 10) /\
  run.2 = None.
Proof. vm_compute. repeat split. Qed.

End Record_merging.

(** ** Compositor: what [preprocessLayers] leaves in the layer tree *)

Section Compositor_preprocess.
Import Compositor.

Definition layers_sum (f : Layer.t -> Z) (cs : list Layer.t) : Z :=
  fold_right (fun c acc => f c + acc) 0 cs.

(** The layers of the tree that are flagged visible in the viewport. *)
Fixpoint visible_layers (layer : Layer.t) : Z :=
  match Layer.isVisibleInViewport layer with Some true => 1 | _ => 0 end +
  layers_sum visible_layers (Layer.children layer).

(** Every layer of the tree carries the absolute bounds that
    [calculateAbsoluteBounds] gives it under its parent, as the parent stands
    in the tree, and the flag that [isLayerVisibleInViewport] gives for
    them. *)
Fixpoint coherent (vp : Rect.t) (parent : option Layer.t) (layer : Layer.t) : Prop :=
  Layer.absoluteBounds layer = Some (calculateAbsoluteBounds parent layer) /\
  Layer.isVisibleInViewport layer = Some (isLayerVisibleInViewport vp layer) /\
  (fix all (cs : list Layer.t) : Prop :=
     match cs with
     | [] => True
     | c :: cs' => coherent vp (Some layer) c /\ all cs'
     end) (Layer.children layer).

Lemma coherent_eq vp parent layer :
  coherent vp parent layer <->
  Layer.absoluteBounds layer = Some (calculateAbsoluteBounds parent layer) /\
  Layer.isVisibleInViewport layer = Some (isLayerVisibleInViewport vp layer) /\
  Forall (coherent vp (Some layer)) (Layer.children layer).
Proof.
  destruct layer as [i z o cm tr b cl mb pr nr dr f sc ic bs lp ln cr ab iv cs].
  cbn [coherent Layer.children Layer.absoluteBounds Layer.isVisibleInViewport].
  set (layer := Layer.mk i z o cm tr b cl mb pr nr dr f sc ic bs lp ln cr ab iv cs).
  assert ((fix all (cs : list Layer.t) : Prop :=
             match cs with
             | [] => True
             | c :: cs' => coherent vp (Some layer) c /\ all cs'
             end) cs <-> Forall (coherent vp (Some layer)) cs) as ->; [|reflexivity].
  clearbody layer. induction cs as [|c cs' IH]; [now split|].
  rewrite Forall_cons. now rewrite IH.
Qed.

Lemma layers_sum_perm f cs cs' : cs ≡ₚ cs' -> layers_sum f cs = layers_sum f cs'.
Proof.
  unfold layers_sum. induction 1; cbn; lia.
Qed.

Lemma layers_sum_map f (g : Layer.t -> Layer.t) cs :
  layers_sum f (map g cs) = layers_sum (fun c => f (g c)) cs.
Proof. unfold layers_sum. induction cs as [|c cs IH]; cbn; [reflexivity | now rewrite IH]. Qed.

Lemma layers_sum_ext f g cs :
  Forall (fun c => f c = g c) cs -> layers_sum f cs = layers_sum g cs.
Proof. unfold layers_sum. induction 1 as [|c cs Hc _ IH]; cbn; [reflexivity | lia]. Qed.

Lemma sortLayerChildren_reorders layer :
  sortLayerChildren layer = LayerTreeCalculator.reorderLayers layer.
Proof.
  induction layer as [layer IH] using layer_ind.
  destruct layer as [i z o cm tr b cl mb pr nr dr f sc ic bs lp ln cr ab iv cs].
  cbn [sortLayerChildren LayerTreeCalculator.reorderLayers Layer.children] in *.
  assert (map sortLayerChildren cs = map LayerTreeCalculator.reorderLayers cs) as ->;
    [|reflexivity].
  induction IH as [|c cs' Hc _ IHcs]; cbn; [reflexivity|].
  now rewrite Hc, IHcs.
Qed.

Lemma sortLayerChildren_children layer :
  Layer.children (sortLayerChildren layer) ≡ₚ map sortLayerChildren (Layer.children layer).
Proof.
  destruct layer as [i z o cm tr b cl mb pr nr dr f sc ic bs lp ln cr ab iv cs].
  cbn [sortLayerChildren Layer.children Layer.set_children].
  apply sort_by_zIndex_perm.
Qed.

Lemma visible_layers_sorted layer :
  visible_layers (sortLayerChildren layer) = visible_layers layer.
Proof.
  induction layer as [layer IH] using layer_ind.
  destruct layer as [i z o cm tr b cl mb pr nr dr f sc ic bs lp ln cr ab iv cs].
  cbn [sortLayerChildren visible_layers Layer.children Layer.set_children
       Layer.isVisibleInViewport] in *.
  f_equal. rewrite (layers_sum_perm _ _ _ (sort_by_zIndex_perm _)), layers_sum_map.
  now apply layers_sum_ext.
Qed.

(** What [calculateAbsoluteBounds] and [isLayerVisibleInViewport] read
    of a layer. *)
Definition same_place (l l' : Layer.t) : Prop :=
  Layer.bounds l = Layer.bounds l' /\ Layer.transform l = Layer.transform l' /\
  Layer.absoluteBounds l = Layer.absoluteBounds l' /\ Layer.opacity l = Layer.opacity l'.

Lemma same_place_refl l : same_place l l.
Proof. now split_and!. Qed.

Lemma calculateAbsoluteBounds_same parent parent' l l' :
  match parent, parent' with
  | Some p, Some p' => same_place p p'
  | None, None => True
  | _, _ => False
  end ->
  same_place l l' ->
  calculateAbsoluteBounds parent l = calculateAbsoluteBounds parent' l'.
Proof.
  unfold same_place, calculateAbsoluteBounds.
  destruct parent as [p|], parent' as [p'|]; try contradiction.
  - intros (-> & _ & -> & _) (-> & -> & _ & _). reflexivity.
  - intros _ (-> & _). reflexivity.
Qed.

Lemma isLayerVisibleInViewport_same vp l l' :
  same_place l l' -> isLayerVisibleInViewport vp l = isLayerVisibleInViewport vp l'.
Proof.
  unfold same_place, isLayerVisibleInViewport. intros (-> & _ & -> & ->). reflexivity.
Qed.

Lemma same_place_sorted layer : same_place (sortLayerChildren layer) layer.
Proof. destruct layer. now split_and!. Qed.

Lemma coherent_parent vp p p' layer :
  same_place p p' -> coherent vp (Some p) layer -> coherent vp (Some p') layer.
Proof.
  intros Hp H. apply coherent_eq in H as (Ha & Hv & Hc). apply coherent_eq.
  split_and!; [|exact Hv | exact Hc].
  rewrite Ha. f_equal. apply calculateAbsoluteBounds_same; [exact Hp | apply same_place_refl].
Qed.

Lemma coherent_same vp parent l l' :
  same_place l' l ->
  Layer.absoluteBounds l' = Layer.absoluteBounds l ->
  Layer.isVisibleInViewport l' = Layer.isVisibleInViewport l ->
  Layer.absoluteBounds l = Some (calculateAbsoluteBounds parent l) ->
  Layer.isVisibleInViewport l = Some (isLayerVisibleInViewport vp l) ->
  Layer.absoluteBounds l' = Some (calculateAbsoluteBounds parent l') /\
  Layer.isVisibleInViewport l' = Some (isLayerVisibleInViewport vp l').
Proof.
  intros Hs -> -> -> ->. split; f_equal.
  - symmetry. apply calculateAbsoluteBounds_same; [|exact Hs].
    destruct parent; [apply same_place_refl | exact I].
  - symmetry. now apply isLayerVisibleInViewport_same.
Qed.

Lemma coherent_sorted vp layer :
  forall parent, coherent vp parent layer -> coherent vp parent (sortLayerChildren layer).
Proof.
  induction layer as [layer IH] using layer_ind. intros parent H.
  apply coherent_eq in H as (Ha & Hv & Hc). apply coherent_eq.
  pose proof (same_place_sorted layer) as Hs.
  destruct (coherent_same vp parent layer (sortLayerChildren layer) Hs) as [Ha' Hv'];
    try assumption; try (now destruct layer).
  split_and!; [exact Ha' | exact Hv' |].
  eapply Permutation_Forall; [symmetry; apply sortLayerChildren_children|].
  apply Forall_map. clear Ha Hv Ha' Hv'.
  induction IH as [|c cs Hcoh _ IHcs]; [constructor|].
  apply Forall_cons in Hc as [Hc1 Hc2]. constructor; [|now apply IHcs].
  apply (coherent_parent vp layer); [|now apply Hcoh].
  destruct Hs as (H1 & H2 & H3 & H4). now split_and!.
Qed.

Lemma fold_left_add (zs : list Z) (a : Z) :
  fold_left Z.add zs a = a + fold_right Z.add 0 zs.
Proof.
  revert a. induction zs as [|z zs IH]; intros a; cbn; [lia|]. rewrite IH. lia.
Qed.

Lemma fold_right_add_map (f : Layer.t -> Z) cs :
  fold_right Z.add 0 (map f cs) = layers_sum f cs.
Proof. unfold layers_sum. induction cs as [|c cs IH]; cbn; [reflexivity | now rewrite IH]. Qed.

(** The traversal from one layer down. *)
Lemma visit_coherent vp layer :
  forall parent,
  coherent vp parent (visit vp parent layer).1 /\
  ordered_tree (visit vp parent layer).1 /\
  (visit vp parent layer).2 = visible_layers (visit vp parent layer).1.
Proof.
  induction layer as [layer IH] using layer_ind. intros parent.
  destruct layer as [i z o cm tr b cl mb pr nr dr f sc ic bs lp ln cr ab iv cs].
  cbn [visit Layer.children Layer.id Layer.zIndex Layer.opacity Layer.compositingMode
       Layer.transform Layer.bounds Layer.clipRect Layer.masksToBounds
       Layer.paintRecords Layer.needsRepaint Layer.dirtyRegion Layer.isFixed
       Layer.isScrollContainer Layer.isComposited Layer.backingStore
       Layer.lastPaintTime Layer.layoutNode Layer.compositingReason
       Layer.absoluteBounds Layer.isVisibleInViewport fst snd] in *.
  set (layer := Layer.mk i z o cm tr b cl mb pr nr dr f sc ic bs lp ln cr ab iv cs).
  set (absolute := calculateAbsoluteBounds parent layer).
  set (placed := Layer.mk i z o cm tr b cl mb pr nr dr f sc ic bs lp ln cr
                   (Some absolute) iv cs).
  set (visible := isLayerVisibleInViewport vp placed).
  set (below := map (visit vp (Some placed)) cs).
  set (children' := Layer.sort_by_zIndex (map (fun r => sortLayerChildren r.1) below)).
  set (final := Layer.mk i z o cm tr b cl mb pr nr dr f sc ic bs lp ln cr
                  (Some absolute) (Some visible) children').
  assert (same_place placed final) as Hpf by now split_and!.
  assert (children' ≡ₚ map (fun r => sortLayerChildren r.1) below) as Hperm
    by apply sort_by_zIndex_perm.
  split_and!.
  - apply coherent_eq. cbn [Layer.absoluteBounds Layer.isVisibleInViewport Layer.children].
    split_and!.
    + now destruct parent.
    + reflexivity.
    + eapply Permutation_Forall; [symmetry; exact Hperm|].
      subst below. rewrite map_map. apply Forall_map.
      apply (Forall_impl _ _ _ IH). intros c Hc.
      apply (coherent_parent vp placed); [exact Hpf|].
      apply coherent_sorted. apply Hc.
  - apply ordered_tree_eq. cbn [Layer.children]. split; [apply sort_by_zIndex_ordered|].
    eapply Permutation_Forall; [symmetry; exact Hperm|].
    apply Forall_map, Forall_forall. intros r _.
    rewrite sortLayerChildren_reorders. apply reorderLayers_ordered.
  - unfold final. cbn [visible_layers Layer.isVisibleInViewport Layer.children].
    rewrite fold_left_add. f_equal.
    rewrite (layers_sum_perm _ _ _ Hperm). subst below. rewrite !map_map.
    rewrite (layers_sum_map visible_layers
               (fun x => sortLayerChildren (visit vp (Some placed) x).1)).
    rewrite fold_right_add_map. apply layers_sum_ext.
    apply (Forall_impl _ _ _ IH). intros c Hc.
    rewrite visible_layers_sorted. apply Hc.
Qed.

(** Every layer of the tree, reached through [ancestors], carries as
    [absoluteBounds] what its own [getAbsoluteBounds()] computes. *)
Fixpoint agrees (ancestors : list Layer.t) (layer : Layer.t) : Prop :=
  Layer.absoluteBounds layer = Some (Layer.getAbsoluteBounds ancestors layer) /\
  (fix all (cs : list Layer.t) : Prop :=
     match cs with
     | [] => True
     | c :: cs' => agrees (layer :: ancestors) c /\ all cs'
     end) (Layer.children layer).

Lemma agrees_eq ancestors layer :
  agrees ancestors layer <->
  Layer.absoluteBounds layer = Some (Layer.getAbsoluteBounds ancestors layer) /\
  Forall (agrees (layer :: ancestors)) (Layer.children layer).
Proof.
  destruct layer as [i z o cm tr b cl mb pr nr dr f sc ic bs lp ln cr ab iv cs].
  cbn [agrees Layer.children Layer.absoluteBounds].
  set (layer := Layer.mk i z o cm tr b cl mb pr nr dr f sc ic bs lp ln cr ab iv cs).
  assert ((fix all (cs : list Layer.t) : Prop :=
             match cs with
             | [] => True
             | c :: cs' => agrees (layer :: ancestors) c /\ all cs'
             end) cs <-> Forall (agrees (layer :: ancestors)) cs) as ->; [|reflexivity].
  clearbody layer. induction cs as [|c cs' IH]; [now split|].
  rewrite Forall_cons. now rewrite IH.
Qed.

Lemma coherent_agrees vp layer :
  forall ancestors,
  coherent vp (head ancestors) layer ->
  match ancestors with
  | [] => True
  | parent :: ancestors' =>
      Layer.absoluteBounds parent = Some (Layer.getAbsoluteBounds ancestors' parent)
  end ->
  agrees ancestors layer.
Proof.
  induction layer as [layer IH] using layer_ind. intros ancestors Hc Hp.
  apply coherent_eq in Hc as (Ha & _ & Hcs). apply agrees_eq.
  assert (Layer.absoluteBounds layer = Some (Layer.getAbsoluteBounds ancestors layer)) as Hl.
  { rewrite Ha. f_equal. destruct ancestors as [|parent ancestors']; [reflexivity|].
    cbn [head calculateAbsoluteBounds Layer.getAbsoluteBounds]. now rewrite Hp. }
  split; [exact Hl|].
  rewrite Forall_forall in IH, Hcs. apply Forall_forall. intros c Hin.
  apply (IH c Hin (layer :: ancestors)); [now apply Hcs | exact Hl].
Qed.

(** X22.  [preprocessLayers] on a layer tree completes, and in the tree
    it leaves as [currentLayerTree] every layer carries the absolute bounds
    that [calculateAbsoluteBounds] gives it under its parent and the
    visibility flag that [isLayerVisibleInViewport] gives for them, the
    children of every layer are in non-decreasing [zIndex] order, and
    [stats.layersComposited] has grown by the number of layers flagged
    visible (whether or not their ancestors are visible). *)
Theorem preprocessLayers_flags_and_counts_the_visible_layers
    {World : Type} (tree : LayerTree.t) (c : t (World := World)) :
  exists root',
    preprocessLayers (Some tree) c =
      (inl tt,
       mk (canvas_width c) (canvas_height c) (context c) (console c)
          (enableTiling c) (enableRasterization c)
          (Some (LayerTree.mk root' (LayerTree.allLayers tree) (LayerTree.nextLayerId tree)))
          (viewport c) (debugMode c)
          (mkStats (layersComposited (stats c) + visible_layers root')
                   (tilesCreated (stats c)) (tilesRasterized (stats c))
                   (compositorTime (stats c)) (drawCalls (stats c))
                   (memoryUsage (stats c)))
          (world c)) /\
    coherent (viewport c) None root' /\
    ordered_tree root'.
Proof.
  destruct (visit_coherent (viewport c) (LayerTree.root tree) None) as (Hc & Ho & Hn).
  exists (visit (viewport c) None (LayerTree.root tree)).1.
  split_and!; [|exact Hc | exact Ho].
  unfold preprocessLayers, modify. now rewrite Hn.
Qed.

(** X26.  The absolute bounds that [preprocessLayers] stores agree with
    the ones a layer computes itself: in the tree that the call leaves as
    [currentLayerTree], [layer.absoluteBounds] of every layer equals the
    result of [layer.getAbsoluteBounds()], which walks up the chain of
    parents. *)
Theorem preprocessLayers_stores_what_getAbsoluteBounds_computes
    {World : Type} (tree : LayerTree.t) (c : t (World := World)) :
  exists tree' c',
    preprocessLayers (Some tree) c = (inl tt, c') /\
    currentLayerTree c' = Some tree' /\
    agrees [] (LayerTree.root tree').
Proof.
  destruct (visit_coherent (viewport c) (LayerTree.root tree) None) as (Hc & _ & _).
  do 2 eexists. split; [reflexivity|]. cbn [currentLayerTree LayerTree.root].
  split; [reflexivity|].
  now apply (coherent_agrees (viewport c) _ []).
Qed.

End Compositor_preprocess.

(** ** TilingManager: the grid of a layer covers its bounds *)

Section Tiling_coverage.
Import TilingManager.

(** The point [(px, py)] lies in the rectangle [b]. *)
Definition inside (b : Rect.t) (px py : Z) : Prop :=
  Rect.x b <= px < Rect.x b + Rect.width b /\
  Rect.y b <= py < Rect.y b + Rect.height b.

(** The point lies in the grid cell of edge [size] with origin [c]. *)
Definition in_cell (size : Z) (c : Z * Z) (px py : Z) : Prop :=
  c.1 <= px < c.1 + size /\ c.2 <= py < c.2 + size.

Lemma steps_elem (step stop : Z) (fuel : nat) :
  0 < step ->
  forall v v', v' ∈ steps fuel v stop step <->
    exists k : nat, (k < fuel)%nat /\ v' = v + Z.of_nat k * step /\ v' < stop.
Proof.
  intros Hpos. induction fuel as [|fuel IH]; intros v v'; cbn [steps].
  - split; [intros H; now apply elem_of_nil in H | intros (k & Hk & _); lia].
  - destruct (v <? stop) eqn:E.
    + rewrite elem_of_cons, IH. split.
      * intros [->|(k & Hk & -> & Hlt)].
        -- exists 0%nat. split_and!; lia.
        -- exists (S k). split_and!; lia.
      * intros ([|k] & Hk & -> & Hlt); [left; lia|].
        right. exists k. split_and!; lia.
    + split; [intros H; now apply elem_of_nil in H|].
      intros (k & Hk & -> & Hlt). nia.
Qed.

Lemma for_range_elem (start stop step v : Z) :
  0 < step ->
  v ∈ for_range start stop step <->
  exists k : Z, 0 <= k /\ v = start + k * step /\ v < stop.
Proof.
  intros Hpos. unfold for_range. rewrite (steps_elem step stop _ Hpos). split.
  - intros (k & _ & -> & Hlt). exists (Z.of_nat k). split_and!; lia.
  - intros (k & Hk & -> & Hlt). exists (Z.to_nat k). split_and!; nia.
Qed.

Lemma steps_NoDup (step stop : Z) (fuel : nat) :
  0 < step -> forall v, NoDup (steps fuel v stop step).
Proof.
  intros Hpos. induction fuel as [|fuel IH]; intros v; cbn [steps]; [constructor|].
  destruct (v <? stop); [|constructor].
  constructor; [|apply IH].
  rewrite (steps_elem step stop fuel Hpos). intros (k & _ & Hv & _). nia.
Qed.

Lemma grid_elem layer size c :
  c ∈ grid layer size <->
  c.1 ∈ for_range (Rect.x (effective_bounds layer) `div` size * size)
          (ceil_div (Rect.x (effective_bounds layer) +
                     Rect.width (effective_bounds layer)) size * size) size /\
  c.2 ∈ for_range (Rect.y (effective_bounds layer) `div` size * size)
          (ceil_div (Rect.y (effective_bounds layer) +
                     Rect.height (effective_bounds layer)) size * size) size.
Proof.
  unfold grid. cbv zeta. rewrite !list_elem_of_In, in_concat. split.
  - intros (row & Hrow & Hin). apply in_map_iff in Hrow as (y & <- & Hy).
    apply in_map_iff in Hin as (x & <- & Hx). now split.
  - intros [Hx Hy]. eexists. split.
    + apply in_map_iff. exists c.2. split; [reflexivity | exact Hy].
    + apply in_map_iff. exists c.1. split; [now destruct c | exact Hx].
Qed.

Lemma grid_NoDup layer size : 0 < size -> NoDup (grid layer size).
Proof.
  intros Hpos. unfold grid. cbv zeta. unfold for_range.
  match goal with
  | |- NoDup (concat (map (fun y => map _ ?xs) ?ys)) =>
      pose proof (steps_NoDup size _ _ Hpos _ : NoDup xs) as Hxs;
      pose proof (steps_NoDup size _ _ Hpos _ : NoDup ys) as Hys;
      generalize dependent ys; generalize dependent xs
  end.
  intros xs Hxs ys Hys. induction Hys as [|y ys Hy Hys IH]; cbn; [constructor|].
  apply NoDup_app. split_and!; [|  | exact IH].
  - apply NoDup_fmap_2; [|exact Hxs]. intros x x' [= ->]. reflexivity.
  - intros c Hc Hc'. apply list_elem_of_In, in_map_iff in Hc as (x & <- & _).
    apply list_elem_of_In, in_concat in Hc' as (row & Hrow & Hin).
    apply in_map_iff in Hrow as (y' & <- & Hy').
    apply in_map_iff in Hin as (x' & [= _ ->] & _).
    apply Hy. now apply list_elem_of_In.
Qed.

Lemma ceil_div_above (a size : Z) : 0 < size -> a <= ceil_div a size * size.
Proof.
  intros Hpos. unfold ceil_div.
  pose proof (Z.mul_div_le (- a) size Hpos). nia.
Qed.

(** One coordinate: the cell of a point between the two ends. *)
Lemma cell_of_point (x w size p : Z) :
  0 < size -> x <= p < x + w ->
  p `div` size * size ∈ for_range (x `div` size * size) (ceil_div (x + w) size * size) size /\
  p `div` size * size <= p < p `div` size * size + size.
Proof.
  intros Hpos Hp.
  pose proof (Z.mul_div_le p size Hpos) as Hle.
  pose proof (Z.mul_succ_div_gt p size Hpos) as Hgt.
  split; [|lia].
  apply for_range_elem; [exact Hpos|].
  exists (p `div` size - x `div` size). split_and!.
  - pose proof (Z.div_le_mono x p size Hpos (proj1 Hp)). lia.
  - lia.
  - pose proof (ceil_div_above (x + w) size Hpos). lia.
Qed.

(** Two aligned cells that share a point are the same cell. *)
Lemma aligned_cells_agree (size a b p : Z) :
  0 < size -> (size | a) -> (size | b) ->
  a <= p < a + size -> b <= p < b + size -> a = b.
Proof. intros Hpos [k ->] [k' ->] Ha Hb. f_equal. nia. Qed.

Lemma grid_distinct_keys layer size :
  0 < size -> distinct_keys layer size (grid layer size).
Proof.
  intros Hpos. pose proof (grid_NoDup layer size Hpos) as Hnd.
  pose proof (grid_divide layer size) as Hdiv.
  induction Hnd as [|c cells Hc Hnd IH]; cbn [distinct_keys]; [exact I|].
  apply Forall_cons in Hdiv as [[Hc1 Hc2] Hdiv].
  split; [|now apply IH].
  apply Forall_forall. intros c' Hin Hkey.
  apply tile_key_inj in Hkey as (_ & Hx & Hy).
  destruct (proj1 (Forall_forall _ _) Hdiv c' Hin) as [Hc1' Hc2'].
  apply Hc. replace c with c'; [exact Hin|].
  destruct c as [x y], c' as [x' y']. cbn [fst snd] in *.
  rewrite (divide_cell size x Hpos Hc1), (divide_cell size y Hpos Hc2),
          (divide_cell size x' Hpos Hc1'), (divide_cell size y' Hpos Hc2').
  now rewrite Hx, Hy.
Qed.

Lemma origins_later m m' ls :
  heap_later (heap m) (heap m') ->
  forall cells, map (origin_of m) ls = map Some cells ->
                map (origin_of m') ls = map Some cells.
Proof.
  intros Hlater. induction ls as [|l ls IH]; intros [|c cells] H; try discriminate;
    [reflexivity|].
  cbn [map] in *. injection H as Ho Hos. f_equal; [|now apply IH].
  now apply (origin_later m).
Qed.

(** X23.  For a positive tile size and a manager whose bookkeeping is
    consistent and whose tiles sit at the cells their keys name,
    [generateTilesForLayer] returns one tile for each cell of the grid of
    the layer, row by row, with its origin at the cell; the cells are at
    multiples of the tile size, no cell occurs twice, and every point of the
    bounds of the layer (its absolute bounds when it has them) lies in
    exactly one cell of the grid. *)
Theorem generateTilesForLayer_covers_the_bounds
    (now : Z) (layer : Layer.t) (viewport : Rect.t) (m : t) :
  0 < tileSize m -> consistent m -> aligned m ->
  let r := generateTilesForLayer now layer viewport m in
  map (origin_of r.2) r.1 = map Some (grid layer (tileSize m)) /\
  NoDup (grid layer (tileSize m)) /\
  (forall c, c ∈ grid layer (tileSize m) -> (tileSize m | c.1) /\ (tileSize m | c.2)) /\
  forall px py, inside (effective_bounds layer) px py ->
    exists c, c ∈ grid layer (tileSize m) /\ in_cell (tileSize m) c px py /\
      forall c', c' ∈ grid layer (tileSize m) -> in_cell (tileSize m) c' px py -> c' = c.
Proof.
  intros Hpos Hm Ha r.
  pose proof (grid_divide layer (tileSize m)) as Hdiv.
  rewrite Forall_forall in Hdiv.
  split_and!.
  - assert (Forall (cell_ok layer m) (grid layer (tileSize m))) as Hok.
    { apply Forall_forall. intros [x y] Hin l Hk. unfold requested_key in Hk.
      destruct (Ha _ _ _ _ Hk) as (tile & Hl & Hx & Hy).
      destruct (Hdiv _ Hin) as [Hdx Hdy]. cbn [fst snd] in *.
      exists tile. split; [exact Hl|].
      now rewrite Hx, Hy, <- !divide_cell. }
    destruct (generate_cells_origins now layer viewport (grid layer (tileSize m)) m Hm
                (grid_distinct_keys layer (tileSize m) Hpos) Hok) as (Hos & _).
    subst r. unfold generateTilesForLayer.
    destruct (generate_cells now layer viewport (grid layer (tileSize m)) m) as [ls m1].
    cbn [fst snd] in *.
    exact (origins_later m1 _ ls (heap_later_cleanupUnusedTiles layer m1) _ Hos).
  - now apply grid_NoDup.
  - exact Hdiv.
  - intros px py [Hx Hy].
    destruct (cell_of_point _ _ (tileSize m) px Hpos Hx) as [Hcx Hpx].
    destruct (cell_of_point _ _ (tileSize m) py Hpos Hy) as [Hcy Hpy].
    exists (px `div` tileSize m * tileSize m, py `div` tileSize m * tileSize m).
    split_and!.
    + apply grid_elem. now split.
    + now split.
    + intros [cx cy] Hin [Hcx' Hcy']. cbn [fst snd] in *.
      destruct (Hdiv _ Hin) as [Hdx Hdy]. cbn [fst snd] in *.
      f_equal.
      * apply (aligned_cells_agree (tileSize m) _ _ px); try assumption; try lia.
        apply Z.divide_factor_r.
      * apply (aligned_cells_agree (tileSize m) _ _ py); try assumption; try lia.
        apply Z.divide_factor_r.
Qed.

(** A layer that starts left of the origin, on a grid of edge 128. *)
Definition offset_layer : Layer.t :=
  Layer.new ""
    (Layer.Build_Options (Some "offset") None None None None
       (Some (Rect.mk (-100) 50 300 200)) None None None None None).

Lemma generateTilesForLayer_covers_the_bounds_witness :
  map (origin_of (generateTilesForLayer 0 offset_layer (Rect.mk 0 0 800 600)
                    (new (Some 128) None None)).2)
      (generateTilesForLayer 0 offset_layer (Rect.mk 0 0 800 600)
         (new (Some 128) None None)).1 =
  map Some (grid offset_layer 128).
Proof.
  refine (proj1 (generateTilesForLayer_covers_the_bounds 0 offset_layer
                   (Rect.mk 0 0 800 600) (new (Some 128) None None) eq_refl _ _)).
  - apply consistent_new.
  - intros layerId tileX tileY l Hk. cbn in Hk. now rewrite lookup_empty in Hk.
Defined.

(** Its grid has three columns, from -128 to 128, and two rows. *)
Example grid_of_the_offset_layer :
  grid offset_layer 128 =
  [(-128, 0); (0, 0); (128, 0); (-128, 128); (0, 128); (128, 128)].
Proof. vm_compute. reflexivity. Qed.

End Tiling_coverage.

(** ** PaintContext: merged dirty regions *)

Section Dirty_regions.
Import PaintContext.

Lemma mergeRectangles_covers a b :
  covers (mergeRectangles a b) a /\ covers (mergeRectangles a b) b.
Proof. unfold covers, mergeRectangles. cbn. lia. Qed.

Lemma rectanglesOverlap_covers area r m :
  covers m r -> rectanglesOverlap area r = true -> rectanglesOverlap area m = true.
Proof.
  unfold covers, rectanglesOverlap. intros (H1 & H2 & H3 & H4).
  rewrite !negb_true_iff, !orb_false_iff, !Z.ltb_ge. lia.
Qed.

(** What the inner loop leaves: the grown entry contains the entry it
    started from, and every entry it passed is kept or contained in the grown
    entry. *)
Lemma absorb_covers rest :
  forall current,
  covers (absorb current rest).1 current /\
  (length (absorb current rest).2 <= length rest)%nat /\
  forall r, r ∈ rest ->
    r ∈ (absorb current rest).2 \/ covers (absorb current rest).1 r.
Proof.
  induction rest as [|r0 rest IH]; intros current; cbn [absorb].
  - split_and!; [apply covers_refl | reflexivity |].
    intros r Hr. now apply elem_of_nil in Hr.
  - destruct (rectanglesOverlap current r0).
    + destruct (IH (mergeRectangles current r0)) as (Hc & Hl & Hr).
      destruct (mergeRectangles_covers current r0) as [Hm1 Hm2].
      split_and!.
      * exact (covers_trans _ _ _ Hc Hm1).
      * cbn [length]. lia.
      * intros r Hin. apply elem_of_cons in Hin as [->|Hin]; [|now apply Hr].
        right. exact (covers_trans _ _ _ Hc Hm2).
    + destruct (IH current) as (Hc & Hl & Hr).
      destruct (absorb current rest) as [c kept]. cbn [fst snd length] in *.
      split_and!; [exact Hc | lia |].
      intros r Hin. apply elem_of_cons in Hin as [->|Hin]; [left; now left|].
      destruct (Hr r Hin) as [Hk|Hk]; [left; now right | now right].
Qed.

Lemma merge_from_covers fuel :
  forall regions, (length regions <= fuel)%nat ->
  (length (merge_from fuel regions) <= length regions)%nat /\
  forall r, r ∈ regions -> exists m, m ∈ merge_from fuel regions /\ covers m r.
Proof.
  induction fuel as [|fuel IH]; intros regions Hfuel.
  - destruct regions; [|cbn in Hfuel; lia]. split; [reflexivity|].
    intros r Hr. now apply elem_of_nil in Hr.
  - destruct regions as [|r0 rest]; cbn [merge_from].
    + split; [reflexivity|]. intros r Hr. now apply elem_of_nil in Hr.
    + destruct (absorb_covers rest r0) as (Hc & Hl & Hr).
      destruct (absorb r0 rest) as [c rest']. cbn [fst snd length] in *.
      destruct (IH rest') as (Hl' & Hcov); [lia|].
      split; [lia|].
      intros r Hin. apply elem_of_cons in Hin as [->|Hin].
      * exists c. split; [now left | exact Hc].
      * destruct (Hr r Hin) as [Hk|Hk].
        -- destruct (Hcov r Hk) as (m & Hm & Hmr). exists m. split; [now right | exact Hmr].
        -- exists c. split; [now left | exact Hk].
Qed.

(** More turns than entries change nothing. *)
Lemma merge_from_fuel fuel :
  forall regions, (length regions <= fuel)%nat ->
  merge_from (S fuel) regions = merge_from fuel regions.
Proof.
  induction fuel as [|fuel IH]; intros regions Hfuel.
  - destruct regions; [reflexivity | cbn in Hfuel; lia].
  - destruct regions as [|r0 rest]; [reflexivity|].
    cbn [merge_from]. pose proof (absorb_covers rest r0) as (_ & Hl & _).
    destruct (absorb r0 rest) as [c rest']. cbn [fst snd length] in *.
    f_equal. change (merge_from (S fuel) rest' = merge_from fuel rest').
    apply IH. lia.
Qed.

Lemma mergeRectangles_exact a b : exact a -> exact b -> exact (mergeRectangles a b).
Proof. unfold exact, mergeRectangles. cbn. generalize (2 ^ 52). lia. Qed.

Lemma absorb_exact rest :
  forall current, exact current -> Forall exact rest ->
    exact (absorb current rest).1 /\ Forall exact (absorb current rest).2.
Proof.
  induction rest as [|r0 rest IH]; intros current Hc Hrest; cbn [absorb].
  - now split.
  - apply Forall_cons in Hrest as [Hr0 Hrest].
    destruct (rectanglesOverlap current r0).
    + apply IH; [now apply mergeRectangles_exact | exact Hrest].
    + destruct (IH current Hc Hrest) as [H1 H2].
      destruct (absorb current rest) as [c kept]. cbn [fst snd] in *.
      split; [exact H1 | now constructor].
Qed.

Lemma merge_from_exact fuel :
  forall regions, Forall exact regions -> Forall exact (merge_from fuel regions).
Proof.
  induction fuel as [|fuel IH]; intros regions H; [now destruct regions|].
  destruct regions as [|r0 rest]; [exact H|]. cbn [merge_from].
  apply Forall_cons in H as [H0 Hrest].
  destruct (absorb_exact rest r0 H0 Hrest) as [H1 H2].
  destruct (absorb r0 rest) as [c rest']. cbn [fst snd] in *.
  constructor; [exact H1 | now apply IH].
Qed.

(** X24.  Dirty regions with integer edges of magnitude at most
    [2 ^ 52], on which the arithmetic of the code rounds nothing.
    [getMergedDirtyRegions] loses no dirty area of such regions: every dirty
    region lies within one of the merged regions, so that an area with such
    edges which overlaps a dirty region overlaps a merged region; the merged
    regions have edges of the same kind, are at most as many as the dirty
    regions, and there are none only when there are no dirty regions. *)
Theorem getMergedDirtyRegions_covers_integer_regions (p : t) :
  Forall exact (dirtyRegions p) ->
  (forall r, r ∈ dirtyRegions p ->
     exists m, m ∈ getMergedDirtyRegions p /\ covers m r) /\
  (forall area r, exact area -> r ∈ dirtyRegions p ->
     rectanglesOverlap area r = true ->
     exists m, m ∈ getMergedDirtyRegions p /\ rectanglesOverlap area m = true) /\
  Forall exact (getMergedDirtyRegions p) /\
  (length (getMergedDirtyRegions p) <= length (dirtyRegions p))%nat /\
  (getMergedDirtyRegions p = [] <-> dirtyRegions p = []).
Proof.
  intros Hexact. unfold getMergedDirtyRegions.
  destruct (dirtyRegions p) as [|r0 rest] eqn:E.
  - split_and!; try easy; intros; exfalso; eapply not_elem_of_nil; eassumption.
  - destruct (merge_from_covers (length (r0 :: rest)) (r0 :: rest)) as (Hl & Hcov);
      [reflexivity|].
    split_and!.
    + exact Hcov.
    + intros area r _ Hr Ho. destruct (Hcov r Hr) as (m & Hm & Hmr).
      exists m. split; [exact Hm | exact (rectanglesOverlap_covers area r m Hmr Ho)].
    + now apply merge_from_exact.
    + exact Hl.
    + split; [|discriminate]. intros Hnil.
      destruct (Hcov r0) as (m & Hm & _); [now left|].
      rewrite Hnil in Hm. now apply elem_of_nil in Hm.
Qed.

(** Three dirty regions in a row, the third bridging the first two. *)
Definition three_regions : t :=
  mk (Rect.mk 0 0 800 600)
     [Rect.mk 0 0 10 10; Rect.mk 30 0 10 10; Rect.mk 5 0 30 10].

Lemma getMergedDirtyRegions_covers_integer_regions_witness :
  (forall r, r ∈ dirtyRegions three_regions ->
     exists m, m ∈ getMergedDirtyRegions three_regions /\ covers m r) /\
  (forall area r, exact area -> r ∈ dirtyRegions three_regions ->
     rectanglesOverlap area r = true ->
     exists m, m ∈ getMergedDirtyRegions three_regions /\
               rectanglesOverlap area m = true) /\
  Forall exact (getMergedDirtyRegions three_regions) /\
  (length (getMergedDirtyRegions three_regions) <= length (dirtyRegions three_regions))%nat /\
  (getMergedDirtyRegions three_regions = [] <-> dirtyRegions three_regions = []).
Proof.
  apply (getMergedDirtyRegions_covers_integer_regions three_regions).
  repeat constructor; cbn; lia.
Defined.

(** The merged regions may still overlap one another: the first region
    does not reach the second, grows over the third, and is not compared with
    the second again. *)
Example merged_regions_may_overlap :
  getMergedDirtyRegions
    (mk (Rect.mk 0 0 800 600)
        [Rect.mk 0 0 10 10; Rect.mk 30 0 10 10; Rect.mk 5 0 30 10]) =
  [Rect.mk 0 0 35 10; Rect.mk 30 0 10 10] /\
  rectanglesOverlap (Rect.mk 0 0 35 10) (Rect.mk 30 0 10 10) = true.
Proof. vm_compute. split; reflexivity. Qed.

End Dirty_regions.

(** ** RenderEngine: the quads of the GPU stage *)

Section GPU_stage.
Import GPU RenderEngine.

(** The quad that every paint record becomes: a black square of edge
    100 at the origin, without a texture, in the default render state. *)
Record stock (q : DrawQuad) : Prop := {
  stock_x : px (position q) = 0;
  stock_y : py (position q) = 0;
  stock_size : size q = Build_Size 100 100;
  stock_color : color q = "rgba(0, 0, 0, 1)";
  stock_state : quad_state q = ("default", None, "source-over");
  stock_visible : visible q = true;
  stock_needsUpdate : needsUpdate q = true
}.

(** The simulator while the stage fills it: [n] quads, all of them
    stock quads, and nothing queued. *)
Record stocked (g : t) (n : Z) : Prop := {
  stocked_quads : forall l, l ∈ drawQuads g -> exists q, heap g !! l = Some q /\ stock q;
  stocked_idle : idle g;
  stocked_count : n = Z.of_nat (length (drawQuads g))
}.

Lemma stock_converted paintRecord layer :
  stock (new_DrawQuad (convertPaintRecordToDrawQuad paintRecord layer)).
Proof. now split. Qed.

Lemma stocked_cleanup g : stocked (cleanup g) 0.
Proof.
  split; cbn; [|now split | reflexivity].
  intros l Hl. now apply elem_of_nil in Hl.
Qed.

Lemma stocked_createDrawQuad paintRecord layer g n :
  stocked g n ->
  stocked (createDrawQuad (convertPaintRecordToDrawQuad paintRecord layer) g).2 (n + 1).
Proof.
  intros [Hq Hi Hn]. unfold createDrawQuad. cbn [snd].
  set (l := fresh (dom (heap g))).
  assert (heap g !! l = None) as Hl by (apply not_elem_of_dom, is_fresh).
  split; cbn [drawQuads heap].
  - intros l' Hl'. apply elem_of_app in Hl' as [Hl'|Hl'].
    + destruct (Hq l' Hl') as (q & Hq' & Hs). exists q. split; [|exact Hs].
      rewrite lookup_insert_ne by congruence. exact Hq'.
    + apply list_elem_of_singleton in Hl' as ->. eexists. split; [apply lookup_insert_eq|].
      apply stock_converted.
  - exact Hi.
  - rewrite length_app. cbn. lia.
Qed.

Lemma convert_records_stocked st layer rs :
  forall g n,
  stocked g n ->
  (forall r, r ∈ rs -> is_Some (Paint.records st !! r)) ->
  exists g',
    convert_records st layer rs g n = (g', n + Z.of_nat (length rs), None) /\
    stocked g' (n + Z.of_nat (length rs)) /\
    enableBatching g' = enableBatching g.
Proof.
  induction rs as [|r rs IH]; intros g n Hg Hrs; cbn [convert_records length].
  - exists g. rewrite Z.add_0_r. now split_and!.
  - destruct (Hrs r) as [paintRecord Hr]; [now left|]. rewrite Hr.
    destruct (IH _ (n + 1) (stocked_createDrawQuad paintRecord layer g n Hg))
      as (g' & Hrun & Hg' & Hb); [intros r' Hr'; apply Hrs; now right|].
    exists g'. replace (n + Z.of_nat (S (length rs))) with (n + 1 + Z.of_nat (length rs))
      by lia.
    now split_and!.
Qed.

Lemma convert_layers_stocked st layers :
  forall g n,
  stocked g n ->
  (forall layer r, layer ∈ layers -> r ∈ Layer.paintRecords layer ->
     is_Some (Paint.records st !! r)) ->
  exists g',
    convert_layers st layers g n =
      (g', n + Z.of_nat (length (flat_map Layer.paintRecords layers)), None) /\
    stocked g' (n + Z.of_nat (length (flat_map Layer.paintRecords layers))) /\
    enableBatching g' = enableBatching g.
Proof.
  induction layers as [|layer layers IH]; intros g n Hg Hrs;
    cbn [convert_layers flat_map length].
  - exists g. rewrite Z.add_0_r. now split_and!.
  - destruct (convert_records_stocked st layer (Layer.paintRecords layer) g n Hg)
      as (g1 & Hrun & Hg1 & Hb1); [intros r Hr; apply (Hrs layer); [now left | exact Hr]|].
    rewrite Hrun.
    destruct (IH g1 _ Hg1) as (g' & Hrun' & Hg' & Hb');
      [intros l r Hl Hr; apply (Hrs l); [now right | exact Hr]|].
    exists g'. rewrite length_app, Nat2Z.inj_add, Z.add_assoc.
    split_and!; [exact Hrun' | exact Hg' | congruence].
Qed.

(** With batching on, quads of one render state leave the command buffer
    empty until the batch is flushed. *)
Lemma one_state_one_batch viewport (std : string * option nat * string) ls :
  forall g,
  enableBatching g = true ->
  commandBuffer g = [] ->
  quads (currentBatch g) = [] \/ batch_state (currentBatch g) = std ->
  (forall l q, l ∈ ls -> heap g !! l = Some q -> quad_state q = std) ->
  commandBuffer
    (fold_left
       (fun g' l =>
          match heap g' !! l with
          | Some quad =>
              if needsUpdate quad && intersectsViewport quad viewport
              then submitDrawQuad l g' else g'
          | None => g'
          end) ls g) = [].
Proof.
  induction ls as [|l ls IH]; intros g Hb Hc Hs Hq; [exact Hc|].
  cbn [fold_left].
  assert (forall l' q, l' ∈ ls -> heap g !! l' = Some q -> quad_state q = std) as Hq'
    by (intros l' q Hl'; apply Hq; now right).
  destruct (heap g !! l) as [quad|] eqn:Hl; [|now apply IH].
  destruct (needsUpdate quad && intersectsViewport quad viewport); [|now apply IH].
  pose proof (Hq l quad ltac:(now left) Hl) as Hstd.
  unfold submitDrawQuad. rewrite Hl.
  destruct (visible quad); cbn [negb]; [|now apply IH].
  rewrite Hb. cbn [andb].
  destruct (canBatchWithCurrent g quad) eqn:Hcan.
  - apply IH; cbn; try assumption.
    right. destruct (quads (currentBatch g)) as [|q0 qs] eqn:Hquads.
    + unfold canBatchWithCurrent in Hcan. now rewrite Hquads in Hcan.
    + apply canBatchWithCurrent_spec in Hcan; [|now rewrite Hquads].
      unfold batch_state in *. cbn. congruence.
  - assert (quads (currentBatch g) = []) as Hempty.
    { destruct Hs as [Hs|Hs]; [exact Hs|].
      destruct (quads (currentBatch g)) as [|q0 qs] eqn:Hquads; [reflexivity|].
      assert (canBatchWithCurrent g quad = true) as Hyes
        by (apply canBatchWithCurrent_spec; [now rewrite Hquads | congruence]).
      congruence. }
    assert (flushCurrentBatch g = g) as -> by (unfold flushCurrentBatch; now rewrite Hempty).
    apply IH; cbn; try assumption. right. exact Hstd.
Qed.

Lemma stocked_one_command viewport g n :
  stocked g n -> enableBatching g = true ->
  (length (frame_commands viewport g) <= 1)%nat.
Proof.
  intros [Hq [Hc Hb] _] Hbatching. unfold frame_commands, submit_all.
  match goal with
  | |- context [flushCurrentBatch ?g0] =>
      assert (commandBuffer g0 = []) as Hnone
  end.
  { apply (one_state_one_batch viewport ("default", None, "source-over")); cbn;
      try assumption; [now left|].
    intros l q Hl Hlq. destruct (Hq l Hl) as (q' & Hq' & Hs).
    assert (q' = q) as -> by congruence. apply Hs. }
  unfold flushCurrentBatch.
  match goal with
  | |- context [quads (currentBatch ?g0)] => destruct (quads (currentBatch g0))
  end; cbn [commandBuffer]; rewrite Hnone; cbn; lia.
Qed.

(** X25.  In the GPU stage every paint record of the layer tree becomes
    one quad, and the quad takes nothing from the record but its transform
    and its clip rectangle: it is a black square of edge 100 at the origin,
    without a texture, in the default render state, visible and in need of an
    update.  [drawQuadsCreated] is the number of paint records of the tree,
    whatever the simulator held before.  With batching on, the frame that
    follows draws all its quads in at most one draw call. *)
Theorem every_paint_record_becomes_the_same_quad
    (now0 now1 : Z) (layerTree : LayerTree.t) (st : Paint.Store) (g : t) :
  (forall layer r, layer ∈ traversal (LayerTree.root layerTree) ->
     r ∈ Layer.paintRecords layer -> is_Some (Paint.records st !! r)) ->
  exists g1 gpuStats,
    rasterizeLayerTree now0 now1 layerTree st g = (g1, inl gpuStats) /\
    drawQuadsCreated gpuStats =
      Z.of_nat (length (flat_map Layer.paintRecords (traversal (LayerTree.root layerTree)))) /\
    length (drawQuads g1) =
      length (flat_map Layer.paintRecords (traversal (LayerTree.root layerTree))) /\
    (forall l, l ∈ drawQuads g1 -> exists q, heap g1 !! l = Some q /\ stock q) /\
    idle g1 /\
    (enableBatching g = true ->
     forall t0 t1 t viewport, totalDrawCalls (renderFrame t0 t1 t viewport g1).1 <= 1).
Proof.
  intros Hrs. unfold rasterizeLayerTree.
  destruct (convert_layers_stocked st (traversal (LayerTree.root layerTree))
              (cleanup g) 0 (stocked_cleanup g) Hrs) as (g1 & Hrun & Hg1 & Hb).
  rewrite Hrun. do 2 eexists. split; [reflexivity|]. cbn [drawQuadsCreated].
  pose proof Hg1 as [Hq Hi Hn].
  split_and!; [lia | lia | exact Hq | exact Hi |].
  intros Hbatching t0 t1 t viewport.
  destruct (renderFrame_run t0 t1 t viewport g1 Hi)
    as (k & Hk & _ & _ & Htally & _ & _ & _ & _ & Hs).
  rewrite Hs. apply tally_eq in Htally as (-> & _).
  pose proof (stocked_one_command viewport g1 _ Hg1) as Hone.
  rewrite <- Hk in Hone. cbn in Hb. rewrite Hb in Hone. specialize (Hone Hbatching). lia.
Qed.

(** A tree whose root holds the two red rectangles and the text. *)
Definition red_pair_tree : LayerTree.t :=
  LayerTree.mk red_pair_layer [Layer.id red_pair_layer] 1.

Lemma every_paint_record_becomes_the_same_quad_witness :
  exists g1 gpuStats,
    rasterizeLayerTree 0 1 red_pair_tree red_pair.2 (new None) = (g1, inl gpuStats) /\
    drawQuadsCreated gpuStats =
      Z.of_nat (length (flat_map Layer.paintRecords
                          (traversal (LayerTree.root red_pair_tree)))) /\
    length (drawQuads g1) =
      length (flat_map Layer.paintRecords (traversal (LayerTree.root red_pair_tree))) /\
    (forall l, l ∈ drawQuads g1 -> exists q, heap g1 !! l = Some q /\ stock q) /\
    idle g1 /\
    (enableBatching (new None) = true ->
     forall t0 t1 t viewport, totalDrawCalls (renderFrame t0 t1 t viewport g1).1 <= 1).
Proof.
  apply every_paint_record_becomes_the_same_quad.
  intros layer r Hl Hr. cbn in Hl. apply list_elem_of_singleton in Hl. subst layer.
  vm_compute in Hr.
  repeat (apply elem_of_cons in Hr as [->|Hr]);
    [| | | now apply elem_of_nil in Hr];
    (eexists; vm_compute; reflexivity).
Defined.

(** The frame for the two rectangles and the text: three quads in one
    draw call, each drawn as the same black square. *)
Example frame_of_the_red_pair :
  let g1 := (rasterizeLayerTree 0 1 red_pair_tree red_pair.2 (new None)).1 in
  let frame := renderFrame 0 1 0 (Rect.mk 0 0 800 600) g1 in
  totalQuads frame.1 = 3 /\ totalDrawCalls frame.1 = 1 /\
  List.filter
    (fun op => match op with Canvas.setFillStyle _ | Canvas.fillRect _ _ _ _ => true
                        | _ => false end)
    (context frame.2) =
  [Canvas.setFillStyle "rgba(0, 0, 0, 1)"; Canvas.fillRect 0 0 100 100;
   Canvas.setFillStyle "rgba(0, 0, 0, 1)"; Canvas.fillRect 0 0 100 100;
   Canvas.setFillStyle "rgba(0, 0, 0, 1)"; Canvas.fillRect 0 0 100 100].
Proof. vm_compute. repeat split. Qed.

End GPU_stage.

(** ** PaintRecordGenerator: one pass over a layer tree *)

Section Generator_pass.
Import PaintRecordGenerator.

(** The record at [r] exists, is visible and has a positive opacity:
    culling keeps it. *)
Definition fine (st : Paint.Store) (r : loc) : Prop :=
  exists rec, Paint.records st !! r = Some rec /\
              Paint.visible rec = true /\ JS.gt_q (Paint.opacity rec) 0%Q = true.

(** The record at [r] is not a filled rectangle without a stroke. *)
Definition unmergeable (st : Paint.Store) (r : loc) : Prop :=
  exists rec, Paint.records st !! r = Some rec /\ mergeable rec = false.

(** Records that culling and merging leave alone: all of them are fine,
    and none but the first can be merged. *)
Definition tidy (st : Paint.Store) (rs : list loc) : Prop :=
  (forall r, r ∈ rs -> fine st r) /\
  exists first tail, rs = option_list first ++ tail /\
                     forall r, r ∈ tail -> unmergeable st r.

(** From [st] to [st'] the records have kept their class, their fields,
    their visibility and their opacity. *)
Definition stable (st st' : Paint.Store) : Prop :=
  forall r rec, Paint.records st !! r = Some rec ->
    exists rec', Paint.records st' !! r = Some rec' /\
      Paint.type rec' = Paint.type rec /\ Paint.kind rec' = Paint.kind rec /\
      Paint.visible rec' = Paint.visible rec /\ Paint.opacity rec' = Paint.opacity rec.

Lemma stable_refl st : stable st st.
Proof. intros r rec Hr. now exists rec. Qed.

Lemma stable_trans st1 st2 st3 : stable st1 st2 -> stable st2 st3 -> stable st1 st3.
Proof.
  intros H12 H23 r rec Hr. destruct (H12 r rec Hr) as (rec2 & Hr2 & E1 & E2 & E3 & E4).
  destruct (H23 r rec2 Hr2) as (rec3 & Hr3 & F1 & F2 & F3 & F4).
  exists rec3. split_and!; congruence.
Qed.

Lemma fine_stable st st' r : stable st st' -> fine st r -> fine st' r.
Proof.
  intros Hs (rec & Hr & Hv & Ho). destruct (Hs r rec Hr) as (rec' & Hr' & _ & _ & Ev & Eo).
  exists rec'. split_and!; congruence.
Qed.

Lemma unmergeable_stable st st' r : stable st st' -> unmergeable st r -> unmergeable st' r.
Proof.
  intros Hs (rec & Hr & Hm). destruct (Hs r rec Hr) as (rec' & Hr' & Et & Ek & _).
  exists rec'. split; [exact Hr'|]. unfold mergeable in *. now rewrite Et, Ek.
Qed.

Lemma tidy_stable st st' rs : stable st st' -> tidy st rs -> tidy st' rs.
Proof.
  intros Hs [Hf (first & tail & -> & Ht)]. split.
  - intros r Hr. apply (fine_stable st); [exact Hs | now apply Hf].
  - exists first, tail. split; [reflexivity|].
    intros r Hr. apply (unmergeable_stable st); [exact Hs | now apply Ht].
Qed.

Lemma tidy_nil st : tidy st [].
Proof.
  split; [intros r Hr; now apply elem_of_nil in Hr|].
  exists None, []. split; [reflexivity|]. intros r Hr. now apply elem_of_nil in Hr.
Qed.

Lemma alloc_rect_stable b st : stable st (Paint.alloc_rect b st).2.
Proof. intros r rec Hr. now exists rec. Qed.

(** A record built with neither [visible] nor [opacity] among its
    parameters. *)
Lemma construct_fine now type p k st :
  Paint.p_visible p = None -> Paint.p_opacity p = None ->
  stable st (Paint.construct now type p k st).2 /\
  exists rec,
    Paint.records (Paint.construct now type p k st).2 !!
      (Paint.construct now type p k st).1 = Some rec /\
    Paint.type rec = type /\ Paint.kind rec = k /\
    Paint.visible rec = true /\ Paint.opacity rec = JS.Fin 1.
Proof.
  intros Hv Ho. unfold Paint.construct.
  destruct (match Paint.p_bounds p with
            | Some b => (b, st)
            | None => Paint.alloc_rect (Rect.mk 0 0 0 0) st
            end) as [b st1] eqn:Hb.
  assert (Paint.records st1 = Paint.records st) as Hrec
    by (destruct (Paint.p_bounds p); injection Hb as <- <-; reflexivity).
  unfold Paint.alloc_record. cbn [fst snd Paint.records]. rewrite Hv, Ho. split.
  - intros r rec Hr. exists rec. split; [|now split_and!].
    cbn [Paint.records]. rewrite lookup_insert_ne; [now rewrite Hrec|].
    intros <-. rewrite <- Hrec in Hr.
    now rewrite (proj1 (not_elem_of_dom _ _) (is_fresh _)) in Hr.
  - eexists. split; [cbn [Paint.records]; apply lookup_insert_eq|]. now split_and!.
Qed.

Lemma fine_constructed st r rec :
  Paint.records st !! r = Some rec ->
  Paint.visible rec = true -> Paint.opacity rec = JS.Fin 1 -> fine st r.
Proof. intros Hr Hv Ho. exists rec. rewrite Ho. now split_and!. Qed.

Lemma unmergeable_constructed st r rec :
  Paint.records st !! r = Some rec -> Paint.type rec <> "rect" -> unmergeable st r.
Proof.
  intros Hr Ht. exists rec. split; [exact Hr|]. unfold mergeable.
  now rewrite (proj2 (String.eqb_neq _ _) Ht).
Qed.

(** The record at [r] is as its constructor left it, of class [ty]. *)
Definition made (st : Paint.Store) (r : loc) (ty : string) : Prop :=
  exists rec, Paint.records st !! r = Some rec /\ Paint.type rec = ty /\
              Paint.visible rec = true /\ Paint.opacity rec = JS.Fin 1.

Lemma made_stable st st' r ty : stable st st' -> made st r ty -> made st' r ty.
Proof.
  intros Hs (rec & Hr & Ht & Hv & Ho).
  destruct (Hs r rec Hr) as (rec' & Hr' & Et & _ & Ev & Eo).
  exists rec'. split_and!; congruence.
Qed.

Lemma made_fine st r ty : made st r ty -> fine st r.
Proof. intros (rec & Hr & _ & Hv & Ho). now apply (fine_constructed st r rec). Qed.

Lemma made_unmergeable st r ty : made st r ty -> ty <> "rect" -> unmergeable st r.
Proof.
  intros (rec & Hr & Ht & _) Hty. apply (unmergeable_constructed st r rec); congruence.
Qed.

Lemma construct_made now ty lid b k st :
  stable st (Paint.construct now ty (Paint.params lid b) k st).2 /\
  made (Paint.construct now ty (Paint.params lid b) k st).2
       (Paint.construct now ty (Paint.params lid b) k st).1 ty.
Proof.
  destruct (construct_fine now ty (Paint.params lid b) k st eq_refl eq_refl)
    as (Hs & rec & Hr & Ht & _ & Hv & Ho).
  split; [exact Hs|]. exists rec. now split_and!.
Qed.

(** What a creator of a single record gives: the store is stable, and the
    record, if there is one, is of class [ty]. *)
Definition creates (ty : string) (st : Paint.Store) (res : option loc * Paint.Store) : Prop :=
  stable st res.2 /\ forall r, res.1 = Some r -> made res.2 r ty.

Lemma creates_none ty st : creates ty st (None, st).
Proof. split; [apply stable_refl | discriminate]. Qed.

Lemma creates_construct now ty lid rect k st :
  creates ty st
    (let '(b, st1) := Paint.alloc_rect rect st in
     let '(r, st2) := Paint.construct now ty (Paint.params lid (Some b)) k st1 in
     (Some r, st2)).
Proof.
  destruct (Paint.alloc_rect rect st) as [b st1] eqn:Ea.
  pose proof (alloc_rect_stable rect st) as Hs0. rewrite Ea in Hs0. cbn [snd] in Hs0.
  destruct (construct_made now ty lid (Some b) k st1) as [Hs1 Hm].
  destruct (Paint.construct now ty (Paint.params lid (Some b)) k st1) as [r st2].
  split; cbn [fst snd] in *.
  - now apply (stable_trans st st1).
  - intros r' [= <-]. exact Hm.
Qed.

Lemma createBackgroundRecord_creates now node layer st :
  creates "rect" st (createBackgroundRecord now node layer st).
Proof.
  unfold createBackgroundRecord.
  destruct (_ || _); [apply creates_none|].
  apply creates_construct.
Qed.

Lemma createBorderRecord_creates now node layer st :
  creates "path" st (createBorderRecord now node layer st).
Proof.
  unfold createBorderRecord.
  destruct (Layout.boxModel node); [|apply creates_none].
  destruct (_ || _); [apply creates_none|].
  destruct (0 <? _); [|apply creates_none].
  apply creates_construct.
Qed.

Lemma createTextRecord_creates now node text layer st :
  creates "text" st (createTextRecord now node text layer st).
Proof.
  unfold createTextRecord.
  destruct (negb _); [apply creates_none|].
  apply creates_construct.
Qed.

Lemma createContentRecords_creates now node layer st :
  stable st (createContentRecords now node layer st).2 /\
  forall r, r ∈ (createContentRecords now node layer st).1 ->
            made (createContentRecords now node layer st).2 r "text".
Proof.
  unfold createContentRecords.
  assert (stable st st /\ forall r, r ∈ @nil loc -> made st r "text") as Hnil.
  { split; [apply stable_refl|]. intros r Hr. now apply elem_of_nil in Hr. }
  destruct (Layout.element node) as [el|]; [|exact Hnil].
  destruct (_ =? 3); [|exact Hnil].
  destruct (JS.trim_truthy _); [|exact Hnil].
  destruct (createTextRecord_creates now node (JS.or_string (Layout.data el) "") layer st)
    as [Hs Hm].
  destruct (createTextRecord now node _ layer st) as [[r|] st1]; cbn [fst snd] in *.
  - split; [exact Hs|]. intros r' Hr'. cbn in Hr'. apply list_elem_of_singleton in Hr'.
    subst r'. now apply Hm.
  - split; [exact Hs|]. intros r' Hr'. now apply elem_of_nil in Hr'.
Qed.

Lemma createShadowRecord_creates now node layer contentRecords st :
  creates "shadow" st (createShadowRecord now node layer contentRecords st).
Proof.
  unfold createShadowRecord.
  destruct (_ || _); [apply creates_none|].
  destruct contentRecords as [|first rest]; [apply creates_none|].
  unfold Paint.ShadowPaintRecord.
  match goal with
  | |- context [Paint.construct ?n ?ty (Paint.params ?lid ?b) ?k ?s] =>
      destruct (construct_made n ty lid b k s) as [Hs Hm];
      destruct (Paint.construct n ty (Paint.params lid b) k s) as [r st1]
  end.
  split; cbn [fst snd] in *; [exact Hs|]. intros r' [= <-]. exact Hm.
Qed.

(** The records of [rs] that are not shadow records. *)
Definition is_shadow (st : Paint.Store) (r : loc) : bool :=
  match Paint.records st !! r with
  | Some rec => String.eqb (Paint.type rec) "shadow"
  | None => false
  end.

Definition unshadowed (st : Paint.Store) (rs : list loc) : Z :=
  fold_right (fun r acc => (if is_shadow st r then 0 else 1) + acc) 0 rs.

Lemma made_is_shadow st r ty : made st r ty -> is_shadow st r = String.eqb ty "shadow".
Proof. intros (rec & Hr & Ht & _). unfold is_shadow. now rewrite Hr, Ht. Qed.

Lemma unshadowed_all st rs :
  (forall r, r ∈ rs -> is_shadow st r = false) -> unshadowed st rs = Z.of_nat (length rs).
Proof.
  induction rs as [|r rs IH]; intros H; [reflexivity|].
  cbn [unshadowed fold_right length]. fold (unshadowed st rs).
  rewrite (H r (list_elem_of_here _ _)), IH; [lia|].
  intros r' Hr'. apply H. now apply list_elem_of_further.
Qed.

Lemma unshadowed_stable st st' rs :
  stable st st' -> (forall r, r ∈ rs -> fine st r) -> unshadowed st' rs = unshadowed st rs.
Proof.
  intros Hs. induction rs as [|r rs IH]; intros H; [reflexivity|].
  cbn [unshadowed fold_right]. fold (unshadowed st rs) (unshadowed st' rs).
  rewrite IH by (intros r' Hr'; apply H; now apply list_elem_of_further).
  destruct (H r (list_elem_of_here _ _)) as (rec & Hr & _).
  destruct (Hs r rec Hr) as (rec' & Hr' & Et & _).
  unfold is_shadow. now rewrite Hr, Hr', Et.
Qed.

(** From [g] to [g'] the options are kept and the counters have grown by
    the given numbers. *)
Definition counts_from (g g' : t) (layers records culled : Z) : Prop :=
  enableOptimizations g' = enableOptimizations g /\
  mergeSimilarRecords g' = mergeSimilarRecords g /\
  cullInvisibleRecords g' = cullInvisibleRecords g /\
  totalLayers (stats g') = totalLayers (stats g) + layers /\
  generatedRecords (stats g') = generatedRecords (stats g) + records /\
  culledRecords (stats g') = culledRecords (stats g) + culled /\
  optimizedRecords (stats g') = optimizedRecords (stats g) /\
  generationTime (stats g') = generationTime (stats g).

Lemma counts_from_trans g1 g2 g3 a b c a' b' c' :
  counts_from g1 g2 a b c -> counts_from g2 g3 a' b' c' ->
  counts_from g1 g3 (a + a') (b + b') (c + c').
Proof.
  intros (H1 & H2 & H3 & H4 & H5 & H6 & H7 & H8) (K1 & K2 & K3 & K4 & K5 & K6 & K7 & K8).
  unfold counts_from. split_and!; try congruence; lia.
Qed.

Lemma createPaintRecordsForNode_tidy now node layer g st :
  stable st (createPaintRecordsForNode now node layer g st).2 /\
  tidy (createPaintRecordsForNode now node layer g st).2
       (createPaintRecordsForNode now node layer g st).1.1 /\
  counts_from g (createPaintRecordsForNode now node layer g st).1.2 0
    (unshadowed (createPaintRecordsForNode now node layer g st).2
           (createPaintRecordsForNode now node layer g st).1.1) 0.
Proof.
  unfold createPaintRecordsForNode, emitRecords.
  destruct (createBackgroundRecord_creates now node layer st) as [Hs1 Hm1].
  destruct (createBackgroundRecord now node layer st) as [bg st1]. cbn [fst snd] in Hs1, Hm1.
  destruct (createBorderRecord_creates now node layer st1) as [Hs2 Hm2].
  destruct (createBorderRecord now node layer st1) as [bd st2]. cbn [fst snd] in Hs2, Hm2.
  destruct (createContentRecords_creates now node layer st2) as [Hs3 Hm3].
  destruct (createContentRecords now node layer st2) as [content st3].
  cbn [fst snd] in Hs3, Hm3.
  set (records := option_list bg ++ option_list bd ++ content).
  destruct (createShadowRecord_creates now node layer records st3) as [Hs4 Hm4].
  destruct (createShadowRecord now node layer records st3) as [shadow st4].
  cbn [fst snd] in Hs4, Hm4.
  assert (stable st st4) as Hs
    by (apply (stable_trans st st3); [|exact Hs4]; apply (stable_trans st st2); [|exact Hs3];
        now apply (stable_trans st st1)).
  destruct shadow as [s|]; cbn [fst snd].
  - specialize (Hm4 s eq_refl). split_and!.
    + exact Hs.
    + split.
      * intros r Hr. apply list_elem_of_singleton in Hr. subst r.
        now apply (made_fine st4 s "shadow").
      * exists None, [s]. split; [reflexivity|]. intros r Hr.
        apply list_elem_of_singleton in Hr. subst r.
        now apply (made_unmergeable st4 s "shadow").
    + cbn [unshadowed fold_right]. rewrite (made_is_shadow st4 s "shadow" Hm4).
      unfold counts_from. split_and!; try reflexivity; cbn; lia.
  - assert (forall r, bg = Some r -> made st4 r "rect") as Hbg.
    { intros r Hr. apply (made_stable st1); [|now apply Hm1].
      apply (stable_trans st1 st3); [|exact Hs4]. now apply (stable_trans st1 st2). }
    assert (forall r, r ∈ option_list bd ++ content ->
                      exists ty, made st4 r ty /\ ty <> "rect" /\ ty <> "shadow") as Htail.
    { intros r Hr. apply elem_of_app in Hr as [Hr|Hr].
      - destruct bd as [b|]; [|now apply elem_of_nil in Hr].
        apply list_elem_of_singleton in Hr. subst r. exists "path". split_and!; try discriminate.
        apply (made_stable st2); [now apply (stable_trans st2 st3)|]. now apply Hm2.
      - exists "text". split_and!; try discriminate.
        apply (made_stable st3); [exact Hs4|]. now apply Hm3. }
    assert (forall r, r ∈ records -> exists ty, made st4 r ty /\ ty <> "shadow") as Hall.
    { intros r Hr. unfold records in Hr. apply elem_of_app in Hr as [Hr|Hr].
      - destruct bg as [b|]; [|now apply elem_of_nil in Hr].
        apply list_elem_of_singleton in Hr. subst r. exists "rect". split; [|discriminate].
        now apply Hbg.
      - destruct (Htail r Hr) as (ty & Hm & _ & Hty). now exists ty. }
    split_and!.
    + exact Hs.
    + split.
      * intros r Hr. destruct (Hall r Hr) as (ty & Hm & _). now apply (made_fine st4 r ty).
      * exists bg, (option_list bd ++ content). split; [reflexivity|].
        intros r Hr. destruct (Htail r Hr) as (ty & Hm & Hty & _).
        now apply (made_unmergeable st4 r ty).
    + rewrite unshadowed_all.
      * unfold counts_from. split_and!; try reflexivity; cbn; lia.
      * intros r Hr. destruct (Hall r Hr) as (ty & Hm & Hty).
        rewrite (made_is_shadow st4 r ty Hm). now apply String.eqb_neq.
Qed.

Lemma addPaintRecords_stable layer rs st : stable st (Paint.addPaintRecords layer rs st).2.
Proof.
  unfold Paint.addPaintRecords. cbn [snd].
  revert st. induction rs as [|r rs IH]; intros st; [apply stable_refl|].
  cbn [fold_left]. eapply stable_trans; [|apply IH].
  intros r0 rec Hr0. cbn [Paint.records].
  destruct (decide (r0 = r)) as [->|Hne].
  - rewrite lookup_alter_eq, Hr0. cbn. eexists. split; [reflexivity|]. now split_and!.
  - rewrite lookup_alter_ne by congruence. now exists rec.
Qed.

(** The layers of a tree whose layout node [isNodeVisible] rejects. *)
Definition hidden (layer : Layer.t) : Z :=
  match Layer.layoutNode layer with
  | Some node => if isNodeVisible node then 0 else 1
  | None => 0
  end.

Lemma generate_here_tidy now layer g st :
  Layer.paintRecords layer = [] ->
  stable st (generate_here now layer g st).2 /\
  tidy (generate_here now layer g st).2 (Layer.paintRecords (generate_here now layer g st).1.1) /\
  Layer.children (generate_here now layer g st).1.1 = Layer.children layer /\
  counts_from g (generate_here now layer g st).1.2 1
    (unshadowed (generate_here now layer g st).2
           (Layer.paintRecords (generate_here now layer g st).1.1))
    (hidden layer).
Proof.
  intros Hbare. unfold generate_here, hidden.
  set (g1 := with_stats g _).
  assert (counts_from g g1 1 0 0) as Hg1
    by (unfold counts_from; split_and!; try reflexivity; cbn; lia).
  destruct (Layer.layoutNode layer) as [node|].
  2:{ cbn [fst snd]. rewrite Hbare. split_and!;
        [apply stable_refl | apply tidy_nil | reflexivity | exact Hg1]. }
  destruct (isNodeVisible node).
  2:{ cbn [fst snd]. rewrite Hbare. split_and!;
        [apply stable_refl | apply tidy_nil | reflexivity |].
      unfold counts_from. split_and!; try reflexivity; cbn; lia. }
  destruct (createPaintRecordsForNode_tidy now node layer g1 st) as (Hs & Ht & Hc).
  destruct (createPaintRecordsForNode now node layer g1 st) as [[records g2] st1].
  cbn [fst snd] in Hs, Ht, Hc.
  pose proof (addPaintRecords_stable layer records st1) as Hs2.
  assert (Layer.paintRecords (Paint.addPaintRecords layer records st1).1 = records) as Hp
    by (unfold Paint.addPaintRecords; cbn; now rewrite Hbare).
  assert (Layer.children (Paint.addPaintRecords layer records st1).1 = Layer.children layer)
    as Hch by reflexivity.
  destruct (Paint.addPaintRecords layer records st1) as [l1 st2].
  cbn [fst snd] in *. subst records. split_and!.
  - now apply (stable_trans st st1).
  - now apply (tidy_stable st1).
  - exact Hch.
  - rewrite (unshadowed_stable st1 st2 _ Hs2 (proj1 Ht)).
    pose proof (counts_from_trans _ _ _ _ _ _ _ _ _ Hg1 Hc) as H.
    now rewrite Z.add_0_r in H.
Qed.

(** The loop of [generateForLayer] over the children of a layer. *)
Definition generate_children (now : Z)
    : list Layer.t -> t -> Paint.Store -> list Layer.t * t * Paint.Store :=
  fix children (cs : list Layer.t) (g : t) (st : Paint.Store) {struct cs}
      : list Layer.t * t * Paint.Store :=
    match cs with
    | [] => ([], g, st)
    | c :: cs' =>
        let '(c', g', st') := generateForLayer now c g st in
        let '(cs'', g'', st'') := children cs' g' st' in
        (c' :: cs'', g'', st'')
    end.

Lemma generateForLayer_eq now layer g st :
  generateForLayer now layer g st =
  let '(l1, g1, st1) := generate_here now layer g st in
  let '(cs, g2, st2) := generate_children now (Layer.children layer) g1 st1 in
  (Layer.set_children l1 cs, g2, st2).
Proof. destruct layer; reflexivity. Qed.

(** The loop of [traverseLayers] over the children of a layer, with the
    callback of [optimizePaintRecords]. *)
Definition optimize_children
    : list Layer.t -> t -> Paint.Store -> list Layer.t * t * Paint.Store * option exn :=
  fix children (cs : list Layer.t) (g : t) (st : Paint.Store) {struct cs}
      : list Layer.t * t * Paint.Store * option exn :=
    match cs with
    | [] => ([], g, st, None)
    | c :: cs' =>
        let '(c', g', st', e') := optimizePaintRecords c g st in
        match e' with
        | Some ex => (c' :: cs', g', st', Some ex)
        | None =>
            let '(cs'', g'', st'', e'') := children cs' g' st' in
            (c' :: cs'', g'', st'', e'')
        end
    end.

Lemma optimizePaintRecords_eq layer g st :
  optimizePaintRecords layer g st =
  let '(l1, g1, st1, e) := optimize_layer layer g st in
  match e with
  | Some ex => (l1, g1, st1, Some ex)
  | None =>
      let '(cs, g2, st2, e2) := optimize_children (Layer.children layer) g1 st1 in
      (Layer.set_children l1 cs, g2, st2, e2)
  end.
Proof. destruct layer; reflexivity. Qed.

(** No layer of the tree holds a paint record. *)
Fixpoint bare (layer : Layer.t) : Prop :=
  Layer.paintRecords layer = [] /\
  fold_right (fun c acc => bare c /\ acc) True (Layer.children layer).

Lemma bare_eq layer :
  bare layer <-> Layer.paintRecords layer = [] /\ Forall bare (Layer.children layer).
Proof.
  destruct layer as [i z o cm tr b cl mb pr nr dr f sc ic bs lp ln cr ab iv cs].
  cbn [bare Layer.paintRecords Layer.children].
  assert (fold_right (fun c acc => bare c /\ acc) True cs <-> Forall bare cs) as ->;
    [|reflexivity].
  induction cs as [|c cs IH]; cbn [fold_right].
  - split; [constructor | trivial].
  - rewrite Forall_cons, IH. reflexivity.
Qed.

(** The records of every layer of the tree are [tidy]. *)
Fixpoint tidy_tree (st : Paint.Store) (layer : Layer.t) : Prop :=
  tidy st (Layer.paintRecords layer) /\
  fold_right (fun c acc => tidy_tree st c /\ acc) True (Layer.children layer).

Lemma tidy_tree_eq st layer :
  tidy_tree st layer <->
  tidy st (Layer.paintRecords layer) /\ Forall (tidy_tree st) (Layer.children layer).
Proof.
  destruct layer as [i z o cm tr b cl mb pr nr dr f sc ic bs lp ln cr ab iv cs].
  cbn [tidy_tree Layer.paintRecords Layer.children].
  assert (fold_right (fun c acc => tidy_tree st c /\ acc) True cs <-> Forall (tidy_tree st) cs)
    as ->; [|reflexivity].
  induction cs as [|c cs IH]; cbn [fold_right].
  - split; [constructor | trivial].
  - rewrite Forall_cons, IH. reflexivity.
Qed.

Lemma tidy_tree_stable st st' layer :
  stable st st' -> tidy_tree st layer -> tidy_tree st' layer.
Proof.
  intros Hs. induction layer as [layer IH] using layer_ind.
  rewrite !tidy_tree_eq. intros [Ht Hc]. split; [now apply (tidy_stable st)|].
  induction IH as [|c cs Hc1 _ IHcs]; [constructor|].
  apply Forall_cons in Hc as [Hc2 Hc3]. constructor; [now apply Hc1 | now apply IHcs].
Qed.

(** Counts over the layers of a tree. *)
Fixpoint layers (layer : Layer.t) : Z := 1 + layers_sum layers (Layer.children layer).

Fixpoint hidden_layers (layer : Layer.t) : Z :=
  hidden layer + layers_sum hidden_layers (Layer.children layer).

Fixpoint unshadowed_records (st : Paint.Store) (layer : Layer.t) : Z :=
  unshadowed st (Layer.paintRecords layer) +
  layers_sum (unshadowed_records st) (Layer.children layer).

Lemma layers_eq layer : layers layer = 1 + layers_sum layers (Layer.children layer).
Proof. destruct layer; reflexivity. Qed.

Lemma hidden_layers_eq layer :
  hidden_layers layer = hidden layer + layers_sum hidden_layers (Layer.children layer).
Proof. destruct layer; reflexivity. Qed.

Lemma unshadowed_records_eq st layer :
  unshadowed_records st layer =
  unshadowed st (Layer.paintRecords layer) +
  layers_sum (unshadowed_records st) (Layer.children layer).
Proof. destruct layer; reflexivity. Qed.

Lemma unshadowed_records_stable st st' layer :
  stable st st' -> tidy_tree st layer ->
  unshadowed_records st' layer = unshadowed_records st layer.
Proof.
  intros Hs. induction layer as [layer IH] using layer_ind.
  rewrite tidy_tree_eq, !unshadowed_records_eq. intros [Ht Hc].
  rewrite (unshadowed_stable st st' _ Hs (proj1 Ht)). f_equal.
  induction IH as [|c cs Hc1 _ IHcs]; [reflexivity|].
  apply Forall_cons in Hc as [Hc2 Hc3]. cbn [layers_sum fold_right].
  fold (layers_sum (unshadowed_records st') cs) (layers_sum (unshadowed_records st) cs).
  now rewrite Hc1, IHcs.
Qed.

Lemma counts_from_refl g : counts_from g g 0 0 0.
Proof. unfold counts_from. split_and!; try reflexivity; lia. Qed.

(** [generateForLayer] on a tree without records. *)
Lemma generateForLayer_tidy now layer :
  forall g st, bare layer ->
    stable st (generateForLayer now layer g st).2 /\
    tidy_tree (generateForLayer now layer g st).2 (generateForLayer now layer g st).1.1 /\
    counts_from g (generateForLayer now layer g st).1.2 (layers layer)
      (unshadowed_records (generateForLayer now layer g st).2
                          (generateForLayer now layer g st).1.1)
      (hidden_layers layer).
Proof.
  induction layer as [layer IH] using layer_ind. intros g st Hbare.
  apply bare_eq in Hbare as [Hrec Hcs].
  rewrite generateForLayer_eq, layers_eq, hidden_layers_eq.
  destruct (generate_here_tidy now layer g st Hrec) as (Hs1 & Ht1 & Hch & Hc1).
  destruct (generate_here now layer g st) as [[l1 g1] st1]. cbn [fst snd] in Hs1, Ht1, Hch, Hc1.
  assert (stable st1 (generate_children now (Layer.children layer) g1 st1).2 /\
          Forall (tidy_tree (generate_children now (Layer.children layer) g1 st1).2)
                 (generate_children now (Layer.children layer) g1 st1).1.1 /\
          counts_from g1 (generate_children now (Layer.children layer) g1 st1).1.2
            (layers_sum layers (Layer.children layer))
            (layers_sum (unshadowed_records
                           (generate_children now (Layer.children layer) g1 st1).2)
                        (generate_children now (Layer.children layer) g1 st1).1.1)
            (layers_sum hidden_layers (Layer.children layer))) as (Hs2 & Ht2 & Hc2).
  { clear Hs1 Ht1 Hch Hc1 Hrec. revert g1 st1.
    induction IH as [|c cs Hc _ IHcs]; intros g1 st1.
    - cbn [generate_children fst snd layers_sum fold_right].
      split_and!; [apply stable_refl | constructor | apply counts_from_refl].
    - apply Forall_cons in Hcs as [Hb1 Hb2]. cbn [generate_children].
      destruct (Hc g1 st1 Hb1) as (Ha & Hb & Hd).
      destruct (generateForLayer now c g1 st1) as [[c' g'] st']. cbn [fst snd] in Ha, Hb, Hd.
      destruct (IHcs Hb2 g' st') as (Ha' & Hb' & Hd').
      destruct (generate_children now cs g' st') as [[cs'' g''] st''].
      cbn [fst snd] in Ha', Hb', Hd' |- *. split_and!.
      + now apply (stable_trans st1 st').
      + constructor; [now apply (tidy_tree_stable st') | exact Hb'].
      + cbn [layers_sum fold_right].
        fold (layers_sum layers cs) (layers_sum hidden_layers cs)
             (layers_sum (unshadowed_records st'') cs'').
        rewrite (unshadowed_records_stable st' st'' c' Ha' Hb).
        exact (counts_from_trans _ _ _ _ _ _ _ _ _ Hd Hd'). }
  destruct (generate_children now (Layer.children layer) g1 st1) as [[cs g2] st2].
  cbn [fst snd] in Hs2, Ht2, Hc2 |- *. split_and!.
  - now apply (stable_trans st st1).
  - apply tidy_tree_eq. split; [|exact Ht2].
    replace (Layer.paintRecords (Layer.set_children l1 cs)) with (Layer.paintRecords l1)
      by reflexivity.
    now apply (tidy_stable st1).
  - rewrite unshadowed_records_eq.
    replace (Layer.paintRecords (Layer.set_children l1 cs)) with (Layer.paintRecords l1)
      by reflexivity.
    replace (Layer.children (Layer.set_children l1 cs)) with cs by reflexivity.
    rewrite (unshadowed_stable st1 st2 _ Hs2 (proj1 Ht1)).
    exact (counts_from_trans _ _ _ _ _ _ _ _ _ Hc1 Hc2).
Qed.

(** *** The optimisation pass on the records of the generator *)

Lemma cull_filter_fine st rs :
  (forall r, r ∈ rs -> fine st r) -> cull_filter st rs = (rs, None).
Proof.
  induction rs as [|r rs IH]; intros H; [reflexivity|]. cbn [cull_filter].
  destruct (H r (list_elem_of_here _ _)) as (rec & Hr & Hv & Ho).
  rewrite Hr, IH by (intros r' Hr'; apply H; now apply list_elem_of_further).
  now rewrite Hv, Ho.
Qed.

Lemma merge_records_unmergeable st rs :
  (forall r, r ∈ rs -> unmergeable st r) ->
  forall mergedRecords currentRectRecord,
    merge_records rs mergedRecords currentRectRecord st =
    (mergedRecords ++ option_list currentRectRecord ++ rs, st, None).
Proof.
  induction rs as [|r rs IH]; intros H mergedRecords currentRectRecord;
    cbn [merge_records]; [now rewrite app_nil_r|].
  destruct (H r (list_elem_of_here _ _)) as (rec & Hr & Hm). rewrite Hr, Hm.
  rewrite IH by (intros r' Hr'; apply H; now apply list_elem_of_further).
  cbn [option_list app]. now rewrite <- !app_assoc.
Qed.

Lemma merge_records_tidy st rs :
  tidy st rs -> merge_records rs [] None st = (rs, st, None).
Proof.
  intros [Hfine (first & tail & -> & Htail)].
  destruct first as [r|].
  - change (option_list (Some r) ++ tail) with (r :: tail) in *.
    destruct (Hfine r (list_elem_of_here _ _)) as (rec & Hr & _).
    cbn [merge_records]. rewrite Hr.
    destruct (mergeable rec); now rewrite (merge_records_unmergeable st tail Htail).
  - change (option_list None ++ tail) with tail.
    now rewrite (merge_records_unmergeable st tail Htail).
Qed.

Lemma set_paintRecords_same layer : set_paintRecords layer (Layer.paintRecords layer) = layer.
Proof. now destruct layer. Qed.

Lemma set_children_same layer : Layer.set_children layer (Layer.children layer) = layer.
Proof. now destruct layer. Qed.

Lemma culled_none g n :
  with_stats g
    {| totalLayers := totalLayers (stats g);
       generatedRecords := generatedRecords (stats g);
       optimizedRecords := optimizedRecords (stats g);
       culledRecords := culledRecords (stats g) + (n - n);
       generationTime := generationTime (stats g) |} = g.
Proof.
  destruct g as [a b c [s1 s2 s3 s4 s5]]. unfold with_stats. cbn.
  now rewrite Z.sub_diag, Z.add_0_r.
Qed.

Lemma merged_none g n :
  with_stats g
    {| totalLayers := totalLayers (stats g);
       generatedRecords := generatedRecords (stats g);
       optimizedRecords := optimizedRecords (stats g) + (n - n);
       culledRecords := culledRecords (stats g);
       generationTime := generationTime (stats g) |} = g.
Proof.
  destruct g as [a b c [s1 s2 s3 s4 s5]]. unfold with_stats. cbn.
  now rewrite Z.sub_diag, Z.add_0_r.
Qed.

Lemma cullInvisibleRecordsInLayer_tidy layer g st :
  tidy st (Layer.paintRecords layer) ->
  cullInvisibleRecordsInLayer layer g st = (layer, g, None).
Proof.
  intros [Hfine _]. unfold cullInvisibleRecordsInLayer.
  rewrite (cull_filter_fine st _ Hfine), set_paintRecords_same, culled_none. reflexivity.
Qed.

Lemma mergeSimilarRecordsInLayer_tidy layer g st :
  tidy st (Layer.paintRecords layer) ->
  mergeSimilarRecordsInLayer layer g st = (layer, g, st, None).
Proof.
  intros Ht. unfold mergeSimilarRecordsInLayer.
  rewrite (merge_records_tidy st _ Ht), merged_none. now destruct layer.
Qed.

Lemma optimize_layer_tidy layer g st :
  tidy st (Layer.paintRecords layer) -> optimize_layer layer g st = (layer, g, st, None).
Proof.
  intros Ht. unfold optimize_layer.
  destruct (cullInvisibleRecords g);
    [rewrite (cullInvisibleRecordsInLayer_tidy layer g st Ht)|];
    (destruct (mergeSimilarRecords g);
       [now apply mergeSimilarRecordsInLayer_tidy | reflexivity]).
Qed.

Lemma optimizePaintRecords_tidy st layer :
  forall g, tidy_tree st layer -> optimizePaintRecords layer g st = (layer, g, st, None).
Proof.
  induction layer as [layer IH] using layer_ind. intros g Ht.
  apply tidy_tree_eq in Ht as [Ht Hcs].
  rewrite optimizePaintRecords_eq, (optimize_layer_tidy layer g st Ht).
  assert (optimize_children (Layer.children layer) g st = (Layer.children layer, g, st, None))
    as ->; [|now rewrite set_children_same].
  induction IH as [|c cs Hc _ IHcs]; [reflexivity|].
  apply Forall_cons in Hcs as [Hc1 Hc2]. cbn [optimize_children].
  rewrite (Hc g Hc1). fold optimize_children. now rewrite (IHcs Hc2).
Qed.

(** X27.  On a layer tree none of whose layers holds a paint record yet,
    [generate] returns without an exception, whatever the three options
    are: the optimisation pass finds every record visible and at most one
    fill rectangle per layer, so it removes and merges nothing, and the tree
    and the records are left as [generateForLayer] made them.  Afterwards
    [totalLayers] is the number of layers, [culledRecords] is the number of
    layers whose layout node is not visible, [generatedRecords] is the
    number of records in the tree that are not shadow records,
    [optimizedRecords] is 0 and [generationTime] is the time elapsed. *)
Theorem generate_removes_and_merges_nothing_on_a_fresh_tree
    (now0 now1 now : Z) (tree : LayerTree.t) (g : t) (st : Paint.Store) :
  bare (LayerTree.root tree) ->
  let generated := generateForLayer now (LayerTree.root tree) (resetStats g) st in
  exists tree' g',
    generate now0 now1 now (Some tree) g st = (Some tree', g', generated.2, None) /\
    LayerTree.root tree' = generated.1.1 /\
    tidy_tree generated.2 (LayerTree.root tree') /\
    totalLayers (stats g') = layers (LayerTree.root tree) /\
    culledRecords (stats g') = hidden_layers (LayerTree.root tree) /\
    generatedRecords (stats g') = unshadowed_records generated.2 (LayerTree.root tree') /\
    optimizedRecords (stats g') = 0 /\
    generationTime (stats g') = now1 - now0.
Proof.
  intros Hbare generated.
  destruct (generateForLayer_tidy now (LayerTree.root tree) (resetStats g) st Hbare)
    as (_ & Ht & Hc).
  fold generated in Ht, Hc. unfold generate. fold generated.
  destruct generated as [[root1 g1] st1]. cbn [fst snd] in Ht, Hc |- *.
  assert ((if enableOptimizations g1 then optimizePaintRecords root1 g1 st1
           else (root1, g1, st1, None)) = (root1, g1, st1, None)) as ->
    by (destruct (enableOptimizations g1);
          [now apply optimizePaintRecords_tidy | reflexivity]).
  destruct Hc as (_ & _ & _ & H1 & H2 & H3 & H4 & _).
  eexists _, _. split; [reflexivity|]. cbn in H1, H2, H3, H4 |- *.
  split_and!; first [reflexivity | exact Ht | lia].
Qed.

(** A block with a background colour, a border and a text payload. *)
Definition labelled_node : Layout.Node :=
  Layout.mkNode (<["background-color" := "#00ff00"]> ∅) (Rect.mk 0 0 200 100)
    (Some (Layout.Build_BoxModel (Layout.Build_BoxEdges 1 1 1 1)
             (Layout.Build_BoxEdges 0 0 0 0) (Layout.Build_BoxEdges 0 0 0 0)))
    (Some (Layout.Build_Element 3 None (Some "Hello")))
    [].

(** A root for [labelled_node] with two children: one for a node with a
    shadow and one for a node that is not visible. *)
Definition page_tree : LayerTree.t :=
  let named i :=
    Layer.new "" (Layer.Build_Options (Some i) None None None None None
                    None None None None None) in
  let root :=
    Layer.set_children (Layer.set_layoutNode (named "root") (Some labelled_node))
      [Layer.set_layoutNode (named "a") (Some shadowed_node);
       Layer.set_layoutNode (named "b") (Some fully_transparent_node)] in
  LayerTree.mk root ["root"; "a"; "b"] 1.

Lemma generate_removes_and_merges_nothing_on_a_fresh_tree_witness :
  let generated :=
    generateForLayer 1 (LayerTree.root page_tree) (resetStats default_generator)
      Paint.empty_store in
  exists tree' g',
    generate 0 5 1 (Some page_tree) default_generator Paint.empty_store =
      (Some tree', g', generated.2, None) /\
    LayerTree.root tree' = generated.1.1 /\
    tidy_tree generated.2 (LayerTree.root tree') /\
    totalLayers (stats g') = 3 /\
    culledRecords (stats g') = 1 /\
    generatedRecords (stats g') = 3 /\
    optimizedRecords (stats g') = 0 /\
    generationTime (stats g') = 5.
Proof.
  destruct (generate_removes_and_merges_nothing_on_a_fresh_tree 0 5 1 page_tree
              default_generator Paint.empty_store)
    as (tree' & g' & H1 & H2 & H3 & H4 & H5 & H6 & H7 & H8).
  { vm_compute. repeat split. }
  intros generated. exists tree', g'. rewrite H2 in H6.
  vm_compute in H4, H5, H6, H8. now split_and!.
Defined.

End Generator_pass.

(** ** TilingManager: the index of the tiles of a layer *)

Section Layer_tile_index.
Import TilingManager.

(** [layerTiles] lists, under the id of a layer, exactly the keys of the
    tiles of the map that were made for a layer of that id. *)
Record indexed (m : t) : Prop := {
  tiles_listed :
    forall key l, tiles m !! key = Some l ->
      exists tile keys,
        heap m !! l = Some tile /\ key_of tile = key /\
        layerTiles m !! Layer.id (Tile.layer tile) = Some keys /\ key ∈ keys;
  listed_resident :
    forall layerId keys key, layerTiles m !! layerId = Some keys -> key ∈ keys ->
      exists l tile,
        tiles m !! key = Some l /\ heap m !! l = Some tile /\
        Layer.id (Tile.layer tile) = layerId;
  listed_nonempty : forall layerId, layerTiles m !! layerId <> Some []
}.

Lemma indexed_new tileSize maxTiles maxMemoryUsage :
  indexed (new tileSize maxTiles maxMemoryUsage).
Proof.
  split; cbn.
  - intros key l Hk. now rewrite lookup_empty in Hk.
  - intros layerId keys key Hl. now rewrite lookup_empty in Hl.
  - intros layerId Hl. now rewrite lookup_empty in Hl.
Qed.

(** The index looks at the tile map, the key lists and the heap only. *)
Lemma indexed_ext m m' :
  tiles m' = tiles m -> layerTiles m' = layerTiles m -> heap m' = heap m ->
  indexed m -> indexed m'.
Proof.
  intros Et El Eh [H1 H2 H3]. split; rewrite ?Et, ?El, ?Eh; assumption.
Qed.

Lemma indexed_update_tile l f m :
  keeps_geometry f -> indexed m -> indexed (update_tile l f m).
Proof.
  intros Hf [H1 H2 H3]. split; cbn [update_tile tiles layerTiles heap]; [| |exact H3].
  - intros key l' Hk. destruct (H1 key l' Hk) as (tile & keys & Hl & Hkey & Hlt & Hin).
    destruct (decide (l' = l)) as [->|Hne].
    + exists (f tile), keys. rewrite lookup_alter_eq, Hl. cbn.
      destruct (Hf tile) as (_ & _ & _ & _ & Elayer & _).
      rewrite <- (same_geometry_key tile (f tile) (Hf tile)), <- Elayer. now split_and!.
    + exists tile, keys. rewrite lookup_alter_ne by congruence. now split_and!.
  - intros layerId keys key Hlt Hin.
    destruct (H2 layerId keys key Hlt Hin) as (l' & tile & Hk & Hl & Hid).
    destruct (decide (l' = l)) as [->|Hne].
    + exists l, (f tile). rewrite lookup_alter_eq, Hl. cbn.
      destruct (Hf tile) as (_ & _ & _ & _ & Elayer & _). rewrite <- Elayer. now split_and!.
    + exists l', tile. rewrite lookup_alter_ne by congruence. now split_and!.
Qed.

(** Two keys of the tile map name two tile objects. *)
Lemma indexed_inj m key key' l :
  indexed m -> tiles m !! key = Some l -> tiles m !! key' = Some l -> key = key'.
Proof.
  intros [H1 _ _] Hk Hk'.
  destruct (H1 key l Hk) as (tile & _ & Hl & Hkey & _).
  destruct (H1 key' l Hk') as (tile' & _ & Hl' & Hkey' & _). congruence.
Qed.

Lemma layerTiles_delete_lookup layerId key lt layerId' keys' key' :
  layerTiles_delete layerId key lt !! layerId' = Some keys' -> key' ∈ keys' ->
  exists keys, lt !! layerId' = Some keys /\ key' ∈ keys /\
               (layerId' = layerId -> key' <> key).
Proof.
  unfold layerTiles_delete. intros Hl Hin.
  destruct (lt !! layerId) as [keys|] eqn:Hlt.
  2:{ exists keys'. split_and!; [exact Hl | exact Hin|]. intros ->. congruence. }
  destruct (decide (layerId' = layerId)) as [->|Hne].
  - destruct (filter (fun k => k ≠ key) keys) as [|k ks] eqn:Hf.
    + now rewrite lookup_delete_eq in Hl.
    + rewrite lookup_insert_eq in Hl. injection Hl as <-. rewrite <- Hf in Hin.
      apply list_elem_of_filter in Hin as [Hne Hin]. exists keys. now split_and!.
  - exists keys'. split_and!; [|exact Hin | congruence].
    destruct (filter (fun k => k ≠ key) keys);
      [now rewrite lookup_delete_ne in Hl by congruence
      |now rewrite lookup_insert_ne in Hl by congruence].
Qed.

Lemma layerTiles_delete_keeps layerId key lt layerId' keys key' :
  lt !! layerId' = Some keys -> key' ∈ keys -> key' <> key ->
  exists keys', layerTiles_delete layerId key lt !! layerId' = Some keys' /\ key' ∈ keys'.
Proof.
  unfold layerTiles_delete. intros Hl Hin Hne.
  destruct (lt !! layerId) as [keys0|] eqn:Hlt; [|now exists keys].
  destruct (decide (layerId' = layerId)) as [->|Hid].
  - assert (keys0 = keys) as -> by congruence.
    assert (key' ∈ filter (fun k => k ≠ key) keys) as Hf
      by (apply list_elem_of_filter; now split).
    destruct (filter (fun k => k ≠ key) keys) as [|k ks] eqn:E;
      [now apply elem_of_nil in Hf|].
    exists (k :: ks). now rewrite lookup_insert_eq.
  - exists keys. split; [|exact Hin].
    destruct (filter (fun k => k ≠ key) keys0);
      [now rewrite lookup_delete_ne by congruence
      |now rewrite lookup_insert_ne by congruence].
Qed.

Lemma layerTiles_delete_nonempty layerId key lt :
  (forall layerId', lt !! layerId' <> Some []) ->
  forall layerId', layerTiles_delete layerId key lt !! layerId' <> Some [].
Proof.
  intros H layerId'. unfold layerTiles_delete.
  destruct (lt !! layerId) as [keys|]; [|apply H].
  destruct (filter (fun k => k ≠ key) keys) as [|k ks].
  - destruct (decide (layerId' = layerId)) as [->|Hne];
      [now rewrite lookup_delete_eq | rewrite lookup_delete_ne by congruence; apply H].
  - destruct (decide (layerId' = layerId)) as [->|Hne];
      [now rewrite lookup_insert_eq | rewrite lookup_insert_ne by congruence; apply H].
Qed.

Lemma layerTiles_add_nonempty layerId key lt :
  (forall layerId', lt !! layerId' <> Some []) ->
  forall layerId', layerTiles_add layerId key lt !! layerId' <> Some [].
Proof.
  intros H layerId'. unfold layerTiles_add.
  destruct (decide (layerId' = layerId)) as [->|Hne];
    [|rewrite lookup_insert_ne by congruence; apply H].
  rewrite lookup_insert_eq. intros [= E].
  destruct (decide (key ∈ default [] (lt !! layerId))) as [Hin|Hnot].
  - rewrite bool_decide_eq_true_2 in E by exact Hin. rewrite E in Hin.
    now apply elem_of_nil in Hin.
  - rewrite bool_decide_eq_false_2 in E by exact Hnot. now apply app_nil in E as [_ E].
Qed.

Lemma indexed_removeTile key m : indexed m -> indexed (removeTile key m).
Proof.
  intros Hm. pose proof Hm as [H1 H2 H3].
  destruct (tiles m !! key) as [l|] eqn:Hk; [|now rewrite removeTile_absent].
  destruct (H1 key l Hk) as (tile & keys & Hl & Hkey & Hlt & Hin).
  unfold removeTile. rewrite Hk, Hl. split; cbn [tiles layerTiles heap].
  - intros key' l' Hk'.
    destruct (decide (key' = key)) as [->|Hne]; [now rewrite lookup_delete_eq in Hk'|].
    rewrite lookup_delete_ne in Hk' by congruence.
    assert (l' <> l) as Hl'
      by (intros ->; apply Hne; now apply (indexed_inj m key' key l)).
    destruct (H1 key' l' Hk') as (tile' & keys' & Hh' & Hkey' & Hlt' & Hin').
    destruct (layerTiles_delete_keeps (Layer.id (Tile.layer tile)) key (layerTiles m)
                (Layer.id (Tile.layer tile')) keys' key' Hlt' Hin' Hne)
      as (keys'' & Hlt'' & Hin'').
    exists tile', keys''. rewrite lookup_insert_ne by congruence. now split_and!.
  - intros layerId keys' key' Hlt' Hin'.
    destruct (layerTiles_delete_lookup _ _ _ _ _ _ Hlt' Hin') as (keys0 & Hlt0 & Hin0 & Hne).
    destruct (H2 layerId keys0 key' Hlt0 Hin0) as (l' & tile' & Hk' & Hh' & Hid).
    assert (key' <> key) as Hkne.
    { intros ->. assert (l' = l) as -> by congruence.
      assert (tile' = tile) as -> by congruence. now apply Hne. }
    assert (l' <> l) as Hlne
      by (intros ->; apply Hkne; now apply (indexed_inj m key' key l)).
    exists l', tile'.
    rewrite lookup_delete_ne by congruence. rewrite lookup_insert_ne by congruence.
    now split_and!.
  - now apply layerTiles_delete_nonempty.
Qed.

Lemma indexed_removeTiles keys :
  forall m, indexed m -> indexed (fold_left (fun m0 key => removeTile key m0) keys m).
Proof.
  induction keys as [|key keys IH]; intros m Hm; cbn [fold_left]; [exact Hm|].
  now apply IH, indexed_removeTile.
Qed.

Lemma layerTiles_add_new layerId key lt :
  exists keys, layerTiles_add layerId key lt !! layerId = Some keys /\ key ∈ keys.
Proof.
  unfold layerTiles_add. eexists. split; [apply lookup_insert_eq|].
  destruct (decide (key ∈ default [] (lt !! layerId))) as [Hin|Hnot].
  - now rewrite bool_decide_eq_true_2.
  - rewrite bool_decide_eq_false_2 by exact Hnot.
    apply elem_of_app. right. apply list_elem_of_here.
Qed.

Lemma layerTiles_add_keeps layerId key lt layerId' keys key' :
  lt !! layerId' = Some keys -> key' ∈ keys ->
  exists keys', layerTiles_add layerId key lt !! layerId' = Some keys' /\ key' ∈ keys'.
Proof.
  intros Hl Hin. unfold layerTiles_add.
  destruct (decide (layerId' = layerId)) as [->|Hne].
  - eexists. split; [apply lookup_insert_eq|]. rewrite Hl. cbn [default from_option id].
    destruct (bool_decide (key ∈ keys)); [exact Hin|].
    apply elem_of_app. now left.
  - exists keys. now rewrite lookup_insert_ne by congruence.
Qed.

Lemma layerTiles_add_lookup layerId key lt layerId' keys' key' :
  layerTiles_add layerId key lt !! layerId' = Some keys' -> key' ∈ keys' ->
  (layerId' = layerId /\ key' = key) \/
  (exists keys, lt !! layerId' = Some keys /\ key' ∈ keys).
Proof.
  unfold layerTiles_add. intros Hl Hin.
  destruct (decide (layerId' = layerId)) as [->|Hne].
  - rewrite lookup_insert_eq in Hl. injection Hl as <-.
    destruct (lt !! layerId) as [keys|]; cbn [default from_option id] in Hin.
    + destruct (bool_decide (key ∈ keys)); [right; now exists keys|].
      apply elem_of_app in Hin as [Hin|Hin]; [right; now exists keys|].
      apply list_elem_of_singleton in Hin. now left.
    + destruct (bool_decide (key ∈ [])); [now apply elem_of_nil in Hin|].
      cbn in Hin. apply list_elem_of_singleton in Hin. now left.
  - rewrite lookup_insert_ne in Hl by congruence. right. now exists keys'.
Qed.

Lemma indexed_registered x y layer m :
  tiles m !! requested_key x y layer m = None -> indexed m ->
  indexed (registered x y layer m).
Proof.
  intros Hmiss [H1 H2 H3]. unfold registered.
  set (key := requested_key x y layer m) in *.
  set (l := fresh (dom (heap m))).
  assert (heap m !! l = None) as Hfresh by (apply not_elem_of_dom, is_fresh).
  split; cbn [tiles layerTiles heap].
  - intros key' l' Hk'. destruct (decide (key' = key)) as [->|Hne].
    + rewrite lookup_insert_eq in Hk'. injection Hk' as <-.
      destruct (layerTiles_add_new (Layer.id layer) key (layerTiles m)) as (keys & Hl & Hin).
      exists (created_tile x y layer m), keys. rewrite lookup_insert_eq.
      split_and!; [reflexivity | reflexivity | exact Hl | exact Hin].
    + rewrite lookup_insert_ne in Hk' by congruence.
      destruct (H1 key' l' Hk') as (tile' & keys' & Hh' & Hkey' & Hlt' & Hin').
      destruct (layerTiles_add_keeps (Layer.id layer) key (layerTiles m) _ _ _ Hlt' Hin')
        as (keys'' & Hlt'' & Hin'').
      exists tile', keys''. rewrite lookup_insert_ne by congruence. now split_and!.
  - intros layerId keys' key' Hlt' Hin'.
    destruct (layerTiles_add_lookup _ _ _ _ _ _ Hlt' Hin')
      as [[-> ->]|(keys & Hlt & Hin)].
    + exists l, (created_tile x y layer m). rewrite !lookup_insert_eq. now split_and!.
    + destruct (H2 layerId keys key' Hlt Hin) as (l' & tile' & Hk' & Hh' & Hid).
      exists l', tile'.
      rewrite lookup_insert_ne by congruence. rewrite lookup_insert_ne by congruence.
      now split_and!.
  - now apply layerTiles_add_nonempty.
Qed.

Lemma indexed_evict_oldest oldest m : indexed m -> indexed (evict_oldest oldest m).
Proof.
  intros Hm. unfold evict_oldest.
  assert (indexed (shift m)) as Hs by now apply (indexed_ext m).
  destruct (heap (shift m) !! oldest) as [tile|]; [|exact Hs].
  destruct (bool_decide _); [|exact Hs].
  apply (indexed_ext (removeTile (key_of tile) (shift m))); try reflexivity.
  now apply indexed_removeTile.
Qed.

Lemma indexed_enforce_loop fuel : forall m, indexed m -> indexed (enforce_loop fuel m).
Proof.
  induction fuel as [|fuel IH]; intros m Hm; cbn [enforce_loop]; [exact Hm|].
  destruct (_ <? _); [|exact Hm].
  destruct (tileAccessOrder m) as [|oldest rest]; [exact Hm|].
  now apply IH, indexed_evict_oldest.
Qed.

Lemma indexed_getOrCreateTile now x y layer m :
  indexed m -> indexed (getOrCreateTile now x y layer m).2.
Proof.
  intros Hm. destruct (tiles m !! requested_key x y layer m) as [l|] eqn:Hk.
  - unfold getOrCreateTile. fold (requested_key x y layer m). rewrite Hk. cbn [snd].
    apply (indexed_ext (update_tile l (Tile.access now) m)); try reflexivity.
    apply indexed_update_tile; [apply keeps_geometry_access | exact Hm].
  - rewrite (getOrCreateTile_miss now x y layer m Hk). cbn [snd].
    apply indexed_enforce_loop. now apply indexed_registered.
Qed.

Lemma indexed_generate_cell now layer viewport x y m :
  indexed m -> indexed (generate_cell now layer viewport x y m).2.
Proof.
  intros Hm. unfold generate_cell.
  pose proof (indexed_getOrCreateTile now x y layer m Hm) as Hm1.
  destruct (getOrCreateTile now x y layer m) as [l m1]; cbn [fst snd] in *.
  pose proof (keeps_geometry_calculatePriority viewport) as Hp.
  destruct (Layer.needsRepaint layer || _); cbn [snd].
  - apply indexed_update_tile; [apply keeps_geometry_markDirty|].
    now apply indexed_update_tile.
  - now apply indexed_update_tile.
Qed.

Lemma indexed_generate_cells now layer viewport cells :
  forall m, indexed m -> indexed (generate_cells now layer viewport cells m).2.
Proof.
  induction cells as [|[x y] cells IH]; intros m Hm; cbn [generate_cells]; [exact Hm|].
  pose proof (indexed_generate_cell now layer viewport x y m Hm) as Hm1.
  destruct (generate_cell now layer viewport x y m) as [l m1]; cbn [fst snd] in *.
  specialize (IH m1 Hm1).
  now destruct (generate_cells now layer viewport cells m1) as [ls m2].
Qed.

Lemma indexed_generateTilesForLayer now layer viewport m :
  indexed m -> indexed (generateTilesForLayer now layer viewport m).2.
Proof.
  intros Hm. unfold generateTilesForLayer.
  pose proof (indexed_generate_cells now layer viewport (grid layer (tileSize m)) m Hm) as Hm1.
  destruct (generate_cells now layer viewport _ m) as [ls m1]; cbn [fst snd] in *.
  unfold cleanupUnusedTiles.
  destruct (layerTiles m1 !! Layer.id layer) as [keys|]; [|exact Hm1].
  now apply indexed_removeTiles.
Qed.

Lemma indexed_generate_all calls :
  forall m, indexed m -> indexed (generate_all calls m).
Proof.
  induction calls as [|[[now layer] viewport] calls IH]; intros m Hm; [exact Hm|].
  cbn [generate_all fold_left fst snd]. apply IH.
  now apply indexed_generateTilesForLayer.
Qed.

Lemma markDirty_twice tile : Tile.markDirty (Tile.markDirty tile) = Tile.markDirty tile.
Proof. now destruct tile. Qed.

(** The loop of [markLayerTilesDirty] over the keys [keys]. *)
Lemma mark_keys keys :
  forall m, indexed m ->
    let m' :=
      fold_left
        (fun m0 key =>
           match tiles m0 !! key with
           | Some l => update_tile l Tile.markDirty m0
           | None => m0
           end) keys m in
    tiles m' = tiles m /\ layerTiles m' = layerTiles m /\
    tileAccessOrder m' = tileAccessOrder m /\ currentMemoryUsage m' = currentMemoryUsage m /\
    forall key l tile, tiles m !! key = Some l -> heap m !! l = Some tile ->
      heap m' !! l = Some (if bool_decide (key ∈ keys) then Tile.markDirty tile else tile).
Proof.
  induction keys as [|key0 keys IH]; intros m Hm; cbn [fold_left].
  - split_and!; try reflexivity. intros key l tile _ Hl.
    now rewrite bool_decide_eq_false_2 by apply not_elem_of_nil.
  - destruct (tiles m !! key0) as [l0|] eqn:Hk0.
    + destruct (IH (update_tile l0 Tile.markDirty m)) as (Et & El & Eo & Em & Hh);
        [apply indexed_update_tile; [apply keeps_geometry_markDirty | exact Hm]|].
      split_and!; [exact Et | exact El | exact Eo | exact Em|].
      intros key l tile Hk Hl. destruct (decide (key = key0)) as [->|Hne].
      * assert (l = l0) as -> by congruence.
        rewrite (Hh key0 l0 (Tile.markDirty tile) Hk0)
          by (cbn [update_tile heap]; now rewrite lookup_alter_eq, Hl).
        rewrite (bool_decide_eq_true_2 (key0 ∈ key0 :: keys)) by apply list_elem_of_here.
        now destruct (bool_decide (key0 ∈ keys)); rewrite ?markDirty_twice.
      * assert (l <> l0) as Hl0
          by (intros ->; apply Hne; now apply (indexed_inj m key key0 l0)).
        rewrite (Hh key l tile Hk)
          by (cbn [update_tile heap]; now rewrite lookup_alter_ne by congruence).
        rewrite (bool_decide_ext (key ∈ key0 :: keys) (key ∈ keys)); [reflexivity|].
        rewrite elem_of_cons. tauto.
    + destruct (IH m Hm) as (Et & El & Eo & Em & Hh).
      split_and!; [exact Et | exact El | exact Eo | exact Em|].
      intros key l tile Hk Hl. rewrite (Hh key l tile Hk Hl).
      rewrite (bool_decide_ext (key ∈ key0 :: keys) (key ∈ keys)); [reflexivity|].
      rewrite elem_of_cons. assert (key <> key0) by congruence. tauto.
Qed.


(** A manager that has tiled two layers. *)
Definition two_layer_manager : t :=
  generate_all [(0, layer_800x600, Rect.mk 0 0 800 600);
                (1, wide_layer, Rect.mk 0 0 800 600)]
    (new None None None).


Lemma two_layer_manager_indexed : indexed two_layer_manager.
Proof. apply indexed_generate_all, indexed_new. Qed.


(** X29.  [markLayerTilesDirty(layerId)] on a manager whose index is
    exact marks the tiles made for a layer of that id and no others: the
    tile map, the key lists, the access order and the tracked memory stay as
    they are, a tile of the layer is left as [markDirty()] leaves it, so that
    [shouldUpdateTile] accepts it for any layer, and a tile of another layer
    is left untouched. *)
Theorem markLayerTilesDirty_marks_exactly_the_tiles_of_the_layer
    (layerId : string) (m : t) :
  indexed m ->
  let m' := markLayerTilesDirty layerId m in
  tiles m' = tiles m /\ layerTiles m' = layerTiles m /\
  tileAccessOrder m' = tileAccessOrder m /\ currentMemoryUsage m' = currentMemoryUsage m /\
  (forall key l tile, tiles m !! key = Some l -> heap m !! l = Some tile ->
     heap m' !! l =
       Some (if bool_decide (Layer.id (Tile.layer tile) = layerId)
             then Tile.markDirty tile else tile)) /\
  (forall key l tile layer, tiles m' !! key = Some l -> heap m' !! l = Some tile ->
     Layer.id (Tile.layer tile) = layerId -> shouldUpdateTile tile layer = true).
Proof.
  intros Hi m'. subst m'. unfold markLayerTilesDirty.
  assert (forall m',
            tiles m' = tiles m ->
            (forall key l tile, tiles m !! key = Some l -> heap m !! l = Some tile ->
               heap m' !! l =
                 Some (if bool_decide (Layer.id (Tile.layer tile) = layerId)
                       then Tile.markDirty tile else tile)) ->
            forall key l tile layer, tiles m' !! key = Some l -> heap m' !! l = Some tile ->
              Layer.id (Tile.layer tile) = layerId -> shouldUpdateTile tile layer = true)
    as Hshould.
  { intros m' Et Hh key l tile layer Hk Hl Hid. rewrite Et in Hk.
    destruct (tiles_listed m Hi key l Hk) as (tile0 & _ & Hl0 & _).
    rewrite (Hh key l tile0 Hk Hl0) in Hl. injection Hl as <-.
    destruct (bool_decide (Layer.id (Tile.layer tile0) = layerId)) eqn:E;
      [reflexivity|].
    apply bool_decide_eq_false in E. contradiction. }
  destruct (layerTiles m !! layerId) as [keys|] eqn:Hkeys.
  - destruct (mark_keys keys m Hi) as (Et & El & Eo & Em & Hh).
    assert (forall key l tile, tiles m !! key = Some l -> heap m !! l = Some tile ->
              (key ∈ keys <-> Layer.id (Tile.layer tile) = layerId)) as Hlisted.
    { intros key l tile Hk Hl. split.
      - intros Hin. destruct (listed_resident m Hi layerId keys key Hkeys Hin)
          as (l' & tile' & Hk' & Hl' & Hid). congruence.
      - intros Hid. destruct (tiles_listed m Hi key l Hk) as (tile' & keys' & Hl' & _ & Hlt & Hin).
        assert (tile' = tile) as -> by congruence. rewrite Hid in Hlt. congruence. }
    assert (forall key l tile, tiles m !! key = Some l -> heap m !! l = Some tile ->
              heap (fold_left
                      (fun m0 key =>
                         match tiles m0 !! key with
                         | Some l => update_tile l Tile.markDirty m0
                         | None => m0
                         end) keys m) !! l =
                Some (if bool_decide (Layer.id (Tile.layer tile) = layerId)
                      then Tile.markDirty tile else tile)) as Hh'.
    { intros key l tile Hk Hl. rewrite (Hh key l tile Hk Hl).
      now rewrite (bool_decide_ext _ _ (Hlisted key l tile Hk Hl)). }
    split_and!; [exact Et | exact El | exact Eo | exact Em | exact Hh'|].
    now apply Hshould.
  - assert (forall key l tile, tiles m !! key = Some l -> heap m !! l = Some tile ->
              heap m !! l =
                Some (if bool_decide (Layer.id (Tile.layer tile) = layerId)
                      then Tile.markDirty tile else tile)) as Hh'.
    { intros key l tile Hk Hl. rewrite Hl.
      destruct (tiles_listed m Hi key l Hk) as (tile' & keys' & Hl' & _ & Hlt & _).
      assert (tile' = tile) as -> by congruence.
      rewrite bool_decide_eq_false_2; [reflexivity|]. intros Hid.
      rewrite Hid in Hlt. congruence. }
    split_and!; try reflexivity; [exact Hh'|]. now apply Hshould.
Qed.

Lemma markLayerTilesDirty_marks_exactly_the_tiles_of_the_layer_witness :
  let m' := markLayerTilesDirty "wide" two_layer_manager in
  tiles m' = tiles two_layer_manager /\
  (forall key l tile, tiles two_layer_manager !! key = Some l ->
     heap two_layer_manager !! l = Some tile ->
     heap m' !! l =
       Some (if bool_decide (Layer.id (Tile.layer tile) = "wide")
             then Tile.markDirty tile else tile)).
Proof.
  destruct (markLayerTilesDirty_marks_exactly_the_tiles_of_the_layer "wide"
              two_layer_manager two_layer_manager_indexed)
    as (Et & _ & _ & _ & Hh & _).
  split; [exact Et | exact Hh].
Defined.

End Layer_tile_index.
